(** * msticpy anomalous-sequence model: counting, probabilities, likelihoods

    A shallow embedding of
      msticpy/analysis/anomalous_sequence/utils/cmds_params_only.py
      msticpy/analysis/anomalous_sequence/utils/cmds_params_values.py
      msticpy/analysis/anomalous_sequence/utils/probabilities.py
    together with the properties stated about them.

    Conventions of the embedding:
    - a Python [dict] (and a [defaultdict]) is an insertion-ordered
      association list with string keys;
    - a Python [int] is a [Z]; a Python [float] is the rational [Q] that
      it stands for, with [NaN] a separate value;
    - the division [a / b] of the derivation stage is given twice: as the
      quotient itself in [Probabilities], and followed by a rounding in
      [FloatProbabilities], with the rounding to binary64 as the instance
      [fl64]; the products of the likelihoods are not rounded;
    - [x ** (1 / k)] is the section variable [root] of the likelihood
      sections: the properties below hold of every [root], except the one
      on the range of the likelihoods, which asks that it keeps the numbers
      between 0 and 1 there;
    - a Python exception is the [Raise] case of [result]. *)

From Stdlib Require Import List String ZArith QArith Qminmax Qabs Qround.
From Stdlib Require Import Lia Lqa Bool Arith.
Import ListNotations.

Close Scope Q_scope.
Set Implicit Arguments.

(** ** Exceptions and the error monad *)

Inductive exn : Type :=
| KeyError
| ZeroDivisionError
| AssertionError
| IndexError
| ValueError.

Inductive result (A : Type) : Type :=
| Ok (a : A)
| Raise (e : exn).

Arguments Ok {A} a.
Arguments Raise {A} e.

Definition bind {A B : Type} (c : result A) (k : A -> result B) : result B :=
  match c with
  | Ok a => k a
  | Raise e => Raise e
  end.

Notation "x <- c ;; k" := (bind c (fun x => k))
  (at level 61, c at next level, right associativity).
Notation "' pat <- c ;; k" := (bind c (fun x => match x with pat => k end))
  (at level 61, pat pattern, c at next level, right associativity).

(** [assert b] *)
Definition assert (b : bool) : result unit :=
  if b then Ok tt else Raise AssertionError.

(** [for x in l: acc = body(acc, x)] where the body may raise. *)
Fixpoint for_each {A S : Type} (l : list A) (body : S -> A -> result S) (acc : S)
  : result S :=
  match l with
  | [] => Ok acc
  | x :: l' => acc' <- body acc x ;; for_each l' body acc'
  end.

(** ** Dictionaries *)

Definition dict (V : Type) : Type := list (string * V).

Section Dict.
Context {V : Type}.

(** [d.get(k)] *)
Fixpoint get (k : string) (d : dict V) : option V :=
  match d with
  | [] => None
  | (k', v) :: d' => if String.eqb k k' then Some v else get k d'
  end.

(** [k in d] *)
Definition contains (k : string) (d : dict V) : bool :=
  match get k d with Some _ => true | None => false end.

Definition keys (d : dict V) : list string := map fst d.
Definition values (d : dict V) : list V := map snd d.

(** The entry under [k] becomes [f] of the old entry; a new key goes last,
    as in a Python dict. *)
Fixpoint upd (k : string) (f : option V -> V) (d : dict V) : dict V :=
  match d with
  | [] => [(k, f None)]
  | (k', v) :: d' =>
      if String.eqb k k' then (k', f (Some v)) :: d'
      else (k', v) :: upd k f d'
  end.

(** [d[k] = v] *)
Definition setitem (k : string) (v : V) (d : dict V) : dict V :=
  upd k (fun _ => v) d.
End Dict.

(** [defaultdict(lambda: 0)]: the count under [k], 0 when absent. *)
Definition count_of (o : option Z) : Z :=
  match o with Some n => n | None => 0%Z end.

(** [d[k] += 1] on a [defaultdict(lambda: 0)]. *)
Definition incr (k : string) (d : dict Z) : dict Z :=
  upd k (fun o => (count_of o + 1)%Z) d.

Definition row_of {V : Type} (o : option (dict V)) : dict V :=
  match o with Some r => r | None => [] end.

(** Reading [d[k]] on a [defaultdict(lambda: defaultdict(...))] creates the
    row when it is absent. *)
Definition touch {V : Type} (k : string) (d : dict (dict V)) : dict (dict V) :=
  upd k row_of d.

(** [d[k1][k2] += 1] on a two-level defaultdict. *)
Definition incr2 (k1 k2 : string) (d : dict (dict Z)) : dict (dict Z) :=
  upd k1 (fun o => incr k2 (row_of o)) d.

(** The count stored under [(k1, k2)], 0 when there is none. *)
Definition count2 (k1 k2 : string) (d : dict (dict Z)) : Z :=
  count_of (get k2 (row_of (get k1 d))).

(** ** Tables: a plain dict or a StateMatrix

    The likelihood and probability functions take [Union[StateMatrix, dict]]. *)

Inductive table (V : Type) : Type :=
| PlainDict (d : dict V)
| SM (states : dict V) (unk_token : string).

Definition items {V : Type} (t : table V) : dict V :=
  match t with
  | PlainDict d => d
  | SM d _ => d
  end.

Module DataStructures.

(** Modelled from the spec: the lookup operator of [StateMatrix], whose
    module utils/data_structures.py is not among the source files.  The
    exact key if present, else the value under the unknown token.  A plain
    dict raises [KeyError] on a missing key. *)
Definition getitem {V : Type} (t : table V) (k : string) : result V :=
  match t with
  | PlainDict d =>
      match get k d with
      | Some v => Ok v
      | None => Raise KeyError
      end
  | SM d u =>
      match get k d with
      | Some v => Ok v
      | None =>
          match get u d with
          | Some v => Ok v
          | None => Raise KeyError
          end
      end
  end.

(** Modelled from the spec: construction of a flat [StateMatrix].  It fails
    if the mapping is empty or the unknown token is missing. *)
Definition StateMatrix {V : Type} (states : dict V) (unk_token : string)
  : result (table V) :=
  _ <- assert (negb (Nat.eqb (List.length states) 0)) ;;
  _ <- assert (contains unk_token states) ;;
  Ok (SM states unk_token).

(** Modelled from the spec: construction of a two-level [StateMatrix].  It
    fails if the mapping is empty, or the unknown token is missing at the
    top level or in any second-level mapping; every second-level mapping
    obeys the same fallback rule. *)
Definition StateMatrix2 {V : Type} (states : dict (dict V)) (unk_token : string)
  : result (table (table V)) :=
  _ <- assert (negb (Nat.eqb (List.length states) 0)) ;;
  _ <- assert (contains unk_token states) ;;
  _ <- assert (forallb (fun kv => contains unk_token (snd kv)) states) ;;
  Ok (SM (map (fun kv => (fst kv, SM (snd kv) unk_token)) states) unk_token).

End DataStructures.
Import DataStructures.

(** ** Python floats and list helpers *)

Inductive pyfloat : Type :=
| Fl (q : Q)
| NaN.

(** [a < b] on floats; any comparison with NaN is false. *)
Definition py_lt (a b : pyfloat) : bool :=
  match a, b with
  | Fl x, Fl y => negb (Qle_bool y x)
  | _, _ => false
  end.

(** [a is b or a == b], the test of [list.index]; the NaN found by [min] is
    the object stored in the list, so it is identical to itself. *)
Definition py_same (a b : pyfloat) : bool :=
  match a, b with
  | Fl x, Fl y => Qeq_bool x y
  | NaN, NaN => true
  | _, _ => false
  end.

Fixpoint min_from (best : pyfloat) (l : list pyfloat) : pyfloat :=
  match l with
  | [] => best
  | x :: l' => min_from (if py_lt x best then x else best) l'
  end.

(** [min(l)]: the first of the smallest items. *)
Definition py_min (l : list pyfloat) : result pyfloat :=
  match l with
  | [] => Raise ValueError
  | x :: l' => Ok (min_from x l')
  end.

(** [l.index(v)] *)
Fixpoint py_list_index (l : list pyfloat) (v : pyfloat) : result nat :=
  match l with
  | [] => Raise ValueError
  | x :: l' =>
      if py_same x v then Ok 0
      else i <- py_list_index l' v ;; Ok (S i)
  end.

(** [a / b] on ints: true division. *)
Definition true_div (a b : Z) : result Q :=
  if (b =? 0)%Z then Raise ZeroDivisionError
  else Ok (inject_Z a / inject_Z b)%Q.

(** [l[i]] for an integer [i], negative indices counting from the end. *)
Definition py_nth {A : Type} (l : list A) (i : Z) : result A :=
  let n := Z.of_nat (List.length l) in
  let j := if (i <? 0)%Z then (i + n)%Z else i in
  if ((j <? 0) || (n <=? j))%Z then Raise IndexError
  else
    match nth_error l (Z.to_nat j) with
    | Some x => Ok x
    | None => Raise IndexError
    end.

(** [l[i : j]] for [0 <= i <= j]. *)
Definition slice {A : Type} (l : list A) (i j : nat) : list A :=
  firstn (j - i) (skipn i l).

(** ** cmds_params_only.py *)

Module CmdsParamsOnly.

(** [Cmd(name, params)]: the params are a set of strings, listed once each. *)
Record Cmd : Type := mkCmd { name : string; params : list string }.

(** The four defaultdicts of [compute_counts]. *)
Record counts : Type := mkCounts {
  seq1_counts : dict Z;
  seq2_counts : dict (dict Z);
  param_counts : dict Z;
  cmd_param_counts : dict (dict Z)
}.

Definition no_counts : counts := mkCounts [] [] [] [].

(** Body of [for p in cmd.params]. *)
Definition count_param (cmd_name : string) (c : counts) (p : string) : counts :=
  mkCounts (seq1_counts c) (seq2_counts c)
           (incr p (param_counts c))
           (incr2 cmd_name p (cmd_param_counts c)).

(** Body of [for cmd in session]; the state carries [prev]. *)
Definition count_cmd (st : string * counts) (cmd : Cmd) : string * counts :=
  let '(prev, c) := st in
  let c1 := mkCounts (incr (name cmd) (seq1_counts c))
                     (incr2 prev (name cmd) (seq2_counts c))
                     (param_counts c) (cmd_param_counts c) in
  (name cmd, fold_left (count_param (name cmd)) (params cmd) c1).

(** Body of [for session in sessions]. *)
Definition count_session (start_token end_token : string)
    (c : counts) (session : list Cmd) : counts :=
  let c0 := mkCounts (incr start_token (seq1_counts c)) (seq2_counts c)
                     (param_counts c) (cmd_param_counts c) in
  let '(prev, c1) := fold_left count_cmd session (start_token, c0) in
  mkCounts (incr end_token (seq1_counts c1))
           (incr2 prev end_token (seq2_counts c1))
           (param_counts c1) (cmd_param_counts c1).

Definition counting_pass (sessions : list (list Cmd))
    (start_token end_token : string) : counts :=
  fold_left (count_session start_token end_token) sessions no_counts.

(** [cmds = list(seq1_counts.keys()) + [unk_token]] *)
Definition cmds_vocab (sessions : list (list Cmd))
    (start_token end_token unk_token : string) : list string :=
  keys (seq1_counts (counting_pass sessions start_token end_token))
    ++ [unk_token].

(** Body of [for cmd2 in cmds] in the smoothing of the commands. *)
Definition smooth_cmd_pair (start_token end_token cmd1 : string)
    (c : counts) (cmd2 : string) : counts :=
  if negb (String.eqb cmd1 end_token) && negb (String.eqb cmd2 start_token)
  then mkCounts (incr cmd2 (incr cmd1 (seq1_counts c)))
                (incr2 cmd1 cmd2 (seq2_counts c))
                (param_counts c) (cmd_param_counts c)
  else c.

Definition smooth_cmds (start_token end_token : string) (cmds : list string)
    (c : counts) : counts :=
  fold_left
    (fun c cmd1 => fold_left (smooth_cmd_pair start_token end_token cmd1) cmds c)
    cmds c.

(** Body of [for param in params] in the smoothing of the params; reading
    [cmd_param_counts[cmd]] creates the row. *)
Definition smooth_param (unk_token cmd : string) (c : counts) (param : string)
  : counts :=
  let cpc := touch cmd (cmd_param_counts c) in
  if contains param (row_of (get cmd cpc)) || String.eqb param unk_token
  then mkCounts (seq1_counts c) (seq2_counts c)
                (incr param (param_counts c))
                (incr2 cmd param cpc)
  else mkCounts (seq1_counts c) (seq2_counts c) (param_counts c) cpc.

Definition smooth_params (unk_token : string) (cmds prms : list string)
    (c : counts) : counts :=
  fold_left
    (fun c cmd => fold_left (smooth_param unk_token cmd) prms c)
    cmds c.

(** The defaultdicts at the end of [compute_counts], before they are wrapped. *)
Definition smoothed_counts (sessions : list (list Cmd))
    (start_token end_token unk_token : string) : counts :=
  let c := counting_pass sessions start_token end_token in
  let cmds := keys (seq1_counts c) ++ [unk_token] in
  let c := smooth_cmds start_token end_token cmds c in
  let prms := keys (param_counts c) ++ [unk_token] in
  smooth_params unk_token cmds prms c.

Definition compute_counts (sessions : list (list Cmd))
    (start_token end_token unk_token : string)
  : result (table Z * table (table Z) * table Z * table (table Z)) :=
  let c := smoothed_counts sessions start_token end_token unk_token in
  seq1 <- StateMatrix (seq1_counts c) unk_token ;;
  seq2 <- StateMatrix2 (seq2_counts c) unk_token ;;
  prm <- StateMatrix (param_counts c) unk_token ;;
  cmd_prm <- StateMatrix2 (cmd_param_counts c) unk_token ;;
  Ok (seq1, seq2, prm, cmd_prm).

(** *** Likelihoods *)

Section Likelihood.

(** [root x k] stands for the float power [x ** (1 / k)], [k >= 1]. *)
Variable root : Q -> positive -> Q.

(** [x ** (1 / k)]: the division raises when [k] is 0. *)
Definition pow_inv (x : Q) (k : nat) : result Q :=
  match k with
  | O => Raise ZeroDivisionError
  | S _ => Ok (root x (Pos.of_nat k))
  end.

(** The loop over [ref.items()]. *)
Definition bernoulli (prms : list string) (ref : dict Q) : Q :=
  fold_left
    (fun prob kv =>
       if existsb (String.eqb (fst kv)) prms
       then (prob * snd kv)%Q
       else (prob * (1 - snd kv))%Q)
    ref 1%Q.

Definition compute_prob_setofparams_given_cmd (cmd : string)
    (prms : list string) (param_cond_cmd_probs : table (table Q))
    (use_geo_mean : bool) : result Q :=
  if Nat.eqb (List.length prms) 0 then Ok 1%Q
  else
    ref <- getitem param_cond_cmd_probs cmd ;;
    let prob := bernoulli prms (items ref) in
    if use_geo_mean then pow_inv prob (List.length (items ref))
    else Ok prob.

(** Body of [for i, cmdparam in enumerate(window[1:])]; the state is
    [(prob, cur_cmd)]. *)
Definition window_step (window : list Cmd)
    (trans_probs param_cond_cmd_probs : table (table Q))
    (st : Q * string) (i : nat) : result (Q * string) :=
  prev <- py_nth window (Z.of_nat i - 1) ;;
  cur <- py_nth window (Z.of_nat i) ;;
  row <- getitem trans_probs (name prev) ;;
  t <- getitem row (name cur) ;;
  param_cond_prob <-
    compute_prob_setofparams_given_cmd (name cur) (params cur)
      param_cond_cmd_probs true ;;
  Ok ((fst st * t * param_cond_prob)%Q, name cur).

Definition compute_likelihood_window (window : list Cmd)
    (prior_probs : table Q)
    (trans_probs param_cond_cmd_probs : table (table Q))
    (use_start_token use_end_token : bool)
    (start_token end_token : option string) : result pyfloat :=
  _ <- assert (implb use_start_token
                 (match start_token with Some _ => true | None => false end)) ;;
  _ <- assert (implb use_end_token
                 (match end_token with Some _ => true | None => false end)) ;;
  match window with
  | [] => Ok NaN
  | w0 :: rest =>
      param_cond_prob <-
        compute_prob_setofparams_given_cmd (name w0) (params w0)
          param_cond_cmd_probs true ;;
      prob <-
        (match use_start_token, start_token with
         | true, Some s =>
             row <- getitem trans_probs s ;;
             t <- getitem row (name w0) ;;
             Ok (1 * (t * param_cond_prob))%Q
         | true, None => Raise AssertionError
         | false, _ =>
             p <- getitem prior_probs (name w0) ;;
             Ok (1 * (p * param_cond_prob))%Q
         end) ;;
      st <- for_each (seq 0 (List.length rest))
              (window_step window trans_probs param_cond_cmd_probs)
              (prob, name w0) ;;
      match use_end_token, end_token with
      | true, Some e =>
          row <- getitem trans_probs (snd st) ;;
          t <- getitem row e ;;
          Ok (Fl (fst st * t)%Q)
      | true, None => Raise AssertionError
      | false, _ => Ok (Fl (fst st))
      end
  end.

(** [lik ** (1 / k)] on a likelihood, which may be NaN. *)
Definition lik_pow_inv (lik : pyfloat) (k : nat) : result pyfloat :=
  match k with
  | O => Raise ZeroDivisionError
  | S _ =>
      Ok (match lik with
          | Fl q => Fl (root q (Pos.of_nat k))
          | NaN => NaN
          end)
  end.

Definition compute_likelihood_windows_in_session (session : list Cmd)
    (prior_probs : table Q)
    (trans_probs param_cond_cmd_probs : table (table Q))
    (window_len : nat) (use_start_end_tokens : bool)
    (start_token end_token : option string) (use_geo_mean : bool)
  : result (list pyfloat) :=
  sess <-
    (if use_start_end_tokens then
       match start_token, end_token with
       | Some _, Some e => Ok (session ++ [mkCmd e []])
       | _, _ => Raise AssertionError
       end
     else Ok session) ;;
  for_each (seq 0 (S (List.length sess) - window_len))
    (fun likelihoods i =>
       let window := slice sess i (i + window_len) in
       let use_start := if Nat.eqb i 0 then use_start_end_tokens else false in
       lik <- compute_likelihood_window window prior_probs trans_probs
                param_cond_cmd_probs use_start false start_token end_token ;;
       lik <- (if use_geo_mean then lik_pow_inv lik window_len else Ok lik) ;;
       Ok (likelihoods ++ [lik]))
    [].

Definition rarest_window_session (session : list Cmd)
    (prior_probs : table Q)
    (trans_probs param_cond_cmd_probs : table (table Q))
    (window_len : nat) (use_start_end_tokens : bool)
    (start_token end_token : string) (use_geo_mean : bool)
  : result (list Cmd * pyfloat) :=
  likelihoods <-
    compute_likelihood_windows_in_session session prior_probs trans_probs
      param_cond_cmd_probs window_len use_start_end_tokens
      (Some start_token) (Some end_token) use_geo_mean ;;
  if Nat.eqb (List.length likelihoods) 0 then Ok ([], NaN)
  else
    min_lik <- py_min likelihoods ;;
    ind <- py_list_index likelihoods min_lik ;;
    Ok (slice session ind (ind + window_len), min_lik).

(** The window likelihood as the specification words it, start and end tokens
    disabled: the prior of the first command times its parameter-set
    likelihood, then, for each later command, the transition probability from
    the command before it times its own parameter-set likelihood. *)
Fixpoint spec_window_tail (prev : Cmd) (rest : list Cmd)
    (trans_probs param_cond_cmd_probs : table (table Q)) (prob : Q)
  : result Q :=
  match rest with
  | [] => Ok prob
  | cur :: rest' =>
      row <- getitem trans_probs (name prev) ;;
      t <- getitem row (name cur) ;;
      param_cond_prob <-
        compute_prob_setofparams_given_cmd (name cur) (params cur)
          param_cond_cmd_probs true ;;
      spec_window_tail cur rest' trans_probs param_cond_cmd_probs
        (prob * t * param_cond_prob)%Q
  end.

Definition spec_likelihood_window (window : list Cmd) (prior_probs : table Q)
    (trans_probs param_cond_cmd_probs : table (table Q)) : result pyfloat :=
  match window with
  | [] => Ok NaN
  | w0 :: rest =>
      param_cond_prob <-
        compute_prob_setofparams_given_cmd (name w0) (params w0)
          param_cond_cmd_probs true ;;
      p <- getitem prior_probs (name w0) ;;
      q <- spec_window_tail w0 rest trans_probs param_cond_cmd_probs
             (1 * (p * param_cond_prob))%Q ;;
      Ok (Fl q)
  end.

End Likelihood.

End CmdsParamsOnly.

(** ** cmds_params_values.py *)

Module CmdsParamsValues.

(** [Cmd(name, params)]: the params are a dict from param to value. *)
Record Cmd : Type := mkCmd { name : string; params : dict string }.

(** The six defaultdicts of [compute_counts]. *)
Record counts : Type := mkCounts {
  seq1_counts : dict Z;
  seq2_counts : dict (dict Z);
  param_counts : dict Z;
  cmd_param_counts : dict (dict Z);
  value_counts : dict Z;
  param_value_counts : dict (dict Z)
}.

Definition no_counts : counts := mkCounts [] [] [] [] [] [].

(** Body of [for p, v in cmd.params.items()]. *)
Definition count_param (cmd_name : string) (c : counts) (pv : string * string)
  : counts :=
  mkCounts (seq1_counts c) (seq2_counts c)
           (incr (fst pv) (param_counts c))
           (incr2 cmd_name (fst pv) (cmd_param_counts c))
           (incr (snd pv) (value_counts c))
           (incr2 (fst pv) (snd pv) (param_value_counts c)).

(** Body of [for cmd in session]; the state carries [prev]. *)
Definition count_cmd (st : string * counts) (cmd : Cmd) : string * counts :=
  let '(prev, c) := st in
  let c1 := mkCounts (incr (name cmd) (seq1_counts c))
                     (incr2 prev (name cmd) (seq2_counts c))
                     (param_counts c) (cmd_param_counts c)
                     (value_counts c) (param_value_counts c) in
  (name cmd, fold_left (count_param (name cmd)) (params cmd) c1).

(** Body of [for session in sessions]. *)
Definition count_session (start_token end_token : string)
    (c : counts) (session : list Cmd) : counts :=
  let c0 := mkCounts (incr start_token (seq1_counts c)) (seq2_counts c)
                     (param_counts c) (cmd_param_counts c)
                     (value_counts c) (param_value_counts c) in
  let '(prev, c1) := fold_left count_cmd session (start_token, c0) in
  mkCounts (incr end_token (seq1_counts c1))
           (incr2 prev end_token (seq2_counts c1))
           (param_counts c1) (cmd_param_counts c1)
           (value_counts c1) (param_value_counts c1).

Definition counting_pass (sessions : list (list Cmd))
    (start_token end_token : string) : counts :=
  fold_left (count_session start_token end_token) sessions no_counts.

(** [cmds = list(seq1_counts.keys()) + [unk_token]] *)
Definition cmds_vocab (sessions : list (list Cmd))
    (start_token end_token unk_token : string) : list string :=
  keys (seq1_counts (counting_pass sessions start_token end_token))
    ++ [unk_token].

(** Body of [for cmd2 in cmds] in the smoothing of the commands. *)
Definition smooth_cmd_pair (start_token end_token cmd1 : string)
    (c : counts) (cmd2 : string) : counts :=
  if negb (String.eqb cmd1 end_token) && negb (String.eqb cmd2 start_token)
  then mkCounts (incr cmd2 (incr cmd1 (seq1_counts c)))
                (incr2 cmd1 cmd2 (seq2_counts c))
                (param_counts c) (cmd_param_counts c)
                (value_counts c) (param_value_counts c)
  else c.

Definition smooth_cmds (start_token end_token : string) (cmds : list string)
    (c : counts) : counts :=
  fold_left
    (fun c cmd1 => fold_left (smooth_cmd_pair start_token end_token cmd1) cmds c)
    cmds c.

(** Body of [for param in params] in the smoothing of the params. *)
Definition smooth_param (unk_token cmd : string) (c : counts) (param : string)
  : counts :=
  let cpc := touch cmd (cmd_param_counts c) in
  if contains param (row_of (get cmd cpc)) || String.eqb param unk_token
  then mkCounts (seq1_counts c) (seq2_counts c)
                (incr param (param_counts c))
                (incr2 cmd param cpc)
                (value_counts c) (param_value_counts c)
  else mkCounts (seq1_counts c) (seq2_counts c) (param_counts c) cpc
                (value_counts c) (param_value_counts c).

Definition smooth_params (unk_token : string) (cmds prms : list string)
    (c : counts) : counts :=
  fold_left
    (fun c cmd => fold_left (smooth_param unk_token cmd) prms c)
    cmds c.

(** Body of [for value in values] in the smoothing of the values. *)
Definition smooth_value (unk_token param : string) (c : counts) (value : string)
  : counts :=
  let pvc := touch param (param_value_counts c) in
  if contains value (row_of (get param pvc)) || String.eqb value unk_token
  then mkCounts (seq1_counts c) (seq2_counts c)
                (param_counts c) (cmd_param_counts c)
                (incr value (value_counts c))
                (incr2 param value pvc)
  else mkCounts (seq1_counts c) (seq2_counts c)
                (param_counts c) (cmd_param_counts c)
                (value_counts c) pvc.

Definition smooth_values (unk_token : string) (prms vals : list string)
    (c : counts) : counts :=
  fold_left
    (fun c param => fold_left (smooth_value unk_token param) vals c)
    prms c.

(** The defaultdicts at the end of [compute_counts], before they are wrapped. *)
Definition smoothed_counts (sessions : list (list Cmd))
    (start_token end_token unk_token : string) : counts :=
  let c := counting_pass sessions start_token end_token in
  let cmds := keys (seq1_counts c) ++ [unk_token] in
  let c := smooth_cmds start_token end_token cmds c in
  let prms := keys (param_counts c) ++ [unk_token] in
  let c := smooth_params unk_token cmds prms c in
  let vals := keys (value_counts c) ++ [unk_token] in
  smooth_values unk_token prms vals c.

Definition compute_counts (sessions : list (list Cmd))
    (start_token end_token unk_token : string)
  : result (table Z * table (table Z) * table Z * table (table Z)
            * table Z * table (table Z)) :=
  let c := smoothed_counts sessions start_token end_token unk_token in
  seq1 <- StateMatrix (seq1_counts c) unk_token ;;
  seq2 <- StateMatrix2 (seq2_counts c) unk_token ;;
  prm <- StateMatrix (param_counts c) unk_token ;;
  cmd_prm <- StateMatrix2 (cmd_param_counts c) unk_token ;;
  val <- StateMatrix (value_counts c) unk_token ;;
  prm_val <- StateMatrix2 (param_value_counts c) unk_token ;;
  Ok (seq1, seq2, prm, cmd_prm, val, prm_val).

(** One tuple of [param_stats]. *)
Definition param_stat (param_counts : table Z) (kv : string * table Z)
  : result (string * Z * Z * Q) :=
  let d := Z.of_nat (List.length (items (snd kv))) in
  n <- getitem param_counts (fst kv) ;;
  n' <- getitem param_counts (fst kv) ;;
  r <- true_div (100 * d) n' ;;
  Ok (fst kv, d, n, r).

Definition is_modellable (st : string * Z * Z * Q) : bool :=
  let '(_, d, n, r) := st in
  ((d <=? 20)%Z && (20 <=? n)%Z && Qle_bool r (10 # 1))%bool.

(** The returned set is given as the list of its members. *)
Definition get_params_to_model_values (param_counts : table Z)
    (param_value_counts : table (table Z)) : result (list string) :=
  param_stats <-
    for_each (items param_value_counts)
      (fun acc kv => st <- param_stat param_counts kv ;; Ok (acc ++ [st])) [] ;;
  Ok (map (fun st => fst (fst (fst st))) (filter is_modellable param_stats)).

(** *** Likelihoods *)

Section Likelihood.

(** [root x k] stands for the float power [x ** (1 / k)], [k >= 1]. *)
Variable root : Q -> positive -> Q.

(** Body of [for param, p1 in ref_cmd.items()]; the state is [(prob, num)]. *)
Definition param_step (params_with_vals : dict string)
    (value_cond_param_probs : table (table Q))
    (modellable_params : list string)
    (st : Q * nat) (kv : string * Q) : result (Q * nat) :=
  let '(prob, num) := st in
  if contains (fst kv) params_with_vals then
    let prob := (prob * snd kv)%Q in
    if existsb (String.eqb (fst kv)) modellable_params then
      match get (fst kv) params_with_vals with
      | Some v =>
          row <- getitem value_cond_param_probs (fst kv) ;;
          pv <- getitem row v ;;
          Ok ((prob * pv)%Q, S num)
      | None => Raise KeyError
      end
    else Ok (prob, num)
  else Ok ((prob * (1 - snd kv))%Q, num).

Definition compute_prob_setofparams_given_cmd (cmd : string)
    (params_with_vals : dict string)
    (param_cond_cmd_probs value_cond_param_probs : table (table Q))
    (modellable_params : list string) (use_geo_mean : bool) : result Q :=
  if Nat.eqb (List.length params_with_vals) 0 then Ok 1%Q
  else
    ref_cmd <- getitem param_cond_cmd_probs cmd ;;
    st <- for_each (items ref_cmd)
            (param_step params_with_vals value_cond_param_probs
               modellable_params)
            (1%Q, 0) ;;
    if use_geo_mean then
      let k := List.length (items ref_cmd) + snd st in
      if Nat.ltb 0 k then Ok (root (fst st) (Pos.of_nat k))
      else Ok (fst st)
    else Ok (fst st).

(** Body of [for i, cmdparam in enumerate(window[1:])]; the state is
    [(prob, cur_cmd)]. *)
Definition window_step (window : list Cmd)
    (trans_probs param_cond_cmd_probs value_cond_param_probs
       : table (table Q))
    (modellable_params : list string)
    (st : Q * string) (i : nat) : result (Q * string) :=
  prev <- py_nth window (Z.of_nat i - 1) ;;
  cur <- py_nth window (Z.of_nat i) ;;
  row <- getitem trans_probs (name prev) ;;
  t <- getitem row (name cur) ;;
  param_vals_prob <-
    compute_prob_setofparams_given_cmd (name cur) (params cur)
      param_cond_cmd_probs value_cond_param_probs modellable_params true ;;
  Ok ((fst st * t * param_vals_prob)%Q, name cur).

Definition compute_likelihood_window (window : list Cmd)
    (prior_probs : table Q)
    (trans_probs param_cond_cmd_probs value_cond_param_probs
       : table (table Q))
    (modellable_params : list string)
    (use_start_token use_end_token : bool)
    (start_token end_token : option string) : result pyfloat :=
  _ <- assert (implb use_start_token
                 (match start_token with Some _ => true | None => false end)) ;;
  _ <- assert (implb use_end_token
                 (match end_token with Some _ => true | None => false end)) ;;
  match window with
  | [] => Ok NaN
  | w0 :: rest =>
      param_vals_prob <-
        compute_prob_setofparams_given_cmd (name w0) (params w0)
          param_cond_cmd_probs value_cond_param_probs modellable_params
          true ;;
      prob <-
        (match use_start_token, start_token with
         | true, Some s =>
             row <- getitem trans_probs s ;;
             t <- getitem row (name w0) ;;
             Ok (1 * (t * param_vals_prob))%Q
         | true, None => Raise AssertionError
         | false, _ =>
             p <- getitem prior_probs (name w0) ;;
             Ok (1 * (p * param_vals_prob))%Q
         end) ;;
      st <- for_each (seq 0 (List.length rest))
              (window_step window trans_probs param_cond_cmd_probs
                 value_cond_param_probs modellable_params)
              (prob, name w0) ;;
      match use_end_token, end_token with
      | true, Some e =>
          row <- getitem trans_probs (snd st) ;;
          t <- getitem row e ;;
          Ok (Fl (fst st * t)%Q)
      | true, None => Raise AssertionError
      | false, _ => Ok (Fl (fst st))
      end
  end.

(** [lik ** (1 / k)] on a likelihood, which may be NaN. *)
Definition lik_pow_inv (lik : pyfloat) (k : nat) : result pyfloat :=
  match k with
  | O => Raise ZeroDivisionError
  | S _ =>
      Ok (match lik with
          | Fl q => Fl (root q (Pos.of_nat k))
          | NaN => NaN
          end)
  end.

Definition compute_likelihood_windows_in_session (session : list Cmd)
    (prior_probs : table Q)
    (trans_probs param_cond_cmd_probs value_cond_param_probs
       : table (table Q))
    (modellable_params : list string)
    (window_len : nat) (use_start_end_tokens : bool)
    (start_token end_token : option string) (use_geo_mean : bool)
  : result (list pyfloat) :=
  sess <-
    (if use_start_end_tokens then
       match start_token, end_token with
       | Some _, Some e => Ok (session ++ [mkCmd e []])
       | _, _ => Raise AssertionError
       end
     else Ok session) ;;
  for_each (seq 0 (S (List.length sess) - window_len))
    (fun likelihoods i =>
       let window := slice sess i (i + window_len) in
       let use_start := if Nat.eqb i 0 then use_start_end_tokens else false in
       lik <- compute_likelihood_window window prior_probs trans_probs
                param_cond_cmd_probs value_cond_param_probs
                modellable_params use_start false start_token end_token ;;
       lik <- (if use_geo_mean then lik_pow_inv lik window_len else Ok lik) ;;
       Ok (likelihoods ++ [lik]))
    [].

Definition rarest_window_session (session : list Cmd)
    (prior_probs : table Q)
    (trans_probs param_cond_cmd_probs value_cond_param_probs
       : table (table Q))
    (modellable_params : list string)
    (window_len : nat) (use_start_end_tokens : bool)
    (start_token end_token : string) (use_geo_mean : bool)
  : result (list Cmd * pyfloat) :=
  likelihoods <-
    compute_likelihood_windows_in_session session prior_probs trans_probs
      param_cond_cmd_probs value_cond_param_probs modellable_params
      window_len use_start_end_tokens
      (Some start_token) (Some end_token) use_geo_mean ;;
  if Nat.eqb (List.length likelihoods) 0 then Ok ([], NaN)
  else
    min_lik <- py_min likelihoods ;;
    ind <- py_list_index likelihoods min_lik ;;
    Ok (slice session ind (ind + window_len), min_lik).

(** The window likelihood as the specification words it, start and end tokens
    disabled (see the parameter-only variant). *)
Fixpoint spec_window_tail (prev : Cmd) (rest : list Cmd)
    (trans_probs param_cond_cmd_probs value_cond_param_probs : table (table Q))
    (modellable_params : list string) (prob : Q) : result Q :=
  match rest with
  | [] => Ok prob
  | cur :: rest' =>
      row <- getitem trans_probs (name prev) ;;
      t <- getitem row (name cur) ;;
      param_vals_prob <-
        compute_prob_setofparams_given_cmd (name cur) (params cur)
          param_cond_cmd_probs value_cond_param_probs modellable_params true ;;
      spec_window_tail cur rest' trans_probs param_cond_cmd_probs
        value_cond_param_probs modellable_params (prob * t * param_vals_prob)%Q
  end.

Definition spec_likelihood_window (window : list Cmd) (prior_probs : table Q)
    (trans_probs param_cond_cmd_probs value_cond_param_probs : table (table Q))
    (modellable_params : list string) : result pyfloat :=
  match window with
  | [] => Ok NaN
  | w0 :: rest =>
      param_vals_prob <-
        compute_prob_setofparams_given_cmd (name w0) (params w0)
          param_cond_cmd_probs value_cond_param_probs modellable_params true ;;
      p <- getitem prior_probs (name w0) ;;
      q <- spec_window_tail w0 rest trans_probs param_cond_cmd_probs
             value_cond_param_probs modellable_params
             (1 * (p * param_vals_prob))%Q ;;
      Ok (Fl q)
  end.

End Likelihood.

End CmdsParamsValues.

(** ** probabilities.py *)

Module Probabilities.

(** [sum(l)] *)
Definition sum_Z (l : list Z) : Z := fold_left Z.add l 0%Z.

(** [d[k1][k2] = v] on a two-level defaultdict. *)
Definition setitem2 {V : Type} (k1 k2 : string) (v : V) (d : dict (dict V))
  : dict (dict V) :=
  upd k1 (fun o => setitem k2 v (row_of o)) d.

Definition compute_cmds_probs (seq1_counts : table Z)
    (seq2_counts : table (table Z)) (unk_token : string)
  : result (table Q * table (table Q)) :=
  let total_cmds := sum_Z (values (items seq1_counts)) in
  prior_probs <-
    for_each (keys (items seq1_counts))
      (fun acc cmd =>
         c <- getitem seq1_counts cmd ;;
         q <- true_div c total_cmds ;;
         Ok (setitem cmd q acc))
      [] ;;
  trans_probs <-
    for_each (items seq2_counts)
      (fun acc kv =>
         for_each (keys (items (snd kv)))
           (fun acc current =>
              row <- getitem seq2_counts (fst kv) ;;
              c <- getitem row current ;;
              row' <- getitem seq2_counts (fst kv) ;;
              q <- true_div c (sum_Z (values (items row'))) ;;
              Ok (setitem2 (fst kv) current q acc))
           acc)
      [] ;;
  prior_probs <- StateMatrix prior_probs unk_token ;;
  trans_probs <- StateMatrix2 trans_probs unk_token ;;
  Ok (prior_probs, trans_probs).

(** The loop [for a, bs in counts.items(): n = sum(bs.values());
    for b, count in bs.items(): probs[a][b] = count / n], which
    [compute_params_probs] and [compute_values_probs] both run. *)
Definition cond_probs (counts : table (table Z)) : result (dict (dict Q)) :=
  for_each (items counts)
    (fun acc kv =>
       let n := sum_Z (values (items (snd kv))) in
       for_each (items (snd kv))
         (fun acc bc =>
            q <- true_div (snd bc) n ;;
            Ok (setitem2 (fst kv) (fst bc) q acc))
         acc)
    [].

(** The loop [tot = sum(counts.values());
    for k, count in counts.items(): probs[k] = count / tot]. *)
Definition unigram_probs (counts : table Z) : result (dict Q) :=
  let tot := sum_Z (values (items counts)) in
  for_each (items counts)
    (fun acc kc =>
       q <- true_div (snd kc) tot ;;
       Ok (setitem (fst kc) q acc))
    [].

Definition compute_params_probs (param_counts : table Z)
    (cmd_param_counts : table (table Z)) (unk_token : string)
  : result (table Q * table (table Q)) :=
  param_cond_cmd_probs <- cond_probs cmd_param_counts ;;
  param_probs <- unigram_probs param_counts ;;
  param_probs <- StateMatrix param_probs unk_token ;;
  param_cond_cmd_probs <- StateMatrix2 param_cond_cmd_probs unk_token ;;
  Ok (param_probs, param_cond_cmd_probs).

Definition compute_values_probs (value_counts : table Z)
    (param_value_counts : table (table Z)) (unk_token : string)
  : result (table Q * table (table Q)) :=
  value_cond_param_probs <- cond_probs param_value_counts ;;
  value_probs <- unigram_probs value_counts ;;
  value_probs <- StateMatrix value_probs unk_token ;;
  value_cond_param_probs <- StateMatrix2 value_cond_param_probs unk_token ;;
  Ok (value_probs, value_cond_param_probs).

End Probabilities.


(** ** Concrete tables and sessions used to evaluate the functions *)

Module Fixtures.
Local Open Scope string_scope.

Definition START : string := "##START##".
Definition END_ : string := "##END##".
Definition UNK : string := "##UNK##".

Definition prior_probs : table Q :=
  SM [("A", 1 # 2); ("B", 1 # 4); (UNK, 1 # 4)]%Q UNK.

Definition trans_probs : table (table Q) :=
  SM [(START, SM [("A", 1 # 2); ("B", 1 # 4); (END_, 1 # 8); (UNK, 1 # 8)]%Q UNK);
      ("A", SM [("A", 1 # 2); ("B", 1 # 4); (END_, 1 # 8); (UNK, 1 # 8)]%Q UNK);
      ("B", SM [("A", 1 # 3); ("B", 1 # 3); (END_, 1 # 6); (UNK, 1 # 6)]%Q UNK);
      (UNK, SM [("A", 1 # 5); ("B", 1 # 5); (END_, 1 # 5); (UNK, 2 # 5)]%Q UNK)]
     UNK.

Definition param_cond_cmd_probs : table (table Q) :=
  SM [("A", SM [("p", 1 # 2); (UNK, 1 # 2)]%Q UNK);
      ("B", SM [(UNK, 1 # 1)]%Q UNK);
      (UNK, SM [(UNK, 1 # 1)]%Q UNK)]
     UNK.

Definition value_cond_param_probs : table (table Q) :=
  SM [("p", SM [("1", 1 # 2); (UNK, 1 # 2)]%Q UNK);
      (UNK, SM [(UNK, 1 # 1)]%Q UNK)]
     UNK.

(** A table whose row for "c" is empty: a plain dict, since a StateMatrix
    keeps the unknown token in every row. *)
Definition empty_row_probs : table (table Q) :=
  PlainDict [("c", PlainDict [])].

(** The window [A, B], no params, in both variants. *)
Definition window_AB : list CmdsParamsOnly.Cmd :=
  [CmdsParamsOnly.mkCmd "A" []; CmdsParamsOnly.mkCmd "B" []].

Definition window_AB_values : list CmdsParamsValues.Cmd :=
  [CmdsParamsValues.mkCmd "A" []; CmdsParamsValues.mkCmd "B" []].

(** The session [A(p), B, A] and its value-aware counterpart. *)
Definition session_ABA : list CmdsParamsOnly.Cmd :=
  [CmdsParamsOnly.mkCmd "A" ["p"]; CmdsParamsOnly.mkCmd "B" [];
   CmdsParamsOnly.mkCmd "A" []].

Definition session_ABA_values : list CmdsParamsValues.Cmd :=
  [CmdsParamsValues.mkCmd "A" [("p", "1")]; CmdsParamsValues.mkCmd "B" [];
   CmdsParamsValues.mkCmd "A" []].

(** Counts in which the flag "f" has 2 values over 40 uses, the free-text
    param "t" 30 values over 30 uses, and the rare param "r" 1 value over 5. *)
Definition some_param_counts : table Z :=
  SM [("f", 40%Z); ("t", 30%Z); ("r", 5%Z); (UNK, 3%Z)] UNK.

Definition many_values (n : nat) : table Z :=
  SM (map (fun i => (String (Ascii.ascii_of_nat (65 + i)) "", 1%Z)) (seq 0 n)) UNK.

Definition some_param_value_counts : table (table Z) :=
  SM [("f", SM [("true", 25%Z); ("false", 15%Z)] UNK);
      ("t", many_values 30);
      ("r", SM [("x", 5%Z)] UNK);
      (UNK, SM [(UNK, 1%Z)] UNK)] UNK.

(** Counts in which the param "p" has a count of 0. *)
Definition zero_param_counts : table Z := PlainDict [("p", 0%Z); (UNK, 1%Z)].

Definition zero_param_value_counts : table (table Z) :=
  PlainDict [("p", PlainDict [("v", 1%Z)]); (UNK, PlainDict [(UNK, 1%Z)])].

(** Count tables as compute_counts gives them for the sessions
    [[A(p=1, q=x), B(p=2)], [A(p=1, q=x), A(p=1, q=x)]]. *)
Definition some_seq1_counts : table Z :=
  SM [(START, 6%Z); ("A", 11%Z); ("B", 9%Z); (END_, 6%Z); (UNK, 8%Z)] UNK.

Definition some_seq2_counts : table (table Z) :=
  SM [(START, SM [("A", 3%Z); ("B", 1%Z); (END_, 1%Z); (UNK, 1%Z)] UNK);
      ("A", SM [("B", 2%Z); ("A", 2%Z); (END_, 2%Z); (UNK, 1%Z)] UNK);
      ("B", SM [(END_, 2%Z); ("A", 1%Z); ("B", 1%Z); (UNK, 1%Z)] UNK);
      (UNK, SM [("A", 1%Z); ("B", 1%Z); (END_, 1%Z); (UNK, 1%Z)] UNK)] UNK.

(** Training sessions [[A, B(x)], [A, A]] and their value-aware counterpart. *)
Definition training : list (list CmdsParamsOnly.Cmd) :=
  [[CmdsParamsOnly.mkCmd "A" []; CmdsParamsOnly.mkCmd "B" ["x"]];
   [CmdsParamsOnly.mkCmd "A" []; CmdsParamsOnly.mkCmd "A" []]].

Definition training_values : list (list CmdsParamsValues.Cmd) :=
  [[CmdsParamsValues.mkCmd "A" []; CmdsParamsValues.mkCmd "B" [("x", "1")]];
   [CmdsParamsValues.mkCmd "A" []; CmdsParamsValues.mkCmd "A" []]].

(** A training session whose only command is named as the end token. *)
Definition training_end_named : list (list CmdsParamsOnly.Cmd) :=
  [[CmdsParamsOnly.mkCmd END_ []]].

Definition flat_states : dict Z := [("haha", 2%Z); (UNK, 5%Z)].

Definition nested_states : dict (dict Z) :=
  [("haha", [("hehe", 1%Z); (UNK, 4%Z)]); (UNK, [(UNK, 6%Z); ("lol", 78%Z)])].

End Fixtures.
Import Fixtures.

Open Scope string_scope.
Open Scope list_scope.


(** [T[k1][k2]] *)
Definition getitem2 {V : Type} (t : table (table V)) (k1 k2 : string) : result V :=
  row <- getitem t k1 ;; getitem row k2.

(** An executable stand-in for the float power [x ** (1 / k)], used to
    evaluate the functions on concrete inputs: the k-th root of [x >= 0] by
    bisection, from below, to within [max 1 x / 2 ^ 24]. *)
Fixpoint bisect_root (fuel : nat) (x : Q) (k : positive) (lo hi : Q) : Q :=
  match fuel with
  | O => lo
  | S fuel' =>
      let mid := Qred ((lo + hi) / 2)%Q in
      if Qle_bool (Qpower_positive mid k) x
      then bisect_root fuel' x k mid hi
      else bisect_root fuel' x k lo mid
  end.

Definition approx_root (x : Q) (k : positive) : Q :=
  bisect_root 24 x k 0%Q (Qmax 1%Q x).

(** ** Predicates of the statements *)

Definition is_number (x : pyfloat) : Prop :=
  match x with Fl _ => True | NaN => False end.

(** [m] stands at position [ind] of [liks]; no item compares below it and no
    earlier item equals it (the comparisons are Python's). *)
Definition first_minimum (liks : list pyfloat) (ind : nat) (m : pyfloat) : Prop :=
  nth_error liks ind = Some m
  /\ (forall x, In x liks -> py_lt x m = false)
  /\ (forall j x, j < ind -> nth_error liks j = Some x -> py_same x m = false).

(** [m] is a number, all items are numbers, and [m] is at most each of them. *)
Definition least_number (liks : list pyfloat) (m : pyfloat) : Prop :=
  exists q, m = Fl q /\ forall x, In x liks -> exists y, x = Fl y /\ (q <= y)%Q.

(** The table is a StateMatrix that passed the checks of its constructor
    (flat, and two-level with that of every row). *)
Definition sm_ok1 {V : Type} (t : table V) : bool :=
  match t with
  | SM d u => contains u d
  | PlainDict _ => false
  end.

Definition sm_ok2 {V : Type} (t : table (table V)) : bool :=
  match t with
  | SM d u => contains u d && forallb (fun kv => sm_ok1 (snd kv)) d
  | PlainDict _ => false
  end.

(** The result [r] of [rarest_window_session] on the likelihoods [liks]: the
    slice of the session at the position of their first minimum, with it. *)
Definition rarest_of {C : Type} (session : list C) (w : nat)
    (liks : list pyfloat) (r : result (list C * pyfloat)) : Prop :=
  exists ind m,
    r = Ok (slice session ind (ind + w), m)
    /\ first_minimum liks ind m
    /\ (1 <= w -> least_number liks m).

(** What [rarest_window_session] does with the list of likelihoods. *)
Definition pick_rarest {C : Type} (session : list C) (window_len : nat)
    (likelihoods : list pyfloat) : result (list C * pyfloat) :=
  if Nat.eqb (List.length likelihoods) 0 then Ok ([], NaN)
  else
    min_lik <- py_min likelihoods ;;
    ind <- py_list_index likelihoods min_lik ;;
    Ok (slice session ind (ind + window_len), min_lik).


(** The heuristic as the specification words it: [p] is a first-level key of
    [param_value_counts] with [d <= 20], [n >= 20] and [100 * d / n <= 10],
    for [d] the number of values under [p] and [n = param_counts[p]]. *)
Definition modellable_spec (param_counts : table Z)
    (param_value_counts : table (table Z)) (p : string) : Prop :=
  exists (vals : table Z) (n : Z),
    In (p, vals) (items param_value_counts)
    /\ getitem param_counts p = Ok n
    /\ let d := Z.of_nat (List.length (items vals)) in
       (d <= 20)%Z /\ (20 <= n)%Z
       /\ (inject_Z (100 * d) / inject_Z n <= 10 # 1)%Q.

(** A Python dict holds each key once. *)
Fixpoint nodupb (l : list string) : bool :=
  match l with
  | [] => true
  | x :: l' => negb (existsb (String.eqb x) l') && nodupb l'
  end.

Definition wf_dict {V : Type} (d : dict V) : bool := nodupb (keys d).

Definition wf_table2 {V : Type} (t : table (table V)) : bool :=
  wf_dict (items t) && forallb (fun kv => wf_dict (items (snd kv))) (items t).

Definition sum_Q (l : list Q) : Q := fold_left Qplus l 0%Q.

(** A row of counts divided by its sum. *)
Definition norm_row (row : dict Z) : dict Q :=
  map (fun bc => (fst bc,
                  (inject_Z (snd bc) / inject_Z (Probabilities.sum_Z (values row)))%Q))
      row.

(** The rows that [cond_probs] writes: the non-empty ones, each normalised. *)
Definition norm_rows (rows : dict (table Z)) : dict (dict Q) :=
  map (fun kv => (fst kv, norm_row (items (snd kv))))
      (filter (fun kv => negb (Nat.eqb (List.length (items (snd kv))) 0)) rows).

(** The dict [acc] with the row [r] of [a] last, or [acc] itself while the
    row is still empty (a defaultdict has no row before the first write). *)
Definition with_row {V : Type} (acc : dict (dict V)) (a : string) (r : dict V)
  : dict (dict V) :=
  match r with
  | [] => acc
  | _ :: _ => acc ++ [(a, r)]
  end.

(** ** The loops of [compute_counts] on the dicts they touch

    Both variants run the same loops on a unigram dict and a two-level dict:
    the commands with their bigrams, the params with the commands they follow,
    the values with their params.  The loops are given here on such a pair
    of dicts; the properties of [compute_counts] are proved on them. *)

Definition counts2 : Type := (dict Z * dict (dict Z))%type.

(** The commands of one session: the state carries [prev]. *)
Definition seq_cmd (st : string * counts2) (n : string) : string * counts2 :=
  (n, (incr n (fst (snd st)), incr2 (fst st) n (snd (snd st)))).

Definition seq_session (start_token end_token : string) (q : counts2)
    (names : list string) : counts2 :=
  let st := fold_left seq_cmd names (start_token, (incr start_token (fst q), snd q)) in
  (incr end_token (fst (snd st)), incr2 (fst st) end_token (snd (snd st))).

Definition seq_pass (start_token end_token : string)
    (sessions : list (list string)) : counts2 :=
  fold_left (seq_session start_token end_token) sessions ([], []).

Definition seq_smooth_pair (start_token end_token cmd1 : string) (q : counts2)
    (cmd2 : string) : counts2 :=
  if negb (String.eqb cmd1 end_token) && negb (String.eqb cmd2 start_token)
  then (incr cmd2 (incr cmd1 (fst q)), incr2 cmd1 cmd2 (snd q))
  else q.

Definition seq_smooth (start_token end_token : string) (cmds : list string)
    (q : counts2) : counts2 :=
  fold_left
    (fun q cmd1 => fold_left (seq_smooth_pair start_token end_token cmd1) cmds q)
    cmds q.

(** One occurrence of [b] under [a] (a param under a command, a value under
    a param). *)
Definition pair_count (q : counts2) (ab : string * string) : counts2 :=
  (incr (snd ab) (fst q), incr2 (fst ab) (snd ab) (snd q)).

Definition pair_pass (pairs : list (string * string)) : counts2 :=
  fold_left pair_count pairs ([], []).

Definition pair_smooth_entry (unk_token a : string) (q : counts2) (b : string)
  : counts2 :=
  let bi := touch a (snd q) in
  if contains b (row_of (get a bi)) || String.eqb b unk_token
  then (incr b (fst q), incr2 a b bi)
  else (fst q, bi).

Definition pair_smooth (unk_token : string) (outer inner : list string)
    (q : counts2) : counts2 :=
  fold_left
    (fun q a => fold_left (pair_smooth_entry unk_token a) inner q)
    outer q.

(** The checks of the StateMatrix constructor, flat and two-level. *)
Definition valid1 {V : Type} (u : string) (d : dict V) : bool :=
  negb (Nat.eqb (List.length d) 0) && contains u d.

Definition valid2 {V : Type} (u : string) (d : dict (dict V)) : bool :=
  negb (Nat.eqb (List.length d) 0) && contains u d
  && forallb (fun kv => contains u (snd kv)) d.

(** The rows of a two-level dict as StateMatrix tables. *)
Definition wrap_rows {V : Type} (u : string) (d : dict (dict V))
  : dict (table V) :=
  map (fun kv => (fst kv, SM (snd kv) u)) d.

(** Every stored count of a two-level dict is at least 0. *)
Definition nonneg2 (d : dict (dict Z)) : Prop :=
  forall k1 k2, (0 <= count2 k1 k2 d)%Z.

(** The row of [k] exists and holds the unknown token. *)
Definition has_unk {V : Type} (u : string) (d : dict (dict V)) (k : string) : Prop :=
  contains u (row_of (get k d)) = true.

(** The pair [(c1, c2)] has a stored, strictly positive count in the table. *)
Definition positive_bigram (seq2 : table (table Z)) (c1 c2 : string) : Prop :=
  exists (row : table Z) (n : Z),
    get c1 (items seq2) = Some row /\ get c2 (items row) = Some n /\ (0 < n)%Z.

(** The names of the commands, the (command, param) pairs and the
    (param, value) pairs of the sessions. *)
Definition names_of (sessions : list (list CmdsParamsOnly.Cmd))
  : list (list string) :=
  map (map CmdsParamsOnly.name) sessions.

Definition cmd_params (cmd : CmdsParamsOnly.Cmd) : list (string * string) :=
  map (fun p => (CmdsParamsOnly.name cmd, p)) (CmdsParamsOnly.params cmd).

Definition names_of_values (sessions : list (list CmdsParamsValues.Cmd))
  : list (list string) :=
  map (map CmdsParamsValues.name) sessions.

Definition cmd_params_values (cmd : CmdsParamsValues.Cmd)
  : list (string * string) :=
  map (fun pv => (CmdsParamsValues.name cmd, fst pv)) (CmdsParamsValues.params cmd).

Definition param_values (cmd : CmdsParamsValues.Cmd) : list (string * string) :=
  CmdsParamsValues.params cmd.

(** [q'] has the keys of [q], and counts that are at least those of [q]. *)
Definition ext (q q' : counts2) : Prop :=
  (forall k, In k (keys (fst q)) -> In k (keys (fst q')))
  /\ (forall k, In k (keys (snd q)) -> In k (keys (snd q')))
  /\ (forall k1 k2, (count2 k1 k2 (snd q) <= count2 k1 k2 (snd q'))%Z).

(** [q'] has the unigram keys of [q], and the unknown token in every row
    where [q] has it. *)
Definition ext_unk (u : string) (q q' : counts2) : Prop :=
  (forall k, In k (keys (fst q)) -> In k (keys (fst q')))
  /\ (forall k, has_unk u (snd q) k -> has_unk u (snd q') k).

Definition wf_counts2 (q : counts2) : Prop :=
  NoDup (keys (fst q)) /\ NoDup (keys (snd q)).

(** What holds of the dicts while the commands of the sessions are counted:
    each key once, no negative count, every bigram row under a counted
    command. *)
Definition seq_inv (q : counts2) : Prop :=
  wf_counts2 q /\ nonneg2 (snd q)
  /\ forall k, In k (keys (snd q)) -> In k (keys (fst q)).

(** [q'] has the unigram keys of [q]. *)
Definition keys1_le (q q' : counts2) : Prop :=
  forall k, In k (keys (fst q)) -> In k (keys (fst q')).

(** Inversion of a chain of binds that returned. *)
Ltac bind_inv H :=
  repeat match type of H with
    | bind ?c _ = Ok _ =>
        let E := fresh "E" in
        destruct c eqn:E; simpl in H; [|discriminate H]
    end.

(** ** The sliding pass, position by position *)

(** [sess] of [compute_likelihood_windows_in_session]: the copy of the
    session, with the end-token command appended when the tokens are used. *)
Definition extended {C : Type} (session : list C) (end_cmd : C) (use : bool)
  : list C :=
  if use then session ++ [end_cmd] else session.

(** [x ** (1 / k)] for [k >= 1] on a likelihood. *)
Definition root_lik (root : Q -> positive -> Q) (k : nat) (lik : pyfloat)
  : pyfloat :=
  match lik with
  | Fl q => Fl (root q (Pos.of_nat k))
  | NaN => NaN
  end.

(** What one round of the loop of [compute_likelihood_windows_in_session]
    appends, in both variants. *)
Definition lik_at (root : Q -> positive -> Q) (sess : list CmdsParamsOnly.Cmd)
    (prior : table Q) (trans pcc : table (table Q)) (w : nat) (use : bool)
    (st et : option string) (gm : bool) (i : nat) : result pyfloat :=
  lik <- CmdsParamsOnly.compute_likelihood_window root (slice sess i (i + w))
           prior trans pcc (if Nat.eqb i 0 then use else false) false st et ;;
  if gm then CmdsParamsOnly.lik_pow_inv root lik w else Ok lik.

Definition lik_at_values (root : Q -> positive -> Q)
    (sess : list CmdsParamsValues.Cmd) (prior : table Q)
    (trans pcc vcp : table (table Q)) (mp : list string) (w : nat) (use : bool)
    (st et : option string) (gm : bool) (i : nat) : result pyfloat :=
  lik <- CmdsParamsValues.compute_likelihood_window root (slice sess i (i + w))
           prior trans pcc vcp mp (if Nat.eqb i 0 then use else false) false
           st et ;;
  if gm then CmdsParamsValues.lik_pow_inv root lik w else Ok lik.

(** A loop that appends one computed item per element. *)
Definition collect {A B : Type} (f : A -> result B) (l : list A)
  : result (list B) :=
  for_each l (fun acc x => y <- f x ;; Ok (acc ++ [y])) [].

(** ** Stored counts *)

(** Every stored count is at least 1, in a flat and in a two-level dict. *)
Definition pos1 (d : dict Z) : Prop :=
  forall k c, In (k, c) d -> (1 <= c)%Z.

Definition pos2 (d : dict (dict Z)) : Prop :=
  forall k row, In (k, row) d -> pos1 row.

(** Every row of a two-level dict holds each key once. *)
Definition rows_nodup {V : Type} (d : dict (dict V)) : Prop :=
  forall k row, In (k, row) d -> NoDup (keys row).

(** What the loops of [compute_counts] keep of a pair of dicts: each key
    once, at every level, and no stored count below 1. *)
Definition counted (q : counts2) : Prop :=
  wf_counts2 q /\ rows_nodup (snd q) /\ pos1 (fst q) /\ pos2 (snd q).

(** ** What the counts count *)

(** The number of times [a] stands in [l], and the number of times [b]
    directly follows [a] in [l]. *)
Fixpoint occ (a : string) (l : list string) : Z :=
  match l with
  | [] => 0%Z
  | x :: t => ((if String.eqb a x then 1 else 0) + occ a t)%Z
  end.

Fixpoint count_adj (a b : string) (l : list string) : Z :=
  match l with
  | [] => 0%Z
  | x :: t =>
      ((match t with
        | y :: _ => if String.eqb a x && String.eqb b y then 1 else 0
        | [] => 0
        end) + count_adj a b t)%Z
  end.

(** The names of a session between the start and the end token. *)
Definition wrapped (s e : string) (names : list string) : list string :=
  s :: names ++ [e].

Definition sum_over {A : Type} (f : A -> Z) (l : list A) : Z :=
  fold_right (fun x acc => (f x + acc)%Z) 0%Z l.

(** The pairs that the smoothing of the commands increments. *)
Definition smoothed_pair (s e : string) (cmds : list string) (c1 c2 : string)
  : bool :=
  existsb (String.eqb c1) cmds && existsb (String.eqb c2) cmds
  && negb (String.eqb c1 e) && negb (String.eqb c2 s).

(** The number of times the pair [(a, b)] stands in [l]. *)
Fixpoint occ_pair (a b : string) (l : list (string * string)) : Z :=
  match l with
  | [] => 0%Z
  | x :: t =>
      ((if String.eqb a (fst x) && String.eqb b (snd x) then 1 else 0)
       + occ_pair a b t)%Z
  end.

(** The entries that the smoothing of the params (or of the values)
    increments in the row of [a]: those the row holds, and the unknown
    token. *)
Definition smoothed_entry (u : string) (d : dict (dict Z)) (a b : string)
  : bool :=
  contains b (row_of (get a d)) || String.eqb b u.

(** ** The two variants side by side *)

(** A command of the value-aware variant without its values. *)
Definition params_only (c : CmdsParamsValues.Cmd) : CmdsParamsOnly.Cmd :=
  CmdsParamsOnly.mkCmd (CmdsParamsValues.name c)
    (keys (CmdsParamsValues.params c)).

(** ** Probabilities and likelihoods between 0 and 1 *)

Definition unit_q (q : Q) : Prop := (0 <= q <= 1)%Q.

(** Every entry of a flat table, and of a two-level table, is between 0
    and 1. *)
Definition unit1 (t : table Q) : Prop :=
  forall k p, In (k, p) (items t) -> unit_q p.

Definition unit2 (t : table (table Q)) : Prop :=
  forall k row, In (k, row) (items t) -> unit1 row.

(** The power [x ** (1 / k)] of a number between 0 and 1 is between 0 and 1. *)
Definition unit_root (root : Q -> positive -> Q) : Prop :=
  forall x k, unit_q x -> unit_q (root x k).

(** A likelihood is NaN or between 0 and 1. *)
Definition unit_lik (lik : pyfloat) : Prop :=
  match lik with
  | Fl q => unit_q q
  | NaN => True
  end.

(** ** Commands and params that the tables do not hold *)

(** The command [c] with the name [n] replaced by the unknown token. *)
Definition rename (n u : string) (k : string) : string :=
  if String.eqb k n then u else k.

Definition rename_cmd (n u : string) (c : CmdsParamsOnly.Cmd)
  : CmdsParamsOnly.Cmd :=
  CmdsParamsOnly.mkCmd (rename n u (CmdsParamsOnly.name c))
    (CmdsParamsOnly.params c).

Definition rename_cmd_values (n u : string) (c : CmdsParamsValues.Cmd)
  : CmdsParamsValues.Cmd :=
  CmdsParamsValues.mkCmd (rename n u (CmdsParamsValues.name c))
    (CmdsParamsValues.params c).

(** No table of the model holds the command name [n]: neither the priors,
    nor the transitions (as a row or inside a row), nor the rows of the
    params. *)
Definition unseen (n : string) (d1 : dict Q) (d2 d3 : dict (dict Q)) : Prop :=
  get n d1 = None /\ get n d2 = None
  /\ (forall k row, In (k, row) d2 -> get n row = None)
  /\ get n d3 = None.

(** The dicts under the tables [prior_probs], [trans_probs] and
    [param_cond_cmd_probs]. *)
Definition prior_states : dict Q :=
  [("A", 1 # 2); ("B", 1 # 4); (UNK, 1 # 4)]%Q.

Definition trans_states : dict (dict Q) :=
  [(START, [("A", 1 # 2); ("B", 1 # 4); (END_, 1 # 8); (UNK, 1 # 8)]%Q);
   ("A", [("A", 1 # 2); ("B", 1 # 4); (END_, 1 # 8); (UNK, 1 # 8)]%Q);
   ("B", [("A", 1 # 3); ("B", 1 # 3); (END_, 1 # 6); (UNK, 1 # 6)]%Q);
   (UNK, [("A", 1 # 5); ("B", 1 # 5); (END_, 1 # 5); (UNK, 2 # 5)]%Q)].

Definition param_states : dict (dict Q) :=
  [("A", [("p", 1 # 2); (UNK, 1 # 2)]%Q);
   ("B", [(UNK, 1 # 1)]%Q);
   (UNK, [(UNK, 1 # 1)]%Q)].

(** ** probabilities.py, with the division rounded

    In Python [a / b] on two ints is a float: the quotient, rounded.  The
    module [Probabilities] above keeps the quotient itself; here the same
    three functions are given with the rounding [fl] applied to every
    quotient, which is what the program stores.  The two are related below:
    a function of this module returns what the function of [Probabilities]
    returns, with every entry rounded. *)

Module FloatProbabilities.
Import Probabilities.

Section Rounding.
Variable fl : Q -> Q.

(** [a / b] on ints: true division, the result a float. *)
Definition float_div (a b : Z) : result Q :=
  if (b =? 0)%Z then Raise ZeroDivisionError
  else Ok (fl (inject_Z a / inject_Z b)%Q).

Definition compute_cmds_probs (seq1_counts : table Z)
    (seq2_counts : table (table Z)) (unk_token : string)
  : result (table Q * table (table Q)) :=
  let total_cmds := sum_Z (values (items seq1_counts)) in
  prior_probs <-
    for_each (keys (items seq1_counts))
      (fun acc cmd =>
         c <- getitem seq1_counts cmd ;;
         q <- float_div c total_cmds ;;
         Ok (setitem cmd q acc))
      [] ;;
  trans_probs <-
    for_each (items seq2_counts)
      (fun acc kv =>
         for_each (keys (items (snd kv)))
           (fun acc current =>
              row <- getitem seq2_counts (fst kv) ;;
              c <- getitem row current ;;
              row' <- getitem seq2_counts (fst kv) ;;
              q <- float_div c (sum_Z (values (items row'))) ;;
              Ok (setitem2 (fst kv) current q acc))
           acc)
      [] ;;
  prior_probs <- StateMatrix prior_probs unk_token ;;
  trans_probs <- StateMatrix2 trans_probs unk_token ;;
  Ok (prior_probs, trans_probs).

(** The loop [for a, bs in counts.items(): n = sum(bs.values());
    for b, count in bs.items(): probs[a][b] = count / n]. *)
Definition cond_probs (counts : table (table Z)) : result (dict (dict Q)) :=
  for_each (items counts)
    (fun acc kv =>
       let n := sum_Z (values (items (snd kv))) in
       for_each (items (snd kv))
         (fun acc bc =>
            q <- float_div (snd bc) n ;;
            Ok (setitem2 (fst kv) (fst bc) q acc))
         acc)
    [].

(** The loop [tot = sum(counts.values());
    for k, count in counts.items(): probs[k] = count / tot]. *)
Definition unigram_probs (counts : table Z) : result (dict Q) :=
  let tot := sum_Z (values (items counts)) in
  for_each (items counts)
    (fun acc kc =>
       q <- float_div (snd kc) tot ;;
       Ok (setitem (fst kc) q acc))
    [].

Definition compute_params_probs (param_counts : table Z)
    (cmd_param_counts : table (table Z)) (unk_token : string)
  : result (table Q * table (table Q)) :=
  param_cond_cmd_probs <- cond_probs cmd_param_counts ;;
  param_probs <- unigram_probs param_counts ;;
  param_probs <- StateMatrix param_probs unk_token ;;
  param_cond_cmd_probs <- StateMatrix2 param_cond_cmd_probs unk_token ;;
  Ok (param_probs, param_cond_cmd_probs).

Definition compute_values_probs (value_counts : table Z)
    (param_value_counts : table (table Z)) (unk_token : string)
  : result (table Q * table (table Q)) :=
  value_cond_param_probs <- cond_probs param_value_counts ;;
  value_probs <- unigram_probs value_counts ;;
  value_probs <- StateMatrix value_probs unk_token ;;
  value_cond_param_probs <- StateMatrix2 value_cond_param_probs unk_token ;;
  Ok (value_probs, value_cond_param_probs).

End Rounding.
End FloatProbabilities.

(** ** Rounding to binary64

    [fl64 x] is the float nearest to the rational [x], ties to the even
    significand: [x] is scaled by a power of two until it lies between
    [2^52] and [2^53], where the floats are the integers, or until the
    scale is [2^1074], the spacing of the subnormal floats.  Quotients
    above the largest float, where Python raises [OverflowError], are
    not modelled. *)

Definition two52 : Q := inject_Z (2 ^ 52).
Definition two53 : Q := inject_Z (2 ^ 53).

(** Halve [x] while it is [2^53] or more; [x] is the result times [d]. *)
Fixpoint scale_down (fuel : nat) (x : Q) (d : Z) : Q * Z :=
  match fuel with
  | O => (x, d)
  | S fuel' =>
      if Qle_bool two53 x then scale_down fuel' (x / 2)%Q (2 * d)%Z
      else (x, d)
  end.

(** Double [x] while it is below [2^52]; [x] is the result over [s]. *)
Fixpoint scale (fuel : nat) (x : Q) (s : Z) : Q * Z :=
  match fuel with
  | O => (x, s)
  | S fuel' =>
      if Qle_bool two52 x then (x, s)
      else scale fuel' (2 * x)%Q (2 * s)%Z
  end.

(** The integer nearest to [x], the even one of the two at a tie. *)
Definition round_even (x : Q) : Z :=
  let f := Qfloor x in
  let d := (x - inject_Z f)%Q in
  if Qle_bool d (1 # 2)
  then (if Qeq_bool d (1 # 2) then (if Z.even f then f else f + 1)%Z else f)
  else (f + 1)%Z.

Definition fl64_pos (x : Q) : Q :=
  let xd := scale_down 971 x 1 in
  let ys := scale 1074 (fst xd) 1 in
  Qred (inject_Z (round_even (fst ys)) * inject_Z (snd xd)
        / inject_Z (snd ys))%Q.

Definition fl64 (x : Q) : Q :=
  if Qle_bool 0 x then fl64_pos x else Qred (- fl64_pos (- x))%Q.

(** The unit roundoff of binary64 and half its smallest subnormal. *)
Definition eps64 : Q := (/ inject_Z (2 ^ 53))%Q.
Definition eta64 : Q := (/ inject_Z (2 ^ 1075))%Q.

(** [fl] rounds the numbers between 0 and 1 with relative error [eps] at
    most, or absolute error [eta] at most where they are too small for
    that. *)
Definition rounds (fl : Q -> Q) (eps eta : Q) : Prop :=
  (0 <= eps)%Q /\ (0 <= eta)%Q
  /\ forall x, (0 <= x <= 1)%Q -> (Qabs (fl x - x) <= eps * x + eta)%Q.

(** [f] applied to every value of a dict. *)
Definition map_values {V W : Type} (f : V -> W) (d : dict V) : dict W :=
  map (fun kv => (fst kv, f (snd kv))) d.

(** A table of probabilities with every entry rounded. *)
Definition round_table (fl : Q -> Q) (t : table Q) : table Q :=
  match t with
  | PlainDict d => PlainDict (map_values fl d)
  | SM d u => SM (map_values fl d) u
  end.

Definition round_table2 (fl : Q -> Q) (t : table (table Q))
  : table (table Q) :=
  match t with
  | PlainDict d => PlainDict (map_values (round_table fl) d)
  | SM d u => SM (map_values (round_table fl) d) u
  end.

(** The numbers of [l], added exactly, are within [tol] of 1. *)
Definition near_one (tol : Q) (l : list Q) : Prop :=
  (Qabs (sum_Q l - 1) <= tol)%Q.

(** The distance from 1 that the rounding of [k] quotients allows. *)
Definition tolerance (eps eta : Q) (k : nat) : Q :=
  (eps + inject_Z (Z.of_nat k) * eta)%Q.

(** No stored count is negative. *)
Definition nonneg_counts (d : dict Z) : Prop :=
  forall k c, In (k, c) d -> (0 <= c)%Z.

Definition nonneg_rows (t : table (table Z)) : Prop :=
  forall a row, In (a, row) (items t) -> nonneg_counts (items row).

(** The counts of every row add up to more than 0. *)
Definition positive_row_sums (t : table (table Z)) : Prop :=
  forall a row, In (a, row) (items t) ->
                (0 < Probabilities.sum_Z (values (items row)))%Z.

(** The unknown token is a key of the table and of each of its rows. *)
Definition unk_everywhere {V : Type} (u : string) (t : table (table V))
  : Prop :=
  contains u (items t) = true
  /\ forall a row, In (a, row) (items t) -> contains u (items row) = true.

(** What a function of [FloatProbabilities] returns is what the function of
    [Probabilities] returns, every entry rounded; it raises what that one
    raises. *)
Definition rounded (fl : Q -> Q)
    (r : result (table Q * table (table Q)))
  : result (table Q * table (table Q)) :=
  pc <- r ;; Ok (round_table fl (fst pc), round_table2 fl (snd pc)).


(** The rows that the program stores for a count table whose rows have
    positive sums: one for each row of counts, under its key. *)
Definition stored_rows (fl : Q -> Q) (u : string) (counts : table (table Z))
  : dict (table Q) :=
  map (fun kv => (fst kv, SM (map_values fl (norm_row (items (snd kv)))) u))
      (items counts).

(** * Properties *)

(** ** Dictionaries *)

Lemma get_upd_same {V : Type} (k : string) (f : option V -> V) (d : dict V) :
  get k (upd k f d) = Some (f (get k d)).
Proof.
  induction d as [|[k' v] d IH]; simpl.
  - now rewrite String.eqb_refl.
  - destruct (String.eqb k k') eqn:E; simpl; rewrite E; auto.
Qed.

Lemma get_upd_other {V : Type} (k k' : string) (f : option V -> V) (d : dict V) :
  k' <> k -> get k' (upd k f d) = get k' d.
Proof.
  intros Hne. induction d as [|[k0 v] d IH]; simpl.
  - destruct (String.eqb_spec k' k); congruence.
  - destruct (String.eqb_spec k k0); simpl.
    + subst k0. destruct (String.eqb_spec k' k); congruence.
    + now rewrite IH.
Qed.

Lemma get_map_snd {V W : Type} (g : V -> W) (k : string) (d : dict V) :
  get k (map (fun kv => (fst kv, g (snd kv))) d) = option_map g (get k d).
Proof.
  induction d as [|[k' v] d IH]; simpl; auto.
  destruct (String.eqb k k'); auto.
Qed.

(** ** The window likelihood (C1) *)

(** C1: on the window [A, B] with start and end tokens disabled, both variants
    of compute_likelihood_window return prior(A) * trans(B, A) = 1/6: the loop
    reads window[i - 1] and window[i] with i starting at 0, so it pairs the
    last command with the first.  The product the specification describes,
    prior(A) * trans(A, B), is 1/8. *)
Theorem C1_window_likelihood_pairs_last_with_first :
  forall root : Q -> positive -> Q,
    CmdsParamsOnly.compute_likelihood_window root window_AB prior_probs
      trans_probs param_cond_cmd_probs false false None None = Ok (Fl (1 # 6))
    /\ CmdsParamsOnly.spec_likelihood_window root window_AB prior_probs
         trans_probs param_cond_cmd_probs = Ok (Fl (1 # 8))
    /\ CmdsParamsValues.compute_likelihood_window root window_AB_values
         prior_probs trans_probs param_cond_cmd_probs value_cond_param_probs
         ["p"%string] false false None None = Ok (Fl (1 # 6))
    /\ CmdsParamsValues.spec_likelihood_window root window_AB_values
         prior_probs trans_probs param_cond_cmd_probs value_cond_param_probs
         ["p"%string] = Ok (Fl (1 # 8))
    /\ ~ (1 # 6 == 1 # 8)%Q.
Proof.
  intros root. repeat split; try reflexivity.
  unfold Qeq; simpl. discriminate.
Qed.

(** ** The geometric mean over an empty row (C4) *)

(** C4: when the row of the command is empty and the params are not, the
    parameter-only variant raises ZeroDivisionError under use_geo_mean (it
    computes 1 / len(ref) unguarded), while the value-aware variant, which
    tests k > 0, returns the un-normalized product, here the empty product 1. *)
Theorem C4_empty_row_geo_mean :
  forall (root : Q -> positive -> Q) (cmd : string) (prms : list string)
         (params_with_vals : dict string)
         (probs value_probs : table (table Q)) (ref : table Q)
         (modellable : list string),
    getitem probs cmd = Ok ref ->
    items ref = [] ->
    prms <> [] ->
    params_with_vals <> [] ->
    CmdsParamsOnly.compute_prob_setofparams_given_cmd root cmd prms probs true
      = Raise ZeroDivisionError
    /\ CmdsParamsValues.compute_prob_setofparams_given_cmd root cmd
         params_with_vals probs value_probs modellable true = Ok 1%Q.
Proof.
  intros root cmd prms pv probs vprobs ref modellable Hget Hempty Hp Hpv.
  split.
  - unfold CmdsParamsOnly.compute_prob_setofparams_given_cmd.
    destruct prms as [|p prms]; [congruence|]. simpl.
    rewrite Hget. simpl. rewrite Hempty. reflexivity.
  - unfold CmdsParamsValues.compute_prob_setofparams_given_cmd.
    destruct pv as [|p pv]; [congruence|]. simpl.
    rewrite Hget. simpl. rewrite Hempty. reflexivity.
Qed.

Lemma C4_empty_row_geo_mean_witness :
  CmdsParamsOnly.compute_prob_setofparams_given_cmd approx_root "c"
    ["p"%string] empty_row_probs true = Raise ZeroDivisionError
  /\ CmdsParamsValues.compute_prob_setofparams_given_cmd approx_root "c"
       [("p", "v")]%string empty_row_probs value_cond_param_probs [] true
     = Ok 1%Q.
Proof.
  apply (@C4_empty_row_geo_mean approx_root "c" ["p"%string]
           [("p", "v")]%string empty_row_probs value_cond_param_probs
           (PlainDict []) []).
  - reflexivity.
  - reflexivity.
  - discriminate.
  - discriminate.
Defined.

(** ** The StateMatrix lookup (C8) *)

(** C8: for a StateMatrix T built with unknown token u, a present key gives the
    stored value and an absent key gives the value under u; in a nested table
    T[k1][k2] is T[k1][u] when k1 is present and k2 is absent from its row,
    and T[u][u] when k1 is absent and k2 is absent from the row of u. *)
Theorem C8_state_matrix_fallback :
  forall (V : Type) (u : string),
    (forall (states : dict V) (T : table V),
        StateMatrix states u = Ok T ->
        (forall k v, get k states = Some v -> getitem T k = Ok v)
        /\ (exists v, getitem T u = Ok v
                      /\ forall k, get k states = None -> getitem T k = Ok v))
    /\ (forall (states : dict (dict V)) (T : table (table V)),
          StateMatrix2 states u = Ok T ->
          (forall k1 k2 row v,
              get k1 states = Some row -> get k2 row = Some v ->
              getitem2 T k1 k2 = Ok v)
          /\ (forall k1 k2 row,
                 get k1 states = Some row -> get k2 row = None ->
                 exists v, getitem2 T k1 u = Ok v /\ getitem2 T k1 k2 = Ok v)
          /\ (exists v, getitem2 T u u = Ok v
                        /\ forall k1 k2 urow,
                            get k1 states = None ->
                            get u states = Some urow -> get k2 urow = None ->
                            getitem2 T k1 k2 = Ok v)).
Proof.
  intros V u. split.
  - intros states T HT. unfold StateMatrix in HT.
    destruct (negb (Nat.eqb (List.length states) 0)); simpl in HT; [|discriminate].
    unfold contains in HT. destruct (get u states) as [vu|] eqn:Hu;
      simpl in HT; [|discriminate].
    injection HT as <-. split.
    + intros k v Hk. simpl. now rewrite Hk.
    + exists vu. split.
      * simpl. now rewrite Hu.
      * intros k Hk. simpl. now rewrite Hk, Hu.
  - intros states T HT. unfold StateMatrix2 in HT.
    destruct (negb (Nat.eqb (List.length states) 0)); simpl in HT; [|discriminate].
    unfold contains at 1 in HT. destruct (get u states) as [urow|] eqn:Hu;
      simpl in HT; [|discriminate].
    destruct (forallb _ states) eqn:Hall; simpl in HT; [|discriminate].
    injection HT as <-.
    assert (Hrows : forall k row, get k states = Some row ->
                                  exists v, get u row = Some v).
    { intros k row Hk.
      assert (Hin : In (k, row) states).
      { clear - Hk. induction states as [|[k' r] d IH]; simpl in *; [discriminate|].
        destruct (String.eqb_spec k k').
        - injection Hk as ->. subst. now left.
        - right. auto. }
      rewrite forallb_forall in Hall. specialize (Hall _ Hin). simpl in Hall.
      unfold contains in Hall. destruct (get u row) as [v|]; [eauto|discriminate]. }
    split; [|split].
    + intros k1 k2 row v Hk1 Hk2. unfold getitem2. simpl.
      rewrite (get_map_snd (fun r => SM r u)), Hk1. simpl. now rewrite Hk2.
    + intros k1 k2 row Hk1 Hk2.
      destruct (Hrows _ _ Hk1) as [v Hv]. exists v.
      unfold getitem2. simpl. rewrite (get_map_snd (fun r => SM r u)), Hk1. simpl.
      rewrite Hv, Hk2. auto.
    + destruct (Hrows _ _ Hu) as [v Hv]. exists v. split.
      * unfold getitem2. simpl. rewrite (get_map_snd (fun r => SM r u)), Hu. simpl. now rewrite Hv.
      * intros k1 k2 urow' Hk1 Hu' Hk2. injection Hu' as <-.
        unfold getitem2. simpl. rewrite !(get_map_snd (fun r => SM r u)), Hk1, Hu. simpl.
        now rewrite Hk2, Hv.
Qed.

Lemma C8_state_matrix_fallback_witness :
  (exists T : table Z,
      StateMatrix flat_states UNK = Ok T
      /\ getitem T "kjfkjhf" = getitem T UNK)
  /\ (exists T : table (table Z),
         StateMatrix2 nested_states UNK = Ok T
         /\ getitem2 T "kidhf" "kfji" = getitem2 T UNK UNK
         /\ getitem2 T "haha" "kjdff" = getitem2 T "haha" UNK
         /\ getitem2 T "haha" "hehe" = Ok 1%Z).
Proof.
  destruct (C8_state_matrix_fallback Z UNK) as [Hflat Hnested].
  split.
  - eexists. split; [reflexivity|].
    destruct (Hflat flat_states _ eq_refl) as [_ [v [Hu Hk]]].
    rewrite Hu. apply Hk. reflexivity.
  - eexists. split; [reflexivity|].
    destruct (Hnested nested_states _ eq_refl) as [Hpresent [Hrow [v [Hu Hk]]]].
    split; [|split].
    + rewrite Hu. apply (Hk "kidhf" "kfji" [(UNK, 6%Z); ("lol", 78%Z)]);
        reflexivity.
    + destruct (Hrow "haha" "kjdff" [("hehe", 1%Z); (UNK, 4%Z)] eq_refl eq_refl)
        as [v' [H1 H2]].
      now rewrite H1, H2.
    + apply (Hpresent "haha" "hehe" [("hehe", 1%Z); (UNK, 4%Z)]); reflexivity.
Defined.

(** ** The rarest window (C2, C3) *)

Lemma py_lt_irrefl_same (x m : pyfloat) :
  py_lt x m = true -> py_same x m = false.
Proof.
  destruct x as [a|], m as [b|]; simpl; try discriminate.
  intros H. apply negb_true_iff in H.
  destruct (Qeq_bool a b) eqn:E; auto.
  apply Qeq_bool_iff in E.
  assert (Hle : Qle_bool b a = true) by (apply Qle_bool_iff; rewrite E; apply Qle_refl).
  congruence.
Qed.

Lemma py_lt_trans (x y z : pyfloat) :
  py_lt x y = true -> py_lt y z = true -> py_lt x z = true.
Proof.
  destruct x as [a|], y as [b|], z as [c|]; simpl; try discriminate.
  rewrite !negb_true_iff. intros H1 H2.
  destruct (Qle_bool c a) eqn:E; auto.
  apply Qle_bool_iff in E.
  assert (Hbc : (b < c)%Q).
  { apply Qnot_le_lt. intro Hcb. apply Qle_bool_iff in Hcb. congruence. }
  assert (Hba : (b <= a)%Q).
  { apply Qle_trans with c; auto. now apply Qlt_le_weak. }
  assert (Hc : Qle_bool b a = true) by now apply Qle_bool_iff.
  congruence.
Qed.

(** [x < y] is false, [y <= z]: then [x < z] is false, for numbers [y], [z]. *)
Lemma py_lt_false_trans (x : pyfloat) (b c : Q) :
  py_lt x (Fl b) = false -> py_lt (Fl c) (Fl b) = true -> py_lt x (Fl c) = false.
Proof.
  destruct x as [a|]; simpl; auto.
  rewrite negb_false_iff, negb_true_iff. intros H1 H2.
  apply negb_false_iff. apply Qle_bool_iff. apply Qle_bool_iff in H1.
  apply Qle_trans with b; auto.
  apply Qlt_le_weak. apply Qnot_le_lt. intro H. apply Qle_bool_iff in H. congruence.
Qed.

Lemma py_same_sym (x y : pyfloat) : py_same x y = py_same y x.
Proof.
  destruct x as [a|], y as [b|]; simpl; auto.
  destruct (Qeq_bool a b) eqn:E1, (Qeq_bool b a) eqn:E2; auto.
  - apply Qeq_bool_iff in E1. symmetry in E1. apply Qeq_bool_iff in E1. congruence.
  - apply Qeq_bool_iff in E2. symmetry in E2. apply Qeq_bool_iff in E2. congruence.
Qed.

Lemma py_same_refl (x : pyfloat) : py_same x x = true.
Proof. destruct x; simpl; auto. apply Qeq_bool_iff. reflexivity. Qed.

(** [min_from] from a number: the result is a number that nothing in the list
    is below; it is the start value, or it stands in the list after items that
    all differ from it, and is below the start value. *)
Lemma min_from_number (l : list pyfloat) : forall b : Q,
  exists m : Q,
    min_from (Fl b) l = Fl m
    /\ py_lt (Fl b) (Fl m) = false
    /\ (forall x, In x l -> py_lt x (Fl m) = false)
    /\ (m = b
        \/ exists pre post,
            l = pre ++ Fl m :: post
            /\ py_lt (Fl m) (Fl b) = true
            /\ forall y, In y pre -> py_same y (Fl m) = false).
Proof.
  induction l as [|x l IH]; intros b.
  - exists b. simpl. repeat split; auto.
    + apply negb_false_iff. apply Qle_bool_iff. apply Qle_refl.
    + contradiction.
  - simpl. destruct (py_lt x (Fl b)) eqn:E.
    + destruct x as [a|]; [|discriminate].
      destruct (IH a) as [m [Hm [Hb [Hall Hpos]]]].
      exists m. split; [exact Hm|].
      assert (Hmb : py_lt (Fl m) (Fl b) = true \/ m = a).
      { destruct Hpos as [->|[pre [post [_ [Hlt _]]]]]; auto.
        left. eapply py_lt_trans; eauto. }
      assert (Hltmb : py_lt (Fl m) (Fl b) = true)
        by (destruct Hmb as [H| ->]; auto).
      split; [|split].
      * simpl in *. apply negb_false_iff. apply negb_true_iff in Hltmb.
        apply Qle_bool_iff. apply Qlt_le_weak. apply Qnot_le_lt.
        intro H. apply Qle_bool_iff in H. congruence.
      * intros y [<-|Hy]; auto.
      * right. destruct Hpos as [->|[pre [post [Hl [Hlt Hpre]]]]].
        -- exists [], l. repeat split; auto. intros y [].
        -- exists (Fl a :: pre), post. subst l. repeat split; auto.
           intros y [Hy|Hy]; auto. subst y.
           rewrite py_same_sym. now apply py_lt_irrefl_same.
    + destruct (IH b) as [m [Hm [Hb [Hall Hpos]]]].
      exists m. split; [exact Hm|]. split; [exact Hb|]. split.
      * intros y [<-|Hy]; auto.
        destruct Hpos as [->|[pre [post [_ [Hlt _]]]]]; auto.
        eapply py_lt_false_trans; eauto.
      * destruct Hpos as [->|[pre [post [Hl [Hlt Hpre]]]]]; auto.
        right. exists (x :: pre), post. subst l. repeat split; auto.
        intros y [Hy|Hy]; auto. subst y.
        destruct x as [a|]; auto. simpl.
        destruct (Qeq_bool a m) eqn:E1; auto.
        apply Qeq_bool_iff in E1. simpl in E, Hlt.
        apply negb_false_iff in E. apply negb_true_iff in Hlt.
        apply Qle_bool_iff in E. rewrite E1 in E.
        apply Qle_bool_iff in E. congruence.
Qed.

Lemma min_from_nan (l : list pyfloat) : min_from NaN l = NaN.
Proof.
  induction l as [|x l IH]; simpl; auto.
  destruct x; simpl; auto.
Qed.

Lemma py_list_index_skip (pre post : list pyfloat) (m : pyfloat) :
  (forall y, In y pre -> py_same y m = false) ->
  py_list_index (pre ++ m :: post) m = Ok (List.length pre).
Proof.
  induction pre as [|y pre IH]; intros Hpre; simpl.
  - now rewrite py_same_refl.
  - rewrite (Hpre y (or_introl eq_refl)).
    rewrite IH; auto. intros z Hz. apply Hpre. now right.
Qed.

(** [min] and [index] together: the position found holds the value returned,
    nothing in the list compares below it, nothing before it equals it. *)
Lemma py_min_index (l : list pyfloat) :
  l <> [] ->
  exists ind m,
    py_min l = Ok m
    /\ py_list_index l m = Ok ind
    /\ nth_error l ind = Some m
    /\ (forall x, In x l -> py_lt x m = false)
    /\ (forall j x, j < ind -> nth_error l j = Some x -> py_same x m = false).
Proof.
  destruct l as [|x l]; [congruence|]. intros _.
  destruct x as [b|].
  - destruct (min_from_number l b) as [m [Hm [Hb [Hall Hpos]]]].
    destruct Hpos as [->|[pre [post [Hl [Hlt Hpre]]]]].
    + exists 0, (Fl b). simpl py_min. rewrite Hm.
      change (py_list_index (Fl b :: l) (Fl b)) with
        (if py_same (Fl b) (Fl b) then Ok 0
         else i <- py_list_index l (Fl b) ;; Ok (S i)).
      rewrite py_same_refl.
      repeat split; auto.
      * intros y [<-|Hy]; auto.
      * intros j y Hj. inversion Hj.
    + exists (S (List.length pre)), (Fl m). simpl py_min. rewrite Hm.
      assert (Hbm : py_same (Fl b) (Fl m) = false).
      { rewrite py_same_sym. now apply py_lt_irrefl_same. }
      split; [reflexivity|]. split; [|split; [|split]].
      * change (py_list_index (Fl b :: l) (Fl m)) with
          (if py_same (Fl b) (Fl m) then Ok 0
           else i <- py_list_index l (Fl m) ;; Ok (S i)).
        rewrite Hbm. subst l. rewrite py_list_index_skip; auto.
      * simpl. subst l. rewrite nth_error_app2 by lia.
        now rewrite Nat.sub_diag.
      * intros y [<-|Hy]; auto.
      * intros j y Hj Hnth. destruct j as [|j]; simpl in Hnth.
        -- now injection Hnth as <-.
        -- subst l. apply Hpre. rewrite nth_error_app1 in Hnth by lia.
           eapply nth_error_In; eauto.
  - exists 0, NaN. simpl. rewrite min_from_nan. repeat split; auto.
    + intros y _. destruct y; auto.
    + intros j y Hj. inversion Hj.
Qed.

Lemma for_each_snoc {A B : Type} (P : B -> Prop) (l : list A)
    (body : list B -> A -> result (list B)) :
  (forall acc i acc', In i l -> body acc i = Ok acc' ->
                      exists x, acc' = acc ++ [x] /\ P x) ->
  forall acc r, for_each l body acc = Ok r ->
                exists xs, r = acc ++ xs
                           /\ List.length xs = List.length l /\ Forall P xs.
Proof.
  induction l as [|i l IH]; intros Hbody acc r Hr; simpl in Hr.
  - injection Hr as <-. exists []. rewrite app_nil_r. auto.
  - destruct (body acc i) as [acc'|e] eqn:E; simpl in Hr; [|discriminate].
    destruct (Hbody _ _ _ (or_introl eq_refl) E) as [x [-> Hx]].
    destruct (IH (fun acc j acc' Hj => Hbody acc j acc' (or_intror Hj)) _ _ Hr)
      as [xs [-> [Hlen Hall]]].
    exists (x :: xs). rewrite <- app_assoc. simpl. auto.
Qed.

Lemma slice_nonempty {A : Type} (l : list A) (i w : nat) :
  1 <= w -> i + w <= List.length l -> slice l i (i + w) <> [].
Proof.
  intros Hw Hi Hnil. apply (f_equal (@List.length A)) in Hnil.
  unfold slice in Hnil. rewrite length_firstn, length_skipn in Hnil.
  simpl in Hnil. lia.
Qed.

Lemma lik_pow_inv_number (root : Q -> positive -> Q) (lik lik' : pyfloat) (k : nat) :
  CmdsParamsOnly.lik_pow_inv root lik k = Ok lik' ->
  is_number lik -> is_number lik'.
Proof.
  destruct k; simpl; [discriminate|]. intros H Hn. injection H as <-.
  destruct lik; simpl in *; auto.
Qed.

Lemma lik_pow_inv_values_number (root : Q -> positive -> Q) (lik lik' : pyfloat)
    (k : nat) :
  CmdsParamsValues.lik_pow_inv root lik k = Ok lik' ->
  is_number lik -> is_number lik'.
Proof.
  destruct k; simpl; [discriminate|]. intros H Hn. injection H as <-.
  destruct lik; simpl in *; auto.
Qed.

(** A non-empty window has a number for likelihood, when it has one. *)
Lemma compute_likelihood_window_number root window prior trans pcc us ue st et lik :
  CmdsParamsOnly.compute_likelihood_window root window prior trans pcc us ue st et
    = Ok lik ->
  window <> [] -> is_number lik.
Proof.
  unfold CmdsParamsOnly.compute_likelihood_window. intros H Hw.
  destruct window as [|w0 rest]; [congruence|].
  bind_inv H. destruct ue, et; bind_inv H; try discriminate;
    injection H as <-; exact I.
Qed.

Lemma compute_likelihood_window_values_number root window prior trans pcc vcp mp
    us ue st et lik :
  CmdsParamsValues.compute_likelihood_window root window prior trans pcc vcp mp
    us ue st et = Ok lik ->
  window <> [] -> is_number lik.
Proof.
  unfold CmdsParamsValues.compute_likelihood_window. intros H Hw.
  destruct window as [|w0 rest]; [congruence|].
  bind_inv H. destruct ue, et; bind_inv H; try discriminate;
    injection H as <-; exact I.
Qed.

(** The sliding pass gives one likelihood per position, numbers when the
    window length is positive. *)
Lemma windows_in_session_shape root session prior trans pcc w use st et gm liks :
  CmdsParamsOnly.compute_likelihood_windows_in_session root session prior trans
    pcc w use (Some st) (Some et) gm = Ok liks ->
  List.length liks = S (List.length session + (if use then 1 else 0)) - w
  /\ (1 <= w -> Forall is_number liks).
Proof.
  unfold CmdsParamsOnly.compute_likelihood_windows_in_session. intros H.
  set (sess := if use then session ++ [CmdsParamsOnly.mkCmd et []] else session).
  assert (Hsess : List.length sess
                  = List.length session + (if use then 1 else 0)).
  { unfold sess. destruct use; [rewrite length_app; simpl|]; lia. }
  assert (H' : for_each (seq 0 (S (List.length sess) - w))
                 (fun likelihoods i =>
                    lik <- CmdsParamsOnly.compute_likelihood_window root
                             (slice sess i (i + w)) prior trans pcc
                             (if Nat.eqb i 0 then use else false) false
                             (Some st) (Some et) ;;
                    lik <- (if gm then CmdsParamsOnly.lik_pow_inv root lik w
                            else Ok lik) ;;
                    Ok (likelihoods ++ [lik])) [] = Ok liks).
  { unfold sess. destruct use; exact H. }
  clear H. apply (for_each_snoc (fun x => 1 <= w -> is_number x)) in H'.
  - destruct H' as [xs [-> [Hlen Hall]]]. simpl. rewrite Hlen, length_seq, Hsess.
    split; auto. intros Hw. eapply Forall_impl; [|exact Hall]. auto.
  - intros acc i acc' Hi Hb. apply in_seq in Hi. bind_inv Hb.
    injection Hb as <-. eexists. split; [reflexivity|]. intros Hw.
    assert (Hn : is_number a).
    { eapply compute_likelihood_window_number; eauto.
      apply slice_nonempty; auto. lia. }
    destruct gm.
    + eapply lik_pow_inv_number; eauto.
    + now injection E0 as <-.
Qed.

Lemma windows_in_session_values_shape root session prior trans pcc vcp mp w use
    st et gm liks :
  CmdsParamsValues.compute_likelihood_windows_in_session root session prior trans
    pcc vcp mp w use (Some st) (Some et) gm = Ok liks ->
  List.length liks = S (List.length session + (if use then 1 else 0)) - w
  /\ (1 <= w -> Forall is_number liks).
Proof.
  unfold CmdsParamsValues.compute_likelihood_windows_in_session. intros H.
  set (sess := if use then session ++ [CmdsParamsValues.mkCmd et []] else session).
  assert (Hsess : List.length sess
                  = List.length session + (if use then 1 else 0)).
  { unfold sess. destruct use; [rewrite length_app; simpl|]; lia. }
  assert (H' : for_each (seq 0 (S (List.length sess) - w))
                 (fun likelihoods i =>
                    lik <- CmdsParamsValues.compute_likelihood_window root
                             (slice sess i (i + w)) prior trans pcc vcp mp
                             (if Nat.eqb i 0 then use else false) false
                             (Some st) (Some et) ;;
                    lik <- (if gm then CmdsParamsValues.lik_pow_inv root lik w
                            else Ok lik) ;;
                    Ok (likelihoods ++ [lik])) [] = Ok liks).
  { unfold sess. destruct use; exact H. }
  clear H. apply (for_each_snoc (fun x => 1 <= w -> is_number x)) in H'.
  - destruct H' as [xs [-> [Hlen Hall]]]. simpl. rewrite Hlen, length_seq, Hsess.
    split; auto. intros Hw. eapply Forall_impl; [|exact Hall]. auto.
  - intros acc i acc' Hi Hb. apply in_seq in Hi. bind_inv Hb.
    injection Hb as <-. eexists. split; [reflexivity|]. intros Hw.
    assert (Hn : is_number a).
    { eapply compute_likelihood_window_values_number; eauto.
      apply slice_nonempty; auto. lia. }
    destruct gm.
    + eapply lik_pow_inv_values_number; eauto.
    + now injection E0 as <-.
Qed.

Lemma pick_rarest_first_minimum {C : Type} (session : list C) (w : nat)
    (liks : list pyfloat) :
  liks <> [] ->
  exists ind m,
    pick_rarest session w liks = Ok (slice session ind (ind + w), m)
    /\ first_minimum liks ind m.
Proof.
  intros Hne. destruct (py_min_index Hne) as [ind [m [Hmin [Hidx Hfirst]]]].
  exists ind, m. split; [|exact Hfirst].
  unfold pick_rarest. destruct liks as [|x liks]; [congruence|].
  change (Nat.eqb (List.length (x :: liks)) 0) with false. cbv iota.
  rewrite Hmin. cbn [bind]. rewrite Hidx. reflexivity.
Qed.

Lemma first_minimum_least (liks : list pyfloat) (ind : nat) (m : pyfloat) :
  first_minimum liks ind m -> Forall is_number liks -> least_number liks m.
Proof.
  intros [Hnth [Hlow _]] Hall. rewrite Forall_forall in Hall.
  pose proof (Hall _ (nth_error_In _ _ Hnth)) as Hm.
  destruct m as [q|]; [|contradiction]. exists q. split; auto.
  intros x Hx. pose proof (Hall _ Hx) as Hnum. pose proof (Hlow _ Hx) as Hlt.
  destruct x as [y|]; [|contradiction]. exists y. split; auto.
  simpl in Hlt. apply negb_false_iff in Hlt. now apply Qle_bool_iff.
Qed.

(** *** The sliding pass returns on StateMatrix tables *)

Lemma get_Some_In {V : Type} (k : string) (v : V) (d : dict V) :
  get k d = Some v -> In (k, v) d.
Proof.
  induction d as [|[k' v'] d IH]; simpl; [discriminate|].
  destruct (String.eqb_spec k k') as [->|Hne].
  - intros H. injection H as ->. now left.
  - intros H. right. auto.
Qed.

Lemma getitem_sm_ok1 {V : Type} (t : table V) (k : string) :
  sm_ok1 t = true -> exists v, getitem t k = Ok v.
Proof.
  destruct t as [d|d u]; simpl; [discriminate|]. unfold contains. intros H.
  destruct (get k d); eauto. destruct (get u d); eauto. discriminate.
Qed.

Lemma getitem_sm_ok2 {V : Type} (t : table (table V)) (k : string) :
  sm_ok2 t = true -> exists row, getitem t k = Ok row /\ sm_ok1 row = true.
Proof.
  destruct t as [d|d u]; simpl; [discriminate|]. intros H.
  apply andb_true_iff in H. destruct H as [Hu Hall].
  rewrite forallb_forall in Hall. unfold contains in Hu.
  destruct (get k d) as [row|] eqn:E.
  - exists row. split; auto. apply (Hall (k, row)). now apply get_Some_In.
  - destruct (get u d) as [row|] eqn:E2; [|discriminate].
    exists row. split; auto. apply (Hall (u, row)). now apply get_Some_In.
Qed.

Lemma sm_ok1_length {V : Type} (t : table V) :
  sm_ok1 t = true -> exists n, List.length (items t) = S n.
Proof.
  destruct t as [d|d u]; simpl; [discriminate|]. unfold contains.
  destruct d; simpl; [discriminate|eauto].
Qed.

Lemma for_each_total {A S : Type} (l : list A) (body : S -> A -> result S) :
  (forall acc x, In x l -> exists acc', body acc x = Ok acc') ->
  forall acc, exists r, for_each l body acc = Ok r.
Proof.
  induction l as [|x l IH]; intros Hb acc; simpl.
  - eauto.
  - destruct (Hb acc x (or_introl eq_refl)) as [acc' ->]. cbn [bind].
    apply IH. intros acc0 y Hy. apply Hb. now right.
Qed.

Lemma py_nth_total {A : Type} (l : list A) (i : Z) :
  (- Z.of_nat (List.length l) <= i < Z.of_nat (List.length l))%Z ->
  exists x, py_nth l i = Ok x.
Proof.
  intros H. unfold py_nth. cbv zeta.
  set (n := Z.of_nat (List.length l)) in *.
  set (j := if (i <? 0)%Z then (i + n)%Z else i).
  assert (Hj : (0 <= j < n)%Z).
  { unfold j. destruct (Z.ltb_spec i 0); lia. }
  destruct (Z.ltb_spec j 0); [lia|]. destruct (Z.leb_spec n j); [lia|].
  cbn [orb]. destruct (nth_error l (Z.to_nat j)) eqn:E; eauto.
  apply nth_error_None in E. lia.
Qed.

Lemma compute_prob_total root cmd prms pcc :
  sm_ok2 pcc = true ->
  exists q,
    CmdsParamsOnly.compute_prob_setofparams_given_cmd root cmd prms pcc true
    = Ok q.
Proof.
  intros H. unfold CmdsParamsOnly.compute_prob_setofparams_given_cmd.
  destruct (Nat.eqb (List.length prms) 0); eauto.
  destruct (getitem_sm_ok2 pcc cmd H) as [ref [-> Hok]]. cbn [bind].
  destruct (sm_ok1_length ref Hok) as [n ->]. simpl. eauto.
Qed.

Lemma param_step_total pv vcp mp st kv :
  sm_ok2 vcp = true ->
  exists st', CmdsParamsValues.param_step pv vcp mp st kv = Ok st'.
Proof.
  intros H. unfold CmdsParamsValues.param_step.
  destruct st as [prob num]. unfold contains.
  destruct (get (fst kv) pv) as [v|]; eauto.
  destruct (existsb (String.eqb (fst kv)) mp); eauto.
  destruct (getitem_sm_ok2 vcp (fst kv) H) as [row [-> Hrow]]. cbn [bind].
  destruct (getitem_sm_ok1 row v Hrow) as [q ->]. cbn [bind]. eauto.
Qed.

Lemma compute_prob_values_total root cmd pv pcc vcp mp :
  sm_ok2 pcc = true -> sm_ok2 vcp = true ->
  exists q,
    CmdsParamsValues.compute_prob_setofparams_given_cmd root cmd pv pcc vcp mp
      true = Ok q.
Proof.
  intros H Hv. unfold CmdsParamsValues.compute_prob_setofparams_given_cmd.
  destruct (Nat.eqb (List.length pv) 0); eauto.
  destruct (getitem_sm_ok2 pcc cmd H) as [ref [-> Hok]]. cbn [bind].
  destruct (for_each_total (items ref)
              (CmdsParamsValues.param_step pv vcp mp)
              (fun st kv _ => @param_step_total pv vcp mp st kv Hv)
              (1%Q, 0)) as [st ->].
  cbn [bind]. destruct (Nat.ltb 0 _); eauto.
Qed.

Lemma window_step_total root window trans pcc st i :
  sm_ok2 trans = true -> sm_ok2 pcc = true ->
  S i < List.length window ->
  exists st',
    CmdsParamsOnly.window_step root window trans pcc st i = Ok st'.
Proof.
  intros Ht Hp Hi. unfold CmdsParamsOnly.window_step.
  destruct (@py_nth_total _ window (Z.of_nat i - 1)%Z) as [prev ->]; [lia|].
  destruct (@py_nth_total _ window (Z.of_nat i)) as [cur ->]; [lia|].
  cbn [bind].
  destruct (getitem_sm_ok2 trans (CmdsParamsOnly.name prev) Ht)
    as [row [-> Hrow]]. cbn [bind].
  destruct (getitem_sm_ok1 row (CmdsParamsOnly.name cur) Hrow) as [t ->].
  cbn [bind].
  destruct (@compute_prob_total root (CmdsParamsOnly.name cur)
              (CmdsParamsOnly.params cur) pcc Hp) as [q ->].
  cbn [bind]. eauto.
Qed.

Lemma window_step_values_total root window trans pcc vcp mp st i :
  sm_ok2 trans = true -> sm_ok2 pcc = true -> sm_ok2 vcp = true ->
  S i < List.length window ->
  exists st',
    CmdsParamsValues.window_step root window trans pcc vcp mp st i = Ok st'.
Proof.
  intros Ht Hp Hv Hi. unfold CmdsParamsValues.window_step.
  destruct (@py_nth_total _ window (Z.of_nat i - 1)%Z) as [prev ->]; [lia|].
  destruct (@py_nth_total _ window (Z.of_nat i)) as [cur ->]; [lia|].
  cbn [bind].
  destruct (getitem_sm_ok2 trans (CmdsParamsValues.name prev) Ht)
    as [row [-> Hrow]]. cbn [bind].
  destruct (getitem_sm_ok1 row (CmdsParamsValues.name cur) Hrow) as [t ->].
  cbn [bind].
  destruct (@compute_prob_values_total root (CmdsParamsValues.name cur)
              (CmdsParamsValues.params cur) pcc vcp mp Hp Hv) as [q ->].
  cbn [bind]. eauto.
Qed.

(** A non-empty window has a likelihood on StateMatrix tables. *)
Lemma compute_likelihood_window_total root window prior trans pcc us st et :
  window <> [] ->
  sm_ok1 prior = true -> sm_ok2 trans = true -> sm_ok2 pcc = true ->
  exists lik,
    CmdsParamsOnly.compute_likelihood_window root window prior trans pcc
      us false (Some st) (Some et) = Ok lik.
Proof.
  intros Hw Hprior Ht Hp. unfold CmdsParamsOnly.compute_likelihood_window.
  replace (implb us true) with true by (now destruct us). cbn [assert bind implb].
  destruct window as [|w0 rest]; [congruence|].
  destruct (@compute_prob_total root (CmdsParamsOnly.name w0)
              (CmdsParamsOnly.params w0) pcc Hp) as [q ->].
  cbn [bind].
  assert (Hfirst : exists prob,
             match us, Some st with
             | true, Some s =>
                 row <- getitem trans s ;;
                 t <- getitem row (CmdsParamsOnly.name w0) ;;
                 Ok (1 * (t * q))%Q
             | true, None => Raise AssertionError
             | false, _ =>
                 p <- getitem prior (CmdsParamsOnly.name w0) ;;
                 Ok (1 * (p * q))%Q
             end = Ok prob).
  { destruct us.
    - destruct (getitem_sm_ok2 trans st Ht) as [row [-> Hrow]]. cbn [bind].
      destruct (getitem_sm_ok1 row (CmdsParamsOnly.name w0) Hrow) as [t ->].
      cbn [bind]. eauto.
    - destruct (getitem_sm_ok1 prior (CmdsParamsOnly.name w0) Hprior) as [p ->].
      cbn [bind]. eauto. }
  destruct Hfirst as [prob ->]. cbn [bind].
  destruct (for_each_total (seq 0 (List.length rest))
              (CmdsParamsOnly.window_step root (w0 :: rest) trans pcc))
    with (acc := (prob, CmdsParamsOnly.name w0)) as [st' ->].
  { intros acc i Hi. apply in_seq in Hi.
    apply window_step_total; auto. simpl. lia. }
  cbn [bind]. eauto.
Qed.

Lemma compute_likelihood_window_values_total root window prior trans pcc vcp mp
    us st et :
  window <> [] ->
  sm_ok1 prior = true -> sm_ok2 trans = true -> sm_ok2 pcc = true ->
  sm_ok2 vcp = true ->
  exists lik,
    CmdsParamsValues.compute_likelihood_window root window prior trans pcc vcp
      mp us false (Some st) (Some et) = Ok lik.
Proof.
  intros Hw Hprior Ht Hp Hv. unfold CmdsParamsValues.compute_likelihood_window.
  replace (implb us true) with true by (now destruct us). cbn [assert bind implb].
  destruct window as [|w0 rest]; [congruence|].
  destruct (@compute_prob_values_total root (CmdsParamsValues.name w0)
              (CmdsParamsValues.params w0) pcc vcp mp Hp Hv) as [q ->].
  cbn [bind].
  assert (Hfirst : exists prob,
             match us, Some st with
             | true, Some s =>
                 row <- getitem trans s ;;
                 t <- getitem row (CmdsParamsValues.name w0) ;;
                 Ok (1 * (t * q))%Q
             | true, None => Raise AssertionError
             | false, _ =>
                 p <- getitem prior (CmdsParamsValues.name w0) ;;
                 Ok (1 * (p * q))%Q
             end = Ok prob).
  { destruct us.
    - destruct (getitem_sm_ok2 trans st Ht) as [row [-> Hrow]]. cbn [bind].
      destruct (getitem_sm_ok1 row (CmdsParamsValues.name w0) Hrow) as [t ->].
      cbn [bind]. eauto.
    - destruct (getitem_sm_ok1 prior (CmdsParamsValues.name w0) Hprior)
        as [p ->].
      cbn [bind]. eauto. }
  destruct Hfirst as [prob ->]. cbn [bind].
  destruct (for_each_total (seq 0 (List.length rest))
              (CmdsParamsValues.window_step root (w0 :: rest) trans pcc vcp mp))
    with (acc := (prob, CmdsParamsValues.name w0)) as [st' ->].
  { intros acc i Hi. apply in_seq in Hi.
    apply window_step_values_total; auto. simpl. lia. }
  cbn [bind]. eauto.
Qed.

(** The sliding pass returns for a positive window length. *)
Lemma windows_in_session_total root session prior trans pcc w use st et gm :
  1 <= w ->
  sm_ok1 prior = true -> sm_ok2 trans = true -> sm_ok2 pcc = true ->
  exists liks,
    CmdsParamsOnly.compute_likelihood_windows_in_session root session prior
      trans pcc w use (Some st) (Some et) gm = Ok liks.
Proof.
  intros Hw Hprior Ht Hp.
  unfold CmdsParamsOnly.compute_likelihood_windows_in_session.
  set (sess := if use then session ++ [CmdsParamsOnly.mkCmd et []] else session).
  replace (if use then Ok (session ++ [CmdsParamsOnly.mkCmd et []])
           else Ok session) with (Ok sess) by (unfold sess; now destruct use).
  cbn [bind]. apply for_each_total. intros acc i Hi. apply in_seq in Hi.
  destruct (@compute_likelihood_window_total root (slice sess i (i + w)) prior
              trans pcc (if Nat.eqb i 0 then use else false) st et)
    as [lik ->]; auto.
  { apply slice_nonempty; auto. lia. }
  cbn [bind]. destruct gm; cbn [bind]; eauto.
  destruct w as [|w']; [lia|]. cbn [CmdsParamsOnly.lik_pow_inv bind]. eauto.
Qed.

Lemma windows_in_session_values_total root session prior trans pcc vcp mp w use
    st et gm :
  1 <= w ->
  sm_ok1 prior = true -> sm_ok2 trans = true -> sm_ok2 pcc = true ->
  sm_ok2 vcp = true ->
  exists liks,
    CmdsParamsValues.compute_likelihood_windows_in_session root session prior
      trans pcc vcp mp w use (Some st) (Some et) gm = Ok liks.
Proof.
  intros Hw Hprior Ht Hp Hv.
  unfold CmdsParamsValues.compute_likelihood_windows_in_session.
  set (sess := if use then session ++ [CmdsParamsValues.mkCmd et []]
               else session).
  replace (if use then Ok (session ++ [CmdsParamsValues.mkCmd et []])
           else Ok session) with (Ok sess) by (unfold sess; now destruct use).
  cbn [bind]. apply for_each_total. intros acc i Hi. apply in_seq in Hi.
  destruct (@compute_likelihood_window_values_total root (slice sess i (i + w))
              prior trans pcc vcp mp (if Nat.eqb i 0 then use else false) st et)
    as [lik ->]; auto.
  { apply slice_nonempty; auto. lia. }
  cbn [bind]. destruct gm; cbn [bind]; eauto.
  destruct w as [|w']; [lia|]. cbn [CmdsParamsValues.lik_pow_inv bind]. eauto.
Qed.

(** C2: when at least one sliding window exists, rarest_window_session returns
    the slice of the session that starts at the position of the minimum of the
    sliding-window likelihoods, with that minimum; no earlier position holds an
    equal likelihood.  For a positive window length the likelihoods are numbers
    and the one returned is at most each of them.  An exception of the sliding
    pass is passed on; on StateMatrix tables and a positive window length there
    is none. *)
Theorem C2_rarest_window_is_first_minimum :
  forall (root : Q -> positive -> Q) (w : nat) (use : bool) (st et : string)
         (gm : bool),
    (forall (session : list CmdsParamsOnly.Cmd) (prior : table Q)
            (trans pcc : table (table Q)),
        w <= List.length session + (if use then 1 else 0) ->
        match CmdsParamsOnly.compute_likelihood_windows_in_session root session
                prior trans pcc w use (Some st) (Some et) gm with
        | Ok liks =>
            rarest_of session w liks
              (CmdsParamsOnly.rarest_window_session root session prior trans pcc
                 w use st et gm)
        | Raise e =>
            CmdsParamsOnly.rarest_window_session root session prior trans pcc
              w use st et gm = Raise e
            /\ ~ (1 <= w /\ sm_ok1 prior = true /\ sm_ok2 trans = true
                  /\ sm_ok2 pcc = true)
        end)
    /\ (forall (session : list CmdsParamsValues.Cmd) (prior : table Q)
               (trans pcc vcp : table (table Q)) (mp : list string),
           w <= List.length session + (if use then 1 else 0) ->
           match CmdsParamsValues.compute_likelihood_windows_in_session root
                   session prior trans pcc vcp mp w use (Some st) (Some et) gm with
           | Ok liks =>
               rarest_of session w liks
                 (CmdsParamsValues.rarest_window_session root session prior trans
                    pcc vcp mp w use st et gm)
           | Raise e =>
               CmdsParamsValues.rarest_window_session root session prior trans
                 pcc vcp mp w use st et gm = Raise e
               /\ ~ (1 <= w /\ sm_ok1 prior = true /\ sm_ok2 trans = true
                     /\ sm_ok2 pcc = true /\ sm_ok2 vcp = true)
           end).
Proof.
  intros root w use st et gm. split.
  - intros session prior trans pcc Hw.
    unfold CmdsParamsOnly.rarest_window_session.
    destruct (CmdsParamsOnly.compute_likelihood_windows_in_session root session
                prior trans pcc w use (Some st) (Some et) gm) as [liks|e] eqn:E.
    + destruct (windows_in_session_shape _ _ _ _ _ _ _ _ _ _ E) as [Hlen Hnum].
      assert (Hne : liks <> []).
      { intros ->. cbn [List.length] in Hlen. lia. }
      destruct (pick_rarest_first_minimum session w Hne)
        as [ind [m [Hpick Hfirst]]].
      exists ind, m. split; [exact Hpick|]. split; [exact Hfirst|].
      intros H1. eapply first_minimum_least; eauto.
    + split; [reflexivity|]. intros [H1 [Hp [Ht Hc]]].
      destruct (@windows_in_session_total root session prior trans pcc w use
                  st et gm H1 Hp Ht Hc) as [liks Hliks].
      congruence.
  - intros session prior trans pcc vcp mp Hw.
    unfold CmdsParamsValues.rarest_window_session.
    destruct (CmdsParamsValues.compute_likelihood_windows_in_session root session
                prior trans pcc vcp mp w use (Some st) (Some et) gm)
      as [liks|e] eqn:E.
    + destruct (windows_in_session_values_shape _ _ _ _ _ _ _ _ _ _ _ _ E)
        as [Hlen Hnum].
      assert (Hne : liks <> []).
      { intros ->. cbn [List.length] in Hlen. lia. }
      destruct (pick_rarest_first_minimum session w Hne)
        as [ind [m [Hpick Hfirst]]].
      exists ind, m. split; [exact Hpick|]. split; [exact Hfirst|].
      intros H1. eapply first_minimum_least; eauto.
    + split; [reflexivity|]. intros [H1 [Hp [Ht [Hc Hv]]]].
      destruct (@windows_in_session_values_total root session prior trans pcc
                  vcp mp w use st et gm H1 Hp Ht Hc Hv) as [liks Hliks].
      congruence.
Qed.

Lemma C2_rarest_window_is_first_minimum_witness :
  2 <= List.length session_ABA + 0
  /\ exists liks,
       CmdsParamsOnly.compute_likelihood_windows_in_session approx_root
         session_ABA prior_probs trans_probs param_cond_cmd_probs 2 false
         (Some START) (Some END_) true = Ok liks
       /\ rarest_of session_ABA 2 liks
            (CmdsParamsOnly.rarest_window_session approx_root session_ABA
               prior_probs trans_probs param_cond_cmd_probs 2 false START END_
               true).
Proof.
  split.
  - simpl. lia.
  - eexists. split; [reflexivity|].
    apply (proj1 (C2_rarest_window_is_first_minimum approx_root 2 false START
                    END_ true) session_ABA prior_probs trans_probs
             param_cond_cmd_probs).
    simpl. lia.
Defined.

(** C3 (as amended): when the session, with the end token appended if
    use_start_end_tokens is set, is shorter than the window length, both
    variants of rarest_window_session return an empty window and NaN. *)
Theorem C3_too_short_session_gives_nan :
  forall (root : Q -> positive -> Q) (w : nat) (use : bool) (st et : string)
         (gm : bool),
    (forall (session : list CmdsParamsOnly.Cmd) (prior : table Q)
            (trans pcc : table (table Q)),
        List.length session + (if use then 1 else 0) < w ->
        CmdsParamsOnly.rarest_window_session root session prior trans pcc
          w use st et gm = Ok ([], NaN))
    /\ (forall (session : list CmdsParamsValues.Cmd) (prior : table Q)
               (trans pcc vcp : table (table Q)) (mp : list string),
           List.length session + (if use then 1 else 0) < w ->
           CmdsParamsValues.rarest_window_session root session prior trans pcc
             vcp mp w use st et gm = Ok ([], NaN)).
Proof.
  intros root w use st et gm. split.
  - intros session prior trans pcc Hw.
    unfold CmdsParamsOnly.rarest_window_session,
      CmdsParamsOnly.compute_likelihood_windows_in_session.
    destruct use; cbn [bind].
    + rewrite length_app. cbn [List.length].
      replace (S (List.length session + 1) - w) with 0 by lia. reflexivity.
    + replace (S (List.length session) - w) with 0 by lia. reflexivity.
  - intros session prior trans pcc vcp mp Hw.
    unfold CmdsParamsValues.rarest_window_session,
      CmdsParamsValues.compute_likelihood_windows_in_session.
    destruct use; cbn [bind].
    + rewrite length_app. cbn [List.length].
      replace (S (List.length session + 1) - w) with 0 by lia. reflexivity.
    + replace (S (List.length session) - w) with 0 by lia. reflexivity.
Qed.

Lemma C3_too_short_session_gives_nan_witness :
  List.length session_ABA + 1 < 5
  /\ CmdsParamsOnly.rarest_window_session approx_root session_ABA prior_probs
       trans_probs param_cond_cmd_probs 5 true START END_ true = Ok ([], NaN).
Proof.
  split.
  - simpl. lia.
  - apply (proj1 (C3_too_short_session_gives_nan approx_root 5 true START END_
                    true)).
    simpl. lia.
Defined.

(** C3 as stated fails with use_start_end_tokens set: the end token is appended
    before the windows are cut, so the empty session has one window of length
    1, and the session [A] one window of length 2; a likelihood is returned. *)
Lemma C3_counterexample_end_token_extends_session :
  CmdsParamsOnly.rarest_window_session approx_root [] prior_probs trans_probs
    param_cond_cmd_probs 1 true START END_ false = Ok ([], Fl (1 # 8))
  /\ CmdsParamsOnly.rarest_window_session approx_root
       [CmdsParamsOnly.mkCmd "A" []] prior_probs trans_probs
       param_cond_cmd_probs 2 true START END_ false
     = Ok ([CmdsParamsOnly.mkCmd "A" []], Fl (1 # 10))
  /\ CmdsParamsValues.rarest_window_session approx_root [] prior_probs
       trans_probs param_cond_cmd_probs value_cond_param_probs ["p"] 1 true
       START END_ false = Ok ([], Fl (1 # 8))
  /\ Ok (@nil CmdsParamsOnly.Cmd, Fl (1 # 8)) <> Ok ([], NaN).
Proof.
  repeat split; try reflexivity. discriminate.
Qed.

(** ** The categorical-value classifier (C9) *)

Lemma for_each_collect {A B : Type} (f : A -> result B) (l : list A) :
  forall acc r,
    for_each l (fun acc x => y <- f x ;; Ok (acc ++ [y])) acc = Ok r ->
    exists ys, r = acc ++ ys /\ Forall2 (fun x y => f x = Ok y) l ys.
Proof.
  induction l as [|x l IH]; intros acc r H; simpl in H.
  - injection H as <-. exists []. rewrite app_nil_r. auto.
  - destruct (f x) as [y|e] eqn:E; simpl in H; [|discriminate].
    destruct (IH _ _ H) as [ys [-> HF]].
    exists (y :: ys). rewrite <- app_assoc. simpl. auto.
Qed.

Lemma for_each_collect_total {A B : Type} (f : A -> result B) (l : list A) :
  (forall x, In x l -> exists y, f x = Ok y) ->
  forall acc,
    exists r, for_each l (fun acc x => y <- f x ;; Ok (acc ++ [y])) acc = Ok r.
Proof.
  induction l as [|x l IH]; intros Hf acc; simpl.
  - eauto.
  - destruct (Hf x (or_introl eq_refl)) as [y Hy]. rewrite Hy. simpl.
    apply IH. intros z Hz. apply Hf. now right.
Qed.

Lemma Forall2_In_r {A B : Type} (R : A -> B -> Prop) (l : list A) (ys : list B) :
  Forall2 R l ys -> forall y, In y ys -> exists x, In x l /\ R x y.
Proof.
  induction 1 as [|x y l ys HR HF IH]; intros z Hz; simpl in Hz.
  - contradiction.
  - destruct Hz as [<-|Hz].
    + exists x. simpl. auto.
    + destruct (IH _ Hz) as [x' [Hx' HR']]. exists x'. simpl. auto.
Qed.

Lemma Forall2_In_l {A B : Type} (R : A -> B -> Prop) (l : list A) (ys : list B) :
  Forall2 R l ys -> forall x, In x l -> exists y, In y ys /\ R x y.
Proof.
  induction 1 as [|x y l ys HR HF IH]; intros z Hz; simpl in Hz.
  - contradiction.
  - destruct Hz as [<-|Hz].
    + exists y. simpl. auto.
    + destruct (IH _ Hz) as [y' [Hy' HR']]. exists y'. simpl. auto.
Qed.

Lemma param_stat_ok (pc : table Z) (p : string) (vals : table Z) (n : Z) :
  getitem pc p = Ok n -> n <> 0%Z ->
  CmdsParamsValues.param_stat pc (p, vals)
  = Ok (p, Z.of_nat (List.length (items vals)), n,
        (inject_Z (100 * Z.of_nat (List.length (items vals))) / inject_Z n)%Q).
Proof.
  intros Hn Hnz. unfold CmdsParamsValues.param_stat. cbn [fst snd].
  rewrite Hn. cbn [bind]. unfold true_div.
  destruct (Z.eqb_spec n 0); [contradiction|]. reflexivity.
Qed.

(** C9 (as amended): when the count of every first-level key of
    param_value_counts is defined and not 0, get_params_to_model_values
    returns exactly the params p with d <= 20, n >= 20 and 100 * d / n <= 10. *)
Theorem C9_modellable_params_thresholds :
  forall (param_counts : table Z) (param_value_counts : table (table Z)),
    (forall p vals, In (p, vals) (items param_value_counts) ->
                    exists n, getitem param_counts p = Ok n /\ n <> 0%Z) ->
    exists l,
      CmdsParamsValues.get_params_to_model_values param_counts param_value_counts
      = Ok l
      /\ forall p, In p l <-> modellable_spec param_counts param_value_counts p.
Proof.
  intros pc pvc Hcounts.
  unfold CmdsParamsValues.get_params_to_model_values.
  destruct (for_each_collect_total (CmdsParamsValues.param_stat pc) (items pvc))
    with (acc := @nil (string * Z * Z * Q)) as [stats Hstats].
  { intros [p vals] Hin. destruct (Hcounts _ _ Hin) as [n [Hn Hnz]].
    rewrite (@param_stat_ok _ _ vals _ Hn Hnz). eauto. }
  rewrite Hstats. cbn [bind]. eexists. split; [reflexivity|].
  apply for_each_collect in Hstats. destruct Hstats as [ys [-> HF]].
  simpl app. intros p. rewrite in_map_iff. split.
  - intros [st [Hp Hst]]. apply filter_In in Hst. destruct Hst as [Hin Hmod].
    destruct (Forall2_In_r HF _ Hin) as [[p' vals] [Hkv Hstat]].
    destruct (Hcounts _ _ Hkv) as [n [Hn Hnz]].
    rewrite (@param_stat_ok _ _ vals _ Hn Hnz) in Hstat. injection Hstat as <-.
    simpl in Hp. subst p'. exists vals, n. split; [exact Hkv|]. split; [exact Hn|].
    unfold CmdsParamsValues.is_modellable in Hmod.
    apply andb_true_iff in Hmod. destruct Hmod as [Hmod Hr].
    apply andb_true_iff in Hmod. destruct Hmod as [Hd H20].
    apply Z.leb_le in Hd. apply Z.leb_le in H20. apply Qle_bool_iff in Hr.
    cbv zeta. auto.
  - intros [vals [n [Hkv [Hn [Hd [H20 Hr]]]]]].
    destruct (Forall2_In_l HF _ Hkv) as [st [Hin Hstat]].
    assert (Hnz : n <> 0%Z) by lia.
    rewrite (@param_stat_ok _ _ vals _ Hn Hnz) in Hstat. injection Hstat as <-.
    eexists. split; [|apply filter_In; split; [exact Hin|]].
    + reflexivity.
    + unfold CmdsParamsValues.is_modellable.
      apply andb_true_iff. split; [apply andb_true_iff; split|].
      * now apply Z.leb_le.
      * now apply Z.leb_le.
      * now apply Qle_bool_iff.
Qed.

Lemma C9_modellable_params_thresholds_witness :
  exists l,
    CmdsParamsValues.get_params_to_model_values some_param_counts
      some_param_value_counts = Ok l
    /\ forall p, In p l
                 <-> modellable_spec some_param_counts some_param_value_counts p.
Proof.
  apply C9_modellable_params_thresholds.
  intros p vals Hin. simpl in Hin.
  destruct Hin as [H|[H|[H|[H|[]]]]]; injection H as <- <-;
    eexists; (split; [reflexivity|discriminate]).
Defined.

(** C9 as stated fails when a param has a count of 0: the ratio 100 * d / n is
    computed for every param before any threshold is tested, and the division
    raises. *)
Lemma C9_counterexample_zero_count :
  CmdsParamsValues.get_params_to_model_values zero_param_counts
    zero_param_value_counts = Raise ZeroDivisionError.
Proof. reflexivity. Qed.


(** ** The loops of the derivation functions *)

Lemma In_keys {V : Type} (k : string) (v : V) (d : dict V) :
  In (k, v) d -> In k (keys d).
Proof. intros H. unfold keys. apply in_map_iff. exists (k, v). auto. Qed.

Lemma get_None_not_In {V : Type} (k : string) (d : dict V) :
  get k d = None <-> ~ In k (keys d).
Proof.
  induction d as [|[k' v] d IH]; simpl.
  - tauto.
  - destruct (String.eqb_spec k k'); split; intros H.
    + discriminate.
    + exfalso. apply H. auto.
    + intros [H'|H']; [congruence|]. now apply IH.
    + apply IH. intros H'. apply H. auto.
Qed.

Lemma nodupb_NoDup (l : list string) : nodupb l = true -> NoDup l.
Proof.
  induction l as [|x l IH]; simpl; intros H.
  - constructor.
  - apply andb_true_iff in H. destruct H as [Hx Hl]. constructor; auto.
    intros Hin. apply negb_true_iff in Hx.
    assert (Hex : existsb (String.eqb x) l = true).
    { apply existsb_exists. exists x. split; auto. apply String.eqb_refl. }
    congruence.
Qed.

Lemma NoDup_In_get {V : Type} (k : string) (v : V) (d : dict V) :
  NoDup (keys d) -> In (k, v) d -> get k d = Some v.
Proof.
  induction d as [|[k' v'] d IH]; simpl; intros Hnd Hin.
  - contradiction.
  - inversion Hnd as [|? ? Hnotin Hnd']; subst.
    destruct Hin as [Heq|Hin].
    + injection Heq as -> ->. now rewrite String.eqb_refl.
    + destruct (String.eqb_spec k k') as [->|Hne].
      * exfalso. apply Hnotin. eapply In_keys; eauto.
      * auto.
Qed.

Lemma upd_fresh {V : Type} (k : string) (f : option V -> V) (d : dict V) :
  ~ In k (keys d) -> upd k f d = d ++ [(k, f None)].
Proof.
  induction d as [|[k' v] d IH]; simpl; intros H; auto.
  destruct (String.eqb_spec k k') as [->|Hne].
  - exfalso. apply H. auto.
  - rewrite IH; auto.
Qed.

Lemma upd_last {V : Type} (k : string) (f : option V -> V) (d : dict V) (v : V) :
  ~ In k (keys d) -> upd k f (d ++ [(k, v)]) = d ++ [(k, f (Some v))].
Proof.
  induction d as [|[k' v'] d IH]; simpl; intros H.
  - now rewrite String.eqb_refl.
  - destruct (String.eqb_spec k k') as [->|Hne].
    + exfalso. apply H. auto.
    + rewrite IH; auto.
Qed.

Lemma for_each_ext_in {A S : Type} (l : list A) (f g : S -> A -> result S) :
  (forall acc x, In x l -> f acc x = g acc x) ->
  forall acc, for_each l f acc = for_each l g acc.
Proof.
  induction l as [|x l IH]; intros Hfg acc; simpl; auto.
  rewrite (Hfg acc x (or_introl eq_refl)).
  destruct (g acc x); simpl; auto.
  apply IH. intros acc' y Hy. apply Hfg. now right.
Qed.

Lemma for_each_map {A B S : Type} (h : A -> B) (l : list A)
    (f : S -> B -> result S) :
  forall acc, for_each (map h l) f acc = for_each l (fun acc x => f acc (h x)) acc.
Proof.
  induction l as [|x l IH]; intros acc; simpl; auto.
  destruct (f acc (h x)); simpl; auto.
Qed.

Lemma setitem2_with_row {V : Type} (acc : dict (dict V)) (a b : string) (q : V)
    (done : dict V) :
  ~ In a (keys acc) -> ~ In b (keys done) ->
  Probabilities.setitem2 a b q (with_row acc a done)
  = with_row acc a (done ++ [(b, q)]).
Proof.
  intros Ha Hb. unfold Probabilities.setitem2, setitem.
  destruct done as [|x done]; simpl with_row.
  - rewrite upd_fresh; auto.
  - rewrite upd_last; auto. simpl row_of. rewrite upd_fresh; auto.
Qed.

Lemma true_div_nonzero (c n : Z) :
  n <> 0%Z -> true_div c n = Ok (inject_Z c / inject_Z n)%Q.
Proof.
  intros Hn. unfold true_div. destruct (Z.eqb_spec n 0); [contradiction|].
  reflexivity.
Qed.

(** The inner loop of [cond_probs] over one row, for a non-zero sum. *)
Lemma cond_row_loop (a : string) (n : Z) (acc : dict (dict Q)) :
  n <> 0%Z -> ~ In a (keys acc) ->
  forall (bs : dict Z) (done : dict Q),
    NoDup (keys bs) ->
    (forall b, In b (keys bs) -> ~ In b (keys done)) ->
    for_each bs
      (fun acc bc =>
         q <- true_div (snd bc) n ;;
         Ok (Probabilities.setitem2 a (fst bc) q acc))
      (with_row acc a done)
    = Ok (with_row acc a
            (done ++ map (fun bc => (fst bc, (inject_Z (snd bc) / inject_Z n)%Q)) bs)).
Proof.
  intros Hn Ha. induction bs as [|[b c] bs IH]; intros done Hnd Hfresh; simpl.
  - now rewrite app_nil_r.
  - rewrite (true_div_nonzero c Hn). cbn [bind].
    inversion Hnd as [|? ? Hb Hnd']; subst.
    rewrite setitem2_with_row; auto.
    + rewrite IH; auto.
      * now rewrite <- app_assoc.
      * intros b' Hb' Hin. unfold keys in Hin. rewrite map_app in Hin.
        apply in_app_or in Hin. destruct Hin as [Hin|[<-|[]]].
        -- apply (Hfresh b'); simpl; auto.
        -- contradiction.
    + apply Hfresh. simpl. auto.
Qed.

Lemma keys_norm_rows_incl (rows : dict (table Z)) (k : string) :
  In k (keys (norm_rows rows)) -> In k (keys rows).
Proof.
  unfold norm_rows, keys. rewrite map_map. simpl. intros H.
  apply in_map_iff in H. destruct H as [kv [<- Hin]].
  apply filter_In in Hin. apply in_map. tauto.
Qed.

(** [cond_probs], when it returns, has written the normalised non-empty rows,
    and the sum of each of them is not 0. *)
Lemma cond_rows_loop (rows : dict (table Z)) :
  forall (acc d : dict (dict Q)),
    NoDup (keys rows) ->
    (forall k, In k (keys rows) -> ~ In k (keys acc)) ->
    (forall kv, In kv rows -> NoDup (keys (items (snd kv)))) ->
    for_each rows
      (fun acc kv =>
         let n := Probabilities.sum_Z (values (items (snd kv))) in
         for_each (items (snd kv))
           (fun acc bc =>
              q <- true_div (snd bc) n ;;
              Ok (Probabilities.setitem2 (fst kv) (fst bc) q acc))
           acc)
      acc = Ok d ->
    d = acc ++ norm_rows rows
    /\ forall kv, In kv rows -> items (snd kv) <> [] ->
                  Probabilities.sum_Z (values (items (snd kv))) <> 0%Z.
Proof.
  induction rows as [|[a row] rows IH]; intros acc d Hnd Hfresh Hrows H.
  - simpl in H. injection H as <-. split; [now rewrite app_nil_r|].
    intros kv [].
  - simpl in H. inversion Hnd as [|? ? Ha Hnd']; subst.
    assert (Hacc : ~ In a (keys acc)) by (apply Hfresh; simpl; auto).
    destruct (items row) as [|bc bs] eqn:Erow.
    + simpl in H. apply IH in H; auto.
      * destruct H as [-> Hsum]. split.
        -- unfold norm_rows. simpl. rewrite Erow. reflexivity.
        -- intros kv [<-|Hin] Hne; [simpl in Hne; congruence|auto].
      * intros k Hk. apply Hfresh. simpl. auto.
      * intros kv Hin. apply Hrows. now right.
    + set (n := Probabilities.sum_Z (values (bc :: bs))) in *.
      destruct (Z.eq_dec n 0) as [Hz|Hnz].
      * simpl in H. unfold true_div in H at 1. rewrite Hz in H. simpl in H.
        discriminate.
      * assert (Hrow : NoDup (keys (bc :: bs))).
        { rewrite <- Erow. apply (Hrows (a, row)). now left. }
        pose proof (@cond_row_loop a n acc Hnz Hacc (bc :: bs) [] Hrow
                      (fun b _ H => H)) as Hloop.
        simpl with_row in Hloop. cbv zeta in H. cbn [fst snd] in H.
        rewrite Hloop in H. cbn [bind app] in H.
        apply IH in H; auto.
        -- destruct H as [-> Hsum]. split.
           ++ unfold norm_rows. cbn [filter snd]. rewrite Erow.
              cbn [List.length Nat.eqb negb map fst snd]. unfold norm_row.
              rewrite Erow. rewrite <- app_assoc. reflexivity.
           ++ intros kv [<-|Hin] Hne; auto. simpl. now rewrite Erow.
        -- intros k Hk Hin. unfold keys in Hin. rewrite map_app in Hin.
           apply in_app_or in Hin. destruct Hin as [Hin|[<-|[]]].
           ++ apply (Hfresh k); simpl; auto.
           ++ contradiction.
        -- intros kv Hin. apply Hrows. now right.
Qed.

Lemma sum_Z_acc (l : list Z) (a : Z) :
  fold_left Z.add l a = (a + Probabilities.sum_Z l)%Z.
Proof.
  unfold Probabilities.sum_Z. revert a.
  induction l as [|x l IH]; intros a; simpl.
  - lia.
  - rewrite IH, (IH x). lia.
Qed.

Lemma wf_table2_NoDup {V : Type} (t : table (table V)) :
  wf_table2 t = true ->
  NoDup (keys (items t))
  /\ forall kv, In kv (items t) -> NoDup (keys (items (snd kv))).
Proof.
  unfold wf_table2, wf_dict. intros H. apply andb_true_iff in H.
  destruct H as [H1 H2]. split.
  - now apply nodupb_NoDup.
  - intros kv Hin. rewrite forallb_forall in H2. apply nodupb_NoDup. auto.
Qed.

(** The transition loop of [compute_cmds_probs] looks the counts up again by
    key; on a dict this gives what [cond_probs] reads from the items. *)
Lemma cmds_trans_loop (seq2 : table (table Z)) :
  wf_table2 seq2 = true ->
  for_each (items seq2)
    (fun acc kv =>
       for_each (keys (items (snd kv)))
         (fun acc current =>
            row <- getitem seq2 (fst kv) ;;
            c <- getitem row current ;;
            row' <- getitem seq2 (fst kv) ;;
            q <- true_div c (Probabilities.sum_Z (values (items row'))) ;;
            Ok (Probabilities.setitem2 (fst kv) current q acc))
         acc)
    [] = Probabilities.cond_probs seq2.
Proof.
  intros Hwf. destruct (wf_table2_NoDup _ Hwf) as [Hnd Hrows].
  unfold Probabilities.cond_probs. apply for_each_ext_in.
  intros acc [a row] Hin. cbn [fst snd]. unfold keys. rewrite for_each_map.
  apply for_each_ext_in. intros acc' [b c] Hbc. cbn [fst snd].
  assert (Ha : getitem seq2 a = Ok row).
  { pose proof (NoDup_In_get _ _ _ Hnd Hin) as Hget.
    destruct seq2; simpl in *; now rewrite Hget. }
  assert (Hb : getitem row b = Ok c).
  { pose proof (NoDup_In_get _ _ _ (Hrows _ Hin) Hbc) as Hget.
    simpl in Hget. destruct row; simpl in *; now rewrite Hget. }
  rewrite Ha. cbn [bind]. rewrite Hb. cbn [bind]. reflexivity.
Qed.

(** ** Dictionaries under update *)

Lemma keys_upd_In {V : Type} (k k' : string) (f : option V -> V) (d : dict V) :
  In k' (keys (upd k f d)) <-> k' = k \/ In k' (keys d).
Proof.
  induction d as [|[k0 v] d IH]; simpl.
  - intuition.
  - destruct (String.eqb_spec k k0) as [->|Hne]; simpl.
    + intuition.
    + rewrite IH. intuition.
Qed.

Lemma NoDup_keys_upd {V : Type} (k : string) (f : option V -> V) (d : dict V) :
  NoDup (keys d) -> NoDup (keys (upd k f d)).
Proof.
  induction d as [|[k0 v] d IH]; simpl; intros H.
  - constructor; [intros []|constructor].
  - inversion H as [|? ? Hk0 Hd]; subst.
    destruct (String.eqb_spec k k0) as [->|Hne]; simpl.
    + constructor; auto.
    + constructor; auto. intros Hin. apply keys_upd_In in Hin.
      destruct Hin as [->|Hin]; [congruence|contradiction].
Qed.

Lemma contains_In {V : Type} (k : string) (d : dict V) :
  contains k d = true <-> In k (keys d).
Proof.
  unfold contains. pose proof (get_None_not_In k d) as H.
  destruct (get k d) eqn:E; split; intros H'; auto.
  - destruct (in_dec string_dec k (keys d)) as [Hin|Hnot]; auto.
    apply H in Hnot. discriminate.
  - discriminate.
  - exfalso. apply H in H'; auto.
Qed.

Lemma upd_not_nil {V : Type} (k : string) (f : option V -> V) (d : dict V) :
  upd k f d <> [].
Proof.
  destruct d as [|[k0 v] d]; simpl; [discriminate|].
  destruct (String.eqb k k0); discriminate.
Qed.

Lemma get_incr2 (a b k : string) (d : dict (dict Z)) :
  get k (incr2 a b d)
  = if String.eqb k a then Some (incr b (row_of (get a d))) else get k d.
Proof.
  unfold incr2. destruct (String.eqb_spec k a) as [->|Hne].
  - now rewrite get_upd_same.
  - now apply get_upd_other.
Qed.

Lemma get_touch {V : Type} (a k : string) (d : dict (dict V)) :
  row_of (get k (touch a d)) = row_of (get k d).
Proof.
  unfold touch. destruct (String.eqb_spec k a) as [->|Hne].
  - rewrite get_upd_same. reflexivity.
  - now rewrite get_upd_other.
Qed.

Lemma count2_incr2 (a b k1 k2 : string) (d : dict (dict Z)) :
  count2 k1 k2 (incr2 a b d)
  = (count2 k1 k2 d
     + if String.eqb k1 a && String.eqb k2 b then 1 else 0)%Z.
Proof.
  unfold count2. rewrite get_incr2.
  destruct (String.eqb_spec k1 a) as [->|Hne]; simpl.
  - unfold incr. destruct (String.eqb_spec k2 b) as [->|Hne2].
    + rewrite get_upd_same. reflexivity.
    + rewrite get_upd_other by auto. lia.
  - lia.
Qed.

Lemma count2_touch (a k1 k2 : string) (d : dict (dict Z)) :
  count2 k1 k2 (touch a d) = count2 k1 k2 d.
Proof. unfold count2. now rewrite get_touch. Qed.

Lemma count2_positive_get (k1 k2 : string) (d : dict (dict Z)) :
  (0 < count2 k1 k2 d)%Z ->
  exists row n, get k1 d = Some row /\ get k2 row = Some n /\ (0 < n)%Z.
Proof.
  unfold count2. intros H.
  destruct (get k1 d) as [row|]; simpl in H; [|lia].
  destruct (get k2 row) as [n|] eqn:E; simpl in H; [|lia].
  eauto.
Qed.

Lemma count2_positive_has_unk (u k : string) (d : dict (dict Z)) :
  (0 < count2 k u d)%Z -> has_unk u d k.
Proof.
  intros H. destruct (count2_positive_get _ _ _ H) as [row [n [Hr [Hn _]]]].
  unfold has_unk, contains. rewrite Hr. simpl. now rewrite Hn.
Qed.

Lemma has_unk_In_keys {V : Type} (u k : string) (d : dict (dict V)) :
  has_unk u d k -> In k (keys d).
Proof.
  unfold has_unk. intros H. apply contains_In. unfold contains.
  destruct (get k d); auto; discriminate.
Qed.

Lemma has_unk_incr2 (u a b k : string) (d : dict (dict Z)) :
  has_unk u d k -> has_unk u (incr2 a b d) k.
Proof.
  unfold has_unk. rewrite get_incr2. intros H.
  destruct (String.eqb_spec k a) as [->|Hne]; auto.
  simpl. apply contains_In. apply keys_upd_In. right. now apply contains_In.
Qed.

Lemma has_unk_incr2_unk (u a : string) (d : dict (dict Z)) :
  has_unk u (incr2 a u d) a.
Proof.
  unfold has_unk. rewrite get_incr2, String.eqb_refl. simpl.
  apply contains_In. apply keys_upd_In. now left.
Qed.

Lemma has_unk_touch {V : Type} (u a k : string) (d : dict (dict V)) :
  has_unk u d k -> has_unk u (touch a d) k.
Proof. unfold has_unk. now rewrite get_touch. Qed.

(** A two-level dict passes the row check of the constructor when every key
    has a row with the unknown token. *)
Lemma forallb_has_unk {V : Type} (u : string) (d : dict (dict V)) :
  NoDup (keys d) ->
  (forall k, In k (keys d) -> has_unk u d k) ->
  forallb (fun kv => contains u (snd kv)) d = true.
Proof.
  intros Hnd Hall. apply forallb_forall. intros [k row] Hin. simpl.
  pose proof (Hall k (In_keys _ _ _ Hin)) as H. unfold has_unk in H.
  now rewrite (NoDup_In_get _ _ _ Hnd Hin) in H.
Qed.

(** ** Folds *)

Lemma fold_left_inv {A S : Type} (P : S -> Prop) (f : S -> A -> S) (l : list A) :
  (forall s x, In x l -> P s -> P (f s x)) ->
  forall s, P s -> P (fold_left f l s).
Proof.
  induction l as [|x l IH]; intros Hf s Hs; simpl; auto.
  apply IH.
  - intros s' y Hy. apply Hf. now right.
  - apply Hf; auto. now left.
Qed.

Lemma fold_left_proj {A S T : Type} (proj : S -> T) (f : S -> A -> S)
    (g : T -> A -> T) :
  (forall s x, proj (f s x) = g (proj s) x) ->
  forall l s, proj (fold_left f l s) = fold_left g l (proj s).
Proof.
  intros Hfg. induction l as [|x l IH]; intros s; simpl; auto.
  now rewrite IH, Hfg.
Qed.

Section FoldRel.
Context {A S : Type} (R : S -> S -> Prop) (f : S -> A -> S).
Hypothesis R_refl : forall s, R s s.
Hypothesis R_trans : forall a b c, R a b -> R b c -> R a c.
Hypothesis R_step : forall s x, R s (f s x).

Lemma fold_left_rel (l : list A) : forall s, R s (fold_left f l s).
Proof.
  induction l as [|x l IH]; intros s; simpl; auto.
  eapply R_trans; [apply R_step|apply IH].
Qed.

(** The step for an item of the list is taken from a state after the start,
    and the end state is after its result. *)
Lemma fold_left_rel_In (l : list A) :
  forall s x, In x l ->
              exists s1, R s s1 /\ R (f s1 x) (fold_left f l s).
Proof.
  induction l as [|y l IH]; intros s x Hx; simpl in *; [contradiction|].
  destruct Hx as [->|Hx].
  - exists s. split; auto. apply fold_left_rel.
  - destruct (IH (f s y) x Hx) as [s1 [H1 H2]]. exists s1. split; auto.
    eapply R_trans; [apply R_step|exact H1].
Qed.
End FoldRel.

(** ** Smoothing of the commands *)

Lemma ext_refl (q : counts2) : ext q q.
Proof. repeat split; auto. intros. lia. Qed.

Lemma ext_trans (a b c : counts2) : ext a b -> ext b c -> ext a c.
Proof.
  intros [H1 [H2 H3]] [H4 [H5 H6]]. repeat split; auto.
  intros k1 k2. specialize (H3 k1 k2). specialize (H6 k1 k2). lia.
Qed.

Lemma incr_keys (k a : string) (d : dict Z) :
  In k (keys d) -> In k (keys (incr a d)).
Proof. intros H. apply keys_upd_In. now right. Qed.

Lemma incr_key_same (a : string) (d : dict Z) : In a (keys (incr a d)).
Proof. apply keys_upd_In. now left. Qed.

Lemma incr2_keys (k a b : string) (d : dict (dict Z)) :
  In k (keys d) -> In k (keys (incr2 a b d)).
Proof. intros H. apply keys_upd_In. now right. Qed.

Lemma incr2_count_le (a b k1 k2 : string) (d : dict (dict Z)) :
  (count2 k1 k2 d <= count2 k1 k2 (incr2 a b d))%Z.
Proof.
  rewrite count2_incr2. destruct (String.eqb k1 a && String.eqb k2 b); lia.
Qed.

Lemma seq_smooth_pair_ext (s e c1 c2 : string) (q : counts2) :
  ext q (seq_smooth_pair s e c1 q c2).
Proof.
  unfold seq_smooth_pair.
  destruct (negb (String.eqb c1 e) && negb (String.eqb c2 s)).
  - repeat split; simpl.
    + intros k H. now apply incr_keys, incr_keys.
    + intros k H. now apply incr2_keys.
    + intros. apply incr2_count_le.
  - apply ext_refl.
Qed.

Lemma seq_smooth_inner_ext (s e c1 : string) (cmds : list string) (q : counts2) :
  ext q (fold_left (seq_smooth_pair s e c1) cmds q).
Proof.
  apply fold_left_rel.
  - apply ext_refl.
  - apply ext_trans.
  - intros. apply seq_smooth_pair_ext.
Qed.

Lemma seq_smooth_ext (s e : string) (cmds : list string) (q : counts2) :
  ext q (seq_smooth s e cmds q).
Proof.
  unfold seq_smooth.
  apply (fold_left_rel ext
           (fun q c1 => fold_left (seq_smooth_pair s e c1) cmds q)).
  - apply ext_refl.
  - apply ext_trans.
  - intros. apply seq_smooth_inner_ext.
Qed.

(** Smoothing leaves a strictly positive count on every pair of the
    vocabulary that does not start at the end token or end at the start
    token, and both commands among the unigram keys. *)
Lemma seq_smooth_positive (s e : string) (cmds : list string) (q : counts2)
    (c1 c2 : string) :
  nonneg2 (snd q) ->
  In c1 cmds -> In c2 cmds -> c1 <> e -> c2 <> s ->
  (0 < count2 c1 c2 (snd (seq_smooth s e cmds q)))%Z
  /\ In c1 (keys (fst (seq_smooth s e cmds q)))
  /\ In c2 (keys (fst (seq_smooth s e cmds q))).
Proof.
  intros Hnn H1 H2 He Hs. unfold seq_smooth.
  destruct (fold_left_rel_In ext
              (fun q c1 => fold_left (seq_smooth_pair s e c1) cmds q)
              ext_refl ext_trans
              (fun q c => seq_smooth_inner_ext s e c cmds q)
              cmds q c1 H1) as [q1 [Hq1 Hend]].
  cbv beta in Hend.
  destruct (fold_left_rel_In ext (seq_smooth_pair s e c1)
              ext_refl ext_trans
              (fun q c => seq_smooth_pair_ext s e c1 c q)
              cmds q1 c2 H2) as [q2 [Hq2 Hin]].
  assert (Hpair : seq_smooth_pair s e c1 q2 c2
                  = (incr c2 (incr c1 (fst q2)), incr2 c1 c2 (snd q2))).
  { unfold seq_smooth_pair. apply String.eqb_neq in He, Hs.
    now rewrite He, Hs. }
  rewrite Hpair in Hin.
  pose proof (ext_trans Hin Hend) as [Hk1 [_ Hc]].
  pose proof (ext_trans Hq1 Hq2) as [_ [_ Hc0]].
  cbn [fst snd] in Hk1, Hc.
  split; [|split].
  - specialize (Hc c1 c2). rewrite count2_incr2, !String.eqb_refl in Hc.
    cbn [andb] in Hc. specialize (Hc0 c1 c2). specialize (Hnn c1 c2). lia.
  - apply Hk1. apply incr_keys, incr_key_same.
  - apply Hk1. apply incr_key_same.
Qed.

(** Smoothing adds rows only for commands of the vocabulary other than the
    end token. *)
Lemma seq_smooth_rows (s e : string) (cmds : list string) (q : counts2) (k : string) :
  In k (keys (snd (seq_smooth s e cmds q))) ->
  In k (keys (snd q)) \/ (In k cmds /\ k <> e).
Proof.
  revert k. unfold seq_smooth.
  apply (fold_left_inv
           (fun q' => forall k, In k (keys (snd q')) ->
                                In k (keys (snd q)) \/ (In k cmds /\ k <> e))).
  - intros q' c1 Hc1 IH.
    apply (fold_left_inv
             (fun q' => forall k, In k (keys (snd q')) ->
                                  In k (keys (snd q)) \/ (In k cmds /\ k <> e)));
      auto.
    intros q2 c2 Hc2 IH2 k. unfold seq_smooth_pair.
    destruct (String.eqb_spec c1 e) as [->|Hne]; simpl; auto.
    destruct (negb (String.eqb c2 s)); simpl; auto.
    intros Hk. apply keys_upd_In in Hk. destruct Hk as [->|Hk]; auto.
  - auto.
Qed.

Lemma seq_smooth_wf (s e : string) (cmds : list string) (q : counts2) :
  wf_counts2 q -> wf_counts2 (seq_smooth s e cmds q).
Proof.
  unfold seq_smooth. apply fold_left_inv. intros q1 c1 _.
  apply fold_left_inv. intros q2 c2 _ [H1 H2]. unfold seq_smooth_pair.
  destruct (negb (String.eqb c1 e) && negb (String.eqb c2 s)); [|split; auto].
  split; simpl; repeat apply NoDup_keys_upd; auto.
Qed.

(** ** Counting of the commands *)

Lemma nonneg2_incr2 (a b : string) (d : dict (dict Z)) :
  nonneg2 d -> nonneg2 (incr2 a b d).
Proof.
  intros H k1 k2. pose proof (incr2_count_le a b k1 k2 d). specialize (H k1 k2).
  lia.
Qed.

Lemma nonneg2_nil : nonneg2 [].
Proof. intros k1 k2. unfold count2. simpl. lia. Qed.

Lemma seq_cmd_inv (st : string * counts2) (n : string) :
  seq_inv (snd st) /\ In (fst st) (keys (fst (snd st))) ->
  seq_inv (snd (seq_cmd st n))
  /\ In (fst (seq_cmd st n)) (keys (fst (snd (seq_cmd st n)))).
Proof.
  intros [[[Hw1 Hw2] [Hnn Hrows]] Hprev]. unfold seq_cmd. cbn [fst snd].
  split; [split; [|split]|].
  - split; cbn [fst snd]; now apply NoDup_keys_upd.
  - now apply nonneg2_incr2.
  - intros k Hk. apply keys_upd_In in Hk. destruct Hk as [->|Hk].
    + now apply incr_keys.
    + apply incr_keys. auto.
  - apply incr_key_same.
Qed.

Lemma seq_session_inv (s e : string) (q : counts2) (names : list string) :
  seq_inv q -> seq_inv (seq_session s e q names).
Proof.
  intros [[Hw1 Hw2] [Hnn Hrows]]. unfold seq_session.
  set (st0 := (s, (incr s (fst q), snd q))).
  assert (H0 : seq_inv (snd st0) /\ In (fst st0) (keys (fst (snd st0)))).
  { unfold st0. cbn [fst snd]. split; [split; [|split]|].
    - split; cbn [fst snd]; auto. now apply NoDup_keys_upd.
    - exact Hnn.
    - intros k Hk. apply incr_keys. auto.
    - apply incr_key_same. }
  pose proof (fold_left_inv
                (fun st => seq_inv (snd st) /\ In (fst st) (keys (fst (snd st))))
                seq_cmd names (fun st n _ H => seq_cmd_inv st n H) st0 H0)
    as [[[Hw1' Hw2'] [Hnn' Hrows']] Hprev].
  cbv zeta. split; [split|split]; cbn [fst snd].
  - now apply NoDup_keys_upd.
  - now apply NoDup_keys_upd.
  - now apply nonneg2_incr2.
  - intros k Hk. apply keys_upd_In in Hk. destruct Hk as [->|Hk].
    + now apply incr_keys.
    + apply incr_keys. auto.
Qed.

Lemma seq_pass_inv (s e : string) (sessions : list (list string)) :
  seq_inv (seq_pass s e sessions).
Proof.
  unfold seq_pass. apply fold_left_inv.
  - intros q names _. apply seq_session_inv.
  - split; [split; constructor|split; [apply nonneg2_nil|intros k []]].
Qed.

(** Without a command named as the end token, the end token has no row. *)
Lemma seq_pass_no_end_row (s e : string) (sessions : list (list string)) :
  s <> e ->
  (forall names, In names sessions -> ~ In e names) ->
  ~ In e (keys (snd (seq_pass s e sessions))).
Proof.
  intros Hse Hnames. unfold seq_pass.
  apply (fold_left_inv (fun q => ~ In e (keys (snd q)))); [|intros []].
  intros q names Hin Hq. unfold seq_session.
  set (st0 := (s, (incr s (fst q), snd q))).
  assert (H : fst (fold_left seq_cmd names st0) <> e
              /\ ~ In e (keys (snd (snd (fold_left seq_cmd names st0))))).
  { apply (fold_left_inv
             (fun st => fst st <> e /\ ~ In e (keys (snd (snd st))))).
    - intros st n Hn [Hp Hk]. unfold seq_cmd. cbn [fst snd]. split.
      + intros ->. exact (Hnames _ Hin Hn).
      + intros H. apply keys_upd_In in H. destruct H as [H|H]; auto.
    - unfold st0. cbn [fst snd]. auto. }
  destruct H as [Hp Hk]. cbv zeta. cbn [fst snd]. intros H.
  apply keys_upd_In in H. destruct H as [H|H]; auto.
Qed.

Lemma keys1_le_refl (q : counts2) : keys1_le q q.
Proof. intros k H. exact H. Qed.

Lemma keys1_le_trans (a b c : counts2) :
  keys1_le a b -> keys1_le b c -> keys1_le a c.
Proof. intros H1 H2 k H. auto. Qed.

Lemma seq_cmd_fold_keys (names : list string) :
  forall st k, In k (keys (fst (snd st))) ->
               In k (keys (fst (snd (fold_left seq_cmd names st)))).
Proof.
  induction names as [|n names IH]; intros st k Hk; simpl; auto.
  apply IH. unfold seq_cmd. cbn [fst snd]. now apply incr_keys.
Qed.

Lemma seq_cmd_fold_names (names : list string) :
  forall st n, In n names ->
               In n (keys (fst (snd (fold_left seq_cmd names st)))).
Proof.
  induction names as [|m names IH]; intros st n Hn; simpl in *; [contradiction|].
  destruct Hn as [->|Hn]; auto.
  apply seq_cmd_fold_keys. unfold seq_cmd. cbn [fst snd]. apply incr_key_same.
Qed.

Lemma seq_session_keys (s e : string) (q : counts2) (names : list string) :
  keys1_le q (seq_session s e q names).
Proof.
  intros k Hk. unfold seq_session. cbv zeta. cbn [fst snd].
  apply incr_keys. apply seq_cmd_fold_keys. cbn [fst snd]. now apply incr_keys.
Qed.

(** Every command of every session is a key of the unigram counts. *)
Lemma seq_pass_names (s e : string) (sessions : list (list string))
    (names : list string) (n : string) :
  In names sessions -> In n names ->
  In n (keys (fst (seq_pass s e sessions))).
Proof.
  intros Hin Hn. unfold seq_pass.
  destruct (fold_left_rel_In keys1_le (seq_session s e) keys1_le_refl
              keys1_le_trans (seq_session_keys s e)
              sessions ([], []) names Hin) as [q1 [_ Hend]].
  apply Hend. unfold seq_session. cbv zeta. cbn [fst snd].
  apply incr_keys. now apply seq_cmd_fold_names.
Qed.

Lemma fold_left_map_arg {A B S : Type} (f : S -> B -> S) (g : A -> B) (l : list A) :
  forall s, fold_left (fun s x => f s (g x)) l s = fold_left f (map g l) s.
Proof. induction l as [|x l IH]; intros s; simpl; auto. Qed.

(** ** The commands part of compute_counts, parameter-only variant *)

Lemma fold_count_param_seq (n : string) ps (c : CmdsParamsOnly.counts) :
  CmdsParamsOnly.seq1_counts (fold_left (CmdsParamsOnly.count_param n) ps c) = CmdsParamsOnly.seq1_counts c
  /\ CmdsParamsOnly.seq2_counts (fold_left (CmdsParamsOnly.count_param n) ps c) = CmdsParamsOnly.seq2_counts c.
Proof.
  apply (fold_left_inv
           (fun c' => CmdsParamsOnly.seq1_counts c' = CmdsParamsOnly.seq1_counts c
                      /\ CmdsParamsOnly.seq2_counts c' = CmdsParamsOnly.seq2_counts c)); auto.
Qed.

Lemma count_cmd_seq (st : string * CmdsParamsOnly.counts) (cmd : CmdsParamsOnly.Cmd) :
  (fst (CmdsParamsOnly.count_cmd st cmd),
   (CmdsParamsOnly.seq1_counts (snd (CmdsParamsOnly.count_cmd st cmd)),
    CmdsParamsOnly.seq2_counts (snd (CmdsParamsOnly.count_cmd st cmd))))
  = seq_cmd (fst st, (CmdsParamsOnly.seq1_counts (snd st), CmdsParamsOnly.seq2_counts (snd st)))
      (CmdsParamsOnly.name cmd).
Proof.
  destruct st as [prev c]. unfold CmdsParamsOnly.count_cmd, seq_cmd. cbn [fst snd].
  destruct (fold_count_param_seq (CmdsParamsOnly.name cmd) (CmdsParamsOnly.params cmd)
              (CmdsParamsOnly.mkCounts (incr (CmdsParamsOnly.name cmd) (CmdsParamsOnly.seq1_counts c))
                 (incr2 prev (CmdsParamsOnly.name cmd) (CmdsParamsOnly.seq2_counts c))
                 (CmdsParamsOnly.param_counts c) (CmdsParamsOnly.cmd_param_counts c)))
    as [-> ->].
  reflexivity.
Qed.

Lemma count_session_seq (s e : string) (c : CmdsParamsOnly.counts)
    (session : list CmdsParamsOnly.Cmd) :
  (CmdsParamsOnly.seq1_counts (CmdsParamsOnly.count_session s e c session),
   CmdsParamsOnly.seq2_counts (CmdsParamsOnly.count_session s e c session))
  = seq_session s e (CmdsParamsOnly.seq1_counts c, CmdsParamsOnly.seq2_counts c)
      (map CmdsParamsOnly.name session).
Proof.
  unfold CmdsParamsOnly.count_session, seq_session.
  pose proof (fold_left_proj
                (fun st : string * CmdsParamsOnly.counts =>
                   (fst st, (CmdsParamsOnly.seq1_counts (snd st), CmdsParamsOnly.seq2_counts (snd st))))
                CmdsParamsOnly.count_cmd
                (fun st cmd => seq_cmd st (CmdsParamsOnly.name cmd))
                count_cmd_seq session
                (s, CmdsParamsOnly.mkCounts (incr s (CmdsParamsOnly.seq1_counts c))
                      (CmdsParamsOnly.seq2_counts c)
                 (CmdsParamsOnly.param_counts c) (CmdsParamsOnly.cmd_param_counts c))) as H.
  rewrite (fold_left_map_arg seq_cmd CmdsParamsOnly.name) in H.
  cbn [fst snd CmdsParamsOnly.seq1_counts CmdsParamsOnly.seq2_counts] in H.
  destruct (fold_left CmdsParamsOnly.count_cmd session _) as [prev c1].
  cbn [fst snd] in *. rewrite <- H. reflexivity.
Qed.

Lemma counting_pass_seq (sessions : list (list CmdsParamsOnly.Cmd)) (s e : string) :
  (CmdsParamsOnly.seq1_counts (CmdsParamsOnly.counting_pass sessions s e),
   CmdsParamsOnly.seq2_counts (CmdsParamsOnly.counting_pass sessions s e))
  = seq_pass s e (map (map CmdsParamsOnly.name) sessions).
Proof.
  unfold CmdsParamsOnly.counting_pass, seq_pass.
  rewrite (fold_left_proj
             (fun c => (CmdsParamsOnly.seq1_counts c, CmdsParamsOnly.seq2_counts c))
             (CmdsParamsOnly.count_session s e)
             (fun q session => seq_session s e q (map CmdsParamsOnly.name session))
             (count_session_seq s e)).
  apply (fold_left_map_arg (seq_session s e) (map CmdsParamsOnly.name)).
Qed.

Lemma smooth_cmds_seq (s e : string) (cmds : list string) (c : CmdsParamsOnly.counts) :
  (CmdsParamsOnly.seq1_counts (CmdsParamsOnly.smooth_cmds s e cmds c),
   CmdsParamsOnly.seq2_counts (CmdsParamsOnly.smooth_cmds s e cmds c))
  = seq_smooth s e cmds (CmdsParamsOnly.seq1_counts c, CmdsParamsOnly.seq2_counts c).
Proof.
  unfold CmdsParamsOnly.smooth_cmds, seq_smooth.
  apply (fold_left_proj (fun c => (CmdsParamsOnly.seq1_counts c, CmdsParamsOnly.seq2_counts c))).
  intros c1 cmd1.
  apply (fold_left_proj (fun c => (CmdsParamsOnly.seq1_counts c, CmdsParamsOnly.seq2_counts c))).
  intros c2 cmd2. unfold CmdsParamsOnly.smooth_cmd_pair, seq_smooth_pair. cbn [fst snd].
  destruct (negb (String.eqb cmd1 e) && negb (String.eqb cmd2 s)); reflexivity.
Qed.

Lemma smooth_params_seq (u : string) (cmds prms : list string)
    (c : CmdsParamsOnly.counts) :
  CmdsParamsOnly.seq1_counts (CmdsParamsOnly.smooth_params u cmds prms c) = CmdsParamsOnly.seq1_counts c
  /\ CmdsParamsOnly.seq2_counts (CmdsParamsOnly.smooth_params u cmds prms c) = CmdsParamsOnly.seq2_counts c.
Proof.
  unfold CmdsParamsOnly.smooth_params.
  apply (fold_left_inv
           (fun c' => CmdsParamsOnly.seq1_counts c' = CmdsParamsOnly.seq1_counts c
                      /\ CmdsParamsOnly.seq2_counts c' = CmdsParamsOnly.seq2_counts c)); auto.
  intros c1 cmd _ H1.
  apply (fold_left_inv
           (fun c' => CmdsParamsOnly.seq1_counts c' = CmdsParamsOnly.seq1_counts c
                      /\ CmdsParamsOnly.seq2_counts c' = CmdsParamsOnly.seq2_counts c)); auto.
  intros c2 prm _ H2. unfold CmdsParamsOnly.smooth_param.
  destruct (contains prm _ || String.eqb prm u); exact H2.
Qed.

(** The command counts that compute_counts wraps are the smoothed counts of
    the names of the sessions. *)
Lemma smoothed_counts_seq (sessions : list (list CmdsParamsOnly.Cmd)) (s e u : string) :
  (CmdsParamsOnly.seq1_counts (CmdsParamsOnly.smoothed_counts sessions s e u),
   CmdsParamsOnly.seq2_counts (CmdsParamsOnly.smoothed_counts sessions s e u))
  = seq_smooth s e (CmdsParamsOnly.cmds_vocab sessions s e u)
      (seq_pass s e (map (map CmdsParamsOnly.name) sessions)).
Proof.
  unfold CmdsParamsOnly.smoothed_counts, CmdsParamsOnly.cmds_vocab. cbv zeta.
  match goal with
  | |- context [CmdsParamsOnly.smooth_params ?u ?cs ?ps ?c] =>
      destruct (smooth_params_seq u cs ps c) as [-> ->]
  end.
  rewrite smooth_cmds_seq, counting_pass_seq. reflexivity.
Qed.

(** ** The commands part of compute_counts, value-aware variant *)

Lemma fold_count_param_seq_values (n : string) ps (c : CmdsParamsValues.counts) :
  CmdsParamsValues.seq1_counts (fold_left (CmdsParamsValues.count_param n) ps c) = CmdsParamsValues.seq1_counts c
  /\ CmdsParamsValues.seq2_counts (fold_left (CmdsParamsValues.count_param n) ps c) = CmdsParamsValues.seq2_counts c.
Proof.
  apply (fold_left_inv
           (fun c' => CmdsParamsValues.seq1_counts c' = CmdsParamsValues.seq1_counts c
                      /\ CmdsParamsValues.seq2_counts c' = CmdsParamsValues.seq2_counts c)); auto.
Qed.

Lemma count_cmd_seq_values (st : string * CmdsParamsValues.counts) (cmd : CmdsParamsValues.Cmd) :
  (fst (CmdsParamsValues.count_cmd st cmd),
   (CmdsParamsValues.seq1_counts (snd (CmdsParamsValues.count_cmd st cmd)),
    CmdsParamsValues.seq2_counts (snd (CmdsParamsValues.count_cmd st cmd))))
  = seq_cmd (fst st, (CmdsParamsValues.seq1_counts (snd st), CmdsParamsValues.seq2_counts (snd st)))
      (CmdsParamsValues.name cmd).
Proof.
  destruct st as [prev c]. unfold CmdsParamsValues.count_cmd, seq_cmd. cbn [fst snd].
  destruct (fold_count_param_seq_values (CmdsParamsValues.name cmd) (CmdsParamsValues.params cmd)
              (CmdsParamsValues.mkCounts (incr (CmdsParamsValues.name cmd) (CmdsParamsValues.seq1_counts c))
                 (incr2 prev (CmdsParamsValues.name cmd) (CmdsParamsValues.seq2_counts c))
                 (CmdsParamsValues.param_counts c) (CmdsParamsValues.cmd_param_counts c)
                 (CmdsParamsValues.value_counts c) (CmdsParamsValues.param_value_counts c)))
    as [-> ->].
  reflexivity.
Qed.

Lemma count_session_seq_values (s e : string) (c : CmdsParamsValues.counts)
    (session : list CmdsParamsValues.Cmd) :
  (CmdsParamsValues.seq1_counts (CmdsParamsValues.count_session s e c session),
   CmdsParamsValues.seq2_counts (CmdsParamsValues.count_session s e c session))
  = seq_session s e (CmdsParamsValues.seq1_counts c, CmdsParamsValues.seq2_counts c)
      (map CmdsParamsValues.name session).
Proof.
  unfold CmdsParamsValues.count_session, seq_session.
  pose proof (fold_left_proj
                (fun st : string * CmdsParamsValues.counts =>
                   (fst st, (CmdsParamsValues.seq1_counts (snd st), CmdsParamsValues.seq2_counts (snd st))))
                CmdsParamsValues.count_cmd
                (fun st cmd => seq_cmd st (CmdsParamsValues.name cmd))
                count_cmd_seq_values session
                (s, CmdsParamsValues.mkCounts (incr s (CmdsParamsValues.seq1_counts c))
                      (CmdsParamsValues.seq2_counts c)
                 (CmdsParamsValues.param_counts c) (CmdsParamsValues.cmd_param_counts c)
                 (CmdsParamsValues.value_counts c) (CmdsParamsValues.param_value_counts c))) as H.
  rewrite (fold_left_map_arg seq_cmd CmdsParamsValues.name) in H.
  cbn [fst snd CmdsParamsValues.seq1_counts CmdsParamsValues.seq2_counts] in H.
  destruct (fold_left CmdsParamsValues.count_cmd session _) as [prev c1].
  cbn [fst snd] in *. rewrite <- H. reflexivity.
Qed.

Lemma counting_pass_seq_values (sessions : list (list CmdsParamsValues.Cmd)) (s e : string) :
  (CmdsParamsValues.seq1_counts (CmdsParamsValues.counting_pass sessions s e),
   CmdsParamsValues.seq2_counts (CmdsParamsValues.counting_pass sessions s e))
  = seq_pass s e (map (map CmdsParamsValues.name) sessions).
Proof.
  unfold CmdsParamsValues.counting_pass, seq_pass.
  rewrite (fold_left_proj
             (fun c => (CmdsParamsValues.seq1_counts c, CmdsParamsValues.seq2_counts c))
             (CmdsParamsValues.count_session s e)
             (fun q session => seq_session s e q (map CmdsParamsValues.name session))
             (count_session_seq_values s e)).
  apply (fold_left_map_arg (seq_session s e) (map CmdsParamsValues.name)).
Qed.

Lemma smooth_cmds_seq_values (s e : string) (cmds : list string) (c : CmdsParamsValues.counts) :
  (CmdsParamsValues.seq1_counts (CmdsParamsValues.smooth_cmds s e cmds c),
   CmdsParamsValues.seq2_counts (CmdsParamsValues.smooth_cmds s e cmds c))
  = seq_smooth s e cmds (CmdsParamsValues.seq1_counts c, CmdsParamsValues.seq2_counts c).
Proof.
  unfold CmdsParamsValues.smooth_cmds, seq_smooth.
  apply (fold_left_proj (fun c => (CmdsParamsValues.seq1_counts c, CmdsParamsValues.seq2_counts c))).
  intros c1 cmd1.
  apply (fold_left_proj (fun c => (CmdsParamsValues.seq1_counts c, CmdsParamsValues.seq2_counts c))).
  intros c2 cmd2. unfold CmdsParamsValues.smooth_cmd_pair, seq_smooth_pair. cbn [fst snd].
  destruct (negb (String.eqb cmd1 e) && negb (String.eqb cmd2 s)); reflexivity.
Qed.

Lemma smooth_params_seq_values (u : string) (cmds prms : list string)
    (c : CmdsParamsValues.counts) :
  CmdsParamsValues.seq1_counts (CmdsParamsValues.smooth_params u cmds prms c) = CmdsParamsValues.seq1_counts c
  /\ CmdsParamsValues.seq2_counts (CmdsParamsValues.smooth_params u cmds prms c) = CmdsParamsValues.seq2_counts c.
Proof.
  unfold CmdsParamsValues.smooth_params.
  apply (fold_left_inv
           (fun c' => CmdsParamsValues.seq1_counts c' = CmdsParamsValues.seq1_counts c
                      /\ CmdsParamsValues.seq2_counts c' = CmdsParamsValues.seq2_counts c)); auto.
  intros c1 cmd _ H1.
  apply (fold_left_inv
           (fun c' => CmdsParamsValues.seq1_counts c' = CmdsParamsValues.seq1_counts c
                      /\ CmdsParamsValues.seq2_counts c' = CmdsParamsValues.seq2_counts c)); auto.
  intros c2 prm _ H2. unfold CmdsParamsValues.smooth_param.
  destruct (contains prm _ || String.eqb prm u); exact H2.
Qed.

Lemma smooth_values_seq_values (u : string) (prms vals : list string)
    (c : CmdsParamsValues.counts) :
  CmdsParamsValues.seq1_counts (CmdsParamsValues.smooth_values u prms vals c)
  = CmdsParamsValues.seq1_counts c
  /\ CmdsParamsValues.seq2_counts (CmdsParamsValues.smooth_values u prms vals c)
     = CmdsParamsValues.seq2_counts c.
Proof.
  unfold CmdsParamsValues.smooth_values.
  apply (fold_left_inv
           (fun c' => CmdsParamsValues.seq1_counts c' = CmdsParamsValues.seq1_counts c
                      /\ CmdsParamsValues.seq2_counts c'
                         = CmdsParamsValues.seq2_counts c)); auto.
  intros c1 prm _ H1.
  apply (fold_left_inv
           (fun c' => CmdsParamsValues.seq1_counts c' = CmdsParamsValues.seq1_counts c
                      /\ CmdsParamsValues.seq2_counts c'
                         = CmdsParamsValues.seq2_counts c)); auto.
  intros c2 val _ H2. unfold CmdsParamsValues.smooth_value.
  destruct (contains val _ || String.eqb val u); exact H2.
Qed.

(** The command counts that compute_counts wraps are the smoothed counts of
    the names of the sessions. *)
Lemma smoothed_counts_seq_values (sessions : list (list CmdsParamsValues.Cmd)) (s e u : string) :
  (CmdsParamsValues.seq1_counts (CmdsParamsValues.smoothed_counts sessions s e u),
   CmdsParamsValues.seq2_counts (CmdsParamsValues.smoothed_counts sessions s e u))
  = seq_smooth s e (CmdsParamsValues.cmds_vocab sessions s e u)
      (seq_pass s e (map (map CmdsParamsValues.name) sessions)).
Proof.
  unfold CmdsParamsValues.smoothed_counts, CmdsParamsValues.cmds_vocab. cbv zeta.
  match goal with
  | |- context [CmdsParamsValues.smooth_values ?u ?ps ?vs ?c] =>
      destruct (smooth_values_seq_values u ps vs c) as [-> ->]
  end.
  match goal with
  | |- context [CmdsParamsValues.smooth_params ?u ?cs ?ps ?c] =>
      destruct (smooth_params_seq_values u cs ps c) as [-> ->]
  end.
  rewrite smooth_cmds_seq_values, counting_pass_seq_values. reflexivity.
Qed.

(** ** Smoothing coverage (C6) *)

Lemma positive_bigram_wrapped (d : dict (dict Z)) (u : string)
    (T : table (table Z)) (c1 c2 : string) :
  StateMatrix2 d u = Ok T ->
  (0 < count2 c1 c2 d)%Z ->
  positive_bigram T c1 c2.
Proof.
  intros HT Hpos. unfold StateMatrix2 in HT. bind_inv HT. injection HT as <-.
  destruct (count2_positive_get _ _ _ Hpos) as [row [n [Hr [Hn Hlt]]]].
  exists (SM row u), n. simpl.
  rewrite (get_map_snd (fun r => SM r u)), Hr. auto.
Qed.

(** C6: in the bigram table that compute_counts returns, every ordered pair
    (c1, c2) of the vocabulary (the commands counted, with the start and end
    tokens they bring, plus the unknown token) with c1 other than the end
    token and c2 other than the start token has a stored count above 0. *)
Theorem C6_smoothing_covers_vocabulary_pairs :
  forall (s e u c1 c2 : string),
    c1 <> e -> c2 <> s ->
    (forall (sessions : list (list CmdsParamsOnly.Cmd))
            (seq1 prm : table Z) (seq2 cmd_prm : table (table Z)),
        CmdsParamsOnly.compute_counts sessions s e u
        = Ok (seq1, seq2, prm, cmd_prm) ->
        In c1 (CmdsParamsOnly.cmds_vocab sessions s e u) ->
        In c2 (CmdsParamsOnly.cmds_vocab sessions s e u) ->
        positive_bigram seq2 c1 c2)
    /\ (forall (sessions : list (list CmdsParamsValues.Cmd))
               (seq1 prm val : table Z)
               (seq2 cmd_prm prm_val : table (table Z)),
           CmdsParamsValues.compute_counts sessions s e u
           = Ok (seq1, seq2, prm, cmd_prm, val, prm_val) ->
           In c1 (CmdsParamsValues.cmds_vocab sessions s e u) ->
           In c2 (CmdsParamsValues.cmds_vocab sessions s e u) ->
           positive_bigram seq2 c1 c2).
Proof.
  intros s e u c1 c2 He Hs. split.
  - intros sessions seq1 prm seq2 cmd_prm H H1 H2.
    unfold CmdsParamsOnly.compute_counts in H. cbv zeta in H. bind_inv H.
    injection H as <- <- <- <-.
    eapply positive_bigram_wrapped; [eassumption|].
    pose proof (f_equal snd (smoothed_counts_seq sessions s e u)) as Heq.
    cbn [snd] in Heq. rewrite Heq.
    apply seq_smooth_positive; auto. apply seq_pass_inv.
  - intros sessions seq1 prm val seq2 cmd_prm prm_val H H1 H2.
    unfold CmdsParamsValues.compute_counts in H. cbv zeta in H. bind_inv H.
    injection H as <- <- <- <- <- <-.
    eapply positive_bigram_wrapped; [eassumption|].
    pose proof (f_equal snd (smoothed_counts_seq_values sessions s e u)) as Heq.
    cbn [snd] in Heq. rewrite Heq.
    apply seq_smooth_positive; auto. apply seq_pass_inv.
Qed.

Lemma C6_smoothing_covers_vocabulary_pairs_witness :
  "B" <> END_ /\ UNK <> START
  /\ exists seq1 seq2 prm cmd_prm,
       CmdsParamsOnly.compute_counts training START END_ UNK
       = Ok (seq1, seq2, prm, cmd_prm)
       /\ In "B" (CmdsParamsOnly.cmds_vocab training START END_ UNK)
       /\ In UNK (CmdsParamsOnly.cmds_vocab training START END_ UNK)
       /\ positive_bigram seq2 "B" UNK.
Proof.
  split; [discriminate|]. split; [discriminate|].
  do 4 eexists. split; [reflexivity|].
  split; [simpl; tauto|]. split; [simpl; tauto|].
  eapply (proj1 (@C6_smoothing_covers_vocabulary_pairs START END_ UNK "B" UNK
                   ltac:(discriminate) ltac:(discriminate)) training).
  - reflexivity.
  - simpl; tauto.
  - simpl; tauto.
Defined.

(** ** The empty list of sessions (C5) *)

(** C5 (as amended): with no sessions, the vocabulary over which the commands
    are smoothed is the unknown token alone; when it differs from the start
    and end tokens, compute_counts returns tables that hold the unknown token
    only. *)
Theorem C5_no_sessions_vocabulary_is_unknown_only :
  forall s e u : string,
    u <> s -> u <> e ->
    CmdsParamsOnly.cmds_vocab [] s e u = [u]
    /\ CmdsParamsOnly.compute_counts [] s e u
       = Ok (SM [(u, 2%Z)] u, SM [(u, SM [(u, 1%Z)] u)] u,
             SM [(u, 1%Z)] u, SM [(u, SM [(u, 1%Z)] u)] u)
    /\ CmdsParamsValues.cmds_vocab [] s e u = [u]
    /\ CmdsParamsValues.compute_counts [] s e u
       = Ok (SM [(u, 2%Z)] u, SM [(u, SM [(u, 1%Z)] u)] u,
             SM [(u, 1%Z)] u, SM [(u, SM [(u, 1%Z)] u)] u,
             SM [(u, 1%Z)] u, SM [(u, SM [(u, 1%Z)] u)] u).
Proof.
  intros s e u Hs He. apply String.eqb_neq in Hs, He.
  repeat split.
  - unfold CmdsParamsOnly.compute_counts, CmdsParamsOnly.smoothed_counts,
      CmdsParamsOnly.smooth_cmds, CmdsParamsOnly.smooth_params,
      CmdsParamsOnly.smooth_cmd_pair, CmdsParamsOnly.smooth_param,
      StateMatrix, StateMatrix2, contains.
    unfold incr2, touch, incr. simpl. rewrite Hs, He.
    repeat (progress (simpl; rewrite ?String.eqb_refl)). reflexivity.
  - unfold CmdsParamsValues.compute_counts, CmdsParamsValues.smoothed_counts,
      CmdsParamsValues.smooth_cmds, CmdsParamsValues.smooth_params,
      CmdsParamsValues.smooth_values,
      CmdsParamsValues.smooth_cmd_pair, CmdsParamsValues.smooth_param,
      CmdsParamsValues.smooth_value, StateMatrix, StateMatrix2, contains.
    unfold incr2, touch, incr. simpl. rewrite Hs, He.
    repeat (progress (simpl; rewrite ?String.eqb_refl)). reflexivity.
Qed.

Lemma C5_no_sessions_vocabulary_is_unknown_only_witness :
  UNK <> START /\ UNK <> END_
  /\ CmdsParamsOnly.cmds_vocab [] START END_ UNK = [UNK]
  /\ CmdsParamsOnly.compute_counts [] START END_ UNK
     = Ok (SM [(UNK, 2%Z)] UNK, SM [(UNK, SM [(UNK, 1%Z)] UNK)] UNK,
           SM [(UNK, 1%Z)] UNK, SM [(UNK, SM [(UNK, 1%Z)] UNK)] UNK).
Proof.
  split; [discriminate|]. split; [discriminate|].
  destruct (@C5_no_sessions_vocabulary_is_unknown_only START END_ UNK
              ltac:(discriminate) ltac:(discriminate)) as [H1 [H2 _]].
  split; assumption.
Defined.

(** C5 as stated fails: the start and end tokens enter the counts once per
    session, so with no session neither of them is in the vocabulary. *)
Lemma C5_counterexample_no_start_end_in_vocabulary :
  CmdsParamsOnly.cmds_vocab [] START END_ UNK = [UNK]
  /\ CmdsParamsValues.cmds_vocab [] START END_ UNK = [UNK]
  /\ ~ In START [UNK] /\ ~ In END_ [UNK].
Proof.
  repeat split; simpl; intros [H|[]]; discriminate.
Qed.

(** ** Counting and smoothing under a first key (params, values) *)

Lemma pair_pass_wf (pairs : list (string * string)) :
  wf_counts2 (pair_pass pairs).
Proof.
  unfold pair_pass. apply fold_left_inv.
  - intros q ab _ [H1 H2]. unfold pair_count.
    split; cbn [fst snd]; now apply NoDup_keys_upd.
  - split; constructor.
Qed.

(** The rows counted are under first components of the pairs. *)
Lemma pair_pass_rows (pairs : list (string * string)) (k : string) :
  In k (keys (snd (pair_pass pairs))) -> In k (map fst pairs).
Proof.
  revert k. unfold pair_pass.
  apply (fold_left_inv
           (fun q => forall k, In k (keys (snd q)) -> In k (map fst pairs))).
  - intros q ab Hab IH k Hk. unfold pair_count in Hk. cbn [fst snd] in Hk.
    apply keys_upd_In in Hk. destruct Hk as [->|Hk]; auto.
    now apply in_map.
  - intros k [].
Qed.

Lemma pair_count_keys (q : counts2) (ab : string * string) :
  keys1_le q (pair_count q ab).
Proof. intros k Hk. unfold pair_count. cbn [fst snd]. now apply incr_keys. Qed.

(** The second components of the pairs are unigram keys. *)
Lemma pair_pass_keys (pairs : list (string * string)) (ab : string * string) :
  In ab pairs -> In (snd ab) (keys (fst (pair_pass pairs))).
Proof.
  intros Hin. unfold pair_pass.
  destruct (fold_left_rel_In keys1_le pair_count keys1_le_refl keys1_le_trans
              pair_count_keys pairs ([], []) ab Hin) as [q1 [_ Hend]].
  apply Hend. unfold pair_count. cbn [fst snd]. apply incr_key_same.
Qed.

Lemma ext_unk_refl (u : string) (q : counts2) : ext_unk u q q.
Proof. split; auto. Qed.

Lemma ext_unk_trans (u : string) (a b c : counts2) :
  ext_unk u a b -> ext_unk u b c -> ext_unk u a c.
Proof. intros [H1 H2] [H3 H4]. split; auto. Qed.

Lemma pair_smooth_entry_ext (u a : string) (q : counts2) (b : string) :
  ext_unk u q (pair_smooth_entry u a q b).
Proof.
  unfold pair_smooth_entry. cbv zeta.
  destruct (contains b _ || String.eqb b u); split; cbn [fst snd]; auto.
  - intros k Hk. now apply incr_keys.
  - intros k Hk. now apply has_unk_incr2, has_unk_touch.
  - intros k Hk. now apply has_unk_touch.
Qed.

Lemma pair_smooth_inner_ext (u a : string) (inner : list string) (q : counts2) :
  ext_unk u q (fold_left (pair_smooth_entry u a) inner q).
Proof.
  apply fold_left_rel.
  - apply ext_unk_refl.
  - apply ext_unk_trans.
  - intros. apply pair_smooth_entry_ext.
Qed.

(** After the smoothing, the row of every outer key holds the unknown token,
    and the unknown token is a unigram key. *)
Lemma pair_smooth_has_unk (u : string) (outer inner : list string) (q : counts2)
    (a : string) :
  In u inner -> In a outer ->
  has_unk u (snd (pair_smooth u outer inner q)) a
  /\ In u (keys (fst (pair_smooth u outer inner q))).
Proof.
  intros Hu Ha. unfold pair_smooth.
  destruct (fold_left_rel_In (ext_unk u)
              (fun q a => fold_left (pair_smooth_entry u a) inner q)
              (ext_unk_refl u) (@ext_unk_trans u)
              (fun q a => pair_smooth_inner_ext u a inner q)
              outer q a Ha) as [q1 [_ Hend]].
  cbv beta in Hend.
  destruct (fold_left_rel_In (ext_unk u) (pair_smooth_entry u a)
              (ext_unk_refl u) (@ext_unk_trans u)
              (fun q b => pair_smooth_entry_ext u a q b)
              inner q1 u Hu) as [q2 [_ Hin]].
  assert (Hentry : pair_smooth_entry u a q2 u
                   = (incr u (fst q2), incr2 a u (touch a (snd q2)))).
  { unfold pair_smooth_entry. cbv zeta.
    now rewrite String.eqb_refl, orb_true_r. }
  rewrite Hentry in Hin.
  destruct (ext_unk_trans Hin Hend) as [Hk Hh]. cbn [fst snd] in Hk, Hh.
  split.
  - apply Hh. apply has_unk_incr2_unk.
  - apply Hk. apply incr_key_same.
Qed.

(** The smoothing adds rows for outer keys only. *)
Lemma pair_smooth_rows (u : string) (outer inner : list string) (q : counts2)
    (k : string) :
  In k (keys (snd (pair_smooth u outer inner q))) ->
  In k (keys (snd q)) \/ In k outer.
Proof.
  revert k. unfold pair_smooth.
  apply (fold_left_inv
           (fun q' => forall k, In k (keys (snd q')) ->
                                In k (keys (snd q)) \/ In k outer)); auto.
  intros q1 a Ha IH.
  apply (fold_left_inv
           (fun q' => forall k, In k (keys (snd q')) ->
                                In k (keys (snd q)) \/ In k outer)); auto.
  intros q2 b _ IH2 k. unfold pair_smooth_entry. cbv zeta.
  destruct (contains b _ || String.eqb b u); cbn [fst snd]; intros Hk.
  - apply keys_upd_In in Hk. destruct Hk as [->|Hk]; auto.
    apply keys_upd_In in Hk. destruct Hk as [->|Hk]; auto.
  - apply keys_upd_In in Hk. destruct Hk as [->|Hk]; auto.
Qed.

Lemma pair_smooth_wf (u : string) (outer inner : list string) (q : counts2) :
  wf_counts2 q -> wf_counts2 (pair_smooth u outer inner q).
Proof.
  unfold pair_smooth. apply fold_left_inv. intros q1 a _.
  apply fold_left_inv. intros q2 b _ [H1 H2].
  unfold pair_smooth_entry. cbv zeta.
  destruct (contains b _ || String.eqb b u); split; cbn [fst snd]; auto;
    repeat apply NoDup_keys_upd; auto.
Qed.

(** ** The checks of the constructor *)

Lemma valid1_intro {V : Type} (u : string) (d : dict V) :
  In u (keys d) -> valid1 u d = true.
Proof.
  intros H. unfold valid1. apply andb_true_iff. split.
  - destruct d; [contradiction|reflexivity].
  - now apply contains_In.
Qed.

Lemma valid2_intro {V : Type} (u : string) (d : dict (dict V)) :
  NoDup (keys d) -> In u (keys d) ->
  (forall k, In k (keys d) -> has_unk u d k) ->
  valid2 u d = true.
Proof.
  intros Hnd Hu Hall. unfold valid2.
  apply andb_true_iff. split; [apply andb_true_iff; split|].
  - destruct d; [contradiction|reflexivity].
  - now apply contains_In.
  - now apply forallb_has_unk.
Qed.

Lemma StateMatrix_valid {V : Type} (u : string) (d : dict V) :
  valid1 u d = true -> StateMatrix d u = Ok (SM d u).
Proof.
  unfold valid1, StateMatrix. intros H. apply andb_true_iff in H.
  destruct H as [-> ->]. reflexivity.
Qed.

Lemma StateMatrix2_valid {V : Type} (u : string) (d : dict (dict V)) :
  valid2 u d = true -> StateMatrix2 d u = Ok (SM (wrap_rows u d) u).
Proof.
  unfold valid2, StateMatrix2. intros H. apply andb_true_iff in H.
  destruct H as [H ->]. apply andb_true_iff in H. destruct H as [-> ->].
  reflexivity.
Qed.

(** The command tables pass the checks when the tokens differ and no command
    is named as the end token. *)
Lemma seq_tables_valid (s e u : string) (sessions : list (list string)) :
  u <> s -> u <> e -> s <> e ->
  (forall names, In names sessions -> ~ In e names) ->
  let q0 := seq_pass s e sessions in
  let q := seq_smooth s e (keys (fst q0) ++ [u]) q0 in
  valid1 u (fst q) = true /\ valid2 u (snd q) = true.
Proof.
  intros Hus Hue Hse Hnames q0 q.
  destruct (seq_pass_inv s e sessions) as [Hwf [Hnn Hrows]]. fold q0 in Hwf, Hnn, Hrows.
  assert (Hu : In u (keys (fst q0) ++ [u])) by (apply in_or_app; simpl; auto).
  assert (Hpos : forall k, In k (keys (fst q0) ++ [u]) -> k <> e ->
                           (0 < count2 k u (snd q))%Z /\ In u (keys (fst q))).
  { intros k Hk Hke.
    destruct (@seq_smooth_positive s e (keys (fst q0) ++ [u]) q0 k u Hnn Hk Hu
                Hke Hus) as [H1 [_ H3]].
    auto. }
  split.
  - apply valid1_intro. apply (Hpos u Hu Hue).
  - apply valid2_intro.
    + apply seq_smooth_wf. exact Hwf.
    + eapply has_unk_In_keys. apply count2_positive_has_unk.
      apply (Hpos u Hu Hue).
    + intros k Hk. apply count2_positive_has_unk.
      apply seq_smooth_rows in Hk. destruct Hk as [Hk|[Hk Hke]].
      * apply Hpos.
        -- apply in_or_app. left. auto.
        -- intros ->. exact (@seq_pass_no_end_row s e sessions Hse Hnames Hk).
      * now apply Hpos.
Qed.

(** The tables under a first key pass the checks when the unknown token is an
    outer key and every counted row is under an outer key. *)
Lemma pair_tables_valid (u : string) (outer : list string)
    (pairs : list (string * string)) :
  In u outer ->
  (forall ab, In ab pairs -> In (fst ab) outer) ->
  let q0 := pair_pass pairs in
  let q := pair_smooth u outer (keys (fst q0) ++ [u]) q0 in
  valid1 u (fst q) = true /\ valid2 u (snd q) = true.
Proof.
  intros Hu Hpairs q0 q.
  assert (Hinner : In u (keys (fst q0) ++ [u])) by (apply in_or_app; simpl; auto).
  split.
  - apply valid1_intro.
    apply (pair_smooth_has_unk u outer _ q0 u Hinner Hu).
  - apply valid2_intro.
    + apply pair_smooth_wf. apply pair_pass_wf.
    + eapply has_unk_In_keys.
      apply (pair_smooth_has_unk u outer _ q0 u Hinner Hu).
    + intros k Hk. apply pair_smooth_rows in Hk.
      assert (Hko : In k outer).
      { destruct Hk as [Hk|Hk]; auto.
        apply pair_pass_rows in Hk. apply in_map_iff in Hk.
        destruct Hk as [ab [<- Hab]]. auto. }
      apply (pair_smooth_has_unk u outer _ q0 k Hinner Hko).
Qed.

(** ** The params and values parts of compute_counts *)

Lemma fold_left_flat_map {A B S : Type} (f : S -> B -> S) (g : A -> list B)
    (l : list A) :
  forall s, fold_left (fun s x => fold_left f (g x) s) l s
            = fold_left f (flat_map g l) s.
Proof.
  induction l as [|x l IH]; intros s; simpl; auto.
  now rewrite fold_left_app, IH.
Qed.

(** *** Parameter-only variant *)

Lemma fold_count_param_prm (n : string) ps (c : CmdsParamsOnly.counts) :
  (CmdsParamsOnly.param_counts (fold_left (CmdsParamsOnly.count_param n) ps c),
   CmdsParamsOnly.cmd_param_counts (fold_left (CmdsParamsOnly.count_param n) ps c))
  = fold_left pair_count (map (fun p => (n, p)) ps)
      (CmdsParamsOnly.param_counts c, CmdsParamsOnly.cmd_param_counts c).
Proof.
  rewrite <- (fold_left_map_arg pair_count (fun p => (n, p))).
  apply (fold_left_proj (fun c => (CmdsParamsOnly.param_counts c, CmdsParamsOnly.cmd_param_counts c))).
  reflexivity.
Qed.

Lemma count_cmd_prm (st : string * CmdsParamsOnly.counts) (cmd : CmdsParamsOnly.Cmd) :
  (CmdsParamsOnly.param_counts (snd (CmdsParamsOnly.count_cmd st cmd)), CmdsParamsOnly.cmd_param_counts (snd (CmdsParamsOnly.count_cmd st cmd)))
  = fold_left pair_count (cmd_params cmd)
      (CmdsParamsOnly.param_counts (snd st), CmdsParamsOnly.cmd_param_counts (snd st)).
Proof.
  destruct st as [prev c]. unfold CmdsParamsOnly.count_cmd. cbn [fst snd].
  unfold cmd_params. rewrite fold_count_param_prm. reflexivity.
Qed.

Lemma count_session_prm (s e : string) (c : CmdsParamsOnly.counts)
    (session : list CmdsParamsOnly.Cmd) :
  (CmdsParamsOnly.param_counts (CmdsParamsOnly.count_session s e c session),
   CmdsParamsOnly.cmd_param_counts (CmdsParamsOnly.count_session s e c session))
  = fold_left pair_count (flat_map cmd_params session) (CmdsParamsOnly.param_counts c, CmdsParamsOnly.cmd_param_counts c).
Proof.
  unfold CmdsParamsOnly.count_session.
  pose proof (fold_left_proj
                (fun st : string * CmdsParamsOnly.counts =>
                   (CmdsParamsOnly.param_counts (snd st), CmdsParamsOnly.cmd_param_counts (snd st)))
                CmdsParamsOnly.count_cmd
                (fun q cmd => fold_left pair_count (cmd_params cmd) q)
                count_cmd_prm session
                (s, CmdsParamsOnly.mkCounts (incr s (CmdsParamsOnly.seq1_counts c))
                      (CmdsParamsOnly.seq2_counts c)
                      (CmdsParamsOnly.param_counts c) (CmdsParamsOnly.cmd_param_counts c))) as H.
  rewrite fold_left_flat_map in H.
  cbn [fst snd CmdsParamsOnly.param_counts CmdsParamsOnly.cmd_param_counts] in H.
  destruct (fold_left CmdsParamsOnly.count_cmd session _) as [prev c1].
  cbn [fst snd] in *. exact H.
Qed.

Lemma counting_pass_prm (sessions : list (list CmdsParamsOnly.Cmd)) (s e : string) :
  (CmdsParamsOnly.param_counts (CmdsParamsOnly.counting_pass sessions s e),
   CmdsParamsOnly.cmd_param_counts (CmdsParamsOnly.counting_pass sessions s e))
  = pair_pass (flat_map (flat_map cmd_params) sessions).
Proof.
  unfold CmdsParamsOnly.counting_pass, pair_pass.
  rewrite (fold_left_proj
             (fun c => (CmdsParamsOnly.param_counts c, CmdsParamsOnly.cmd_param_counts c))
             (CmdsParamsOnly.count_session s e)
             (fun q session => fold_left pair_count (flat_map cmd_params session) q)
             (count_session_prm s e)).
  apply fold_left_flat_map.
Qed.

Lemma smooth_cmds_prm (s e : string) (cmds : list string) (c : CmdsParamsOnly.counts) :
  (CmdsParamsOnly.param_counts (CmdsParamsOnly.smooth_cmds s e cmds c), CmdsParamsOnly.cmd_param_counts (CmdsParamsOnly.smooth_cmds s e cmds c))
  = (CmdsParamsOnly.param_counts c, CmdsParamsOnly.cmd_param_counts c).
Proof.
  unfold CmdsParamsOnly.smooth_cmds.
  apply (fold_left_inv
           (fun c' => (CmdsParamsOnly.param_counts c', CmdsParamsOnly.cmd_param_counts c') = (CmdsParamsOnly.param_counts c, CmdsParamsOnly.cmd_param_counts c)));
    auto.
  intros c1 x1 _ H1.
  apply (fold_left_inv
           (fun c' => (CmdsParamsOnly.param_counts c', CmdsParamsOnly.cmd_param_counts c') = (CmdsParamsOnly.param_counts c, CmdsParamsOnly.cmd_param_counts c)));
    auto.
  intros c2 x2 _ H2. unfold CmdsParamsOnly.smooth_cmd_pair.
  destruct (negb (String.eqb x1 e) && negb (String.eqb x2 s)); exact H2.
Qed.

Lemma smooth_params_prm (u : string) (outer inner : list string) (c : CmdsParamsOnly.counts) :
  (CmdsParamsOnly.param_counts (CmdsParamsOnly.smooth_params u outer inner c), CmdsParamsOnly.cmd_param_counts (CmdsParamsOnly.smooth_params u outer inner c))
  = pair_smooth u outer inner (CmdsParamsOnly.param_counts c, CmdsParamsOnly.cmd_param_counts c).
Proof.
  unfold CmdsParamsOnly.smooth_params, pair_smooth.
  apply (fold_left_proj (fun c => (CmdsParamsOnly.param_counts c, CmdsParamsOnly.cmd_param_counts c))).
  intros c1 a.
  apply (fold_left_proj (fun c => (CmdsParamsOnly.param_counts c, CmdsParamsOnly.cmd_param_counts c))).
  intros c2 b. unfold CmdsParamsOnly.smooth_param, pair_smooth_entry. cbv zeta. cbn [fst snd].
  destruct (contains b _ || String.eqb b u); reflexivity.
Qed.

(** *** Value-aware variant *)

Lemma fold_count_param_prm_values (n : string) ps (c : CmdsParamsValues.counts) :
  (CmdsParamsValues.param_counts (fold_left (CmdsParamsValues.count_param n) ps c),
   CmdsParamsValues.cmd_param_counts (fold_left (CmdsParamsValues.count_param n) ps c))
  = fold_left pair_count (map (fun p => (n, fst p)) ps)
      (CmdsParamsValues.param_counts c, CmdsParamsValues.cmd_param_counts c).
Proof.
  rewrite <- (fold_left_map_arg pair_count (fun p => (n, fst p))).
  apply (fold_left_proj (fun c => (CmdsParamsValues.param_counts c, CmdsParamsValues.cmd_param_counts c))).
  reflexivity.
Qed.

Lemma count_cmd_prm_values (st : string * CmdsParamsValues.counts) (cmd : CmdsParamsValues.Cmd) :
  (CmdsParamsValues.param_counts (snd (CmdsParamsValues.count_cmd st cmd)), CmdsParamsValues.cmd_param_counts (snd (CmdsParamsValues.count_cmd st cmd)))
  = fold_left pair_count (cmd_params_values cmd)
      (CmdsParamsValues.param_counts (snd st), CmdsParamsValues.cmd_param_counts (snd st)).
Proof.
  destruct st as [prev c]. unfold CmdsParamsValues.count_cmd. cbn [fst snd].
  unfold cmd_params_values. rewrite fold_count_param_prm_values. reflexivity.
Qed.

Lemma count_session_prm_values (s e : string) (c : CmdsParamsValues.counts)
    (session : list CmdsParamsValues.Cmd) :
  (CmdsParamsValues.param_counts (CmdsParamsValues.count_session s e c session),
   CmdsParamsValues.cmd_param_counts (CmdsParamsValues.count_session s e c session))
  = fold_left pair_count (flat_map cmd_params_values session) (CmdsParamsValues.param_counts c, CmdsParamsValues.cmd_param_counts c).
Proof.
  unfold CmdsParamsValues.count_session.
  pose proof (fold_left_proj
                (fun st : string * CmdsParamsValues.counts =>
                   (CmdsParamsValues.param_counts (snd st), CmdsParamsValues.cmd_param_counts (snd st)))
                CmdsParamsValues.count_cmd
                (fun q cmd => fold_left pair_count (cmd_params_values cmd) q)
                count_cmd_prm_values session
                (s, CmdsParamsValues.mkCounts (incr s (CmdsParamsValues.seq1_counts c))
                      (CmdsParamsValues.seq2_counts c)
                      (CmdsParamsValues.param_counts c) (CmdsParamsValues.cmd_param_counts c)
                      (CmdsParamsValues.value_counts c) (CmdsParamsValues.param_value_counts c))) as H.
  rewrite fold_left_flat_map in H.
  cbn [fst snd CmdsParamsValues.param_counts CmdsParamsValues.cmd_param_counts] in H.
  destruct (fold_left CmdsParamsValues.count_cmd session _) as [prev c1].
  cbn [fst snd] in *. exact H.
Qed.

Lemma counting_pass_prm_values (sessions : list (list CmdsParamsValues.Cmd)) (s e : string) :
  (CmdsParamsValues.param_counts (CmdsParamsValues.counting_pass sessions s e),
   CmdsParamsValues.cmd_param_counts (CmdsParamsValues.counting_pass sessions s e))
  = pair_pass (flat_map (flat_map cmd_params_values) sessions).
Proof.
  unfold CmdsParamsValues.counting_pass, pair_pass.
  rewrite (fold_left_proj
             (fun c => (CmdsParamsValues.param_counts c, CmdsParamsValues.cmd_param_counts c))
             (CmdsParamsValues.count_session s e)
             (fun q session => fold_left pair_count (flat_map cmd_params_values session) q)
             (count_session_prm_values s e)).
  apply fold_left_flat_map.
Qed.

Lemma smooth_cmds_prm_values (s e : string) (cmds : list string) (c : CmdsParamsValues.counts) :
  (CmdsParamsValues.param_counts (CmdsParamsValues.smooth_cmds s e cmds c), CmdsParamsValues.cmd_param_counts (CmdsParamsValues.smooth_cmds s e cmds c))
  = (CmdsParamsValues.param_counts c, CmdsParamsValues.cmd_param_counts c).
Proof.
  unfold CmdsParamsValues.smooth_cmds.
  apply (fold_left_inv
           (fun c' => (CmdsParamsValues.param_counts c', CmdsParamsValues.cmd_param_counts c') = (CmdsParamsValues.param_counts c, CmdsParamsValues.cmd_param_counts c)));
    auto.
  intros c1 x1 _ H1.
  apply (fold_left_inv
           (fun c' => (CmdsParamsValues.param_counts c', CmdsParamsValues.cmd_param_counts c') = (CmdsParamsValues.param_counts c, CmdsParamsValues.cmd_param_counts c)));
    auto.
  intros c2 x2 _ H2. unfold CmdsParamsValues.smooth_cmd_pair.
  destruct (negb (String.eqb x1 e) && negb (String.eqb x2 s)); exact H2.
Qed.

Lemma smooth_params_prm_values (u : string) (outer inner : list string) (c : CmdsParamsValues.counts) :
  (CmdsParamsValues.param_counts (CmdsParamsValues.smooth_params u outer inner c), CmdsParamsValues.cmd_param_counts (CmdsParamsValues.smooth_params u outer inner c))
  = pair_smooth u outer inner (CmdsParamsValues.param_counts c, CmdsParamsValues.cmd_param_counts c).
Proof.
  unfold CmdsParamsValues.smooth_params, pair_smooth.
  apply (fold_left_proj (fun c => (CmdsParamsValues.param_counts c, CmdsParamsValues.cmd_param_counts c))).
  intros c1 a.
  apply (fold_left_proj (fun c => (CmdsParamsValues.param_counts c, CmdsParamsValues.cmd_param_counts c))).
  intros c2 b. unfold CmdsParamsValues.smooth_param, pair_smooth_entry. cbv zeta. cbn [fst snd].
  destruct (contains b _ || String.eqb b u); reflexivity.
Qed.

Lemma smooth_values_prm_values (u : string) (prms vals : list string) (c : CmdsParamsValues.counts) :
  (CmdsParamsValues.param_counts (CmdsParamsValues.smooth_values u prms vals c), CmdsParamsValues.cmd_param_counts (CmdsParamsValues.smooth_values u prms vals c))
  = (CmdsParamsValues.param_counts c, CmdsParamsValues.cmd_param_counts c).
Proof.
  unfold CmdsParamsValues.smooth_values.
  apply (fold_left_inv
           (fun c' => (CmdsParamsValues.param_counts c', CmdsParamsValues.cmd_param_counts c') = (CmdsParamsValues.param_counts c, CmdsParamsValues.cmd_param_counts c)));
    auto.
  intros c1 x1 _ H1.
  apply (fold_left_inv
           (fun c' => (CmdsParamsValues.param_counts c', CmdsParamsValues.cmd_param_counts c') = (CmdsParamsValues.param_counts c, CmdsParamsValues.cmd_param_counts c)));
    auto.
  intros c2 x2 _ H2. unfold CmdsParamsValues.smooth_value.
  destruct (contains x2 _ || String.eqb x2 u); exact H2.
Qed.

Lemma fold_count_param_val_values (n : string) ps (c : CmdsParamsValues.counts) :
  (CmdsParamsValues.value_counts (fold_left (CmdsParamsValues.count_param n) ps c),
   CmdsParamsValues.param_value_counts (fold_left (CmdsParamsValues.count_param n) ps c))
  = fold_left pair_count (map (fun p => p) ps)
      (CmdsParamsValues.value_counts c, CmdsParamsValues.param_value_counts c).
Proof.
  rewrite <- (fold_left_map_arg pair_count (fun p => p)).
  apply (fold_left_proj (fun c => (CmdsParamsValues.value_counts c, CmdsParamsValues.param_value_counts c))).
  reflexivity.
Qed.

Lemma count_cmd_val_values (st : string * CmdsParamsValues.counts) (cmd : CmdsParamsValues.Cmd) :
  (CmdsParamsValues.value_counts (snd (CmdsParamsValues.count_cmd st cmd)), CmdsParamsValues.param_value_counts (snd (CmdsParamsValues.count_cmd st cmd)))
  = fold_left pair_count (param_values cmd)
      (CmdsParamsValues.value_counts (snd st), CmdsParamsValues.param_value_counts (snd st)).
Proof.
  destruct st as [prev c]. unfold CmdsParamsValues.count_cmd. cbn [fst snd].
  unfold param_values. rewrite fold_count_param_val_values, map_id. reflexivity.
Qed.

Lemma count_session_val_values (s e : string) (c : CmdsParamsValues.counts)
    (session : list CmdsParamsValues.Cmd) :
  (CmdsParamsValues.value_counts (CmdsParamsValues.count_session s e c session),
   CmdsParamsValues.param_value_counts (CmdsParamsValues.count_session s e c session))
  = fold_left pair_count (flat_map param_values session) (CmdsParamsValues.value_counts c, CmdsParamsValues.param_value_counts c).
Proof.
  unfold CmdsParamsValues.count_session.
  pose proof (fold_left_proj
                (fun st : string * CmdsParamsValues.counts =>
                   (CmdsParamsValues.value_counts (snd st), CmdsParamsValues.param_value_counts (snd st)))
                CmdsParamsValues.count_cmd
                (fun q cmd => fold_left pair_count (param_values cmd) q)
                count_cmd_val_values session
                (s, CmdsParamsValues.mkCounts (incr s (CmdsParamsValues.seq1_counts c))
                      (CmdsParamsValues.seq2_counts c)
                      (CmdsParamsValues.param_counts c) (CmdsParamsValues.cmd_param_counts c)
                      (CmdsParamsValues.value_counts c) (CmdsParamsValues.param_value_counts c))) as H.
  rewrite fold_left_flat_map in H.
  cbn [fst snd CmdsParamsValues.value_counts CmdsParamsValues.param_value_counts] in H.
  destruct (fold_left CmdsParamsValues.count_cmd session _) as [prev c1].
  cbn [fst snd] in *. exact H.
Qed.

Lemma counting_pass_val_values (sessions : list (list CmdsParamsValues.Cmd)) (s e : string) :
  (CmdsParamsValues.value_counts (CmdsParamsValues.counting_pass sessions s e),
   CmdsParamsValues.param_value_counts (CmdsParamsValues.counting_pass sessions s e))
  = pair_pass (flat_map (flat_map param_values) sessions).
Proof.
  unfold CmdsParamsValues.counting_pass, pair_pass.
  rewrite (fold_left_proj
             (fun c => (CmdsParamsValues.value_counts c, CmdsParamsValues.param_value_counts c))
             (CmdsParamsValues.count_session s e)
             (fun q session => fold_left pair_count (flat_map param_values session) q)
             (count_session_val_values s e)).
  apply fold_left_flat_map.
Qed.

Lemma smooth_cmds_val_values (s e : string) (cmds : list string) (c : CmdsParamsValues.counts) :
  (CmdsParamsValues.value_counts (CmdsParamsValues.smooth_cmds s e cmds c), CmdsParamsValues.param_value_counts (CmdsParamsValues.smooth_cmds s e cmds c))
  = (CmdsParamsValues.value_counts c, CmdsParamsValues.param_value_counts c).
Proof.
  unfold CmdsParamsValues.smooth_cmds.
  apply (fold_left_inv
           (fun c' => (CmdsParamsValues.value_counts c', CmdsParamsValues.param_value_counts c') = (CmdsParamsValues.value_counts c, CmdsParamsValues.param_value_counts c)));
    auto.
  intros c1 x1 _ H1.
  apply (fold_left_inv
           (fun c' => (CmdsParamsValues.value_counts c', CmdsParamsValues.param_value_counts c') = (CmdsParamsValues.value_counts c, CmdsParamsValues.param_value_counts c)));
    auto.
  intros c2 x2 _ H2. unfold CmdsParamsValues.smooth_cmd_pair.
  destruct (negb (String.eqb x1 e) && negb (String.eqb x2 s)); exact H2.
Qed.

Lemma smooth_params_val_values (u : string) (cmds prms : list string) (c : CmdsParamsValues.counts) :
  (CmdsParamsValues.value_counts (CmdsParamsValues.smooth_params u cmds prms c), CmdsParamsValues.param_value_counts (CmdsParamsValues.smooth_params u cmds prms c))
  = (CmdsParamsValues.value_counts c, CmdsParamsValues.param_value_counts c).
Proof.
  unfold CmdsParamsValues.smooth_params.
  apply (fold_left_inv
           (fun c' => (CmdsParamsValues.value_counts c', CmdsParamsValues.param_value_counts c') = (CmdsParamsValues.value_counts c, CmdsParamsValues.param_value_counts c)));
    auto.
  intros c1 x1 _ H1.
  apply (fold_left_inv
           (fun c' => (CmdsParamsValues.value_counts c', CmdsParamsValues.param_value_counts c') = (CmdsParamsValues.value_counts c, CmdsParamsValues.param_value_counts c)));
    auto.
  intros c2 x2 _ H2. unfold CmdsParamsValues.smooth_param.
  destruct (contains x2 _ || String.eqb x2 u); exact H2.
Qed.

Lemma smooth_values_val_values (u : string) (outer inner : list string) (c : CmdsParamsValues.counts) :
  (CmdsParamsValues.value_counts (CmdsParamsValues.smooth_values u outer inner c), CmdsParamsValues.param_value_counts (CmdsParamsValues.smooth_values u outer inner c))
  = pair_smooth u outer inner (CmdsParamsValues.value_counts c, CmdsParamsValues.param_value_counts c).
Proof.
  unfold CmdsParamsValues.smooth_values, pair_smooth.
  apply (fold_left_proj (fun c => (CmdsParamsValues.value_counts c, CmdsParamsValues.param_value_counts c))).
  intros c1 a.
  apply (fold_left_proj (fun c => (CmdsParamsValues.value_counts c, CmdsParamsValues.param_value_counts c))).
  intros c2 b. unfold CmdsParamsValues.smooth_value, pair_smooth_entry. cbv zeta. cbn [fst snd].
  destruct (contains b _ || String.eqb b u); reflexivity.
Qed.

(** ** The count tables pass the checks of the constructor (C10) *)

Lemma cmds_vocab_seq_pass (sessions : list (list CmdsParamsOnly.Cmd))
    (s e u : string) :
  CmdsParamsOnly.cmds_vocab sessions s e u
  = keys (fst (seq_pass s e (names_of sessions))) ++ [u].
Proof.
  unfold CmdsParamsOnly.cmds_vocab, names_of.
  now rewrite <- (counting_pass_seq sessions s e).
Qed.

Lemma smoothed_counts_prm (sessions : list (list CmdsParamsOnly.Cmd))
    (s e u : string) :
  let q0 := pair_pass (flat_map (flat_map cmd_params) sessions) in
  (CmdsParamsOnly.param_counts (CmdsParamsOnly.smoothed_counts sessions s e u),
   CmdsParamsOnly.cmd_param_counts (CmdsParamsOnly.smoothed_counts sessions s e u))
  = pair_smooth u (CmdsParamsOnly.cmds_vocab sessions s e u)
      (keys (fst q0) ++ [u]) q0.
Proof.
  intros q0. unfold CmdsParamsOnly.smoothed_counts, CmdsParamsOnly.cmds_vocab.
  cbv zeta.
  set (c0 := CmdsParamsOnly.counting_pass sessions s e).
  set (cmds := keys (CmdsParamsOnly.seq1_counts c0) ++ [u]).
  pose proof (smooth_cmds_prm s e cmds c0) as H1.
  pose proof (f_equal fst H1) as Hp. cbn [fst] in Hp.
  rewrite smooth_params_prm, H1, Hp.
  pose proof (counting_pass_prm sessions s e) as H0. fold c0 q0 in H0.
  pose proof (f_equal fst H0) as Hp0. cbn [fst] in Hp0.
  now rewrite H0, Hp0.
Qed.

Lemma names_of_no_end (sessions : list (list CmdsParamsOnly.Cmd)) (e : string) :
  (forall session cmd, In session sessions -> In cmd session ->
                       CmdsParamsOnly.name cmd <> e) ->
  forall names, In names (names_of sessions) -> ~ In e names.
Proof.
  intros H names Hin He. unfold names_of in Hin. apply in_map_iff in Hin.
  destruct Hin as [session [<- Hs]]. apply in_map_iff in He.
  destruct He as [cmd [Hn Hc]]. exact (H _ _ Hs Hc Hn).
Qed.

Lemma cmd_params_in_vocab (sessions : list (list CmdsParamsOnly.Cmd))
    (s e u : string) (ab : string * string) :
  In ab (flat_map (flat_map cmd_params) sessions) ->
  In (fst ab) (CmdsParamsOnly.cmds_vocab sessions s e u).
Proof.
  intros Hin. apply in_flat_map in Hin. destruct Hin as [session [Hs Hin]].
  apply in_flat_map in Hin. destruct Hin as [cmd [Hc Hin]].
  unfold cmd_params in Hin. apply in_map_iff in Hin. destruct Hin as [p [<- _]].
  cbn [fst]. rewrite cmds_vocab_seq_pass. apply in_or_app. left.
  apply seq_pass_names with (names := map CmdsParamsOnly.name session).
  - unfold names_of. now apply in_map.
  - now apply in_map.
Qed.

Lemma vocab_has_unk (l : list string) (u : string) : In u (l ++ [u]).
Proof. apply in_or_app. right. now left. Qed.

(** The four dicts of the parameter-only variant pass the checks. *)
Lemma smoothed_counts_valid (sessions : list (list CmdsParamsOnly.Cmd))
    (s e u : string) :
  u <> s -> u <> e -> s <> e ->
  (forall session cmd, In session sessions -> In cmd session ->
                       CmdsParamsOnly.name cmd <> e) ->
  let c := CmdsParamsOnly.smoothed_counts sessions s e u in
  valid1 u (CmdsParamsOnly.seq1_counts c) = true
  /\ valid2 u (CmdsParamsOnly.seq2_counts c) = true
  /\ valid1 u (CmdsParamsOnly.param_counts c) = true
  /\ valid2 u (CmdsParamsOnly.cmd_param_counts c) = true.
Proof.
  intros Hus Hue Hse Hnames c.
  pose proof (smoothed_counts_seq sessions s e u) as Hseq. fold c in Hseq.
  pose proof (smoothed_counts_prm sessions s e u) as Hprm.
  cbv zeta in Hprm. fold c in Hprm.
  rewrite cmds_vocab_seq_pass in Hseq. fold (names_of sessions) in Hseq.
  destruct (@seq_tables_valid s e u (names_of sessions) Hus Hue Hse
              (names_of_no_end sessions Hnames)) as [V1 V2].
  cbv zeta in V1, V2. rewrite <- Hseq in V1, V2. cbn [fst snd] in V1, V2.
  destruct (@pair_tables_valid u (CmdsParamsOnly.cmds_vocab sessions s e u)
              (flat_map (flat_map cmd_params) sessions)) as [V3 V4].
  { apply vocab_has_unk. }
  { intros ab. apply cmd_params_in_vocab. }
  cbv zeta in V3, V4. rewrite <- Hprm in V3, V4. cbn [fst snd] in V3, V4.
  auto.
Qed.

Lemma cmds_vocab_seq_pass_values (sessions : list (list CmdsParamsValues.Cmd))
    (s e u : string) :
  CmdsParamsValues.cmds_vocab sessions s e u
  = keys (fst (seq_pass s e (names_of_values sessions))) ++ [u].
Proof.
  unfold CmdsParamsValues.cmds_vocab, names_of_values.
  now rewrite <- (counting_pass_seq_values sessions s e).
Qed.

Lemma smoothed_counts_prm_values (sessions : list (list CmdsParamsValues.Cmd))
    (s e u : string) :
  let q0 := pair_pass (flat_map (flat_map cmd_params_values) sessions) in
  (CmdsParamsValues.param_counts
     (CmdsParamsValues.smoothed_counts sessions s e u),
   CmdsParamsValues.cmd_param_counts
     (CmdsParamsValues.smoothed_counts sessions s e u))
  = pair_smooth u (CmdsParamsValues.cmds_vocab sessions s e u)
      (keys (fst q0) ++ [u]) q0.
Proof.
  intros q0.
  unfold CmdsParamsValues.smoothed_counts, CmdsParamsValues.cmds_vocab.
  cbv zeta.
  set (c0 := CmdsParamsValues.counting_pass sessions s e).
  set (cmds := keys (CmdsParamsValues.seq1_counts c0) ++ [u]).
  pose proof (smooth_cmds_prm_values s e cmds c0) as H1.
  pose proof (f_equal fst H1) as Hp. cbn [fst] in Hp.
  rewrite smooth_values_prm_values, smooth_params_prm_values, H1, Hp.
  pose proof (counting_pass_prm_values sessions s e) as H0. fold c0 q0 in H0.
  pose proof (f_equal fst H0) as Hp0. cbn [fst] in Hp0.
  now rewrite H0, Hp0.
Qed.

Lemma smoothed_counts_val_values (sessions : list (list CmdsParamsValues.Cmd))
    (s e u : string) :
  let p0 := pair_pass (flat_map (flat_map cmd_params_values) sessions) in
  let v0 := pair_pass (flat_map (flat_map param_values) sessions) in
  (CmdsParamsValues.value_counts
     (CmdsParamsValues.smoothed_counts sessions s e u),
   CmdsParamsValues.param_value_counts
     (CmdsParamsValues.smoothed_counts sessions s e u))
  = pair_smooth u (keys (fst p0) ++ [u]) (keys (fst v0) ++ [u]) v0.
Proof.
  intros p0 v0. unfold CmdsParamsValues.smoothed_counts. cbv zeta.
  set (c0 := CmdsParamsValues.counting_pass sessions s e).
  set (cmds := keys (CmdsParamsValues.seq1_counts c0) ++ [u]).
  set (c1 := CmdsParamsValues.smooth_cmds s e cmds c0).
  set (prms := keys (CmdsParamsValues.param_counts c1) ++ [u]).
  set (c2 := CmdsParamsValues.smooth_params u cmds prms c1).
  pose proof (smooth_cmds_val_values s e cmds c0) as H1. fold c1 in H1.
  pose proof (smooth_params_val_values u cmds prms c1) as H2. fold c2 in H2.
  pose proof (counting_pass_val_values sessions s e) as H0. fold c0 v0 in H0.
  pose proof (f_equal fst (smooth_cmds_prm_values s e cmds c0)) as Hp.
  cbn [fst] in Hp. fold c1 in Hp.
  pose proof (f_equal fst (counting_pass_prm_values sessions s e)) as Hp0.
  cbn [fst] in Hp0. fold c0 p0 in Hp0.
  assert (Hprms : prms = keys (fst p0) ++ [u]).
  { unfold prms. now rewrite Hp, Hp0. }
  assert (Hv2 : (CmdsParamsValues.value_counts c2,
                 CmdsParamsValues.param_value_counts c2) = v0).
  { now rewrite H2, H1, H0. }
  pose proof (f_equal fst Hv2) as Hv. cbn [fst] in Hv.
  rewrite smooth_values_val_values, Hv2, Hv, Hprms. reflexivity.
Qed.

Lemma names_of_values_no_end (sessions : list (list CmdsParamsValues.Cmd))
    (e : string) :
  (forall session cmd, In session sessions -> In cmd session ->
                       CmdsParamsValues.name cmd <> e) ->
  forall names, In names (names_of_values sessions) -> ~ In e names.
Proof.
  intros H names Hin He. unfold names_of_values in Hin. apply in_map_iff in Hin.
  destruct Hin as [session [<- Hs]]. apply in_map_iff in He.
  destruct He as [cmd [Hn Hc]]. exact (H _ _ Hs Hc Hn).
Qed.

Lemma cmd_params_values_in_vocab (sessions : list (list CmdsParamsValues.Cmd))
    (s e u : string) (ab : string * string) :
  In ab (flat_map (flat_map cmd_params_values) sessions) ->
  In (fst ab) (CmdsParamsValues.cmds_vocab sessions s e u).
Proof.
  intros Hin. apply in_flat_map in Hin. destruct Hin as [session [Hs Hin]].
  apply in_flat_map in Hin. destruct Hin as [cmd [Hc Hin]].
  unfold cmd_params_values in Hin. apply in_map_iff in Hin.
  destruct Hin as [p [<- _]].
  cbn [fst]. rewrite cmds_vocab_seq_pass_values. apply in_or_app. left.
  apply seq_pass_names with (names := map CmdsParamsValues.name session).
  - unfold names_of_values. now apply in_map.
  - now apply in_map.
Qed.

(** The param of every (param, value) pair is a key of the param counts. *)
Lemma param_values_in_params (sessions : list (list CmdsParamsValues.Cmd))
    (ab : string * string) :
  In ab (flat_map (flat_map param_values) sessions) ->
  In (fst ab)
    (keys (fst (pair_pass (flat_map (flat_map cmd_params_values) sessions)))).
Proof.
  intros Hin. apply in_flat_map in Hin. destruct Hin as [session [Hs Hin]].
  apply in_flat_map in Hin. destruct Hin as [cmd [Hc Hin]].
  unfold param_values in Hin.
  apply (pair_pass_keys _ (CmdsParamsValues.name cmd, fst ab)).
  apply in_flat_map. exists session. split; auto.
  apply in_flat_map. exists cmd. split; auto.
  unfold cmd_params_values. apply in_map_iff. exists ab. auto.
Qed.

(** The six dicts of the value-aware variant pass the checks. *)
Lemma smoothed_counts_valid_values (sessions : list (list CmdsParamsValues.Cmd))
    (s e u : string) :
  u <> s -> u <> e -> s <> e ->
  (forall session cmd, In session sessions -> In cmd session ->
                       CmdsParamsValues.name cmd <> e) ->
  let c := CmdsParamsValues.smoothed_counts sessions s e u in
  valid1 u (CmdsParamsValues.seq1_counts c) = true
  /\ valid2 u (CmdsParamsValues.seq2_counts c) = true
  /\ valid1 u (CmdsParamsValues.param_counts c) = true
  /\ valid2 u (CmdsParamsValues.cmd_param_counts c) = true
  /\ valid1 u (CmdsParamsValues.value_counts c) = true
  /\ valid2 u (CmdsParamsValues.param_value_counts c) = true.
Proof.
  intros Hus Hue Hse Hnames c.
  pose proof (smoothed_counts_seq_values sessions s e u) as Hseq. fold c in Hseq.
  pose proof (smoothed_counts_prm_values sessions s e u) as Hprm.
  cbv zeta in Hprm. fold c in Hprm.
  pose proof (smoothed_counts_val_values sessions s e u) as Hval.
  cbv zeta in Hval. fold c in Hval.
  rewrite cmds_vocab_seq_pass_values in Hseq.
  fold (names_of_values sessions) in Hseq.
  destruct (@seq_tables_valid s e u (names_of_values sessions) Hus Hue Hse
              (names_of_values_no_end sessions Hnames)) as [V1 V2].
  cbv zeta in V1, V2. rewrite <- Hseq in V1, V2. cbn [fst snd] in V1, V2.
  destruct (@pair_tables_valid u (CmdsParamsValues.cmds_vocab sessions s e u)
              (flat_map (flat_map cmd_params_values) sessions)) as [V3 V4].
  { apply vocab_has_unk. }
  { intros ab. apply cmd_params_values_in_vocab. }
  cbv zeta in V3, V4. rewrite <- Hprm in V3, V4. cbn [fst snd] in V3, V4.
  destruct (@pair_tables_valid u
              (keys (fst (pair_pass
                            (flat_map (flat_map cmd_params_values) sessions)))
                 ++ [u])
              (flat_map (flat_map param_values) sessions)) as [V5 V6].
  { apply vocab_has_unk. }
  { intros ab Hab. apply in_or_app. left. now apply param_values_in_params. }
  cbv zeta in V5, V6. rewrite <- Hval in V5, V6. cbn [fst snd] in V5, V6.
  repeat split; assumption.
Qed.

(** C10 (as amended): when the three tokens differ from each other and no
    command of the training sessions is named as the end token, every dict
    that compute_counts builds is non-empty, holds the unknown token at the
    top level and, when it has two levels, in every row; the constructor
    checks pass and compute_counts returns the wrapped tables. *)
Theorem C10_count_tables_pass_constructor_checks :
  forall s e u : string,
    u <> s -> u <> e -> s <> e ->
    (forall sessions : list (list CmdsParamsOnly.Cmd),
        (forall session cmd, In session sessions -> In cmd session ->
                             CmdsParamsOnly.name cmd <> e) ->
        let c := CmdsParamsOnly.smoothed_counts sessions s e u in
        valid1 u (CmdsParamsOnly.seq1_counts c) = true
        /\ valid2 u (CmdsParamsOnly.seq2_counts c) = true
        /\ valid1 u (CmdsParamsOnly.param_counts c) = true
        /\ valid2 u (CmdsParamsOnly.cmd_param_counts c) = true
        /\ CmdsParamsOnly.compute_counts sessions s e u
           = Ok (SM (CmdsParamsOnly.seq1_counts c) u,
                 SM (wrap_rows u (CmdsParamsOnly.seq2_counts c)) u,
                 SM (CmdsParamsOnly.param_counts c) u,
                 SM (wrap_rows u (CmdsParamsOnly.cmd_param_counts c)) u))
    /\ (forall sessions : list (list CmdsParamsValues.Cmd),
           (forall session cmd, In session sessions -> In cmd session ->
                                CmdsParamsValues.name cmd <> e) ->
           let c := CmdsParamsValues.smoothed_counts sessions s e u in
           valid1 u (CmdsParamsValues.seq1_counts c) = true
           /\ valid2 u (CmdsParamsValues.seq2_counts c) = true
           /\ valid1 u (CmdsParamsValues.param_counts c) = true
           /\ valid2 u (CmdsParamsValues.cmd_param_counts c) = true
           /\ valid1 u (CmdsParamsValues.value_counts c) = true
           /\ valid2 u (CmdsParamsValues.param_value_counts c) = true
           /\ CmdsParamsValues.compute_counts sessions s e u
              = Ok (SM (CmdsParamsValues.seq1_counts c) u,
                    SM (wrap_rows u (CmdsParamsValues.seq2_counts c)) u,
                    SM (CmdsParamsValues.param_counts c) u,
                    SM (wrap_rows u (CmdsParamsValues.cmd_param_counts c)) u,
                    SM (CmdsParamsValues.value_counts c) u,
                    SM (wrap_rows u (CmdsParamsValues.param_value_counts c)) u)).
Proof.
  intros s e u Hus Hue Hse. split.
  - intros sessions Hnames c.
    destruct (smoothed_counts_valid sessions Hus Hue Hse Hnames)
      as [V1 [V2 [V3 V4]]]. fold c in V1, V2, V3, V4.
    repeat (split; [assumption|]).
    unfold CmdsParamsOnly.compute_counts. cbv zeta. fold c.
    rewrite (StateMatrix_valid _ _ V1), (StateMatrix2_valid _ _ V2),
      (StateMatrix_valid _ _ V3), (StateMatrix2_valid _ _ V4).
    reflexivity.
  - intros sessions Hnames c.
    destruct (smoothed_counts_valid_values sessions Hus Hue Hse Hnames)
      as [V1 [V2 [V3 [V4 [V5 V6]]]]]. fold c in V1, V2, V3, V4, V5, V6.
    repeat (split; [assumption|]).
    unfold CmdsParamsValues.compute_counts. cbv zeta. fold c.
    rewrite (StateMatrix_valid _ _ V1), (StateMatrix2_valid _ _ V2),
      (StateMatrix_valid _ _ V3), (StateMatrix2_valid _ _ V4),
      (StateMatrix_valid _ _ V5), (StateMatrix2_valid _ _ V6).
    reflexivity.
Qed.

Lemma C10_count_tables_pass_constructor_checks_witness :
  UNK <> START /\ UNK <> END_ /\ START <> END_
  /\ (forall session cmd, In session training -> In cmd session ->
                          CmdsParamsOnly.name cmd <> END_)
  /\ let c := CmdsParamsOnly.smoothed_counts training START END_ UNK in
     valid1 UNK (CmdsParamsOnly.seq1_counts c) = true
     /\ valid2 UNK (CmdsParamsOnly.seq2_counts c) = true
     /\ valid1 UNK (CmdsParamsOnly.param_counts c) = true
     /\ valid2 UNK (CmdsParamsOnly.cmd_param_counts c) = true
     /\ CmdsParamsOnly.compute_counts training START END_ UNK
        = Ok (SM (CmdsParamsOnly.seq1_counts c) UNK,
              SM (wrap_rows UNK (CmdsParamsOnly.seq2_counts c)) UNK,
              SM (CmdsParamsOnly.param_counts c) UNK,
              SM (wrap_rows UNK (CmdsParamsOnly.cmd_param_counts c)) UNK).
Proof.
  assert (Hnames : forall session cmd,
             In session training -> In cmd session ->
             CmdsParamsOnly.name cmd <> END_).
  { intros session cmd Hs Hc. simpl in Hs.
    destruct Hs as [<-|[<-|[]]]; simpl in Hc;
      destruct Hc as [<-|[<-|[]]]; discriminate. }
  split; [discriminate|]. split; [discriminate|]. split; [discriminate|].
  split; [exact Hnames|].
  apply (proj1 (@C10_count_tables_pass_constructor_checks START END_ UNK
                  ltac:(discriminate) ltac:(discriminate) ltac:(discriminate))
           training Hnames).
Defined.

(** C10 as stated fails when a command is named as the end token: the
    counting pass gives the end token a row, the smoothing never writes to a
    row of the end token, so that row lacks the unknown token and the
    constructor check fails. *)
Lemma C10_counterexample_command_named_as_end_token :
  UNK <> START /\ UNK <> END_ /\ START <> END_
  /\ get END_ (CmdsParamsOnly.seq2_counts
                 (CmdsParamsOnly.smoothed_counts training_end_named
                    START END_ UNK))
     = Some [(END_, 1%Z)]
  /\ valid2 UNK (CmdsParamsOnly.seq2_counts
                   (CmdsParamsOnly.smoothed_counts training_end_named
                      START END_ UNK))
     = false
  /\ CmdsParamsOnly.compute_counts training_end_named START END_ UNK
     = Raise AssertionError.
Proof.
  split; [discriminate|]. split; [discriminate|]. split; [discriminate|].
  repeat split; reflexivity.
Qed.

(** ** The sliding pass, position by position *)

Lemma bind_assoc {A B C : Type} (c : result A) (f : A -> result B)
    (g : B -> result C) :
  (y <- (x <- c ;; f x) ;; g y) = (x <- c ;; y <- f x ;; g y).
Proof. destruct c; reflexivity. Qed.

Lemma Forall2_seq_nth {B : Type} (R : nat -> B -> Prop) (n : nat) :
  forall (a : nat) (ys : list B),
    Forall2 R (seq a n) ys ->
    List.length ys = n
    /\ forall i y, nth_error ys i = Some y -> R (a + i) y.
Proof.
  induction n as [|n IH]; intros a ys H; simpl in H.
  - inversion H; subst. split; auto. intros [|i] y Hy; discriminate.
  - inversion H as [|x y0 l ys' Hxy Hrest]; subst.
    destruct (IH _ _ Hrest) as [Hlen Hnth]. split; [simpl; lia|].
    intros [|i] y Hy; simpl in Hy.
    + injection Hy as <-. now rewrite Nat.add_0_r.
    + replace (a + S i) with (S a + i) by lia. auto.
Qed.

Lemma collect_Forall2 {A B : Type} (f : A -> result B) (l : list A)
    (ys : list B) :
  collect f l = Ok ys -> Forall2 (fun x y => f x = Ok y) l ys.
Proof.
  unfold collect. intros H. apply for_each_collect in H.
  destruct H as [zs [-> Hzs]]. exact Hzs.
Qed.

(** A loop that appends [g] of each item returns [map g] of what the loop
    appending the items returns, and raises what it raises. *)
Lemma collect_map {A B C : Type} (f : A -> result B) (g : B -> C) (l : list A) :
  forall (acc : list B),
    for_each l (fun acc x => y <- (z <- f x ;; Ok (g z)) ;; Ok (acc ++ [y]))
      (map g acc)
    = (r <- for_each l (fun acc x => y <- f x ;; Ok (acc ++ [y])) acc ;;
       Ok (map g r)).
Proof.
  induction l as [|x l IH]; intros acc; simpl; auto.
  destruct (f x) as [z|e]; simpl; auto.
  rewrite <- IH. rewrite map_app. reflexivity.
Qed.

Lemma windows_in_session_collect root session prior trans pcc w use st et gm :
  CmdsParamsOnly.compute_likelihood_windows_in_session root session prior trans
    pcc w use (Some st) (Some et) gm
  = let sess := extended session (CmdsParamsOnly.mkCmd et []) use in
    collect (lik_at root sess prior trans pcc w use (Some st) (Some et) gm)
      (seq 0 (S (List.length sess) - w)).
Proof.
  unfold CmdsParamsOnly.compute_likelihood_windows_in_session, collect, extended.
  cbv zeta.
  replace (if use then Ok (session ++ [CmdsParamsOnly.mkCmd et []])
           else Ok session)
    with (Ok (if use then session ++ [CmdsParamsOnly.mkCmd et []] else session))
    by (now destruct use).
  cbn [bind]. apply for_each_ext_in. intros acc i _. unfold lik_at.
  rewrite bind_assoc. reflexivity.
Qed.

Lemma windows_in_session_values_collect root session prior trans pcc vcp mp w
    use st et gm :
  CmdsParamsValues.compute_likelihood_windows_in_session root session prior
    trans pcc vcp mp w use (Some st) (Some et) gm
  = let sess := extended session (CmdsParamsValues.mkCmd et []) use in
    collect (lik_at_values root sess prior trans pcc vcp mp w use (Some st)
               (Some et) gm)
      (seq 0 (S (List.length sess) - w)).
Proof.
  unfold CmdsParamsValues.compute_likelihood_windows_in_session, collect,
    extended.
  cbv zeta.
  replace (if use then Ok (session ++ [CmdsParamsValues.mkCmd et []])
           else Ok session)
    with (Ok (if use then session ++ [CmdsParamsValues.mkCmd et []]
              else session))
    by (now destruct use).
  cbn [bind]. apply for_each_ext_in. intros acc i _. unfold lik_at_values.
  rewrite bind_assoc. reflexivity.
Qed.

(** X1: when compute_likelihood_windows_in_session returns, it returns one
    likelihood per start position 0 .. len(sess) - window_len, in that order,
    where sess is the session with the end-token command appended if the
    tokens are used.  The one at position i is compute_likelihood_window of
    sess[i : i + window_len], the start token used at position 0 only and the
    end token never, raised to 1 / window_len if use_geo_mean is set. *)
Theorem X1_sliding_pass_one_likelihood_per_position :
  forall (root : Q -> positive -> Q) (w : nat) (use : bool) (st et : string)
         (gm : bool) (prior : table Q) (trans pcc : table (table Q)),
    (forall (session : list CmdsParamsOnly.Cmd) (liks : list pyfloat),
        CmdsParamsOnly.compute_likelihood_windows_in_session root session
          prior trans pcc w use (Some st) (Some et) gm = Ok liks ->
        let sess := extended session (CmdsParamsOnly.mkCmd et []) use in
        List.length liks = S (List.length sess) - w
        /\ forall i y,
             nth_error liks i = Some y ->
             exists lik,
               CmdsParamsOnly.compute_likelihood_window root
                 (slice sess i (i + w)) prior trans pcc
                 (if Nat.eqb i 0 then use else false) false (Some st) (Some et)
               = Ok lik
               /\ (if gm then CmdsParamsOnly.lik_pow_inv root lik w else Ok lik)
                  = Ok y)
    /\ (forall (vcp : table (table Q)) (mp : list string)
               (session : list CmdsParamsValues.Cmd) (liks : list pyfloat),
           CmdsParamsValues.compute_likelihood_windows_in_session root session
             prior trans pcc vcp mp w use (Some st) (Some et) gm = Ok liks ->
           let sess := extended session (CmdsParamsValues.mkCmd et []) use in
           List.length liks = S (List.length sess) - w
           /\ forall i y,
                nth_error liks i = Some y ->
                exists lik,
                  CmdsParamsValues.compute_likelihood_window root
                    (slice sess i (i + w)) prior trans pcc vcp mp
                    (if Nat.eqb i 0 then use else false) false (Some st)
                    (Some et)
                  = Ok lik
                  /\ (if gm then CmdsParamsValues.lik_pow_inv root lik w
                      else Ok lik)
                     = Ok y).
Proof.
  intros root w use st et gm prior trans pcc. split.
  - intros session liks H. rewrite windows_in_session_collect in H.
    cbv zeta in *. apply collect_Forall2 in H.
    apply Forall2_seq_nth in H. destruct H as [Hlen Hnth].
    split; [exact Hlen|]. intros i y Hy. specialize (Hnth i y Hy).
    simpl in Hnth. unfold lik_at in Hnth. bind_inv Hnth. eauto.
  - intros vcp mp session liks H. rewrite windows_in_session_values_collect in H.
    cbv zeta in *. apply collect_Forall2 in H.
    apply Forall2_seq_nth in H. destruct H as [Hlen Hnth].
    split; [exact Hlen|]. intros i y Hy. specialize (Hnth i y Hy).
    simpl in Hnth. unfold lik_at_values in Hnth. bind_inv Hnth. eauto.
Qed.

Lemma X1_sliding_pass_one_likelihood_per_position_witness :
  exists liks,
    CmdsParamsOnly.compute_likelihood_windows_in_session approx_root
      session_ABA prior_probs trans_probs param_cond_cmd_probs 2 true
      (Some START) (Some END_) false = Ok liks
    /\ List.length liks = 3
    /\ forall i y,
         nth_error liks i = Some y ->
         exists lik,
           CmdsParamsOnly.compute_likelihood_window approx_root
             (slice (extended session_ABA (CmdsParamsOnly.mkCmd END_ []) true)
                i (i + 2))
             prior_probs trans_probs param_cond_cmd_probs
             (if Nat.eqb i 0 then true else false) false (Some START)
             (Some END_)
           = Ok lik
           /\ Ok lik = Ok y.
Proof.
  eexists. split; [reflexivity|].
  apply (proj1 (X1_sliding_pass_one_likelihood_per_position approx_root 2 true
                  START END_ false prior_probs trans_probs
                  param_cond_cmd_probs) session_ABA).
  reflexivity.
Defined.

Lemma lik_at_geo_mean root sess prior trans pcc w use st et i :
  1 <= w ->
  lik_at root sess prior trans pcc w use st et true i
  = (z <- lik_at root sess prior trans pcc w use st et false i ;;
     Ok (root_lik root w z)).
Proof.
  intros Hw. unfold lik_at. rewrite bind_assoc.
  destruct (CmdsParamsOnly.compute_likelihood_window root (slice sess i (i + w))
              prior trans pcc (if Nat.eqb i 0 then use else false) false st et)
    as [lik|e]; cbn [bind]; auto.
  destruct w as [|w']; [lia|]. reflexivity.
Qed.

Lemma lik_at_values_geo_mean root sess prior trans pcc vcp mp w use st et i :
  1 <= w ->
  lik_at_values root sess prior trans pcc vcp mp w use st et true i
  = (z <- lik_at_values root sess prior trans pcc vcp mp w use st et false i ;;
     Ok (root_lik root w z)).
Proof.
  intros Hw. unfold lik_at_values. rewrite bind_assoc.
  destruct (CmdsParamsValues.compute_likelihood_window root
              (slice sess i (i + w)) prior trans pcc vcp mp
              (if Nat.eqb i 0 then use else false) false st et)
    as [lik|e]; cbn [bind]; auto.
  destruct w as [|w']; [lia|]. reflexivity.
Qed.

Lemma collect_bind_map {A B C : Type} (f : A -> result B) (f' : A -> result C)
    (g : B -> C) (l : list A) :
  (forall x, In x l -> f' x = (z <- f x ;; Ok (g z))) ->
  collect f' l = (r <- collect f l ;; Ok (map g r)).
Proof.
  intros H. unfold collect.
  rewrite <- (collect_map f g l []). simpl.
  apply for_each_ext_in. intros acc x Hx. now rewrite H.
Qed.

(** X2: for a window length of at least 1, the sliding pass with
    use_geo_mean=True returns the likelihoods of the pass with
    use_geo_mean=False, each raised to 1 / window_len (NaN stays NaN), and
    raises exactly when that pass raises, with the same exception. *)
Theorem X2_geo_mean_pass_is_root_of_plain_pass :
  forall (root : Q -> positive -> Q) (w : nat) (use : bool) (st et : string)
         (prior : table Q) (trans pcc : table (table Q)),
    1 <= w ->
    (forall session : list CmdsParamsOnly.Cmd,
        CmdsParamsOnly.compute_likelihood_windows_in_session root session
          prior trans pcc w use (Some st) (Some et) true
        = (liks <- CmdsParamsOnly.compute_likelihood_windows_in_session root
                     session prior trans pcc w use (Some st) (Some et) false ;;
           Ok (map (root_lik root w) liks)))
    /\ (forall (vcp : table (table Q)) (mp : list string)
               (session : list CmdsParamsValues.Cmd),
           CmdsParamsValues.compute_likelihood_windows_in_session root session
             prior trans pcc vcp mp w use (Some st) (Some et) true
           = (liks <- CmdsParamsValues.compute_likelihood_windows_in_session
                        root session prior trans pcc vcp mp w use (Some st)
                        (Some et) false ;;
              Ok (map (root_lik root w) liks))).
Proof.
  intros root w use st et prior trans pcc Hw. split.
  - intros session. rewrite !windows_in_session_collect. cbv zeta.
    apply collect_bind_map. intros i _. now apply lik_at_geo_mean.
  - intros vcp mp session. rewrite !windows_in_session_values_collect. cbv zeta.
    apply collect_bind_map. intros i _. now apply lik_at_values_geo_mean.
Qed.

Lemma X2_geo_mean_pass_is_root_of_plain_pass_witness :
  1 <= 2
  /\ CmdsParamsOnly.compute_likelihood_windows_in_session approx_root
       session_ABA prior_probs trans_probs param_cond_cmd_probs 2 false
       (Some START) (Some END_) true
     = (liks <- CmdsParamsOnly.compute_likelihood_windows_in_session
                  approx_root session_ABA prior_probs trans_probs
                  param_cond_cmd_probs 2 false (Some START) (Some END_) false ;;
        Ok (map (root_lik approx_root 2) liks)).
Proof.
  split; [lia|].
  apply (proj1 (@X2_geo_mean_pass_is_root_of_plain_pass approx_root 2 false
                  START END_ prior_probs trans_probs param_cond_cmd_probs
                  ltac:(lia))).
Defined.

(** ** A window length of 0 *)

Lemma compute_likelihood_window_empty root prior trans pcc us st et :
  CmdsParamsOnly.compute_likelihood_window root [] prior trans pcc us false
    (Some st) (Some et) = Ok NaN.
Proof. destruct us; reflexivity. Qed.

Lemma compute_likelihood_window_values_empty root prior trans pcc vcp mp us st
    et :
  CmdsParamsValues.compute_likelihood_window root [] prior trans pcc vcp mp us
    false (Some st) (Some et) = Ok NaN.
Proof. destruct us; reflexivity. Qed.

Lemma slice_empty {A : Type} (l : list A) (i : nat) : slice l i (i + 0) = [].
Proof. unfold slice. now replace (i + 0 - i) with 0 by lia. Qed.

Lemma collect_const {A B : Type} (f : A -> result B) (b : B) (l : list A) :
  (forall x, In x l -> f x = Ok b) ->
  collect f l = Ok (repeat b (List.length l)).
Proof.
  intros H. unfold collect.
  assert (G : forall acc,
             for_each l (fun acc x => y <- f x ;; Ok (acc ++ [y])) acc
             = Ok (acc ++ repeat b (List.length l))).
  { induction l as [|x l IH]; intros acc; simpl.
    - now rewrite app_nil_r.
    - rewrite H by now left. cbn [bind]. rewrite IH.
      + now rewrite <- app_assoc.
      + intros y Hy. apply H. now right. }
  apply G.
Qed.

Lemma collect_raise_first {A B : Type} (f : A -> result B) (e : exn) (x : A)
    (l : list A) :
  f x = Raise e -> collect f (x :: l) = Raise e.
Proof. intros H. unfold collect. simpl. now rewrite H. Qed.

Lemma min_from_all_nan (n : nat) : min_from NaN (repeat NaN n) = NaN.
Proof. apply min_from_nan. Qed.

(** X3: with window_len = 0 every window is empty, so no table is read: the
    sliding pass returns len(sess) + 1 NaNs and rarest_window_session returns
    the empty window with NaN; with use_geo_mean=True the power 1 / 0 raises
    ZeroDivisionError in both functions. *)
Theorem X3_window_length_zero :
  forall (root : Q -> positive -> Q) (use : bool) (st et : string)
         (prior : table Q) (trans pcc : table (table Q)),
    (forall session : list CmdsParamsOnly.Cmd,
        CmdsParamsOnly.compute_likelihood_windows_in_session root session
          prior trans pcc 0 use (Some st) (Some et) false
        = Ok (repeat NaN
                (S (List.length session + (if use then 1 else 0))))
        /\ CmdsParamsOnly.rarest_window_session root session prior trans pcc
             0 use st et false = Ok ([], NaN)
        /\ CmdsParamsOnly.compute_likelihood_windows_in_session root session
             prior trans pcc 0 use (Some st) (Some et) true
           = Raise ZeroDivisionError
        /\ CmdsParamsOnly.rarest_window_session root session prior trans pcc
             0 use st et true = Raise ZeroDivisionError)
    /\ (forall (vcp : table (table Q)) (mp : list string)
               (session : list CmdsParamsValues.Cmd),
           CmdsParamsValues.compute_likelihood_windows_in_session root session
             prior trans pcc vcp mp 0 use (Some st) (Some et) false
           = Ok (repeat NaN
                   (S (List.length session + (if use then 1 else 0))))
           /\ CmdsParamsValues.rarest_window_session root session prior trans
                pcc vcp mp 0 use st et false = Ok ([], NaN)
           /\ CmdsParamsValues.compute_likelihood_windows_in_session root
                session prior trans pcc vcp mp 0 use (Some st) (Some et) true
              = Raise ZeroDivisionError
           /\ CmdsParamsValues.rarest_window_session root session prior trans
                pcc vcp mp 0 use st et true = Raise ZeroDivisionError).
Proof.
  intros root use st et prior trans pcc. split.
  - intros session.
    assert (Hlen : forall c : CmdsParamsOnly.Cmd,
               S (List.length (extended session c use)) - 0
               = S (List.length session + (if use then 1 else 0))).
    { intros c. unfold extended. destruct use;
        [rewrite length_app; simpl|]; lia. }
    assert (Hplain :
              CmdsParamsOnly.compute_likelihood_windows_in_session root session
                prior trans pcc 0 use (Some st) (Some et) false
              = Ok (repeat NaN
                      (S (List.length session + (if use then 1 else 0))))).
    { rewrite windows_in_session_collect. cbv zeta.
      rewrite (@collect_const _ _ _ NaN).
      - now rewrite length_seq, Hlen.
      - intros i _. unfold lik_at. rewrite slice_empty.
        now rewrite compute_likelihood_window_empty. }
    assert (Hgeo :
              CmdsParamsOnly.compute_likelihood_windows_in_session root session
                prior trans pcc 0 use (Some st) (Some et) true
              = Raise ZeroDivisionError).
    { rewrite windows_in_session_collect. cbv zeta. rewrite Hlen.
      cbn [seq]. apply collect_raise_first. unfold lik_at.
      rewrite slice_empty. now rewrite compute_likelihood_window_empty. }
    split; [exact Hplain|]. split; [|split; [exact Hgeo|]].
    + unfold CmdsParamsOnly.rarest_window_session. rewrite Hplain.
      cbn [bind repeat List.length Nat.eqb py_min].
      rewrite min_from_all_nan. reflexivity.
    + unfold CmdsParamsOnly.rarest_window_session. now rewrite Hgeo.
  - intros vcp mp session.
    assert (Hlen : forall c : CmdsParamsValues.Cmd,
               S (List.length (extended session c use)) - 0
               = S (List.length session + (if use then 1 else 0))).
    { intros c. unfold extended. destruct use;
        [rewrite length_app; simpl|]; lia. }
    assert (Hplain :
              CmdsParamsValues.compute_likelihood_windows_in_session root
                session prior trans pcc vcp mp 0 use (Some st) (Some et) false
              = Ok (repeat NaN
                      (S (List.length session + (if use then 1 else 0))))).
    { rewrite windows_in_session_values_collect. cbv zeta.
      rewrite (@collect_const _ _ _ NaN).
      - now rewrite length_seq, Hlen.
      - intros i _. unfold lik_at_values. rewrite slice_empty.
        now rewrite compute_likelihood_window_values_empty. }
    assert (Hgeo :
              CmdsParamsValues.compute_likelihood_windows_in_session root
                session prior trans pcc vcp mp 0 use (Some st) (Some et) true
              = Raise ZeroDivisionError).
    { rewrite windows_in_session_values_collect. cbv zeta. rewrite Hlen.
      cbn [seq]. apply collect_raise_first. unfold lik_at_values.
      rewrite slice_empty. now rewrite compute_likelihood_window_values_empty. }
    split; [exact Hplain|]. split; [|split; [exact Hgeo|]].
    + unfold CmdsParamsValues.rarest_window_session. rewrite Hplain.
      cbn [bind repeat List.length Nat.eqb py_min].
      rewrite min_from_all_nan. reflexivity.
    + unfold CmdsParamsValues.rarest_window_session. now rewrite Hgeo.
Qed.

(** ** The window returned by rarest_window_session *)

Lemma rarest_window_session_pick root session prior trans pcc w use st et gm :
  CmdsParamsOnly.rarest_window_session root session prior trans pcc w use st et
    gm
  = (liks <- CmdsParamsOnly.compute_likelihood_windows_in_session root session
               prior trans pcc w use (Some st) (Some et) gm ;;
     pick_rarest session w liks).
Proof. reflexivity. Qed.

Lemma rarest_window_session_values_pick root session prior trans pcc vcp mp w
    use st et gm :
  CmdsParamsValues.rarest_window_session root session prior trans pcc vcp mp w
    use st et gm
  = (liks <- CmdsParamsValues.compute_likelihood_windows_in_session root
               session prior trans pcc vcp mp w use (Some st) (Some et) gm ;;
     pick_rarest session w liks).
Proof. reflexivity. Qed.

(** A slice of a list with one more item at its end. *)
Lemma slice_snoc {A : Type} (l : list A) (c : A) (i w : nat) :
  i <= List.length l ->
  slice (l ++ [c]) i (i + w)
  = slice l i (i + w)
      ++ (if Nat.ltb (List.length l) (i + w) then [c] else []).
Proof.
  intros Hi. unfold slice. replace (i + w - i) with w by lia.
  rewrite skipn_app. replace (i - List.length l) with 0 by lia.
  cbn [skipn]. rewrite firstn_app, length_skipn.
  destruct (Nat.ltb_spec (List.length l) (i + w)) as [Hlt|Hge].
  - destruct (w - (List.length l - i)) as [|n] eqn:E; [lia|].
    cbn [firstn]. now rewrite firstn_nil.
  - replace (w - (List.length l - i)) with 0 by lia. reflexivity.
Qed.

Lemma length_slice {A : Type} (l : list A) (i w : nat) :
  i + w <= List.length l -> List.length (slice l i (i + w)) = w.
Proof.
  intros H. unfold slice. replace (i + w - i) with w by lia.
  rewrite length_firstn, length_skipn. lia.
Qed.

(** What [pick_rarest] returns on the likelihoods of the windows of
    [extended session c use]. *)
Lemma pick_rarest_scored {C : Type} (session : list C) (c : C) (use : bool)
    (w : nat) (liks : list pyfloat) (win : list C) (m : pyfloat) :
  1 <= w ->
  List.length liks = S (List.length (extended session c use)) - w ->
  liks <> [] ->
  pick_rarest session w liks = Ok (win, m) ->
  exists ind,
    nth_error liks ind = Some m
    /\ win = slice session ind (ind + w)
    /\ slice (extended session c use) ind (ind + w)
       = win ++ (if use && Nat.ltb (List.length session) (ind + w)
                 then [c] else [])
    /\ List.length (slice (extended session c use) ind (ind + w)) = w.
Proof.
  intros Hw Hlen Hne Hpick.
  destruct (pick_rarest_first_minimum session w Hne) as [ind [m' [E Hfirst]]].
  rewrite E in Hpick. injection Hpick as <- <-.
  destruct Hfirst as [Hnth _]. exists ind. split; [exact Hnth|].
  split; [reflexivity|].
  assert (Hind : ind < List.length liks).
  { apply nth_error_Some. congruence. }
  rewrite Hlen in Hind. split.
  - unfold extended in *. destruct use; cbn [andb].
    + rewrite length_app in Hind. cbn [List.length] in Hind.
      apply slice_snoc. lia.
    + now rewrite app_nil_r.
  - apply length_slice. lia.
Qed.

(** X4: for a window length of at least 1 and at least one window,
    rarest_window_session returns session[ind : ind + window_len] for a
    position ind that holds the returned likelihood.  The window that was
    scored there, sess[ind : ind + window_len], has window_len commands; the
    returned one is cut from the session without the end-token command, so it
    is the scored window without that command, one command shorter when the
    scored window reaches the end and the tokens are used. *)
Theorem X4_returned_window_is_scored_window_without_end_token :
  forall (root : Q -> positive -> Q) (w : nat) (use : bool) (st et : string)
         (gm : bool) (prior : table Q) (trans pcc : table (table Q)),
    1 <= w ->
    (forall (session win : list CmdsParamsOnly.Cmd) (m : pyfloat),
        w <= List.length session + (if use then 1 else 0) ->
        CmdsParamsOnly.rarest_window_session root session prior trans pcc w use
          st et gm = Ok (win, m) ->
        let sess := extended session (CmdsParamsOnly.mkCmd et []) use in
        exists liks ind,
          CmdsParamsOnly.compute_likelihood_windows_in_session root session
            prior trans pcc w use (Some st) (Some et) gm = Ok liks
          /\ nth_error liks ind = Some m
          /\ win = slice session ind (ind + w)
          /\ slice sess ind (ind + w)
             = win ++ (if use && Nat.ltb (List.length session) (ind + w)
                       then [CmdsParamsOnly.mkCmd et []] else [])
          /\ List.length (slice sess ind (ind + w)) = w)
    /\ (forall (vcp : table (table Q)) (mp : list string)
               (session win : list CmdsParamsValues.Cmd) (m : pyfloat),
           w <= List.length session + (if use then 1 else 0) ->
           CmdsParamsValues.rarest_window_session root session prior trans pcc
             vcp mp w use st et gm = Ok (win, m) ->
           let sess := extended session (CmdsParamsValues.mkCmd et []) use in
           exists liks ind,
             CmdsParamsValues.compute_likelihood_windows_in_session root
               session prior trans pcc vcp mp w use (Some st) (Some et) gm
             = Ok liks
             /\ nth_error liks ind = Some m
             /\ win = slice session ind (ind + w)
             /\ slice sess ind (ind + w)
                = win ++ (if use && Nat.ltb (List.length session) (ind + w)
                          then [CmdsParamsValues.mkCmd et []] else [])
             /\ List.length (slice sess ind (ind + w)) = w).
Proof.
  intros root w use st et gm prior trans pcc Hw. split.
  - intros session win m Hlen H. cbv zeta.
    rewrite rarest_window_session_pick in H.
    destruct (CmdsParamsOnly.compute_likelihood_windows_in_session root session
                prior trans pcc w use (Some st) (Some et) gm)
      as [liks|e] eqn:E; [|discriminate H].
    cbn [bind] in H.
    assert (Hl : List.length liks
                 = S (List.length
                        (extended session (CmdsParamsOnly.mkCmd et []) use))
                   - w).
    { rewrite windows_in_session_collect in E. cbv zeta in E.
      apply collect_Forall2, Forall2_seq_nth in E. apply E. }
    assert (Hext : List.length
                     (extended session (CmdsParamsOnly.mkCmd et []) use)
                   = List.length session + (if use then 1 else 0)).
    { unfold extended. destruct use; [rewrite length_app; simpl|]; lia. }
    assert (Hne : liks <> []).
    { intros ->. cbn [List.length] in Hl. lia. }
    destruct (pick_rarest_scored session (CmdsParamsOnly.mkCmd et []) use Hw Hl
                Hne H) as [ind Hind].
    exists liks, ind. split; [reflexivity|]. exact Hind.
  - intros vcp mp session win m Hlen H. cbv zeta.
    rewrite rarest_window_session_values_pick in H.
    destruct (CmdsParamsValues.compute_likelihood_windows_in_session root
                session prior trans pcc vcp mp w use (Some st) (Some et) gm)
      as [liks|e] eqn:E; [|discriminate H].
    cbn [bind] in H.
    assert (Hl : List.length liks
                 = S (List.length
                        (extended session (CmdsParamsValues.mkCmd et []) use))
                   - w).
    { rewrite windows_in_session_values_collect in E. cbv zeta in E.
      apply collect_Forall2, Forall2_seq_nth in E. apply E. }
    assert (Hext : List.length
                     (extended session (CmdsParamsValues.mkCmd et []) use)
                   = List.length session + (if use then 1 else 0)).
    { unfold extended. destruct use; [rewrite length_app; simpl|]; lia. }
    assert (Hne : liks <> []).
    { intros ->. cbn [List.length] in Hl. lia. }
    destruct (pick_rarest_scored session (CmdsParamsValues.mkCmd et []) use Hw
                Hl Hne H) as [ind Hind].
    exists liks, ind. split; [reflexivity|]. exact Hind.
Qed.

Lemma X4_returned_window_is_scored_window_without_end_token_witness :
  1 <= 2
  /\ 2 <= List.length [CmdsParamsOnly.mkCmd "A" []] + 1
  /\ CmdsParamsOnly.rarest_window_session approx_root
       [CmdsParamsOnly.mkCmd "A" []] prior_probs trans_probs
       param_cond_cmd_probs 2 true START END_ false
     = Ok ([CmdsParamsOnly.mkCmd "A" []], Fl (1 # 10))
  /\ exists liks ind,
       CmdsParamsOnly.compute_likelihood_windows_in_session approx_root
         [CmdsParamsOnly.mkCmd "A" []] prior_probs trans_probs
         param_cond_cmd_probs 2 true (Some START) (Some END_) false = Ok liks
       /\ nth_error liks ind = Some (Fl (1 # 10))
       /\ [CmdsParamsOnly.mkCmd "A" []]
          = slice [CmdsParamsOnly.mkCmd "A" []] ind (ind + 2)
       /\ slice (extended [CmdsParamsOnly.mkCmd "A" []]
                   (CmdsParamsOnly.mkCmd END_ []) true) ind (ind + 2)
          = [CmdsParamsOnly.mkCmd "A" []]
              ++ (if true && Nat.ltb
                               (List.length [CmdsParamsOnly.mkCmd "A" []])
                               (ind + 2)
                  then [CmdsParamsOnly.mkCmd END_ []] else [])
       /\ List.length
            (slice (extended [CmdsParamsOnly.mkCmd "A" []]
                      (CmdsParamsOnly.mkCmd END_ []) true) ind (ind + 2))
          = 2.
Proof.
  split; [lia|]. split; [simpl; lia|]. split; [reflexivity|].
  apply (proj1 (@X4_returned_window_is_scored_window_without_end_token
                  approx_root 2 true START END_ false prior_probs trans_probs
                  param_cond_cmd_probs ltac:(lia))
           [CmdsParamsOnly.mkCmd "A" []] [CmdsParamsOnly.mkCmd "A" []]
           (Fl (1 # 10))).
  - simpl. lia.
  - reflexivity.
Defined.

(** ** Windows scored on StateMatrix tables *)

Lemma for_each_window_step_total root window trans pcc n :
  sm_ok2 trans = true -> sm_ok2 pcc = true ->
  S n <= List.length window ->
  forall st, exists st',
    for_each (seq 0 n) (CmdsParamsOnly.window_step root window trans pcc) st
    = Ok st'.
Proof.
  intros Ht Hp Hn. apply for_each_total. intros acc i Hi. apply in_seq in Hi.
  apply window_step_total; auto. lia.
Qed.

Lemma for_each_window_step_values_total root window trans pcc vcp mp n :
  sm_ok2 trans = true -> sm_ok2 pcc = true -> sm_ok2 vcp = true ->
  S n <= List.length window ->
  forall st, exists st',
    for_each (seq 0 n)
      (CmdsParamsValues.window_step root window trans pcc vcp mp) st
    = Ok st'.
Proof.
  intros Ht Hp Hv Hn. apply for_each_total. intros acc i Hi. apply in_seq in Hi.
  apply window_step_values_total; auto. lia.
Qed.

Lemma getitem2_sm_ok2 {V : Type} (t : table (table V)) (k1 k2 : string) :
  sm_ok2 t = true -> exists v, getitem2 t k1 k2 = Ok v.
Proof.
  intros H. unfold getitem2.
  destruct (getitem_sm_ok2 t k1 H) as [row [-> Hrow]]. cbn [bind].
  now apply getitem_sm_ok1.
Qed.

(** X5: on StateMatrix tables that passed the checks of their constructor,
    compute_likelihood_window returns for every window and every choice of
    use_start_token and use_end_token (the tokens being given), whatever
    commands and params the window holds: NaN for the empty window and a
    number for any other. *)
Theorem X5_window_likelihood_returns_on_state_matrices :
  forall (root : Q -> positive -> Q) (us ue : bool) (st et : string)
         (prior : table Q) (trans pcc : table (table Q)),
    sm_ok1 prior = true -> sm_ok2 trans = true -> sm_ok2 pcc = true ->
    (forall window : list CmdsParamsOnly.Cmd,
        exists lik,
          CmdsParamsOnly.compute_likelihood_window root window prior trans pcc
            us ue (Some st) (Some et) = Ok lik
          /\ (window = [] -> lik = NaN)
          /\ (window <> [] -> is_number lik))
    /\ (forall (vcp : table (table Q)) (mp : list string)
               (window : list CmdsParamsValues.Cmd),
           sm_ok2 vcp = true ->
           exists lik,
             CmdsParamsValues.compute_likelihood_window root window prior trans
               pcc vcp mp us ue (Some st) (Some et) = Ok lik
             /\ (window = [] -> lik = NaN)
             /\ (window <> [] -> is_number lik)).
Proof.
  intros root us ue st et prior trans pcc Hprior Ht Hp. split.
  - intros window.
    assert (Hret : exists lik,
               CmdsParamsOnly.compute_likelihood_window root window prior trans
                 pcc us ue (Some st) (Some et) = Ok lik).
    { unfold CmdsParamsOnly.compute_likelihood_window.
      replace (implb us true) with true by (now destruct us).
      replace (implb ue true) with true by (now destruct ue).
      cbn [assert bind].
      destruct window as [|w0 rest]; [eauto|].
      destruct (@compute_prob_total root (CmdsParamsOnly.name w0)
                  (CmdsParamsOnly.params w0) pcc Hp) as [q ->].
      cbn [bind].
      assert (Hfirst : exists prob,
                 (if us
                  then row <- getitem trans st ;;
                       t <- getitem row (CmdsParamsOnly.name w0) ;;
                       Ok (1 * (t * q))%Q
                  else p <- getitem prior (CmdsParamsOnly.name w0) ;;
                       Ok (1 * (p * q))%Q) = Ok prob).
      { destruct us.
        - destruct (getitem2_sm_ok2 trans st (CmdsParamsOnly.name w0) Ht)
            as [t Ht']. unfold getitem2 in Ht'.
          destruct (getitem trans st) as [row|]; [|discriminate Ht'].
          cbn [bind] in *. rewrite Ht'. cbn [bind]. eauto.
        - destruct (getitem_sm_ok1 prior (CmdsParamsOnly.name w0) Hprior)
            as [p ->]. cbn [bind]. eauto. }
      destruct Hfirst as [prob Hprob].
      replace (match us with
               | true => _
               | false => _
               end) with (Ok (A := Q) prob)
        by (destruct us; now rewrite <- Hprob).
      cbn [bind].
      destruct (@for_each_window_step_total root (w0 :: rest) trans pcc
                  (List.length rest) Ht Hp ltac:(simpl; lia)
                  (prob, CmdsParamsOnly.name w0)) as [st' ->].
      cbn [bind]. destruct ue; [|eauto].
      destruct (getitem2_sm_ok2 trans (snd st') et Ht) as [t Ht'].
      unfold getitem2 in Ht'.
      destruct (getitem trans (snd st')) as [row|]; [|discriminate Ht'].
      cbn [bind] in *. rewrite Ht'. cbn [bind]. eauto. }
    destruct Hret as [lik Hlik]. exists lik. split; [exact Hlik|]. split.
    + intros ->. unfold CmdsParamsOnly.compute_likelihood_window in Hlik.
      destruct us, ue; cbn in Hlik; congruence.
    + intros Hne. eapply compute_likelihood_window_number; eauto.
  - intros vcp mp window Hv.
    assert (Hret : exists lik,
               CmdsParamsValues.compute_likelihood_window root window prior
                 trans pcc vcp mp us ue (Some st) (Some et) = Ok lik).
    { unfold CmdsParamsValues.compute_likelihood_window.
      replace (implb us true) with true by (now destruct us).
      replace (implb ue true) with true by (now destruct ue).
      cbn [assert bind].
      destruct window as [|w0 rest]; [eauto|].
      destruct (@compute_prob_values_total root (CmdsParamsValues.name w0)
                  (CmdsParamsValues.params w0) pcc vcp mp Hp Hv) as [q ->].
      cbn [bind].
      assert (Hfirst : exists prob,
                 (if us
                  then row <- getitem trans st ;;
                       t <- getitem row (CmdsParamsValues.name w0) ;;
                       Ok (1 * (t * q))%Q
                  else p <- getitem prior (CmdsParamsValues.name w0) ;;
                       Ok (1 * (p * q))%Q) = Ok prob).
      { destruct us.
        - destruct (getitem2_sm_ok2 trans st (CmdsParamsValues.name w0) Ht)
            as [t Ht']. unfold getitem2 in Ht'.
          destruct (getitem trans st) as [row|]; [|discriminate Ht'].
          cbn [bind] in *. rewrite Ht'. cbn [bind]. eauto.
        - destruct (getitem_sm_ok1 prior (CmdsParamsValues.name w0) Hprior)
            as [p ->]. cbn [bind]. eauto. }
      destruct Hfirst as [prob Hprob].
      replace (match us with
               | true => _
               | false => _
               end) with (Ok (A := Q) prob)
        by (destruct us; now rewrite <- Hprob).
      cbn [bind].
      destruct (@for_each_window_step_values_total root (w0 :: rest) trans pcc
                  vcp mp (List.length rest) Ht Hp Hv ltac:(simpl; lia)
                  (prob, CmdsParamsValues.name w0)) as [st' ->].
      cbn [bind]. destruct ue; [|eauto].
      destruct (getitem2_sm_ok2 trans (snd st') et Ht) as [t Ht'].
      unfold getitem2 in Ht'.
      destruct (getitem trans (snd st')) as [row|]; [|discriminate Ht'].
      cbn [bind] in *. rewrite Ht'. cbn [bind]. eauto. }
    destruct Hret as [lik Hlik]. exists lik. split; [exact Hlik|]. split.
    + intros ->. unfold CmdsParamsValues.compute_likelihood_window in Hlik.
      destruct us, ue; cbn in Hlik; congruence.
    + intros Hne. eapply compute_likelihood_window_values_number; eauto.
Qed.

Lemma X5_window_likelihood_returns_on_state_matrices_witness :
  sm_ok1 prior_probs = true /\ sm_ok2 trans_probs = true
  /\ sm_ok2 param_cond_cmd_probs = true
  /\ exists lik,
       CmdsParamsOnly.compute_likelihood_window approx_root
         [CmdsParamsOnly.mkCmd "never seen" ["nor this"]] prior_probs
         trans_probs param_cond_cmd_probs true true (Some START) (Some END_)
       = Ok lik
       /\ ([CmdsParamsOnly.mkCmd "never seen" ["nor this"]] = [] -> lik = NaN)
       /\ ([CmdsParamsOnly.mkCmd "never seen" ["nor this"]] <> []
           -> is_number lik).
Proof.
  split; [reflexivity|]. split; [reflexivity|]. split; [reflexivity|].
  apply (proj1 (@X5_window_likelihood_returns_on_state_matrices approx_root
                  true true START END_ prior_probs trans_probs
                  param_cond_cmd_probs eq_refl eq_refl eq_refl)).
Defined.

(** ** Tokens that are requested but not given *)

(** X6: compute_likelihood_window raises AssertionError when the start token
    is requested and is None, or the end token is requested and is None, and
    compute_likelihood_windows_in_session when the tokens are requested and
    either is None; this happens before the window, the session or any table
    is read. *)
Theorem X6_missing_tokens_raise_assertion_error :
  forall (root : Q -> positive -> Q) (prior : table Q)
         (trans pcc : table (table Q)),
    (forall (window session : list CmdsParamsOnly.Cmd) (us ue gm : bool)
            (st et : option string) (w : nat),
        CmdsParamsOnly.compute_likelihood_window root window prior trans pcc
          true ue None et = Raise AssertionError
        /\ CmdsParamsOnly.compute_likelihood_window root window prior trans pcc
             us true st None = Raise AssertionError
        /\ CmdsParamsOnly.compute_likelihood_windows_in_session root session
             prior trans pcc w true None et gm = Raise AssertionError
        /\ CmdsParamsOnly.compute_likelihood_windows_in_session root session
             prior trans pcc w true st None gm = Raise AssertionError)
    /\ (forall (vcp : table (table Q)) (mp : list string)
               (window session : list CmdsParamsValues.Cmd) (us ue gm : bool)
               (st et : option string) (w : nat),
           CmdsParamsValues.compute_likelihood_window root window prior trans
             pcc vcp mp true ue None et = Raise AssertionError
           /\ CmdsParamsValues.compute_likelihood_window root window prior
                trans pcc vcp mp us true st None = Raise AssertionError
           /\ CmdsParamsValues.compute_likelihood_windows_in_session root
                session prior trans pcc vcp mp w true None et gm
              = Raise AssertionError
           /\ CmdsParamsValues.compute_likelihood_windows_in_session root
                session prior trans pcc vcp mp w true st None gm
              = Raise AssertionError).
Proof.
  intros root prior trans pcc. split.
  - intros window session us ue gm st et w. split; [|split; [|split]].
    + reflexivity.
    + unfold CmdsParamsOnly.compute_likelihood_window.
      destruct us, st; reflexivity.
    + reflexivity.
    + unfold CmdsParamsOnly.compute_likelihood_windows_in_session.
      destruct st; reflexivity.
  - intros vcp mp window session us ue gm st et w. split; [|split; [|split]].
    + reflexivity.
    + unfold CmdsParamsValues.compute_likelihood_window.
      destruct us, st; reflexivity.
    + reflexivity.
    + unfold CmdsParamsValues.compute_likelihood_windows_in_session.
      destruct st; reflexivity.
Qed.

(** ** The probabilities as counts over totals *)

(** The loop of [unigram_probs], for a total other than 0. *)
Lemma unigram_loop (n : Z) :
  n <> 0%Z ->
  forall (l : dict Z) (done : dict Q),
    NoDup (keys l) ->
    (forall k, In k (keys l) -> ~ In k (keys done)) ->
    for_each l
      (fun acc kc => q <- true_div (snd kc) n ;; Ok (setitem (fst kc) q acc))
      done
    = Ok (done ++ map (fun kc => (fst kc, (inject_Z (snd kc) / inject_Z n)%Q)) l).
Proof.
  intros Hn. induction l as [|[k c] l IH]; intros done Hnd Hfresh; simpl.
  - now rewrite app_nil_r.
  - rewrite (true_div_nonzero c Hn). cbn [bind].
    inversion Hnd as [|? ? Hk Hnd']; subst.
    unfold setitem. rewrite upd_fresh by (apply Hfresh; simpl; auto).
    rewrite IH; auto.
    + now rewrite <- app_assoc.
    + intros k' Hk' Hin. unfold keys in Hin. rewrite map_app in Hin.
      apply in_app_or in Hin. destruct Hin as [Hin|[<-|[]]].
      * apply (Hfresh k'); simpl; auto.
      * contradiction.
Qed.

(** [unigram_probs], when it returns, has written the counts divided by
    their sum, which is not 0 unless there is no count at all. *)
Lemma unigram_probs_returns (counts : table Z) (d : dict Q) :
  NoDup (keys (items counts)) ->
  Probabilities.unigram_probs counts = Ok d ->
  d = norm_row (items counts)
  /\ (items counts <> [] ->
      Probabilities.sum_Z (values (items counts)) <> 0%Z).
Proof.
  intros Hnd H. unfold Probabilities.unigram_probs in H.
  destruct (items counts) as [|kc l] eqn:E.
  - simpl in H. injection H as <-. split; [reflexivity|congruence].
  - set (n := Probabilities.sum_Z (values (kc :: l))) in *.
    destruct (Z.eq_dec n 0) as [Hz|Hnz].
    + simpl in H. unfold true_div in H at 1. rewrite Hz in H. simpl in H.
      discriminate.
    + rewrite (@unigram_loop n Hnz (kc :: l) [] Hnd (fun k _ H => H)) in H.
      injection H as <-. split; [reflexivity|auto].
Qed.

Lemma unigram_probs_total (counts : table Z) :
  NoDup (keys (items counts)) ->
  Probabilities.sum_Z (values (items counts)) <> 0%Z ->
  Probabilities.unigram_probs counts = Ok (norm_row (items counts)).
Proof.
  intros Hnd Hn. unfold Probabilities.unigram_probs.
  now rewrite (@unigram_loop _ Hn (items counts) [] Hnd (fun k _ H => H)).
Qed.

(** The prior loop of [compute_cmds_probs] looks each count up again by key;
    on a dict this gives what [unigram_probs] reads from the items. *)
Lemma cmds_prior_loop (seq1 : table Z) :
  NoDup (keys (items seq1)) ->
  for_each (keys (items seq1))
    (fun acc cmd =>
       c <- getitem seq1 cmd ;;
       q <- true_div c (Probabilities.sum_Z (values (items seq1))) ;;
       Ok (setitem cmd q acc))
    [] = Probabilities.unigram_probs seq1.
Proof.
  intros Hnd. unfold Probabilities.unigram_probs, keys. rewrite for_each_map.
  apply for_each_ext_in. intros acc [k c] Hin. cbn [fst snd].
  assert (Hk : getitem seq1 k = Ok c).
  { pose proof (NoDup_In_get _ _ _ Hnd Hin) as Hget.
    destruct seq1; simpl in *; now rewrite Hget. }
  rewrite Hk. reflexivity.
Qed.

Lemma StateMatrix_inv {V : Type} (d : dict V) (u : string) (T : table V) :
  StateMatrix d u = Ok T -> T = SM d u /\ d <> [] /\ contains u d = true.
Proof.
  unfold StateMatrix, assert. intros H.
  destruct d as [|kv d]; [discriminate H|]. cbn [List.length Nat.eqb negb bind] in H.
  destruct (contains u (kv :: d)) eqn:E; [|discriminate H].
  cbn [bind] in H. injection H as <-. repeat split; congruence.
Qed.

Lemma StateMatrix2_inv {V : Type} (d : dict (dict V)) (u : string)
    (T : table (table V)) :
  StateMatrix2 d u = Ok T ->
  T = SM (wrap_rows u d) u /\ valid2 u d = true.
Proof.
  unfold StateMatrix2, assert, valid2. intros H.
  destruct (negb (Nat.eqb (List.length d) 0)); [|discriminate H].
  cbn [bind] in H.
  destruct (contains u d); [|discriminate H]. cbn [bind] in H.
  destruct (forallb (fun kv => contains u (snd kv)) d); [|discriminate H].
  cbn [bind] in H. injection H as <-. split; reflexivity.
Qed.

Lemma norm_row_nil_inv (row : dict Z) : norm_row row = [] -> row = [].
Proof. unfold norm_row. now destruct row. Qed.

(** What the three derivation functions return, when they return. *)
Lemma compute_cmds_probs_returns (seq1 : table Z) (seq2 : table (table Z))
    (u : string) (prior : table Q) (trans : table (table Q)) :
  NoDup (keys (items seq1)) -> wf_table2 seq2 = true ->
  Probabilities.compute_cmds_probs seq1 seq2 u = Ok (prior, trans) ->
  prior = SM (norm_row (items seq1)) u
  /\ trans = SM (wrap_rows u (norm_rows (items seq2))) u
  /\ Probabilities.sum_Z (values (items seq1)) <> 0%Z
  /\ (forall kv, In kv (items seq2) -> items (snd kv) <> [] ->
                 Probabilities.sum_Z (values (items (snd kv))) <> 0%Z).
Proof.
  intros Hnd Hwf H. unfold Probabilities.compute_cmds_probs in H.
  cbv zeta in H. rewrite (@cmds_prior_loop seq1 Hnd) in H.
  rewrite (@cmds_trans_loop seq2 Hwf) in H.
  destruct (Probabilities.unigram_probs seq1) as [d1|] eqn:E1;
    [|discriminate H]. cbn [bind] in H.
  destruct (Probabilities.cond_probs seq2) as [d2|] eqn:E2;
    [|discriminate H]. cbn [bind] in H.
  destruct (StateMatrix d1 u) as [T1|] eqn:S1; [|discriminate H].
  cbn [bind] in H.
  destruct (StateMatrix2 d2 u) as [T2|] eqn:S2; [|discriminate H].
  cbn [bind] in H. injection H as <- <-.
  apply unigram_probs_returns in E1; auto. destruct E1 as [-> Hsum1].
  destruct (wf_table2_NoDup _ Hwf) as [Hnd2 Hrows].
  unfold Probabilities.cond_probs in E2.
  apply cond_rows_loop in E2; auto. destruct E2 as [-> Hsum2].
  apply StateMatrix_inv in S1. destruct S1 as [-> [Hne _]].
  apply StateMatrix2_inv in S2. destruct S2 as [-> _].
  repeat split; auto.
  apply Hsum1. intros Hnil. apply Hne. now rewrite Hnil.
Qed.

Lemma cond_unigram_returns (counts1 : table Z) (counts2 : table (table Z))
    (u : string) (probs : table Q) (cond : table (table Q)) :
  NoDup (keys (items counts1)) -> wf_table2 counts2 = true ->
  (c <- Probabilities.cond_probs counts2 ;;
   p <- Probabilities.unigram_probs counts1 ;;
   p <- StateMatrix p u ;;
   c <- StateMatrix2 c u ;;
   Ok (p, c)) = Ok (probs, cond) ->
  probs = SM (norm_row (items counts1)) u
  /\ cond = SM (wrap_rows u (norm_rows (items counts2))) u
  /\ Probabilities.sum_Z (values (items counts1)) <> 0%Z
  /\ (forall kv, In kv (items counts2) -> items (snd kv) <> [] ->
                 Probabilities.sum_Z (values (items (snd kv))) <> 0%Z).
Proof.
  intros Hnd Hwf H.
  destruct (Probabilities.cond_probs counts2) as [d2|] eqn:E2;
    [|discriminate H]. cbn [bind] in H.
  destruct (Probabilities.unigram_probs counts1) as [d1|] eqn:E1;
    [|discriminate H]. cbn [bind] in H.
  destruct (StateMatrix d1 u) as [T1|] eqn:S1; [|discriminate H].
  cbn [bind] in H.
  destruct (StateMatrix2 d2 u) as [T2|] eqn:S2; [|discriminate H].
  cbn [bind] in H. injection H as <- <-.
  apply unigram_probs_returns in E1; auto. destruct E1 as [-> Hsum1].
  destruct (wf_table2_NoDup _ Hwf) as [Hnd2 Hrows].
  unfold Probabilities.cond_probs in E2.
  apply cond_rows_loop in E2; auto. destruct E2 as [-> Hsum2].
  apply StateMatrix_inv in S1. destruct S1 as [-> [Hne _]].
  apply StateMatrix2_inv in S2. destruct S2 as [-> _].
  repeat split; auto.
  apply Hsum1. intros Hnil. apply Hne. now rewrite Hnil.
Qed.







(** ** Stored counts are at least 1 *)

Lemma In_upd {V : Type} (k a : string) (v : V) (f : option V -> V) (d : dict V) :
  In (k, v) (upd a f d) -> (k = a /\ v = f (get a d)) \/ In (k, v) d.
Proof.
  induction d as [|[k' v'] d IH]; simpl.
  - intros [H|[]]. injection H as <- <-. auto.
  - destruct (String.eqb_spec a k') as [->|Hne]; simpl.
    + intros [H|H]; [injection H as <- <-|]; auto.
    + intros [H|H]; auto. destruct (IH H); auto.
Qed.

Lemma pos1_nil : pos1 [].
Proof. intros k c []. Qed.

Lemma pos1_incr (a : string) (d : dict Z) : pos1 d -> pos1 (incr a d).
Proof.
  intros Hd k c Hin. apply In_upd in Hin. destruct Hin as [[-> ->]|Hin].
  - destruct (get a d) as [n|] eqn:E; simpl; [|lia].
    apply get_Some_In in E. apply Hd in E. lia.
  - eauto.
Qed.

Lemma pos1_row_of (a : string) (d : dict (dict Z)) :
  pos2 d -> pos1 (row_of (get a d)).
Proof.
  intros Hd. destruct (get a d) as [row|] eqn:E; simpl.
  - apply get_Some_In in E. eauto.
  - apply pos1_nil.
Qed.

Lemma pos2_incr2 (a b : string) (d : dict (dict Z)) : pos2 d -> pos2 (incr2 a b d).
Proof.
  intros Hd k row Hin. apply In_upd in Hin. destruct Hin as [[-> ->]|Hin].
  - apply pos1_incr. now apply pos1_row_of.
  - eauto.
Qed.

Lemma pos2_touch (a : string) (d : dict (dict Z)) : pos2 d -> pos2 (touch a d).
Proof.
  intros Hd k row Hin. apply In_upd in Hin. destruct Hin as [[-> ->]|Hin].
  - now apply pos1_row_of.
  - eauto.
Qed.

Lemma NoDup_row_of {V : Type} (a : string) (d : dict (dict V)) :
  rows_nodup d -> NoDup (keys (row_of (get a d))).
Proof.
  intros Hd. destruct (get a d) as [row|] eqn:E; simpl.
  - apply get_Some_In in E. eauto.
  - constructor.
Qed.

Lemma rows_nodup_incr2 (a b : string) (d : dict (dict Z)) :
  rows_nodup d -> rows_nodup (incr2 a b d).
Proof.
  intros Hd k row Hin. apply In_upd in Hin. destruct Hin as [[-> ->]|Hin].
  - apply NoDup_keys_upd. now apply NoDup_row_of.
  - eauto.
Qed.

Lemma rows_nodup_touch {V : Type} (a : string) (d : dict (dict V)) :
  rows_nodup d -> rows_nodup (touch a d).
Proof.
  intros Hd k row Hin. apply In_upd in Hin. destruct Hin as [[-> ->]|Hin].
  - now apply NoDup_row_of.
  - eauto.
Qed.

Lemma counted_nil : counted ([], []).
Proof.
  repeat split; simpl; try constructor; intros k r [].
Qed.

Lemma counted_incr_incr2 (q : counts2) (a b c : string) :
  counted q -> counted (incr a (fst q), incr2 b c (snd q)).
Proof.
  intros [[H1 H2] [H3 [H4 H5]]]. repeat split; simpl.
  - now apply NoDup_keys_upd.
  - now apply NoDup_keys_upd.
  - now apply rows_nodup_incr2.
  - now apply pos1_incr.
  - now apply pos2_incr2.
Qed.

Lemma counted_incr (q : counts2) (a : string) :
  counted q -> counted (incr a (fst q), snd q).
Proof.
  intros [[H1 H2] [H3 [H4 H5]]]. repeat split; simpl; auto.
  - now apply NoDup_keys_upd.
  - now apply pos1_incr.
Qed.

Lemma counted_touch (q : counts2) (a : string) :
  counted q -> counted (fst q, touch a (snd q)).
Proof.
  intros [[H1 H2] [H3 [H4 H5]]]. repeat split; simpl; auto.
  - now apply NoDup_keys_upd.
  - now apply rows_nodup_touch.
  - now apply pos2_touch.
Qed.

Lemma seq_pass_counted (s e : string) (sessions : list (list string)) :
  counted (seq_pass s e sessions).
Proof.
  unfold seq_pass. apply fold_left_inv; [|apply counted_nil].
  intros q names _ Hq. unfold seq_session.
  set (st0 := (s, (incr s (fst q), snd q))).
  assert (H0 : counted (snd st0)) by (now apply counted_incr).
  assert (Hst : counted (snd (fold_left seq_cmd names st0))).
  { apply (fold_left_inv (fun st => counted (snd st))); auto.
    intros st n _ Hst. unfold seq_cmd. cbn [snd].
    now apply counted_incr_incr2. }
  now apply counted_incr_incr2.
Qed.

Lemma seq_smooth_counted (s e : string) (cmds : list string) (q : counts2) :
  counted q -> counted (seq_smooth s e cmds q).
Proof.
  unfold seq_smooth. apply fold_left_inv. intros q1 c1 _ Hq1.
  apply fold_left_inv; auto. intros q2 c2 _ Hq2. unfold seq_smooth_pair.
  destruct (negb (String.eqb c1 e) && negb (String.eqb c2 s)); auto.
  apply (@counted_incr_incr2 (incr c1 (fst q2), snd q2) c2 c1 c2).
  now apply counted_incr.
Qed.

Lemma pair_pass_counted (pairs : list (string * string)) :
  counted (pair_pass pairs).
Proof.
  unfold pair_pass. apply fold_left_inv; [|apply counted_nil].
  intros q ab _ Hq. unfold pair_count. now apply counted_incr_incr2.
Qed.

Lemma pair_smooth_counted (u : string) (outer inner : list string)
    (q : counts2) :
  counted q -> counted (pair_smooth u outer inner q).
Proof.
  unfold pair_smooth. apply fold_left_inv. intros q1 a _ Hq1.
  apply fold_left_inv; auto. intros q2 b _ Hq2. unfold pair_smooth_entry.
  cbv zeta.
  destruct (contains b (row_of (get a (touch a (snd q2)))) || String.eqb b u).
  - apply (@counted_incr_incr2 (fst q2, touch a (snd q2)) b a b).
    now apply counted_touch.
  - now apply counted_touch.
Qed.

(** The dicts at the end of [compute_counts], pair by pair. *)
Lemma smoothed_counts_counted (sessions : list (list CmdsParamsOnly.Cmd))
    (s e u : string) :
  let c := CmdsParamsOnly.smoothed_counts sessions s e u in
  counted (CmdsParamsOnly.seq1_counts c, CmdsParamsOnly.seq2_counts c)
  /\ counted (CmdsParamsOnly.param_counts c, CmdsParamsOnly.cmd_param_counts c).
Proof.
  cbv zeta. rewrite smoothed_counts_seq.
  pose proof (smoothed_counts_prm sessions s e u) as Hp. cbv zeta in Hp.
  rewrite Hp. split.
  - apply seq_smooth_counted, seq_pass_counted.
  - apply pair_smooth_counted, pair_pass_counted.
Qed.

Lemma smoothed_counts_counted_values
    (sessions : list (list CmdsParamsValues.Cmd)) (s e u : string) :
  let c := CmdsParamsValues.smoothed_counts sessions s e u in
  counted (CmdsParamsValues.seq1_counts c, CmdsParamsValues.seq2_counts c)
  /\ counted (CmdsParamsValues.param_counts c,
              CmdsParamsValues.cmd_param_counts c)
  /\ counted (CmdsParamsValues.value_counts c,
              CmdsParamsValues.param_value_counts c).
Proof.
  cbv zeta. rewrite smoothed_counts_seq_values.
  pose proof (smoothed_counts_prm_values sessions s e u) as Hp.
  pose proof (smoothed_counts_val_values sessions s e u) as Hv.
  cbv zeta in Hp, Hv. rewrite Hp, Hv. split; [|split].
  - apply seq_smooth_counted, seq_pass_counted.
  - apply pair_smooth_counted, pair_pass_counted.
  - apply pair_smooth_counted, pair_pass_counted.
Qed.

(** The counts stored in a table, flat and two-level. *)
Lemma pos2_wrap_rows (u : string) (d : dict (dict Z)) (a b : string)
    (row : table Z) (c : Z) :
  pos2 d -> In (a, row) (wrap_rows u d) -> In (b, c) (items row) ->
  (1 <= c)%Z.
Proof.
  intros Hd Ha Hb. unfold wrap_rows in Ha. apply in_map_iff in Ha.
  destruct Ha as [[a' r] [Heq Hin]]. cbn [fst snd] in Heq.
  injection Heq as <- <-. simpl in Hb. eapply Hd; eauto.
Qed.

(** X9: every count stored in the tables that compute_counts returns is at
    least 1: the counts of the commands and of the command pairs, of the
    params and of the params under each command, and in the value-aware
    variant of the values and of the values under each param. *)
Theorem X9_stored_counts_are_positive :
  forall s e u : string,
    (forall (sessions : list (list CmdsParamsOnly.Cmd))
            (seq1 prm : table Z) (seq2 cmd_prm : table (table Z)),
        CmdsParamsOnly.compute_counts sessions s e u
        = Ok (seq1, seq2, prm, cmd_prm) ->
        (forall (t : table Z) k c,
            t = seq1 \/ t = prm -> In (k, c) (items t) -> (1 <= c)%Z)
        /\ (forall (t : table (table Z)) a row b c,
               t = seq2 \/ t = cmd_prm ->
               In (a, row) (items t) -> In (b, c) (items row) -> (1 <= c)%Z))
    /\ (forall (sessions : list (list CmdsParamsValues.Cmd))
               (seq1 prm val : table Z) (seq2 cmd_prm prm_val : table (table Z)),
           CmdsParamsValues.compute_counts sessions s e u
           = Ok (seq1, seq2, prm, cmd_prm, val, prm_val) ->
           (forall (t : table Z) k c,
               t = seq1 \/ t = prm \/ t = val ->
               In (k, c) (items t) -> (1 <= c)%Z)
           /\ (forall (t : table (table Z)) a row b c,
                  t = seq2 \/ t = cmd_prm \/ t = prm_val ->
                  In (a, row) (items t) -> In (b, c) (items row) ->
                  (1 <= c)%Z)).
Proof.
  intros s e u. split.
  - intros sessions seq1 prm seq2 cmd_prm H.
    destruct (smoothed_counts_counted sessions s e u)
      as [[_ [_ [Hs1 Hs2]]] [_ [_ [Hp1 Hp2]]]].
    cbn [fst snd] in *.
    unfold CmdsParamsOnly.compute_counts in H. cbv zeta in H.
    destruct (StateMatrix _ u) as [t1|] eqn:E1 in H; [|discriminate H].
    cbn [bind] in H.
    destruct (StateMatrix2 _ u) as [t2|] eqn:E2 in H; [|discriminate H].
    cbn [bind] in H.
    destruct (StateMatrix _ u) as [t3|] eqn:E3 in H; [|discriminate H].
    cbn [bind] in H.
    destruct (StateMatrix2 _ u) as [t4|] eqn:E4 in H; [|discriminate H].
    cbn [bind] in H. injection H as <- <- <- <-.
    apply StateMatrix_inv in E1, E3. apply StateMatrix2_inv in E2, E4.
    destruct E1 as [-> _], E2 as [-> _], E3 as [-> _], E4 as [-> _]. split.
    + intros t k c [->| ->] Hin; simpl in Hin; eauto.
    + intros t a row b c [->| ->] Ha Hb; cbn [items] in Ha;
        refine (@pos2_wrap_rows _ _ _ _ _ _ _ Ha Hb); assumption.
  - intros sessions seq1 prm val seq2 cmd_prm prm_val H.
    destruct (smoothed_counts_counted_values sessions s e u)
      as [[_ [_ [Hs1 Hs2]]] [[_ [_ [Hp1 Hp2]]] [_ [_ [Hv1 Hv2]]]]].
    cbn [fst snd] in *.
    unfold CmdsParamsValues.compute_counts in H. cbv zeta in H.
    destruct (StateMatrix _ u) as [t1|] eqn:E1 in H; [|discriminate H].
    cbn [bind] in H.
    destruct (StateMatrix2 _ u) as [t2|] eqn:E2 in H; [|discriminate H].
    cbn [bind] in H.
    destruct (StateMatrix _ u) as [t3|] eqn:E3 in H; [|discriminate H].
    cbn [bind] in H.
    destruct (StateMatrix2 _ u) as [t4|] eqn:E4 in H; [|discriminate H].
    cbn [bind] in H.
    destruct (StateMatrix _ u) as [t5|] eqn:E5 in H; [|discriminate H].
    cbn [bind] in H.
    destruct (StateMatrix2 _ u) as [t6|] eqn:E6 in H; [|discriminate H].
    cbn [bind] in H. injection H as <- <- <- <- <- <-.
    apply StateMatrix_inv in E1, E3, E5. apply StateMatrix2_inv in E2, E4, E6.
    destruct E1 as [-> _], E2 as [-> _], E3 as [-> _], E4 as [-> _],
             E5 as [-> _], E6 as [-> _]. split.
    + intros t k c [->|[->| ->]] Hin; simpl in Hin; eauto.
    + intros t a row b c [->|[->| ->]] Ha Hb; cbn [items] in Ha;
        refine (@pos2_wrap_rows _ _ _ _ _ _ _ Ha Hb); assumption.
Qed.

Lemma X9_stored_counts_are_positive_witness :
  exists seq1 seq2 prm cmd_prm,
    CmdsParamsOnly.compute_counts training START END_ UNK
    = Ok (seq1, seq2, prm, cmd_prm)
    /\ (forall (t : table Z) k c,
           t = seq1 \/ t = prm -> In (k, c) (items t) -> (1 <= c)%Z)
    /\ (forall (t : table (table Z)) a row b c,
           t = seq2 \/ t = cmd_prm ->
           In (a, row) (items t) -> In (b, c) (items row) -> (1 <= c)%Z).
Proof.
  do 4 eexists. split; [reflexivity|].
  apply (proj1 (X9_stored_counts_are_positive START END_ UNK) training).
  reflexivity.
Defined.

(** ** From the sessions to the probability tables *)

Lemma NoDup_nodupb (l : list string) : NoDup l -> nodupb l = true.
Proof.
  induction 1 as [|x l Hx Hnd IH]; simpl; auto.
  rewrite IH, andb_true_r. apply negb_true_iff.
  destruct (existsb (String.eqb x) l) eqn:E; auto.
  apply existsb_exists in E. destruct E as [y [Hy Heq]].
  apply String.eqb_eq in Heq. subst y. contradiction.
Qed.

Lemma keys_wrap_rows {V : Type} (u : string) (d : dict (dict V)) :
  keys (wrap_rows u d) = keys d.
Proof. unfold keys, wrap_rows. rewrite map_map. reflexivity. Qed.

Lemma wf_table2_wrap_rows {V : Type} (u : string) (d : dict (dict V)) :
  NoDup (keys d) -> rows_nodup d ->
  wf_table2 (SM (wrap_rows u d) u) = true.
Proof.
  intros Hnd Hrows. unfold wf_table2, wf_dict. cbn [items].
  rewrite keys_wrap_rows, (@NoDup_nodupb _ Hnd). cbn [andb].
  apply forallb_forall. intros [k row] Hin. unfold wrap_rows in Hin.
  apply in_map_iff in Hin. destruct Hin as [[k' r] [Heq Hin]].
  cbn [fst snd] in Heq. injection Heq as <- <-. cbn [snd items].
  apply NoDup_nodupb. eauto.
Qed.

Lemma sum_Z_cons (c : Z) (l : list Z) :
  Probabilities.sum_Z (c :: l) = (c + Probabilities.sum_Z l)%Z.
Proof. unfold Probabilities.sum_Z at 1. simpl. apply sum_Z_acc. Qed.

(** Counts of at least 1 sum to at least their number. *)
Lemma pos1_sum (d : dict Z) :
  pos1 d -> (Z.of_nat (List.length d) <= Probabilities.sum_Z (values d))%Z.
Proof.
  induction d as [|[k c] d IH]; intros Hd.
  - unfold Probabilities.sum_Z. simpl. lia.
  - cbn [values map snd]. rewrite sum_Z_cons.
    assert (Hc : (1 <= c)%Z) by (apply (Hd k); now left).
    assert (Hrest : pos1 d) by (intros k' c' H; apply (Hd k'); now right).
    specialize (IH Hrest). unfold values in IH. cbn [List.length]. lia.
Qed.

Lemma pos1_sum_nonzero (d : dict Z) :
  pos1 d -> d <> [] -> Probabilities.sum_Z (values d) <> 0%Z.
Proof.
  intros Hd Hne. pose proof (@pos1_sum d Hd) as H.
  destruct d; [congruence|]. cbn [List.length] in H. lia.
Qed.

(** [cond_probs] returns when no row other than an empty one sums to 0. *)
Lemma cond_rows_total (rows : dict (table Z)) :
  forall acc : dict (dict Q),
    NoDup (keys rows) ->
    (forall k, In k (keys rows) -> ~ In k (keys acc)) ->
    (forall kv, In kv rows -> NoDup (keys (items (snd kv)))) ->
    (forall kv, In kv rows -> items (snd kv) <> [] ->
                Probabilities.sum_Z (values (items (snd kv))) <> 0%Z) ->
    for_each rows
      (fun acc kv =>
         let n := Probabilities.sum_Z (values (items (snd kv))) in
         for_each (items (snd kv))
           (fun acc bc =>
              q <- true_div (snd bc) n ;;
              Ok (Probabilities.setitem2 (fst kv) (fst bc) q acc))
           acc)
      acc = Ok (acc ++ norm_rows rows).
Proof.
  induction rows as [|[a row] rows IH]; intros acc Hnd Hfresh Hrows Hsum.
  - simpl. now rewrite app_nil_r.
  - inversion Hnd as [|? ? Ha Hnd']; subst.
    assert (Hacc : ~ In a (keys acc)) by (apply Hfresh; simpl; auto).
    cbn [for_each]. cbv zeta. cbn [fst snd].
    destruct (items row) as [|bc bs] eqn:Erow.
    + cbn [for_each bind]. rewrite IH; auto.
      * unfold norm_rows. simpl. rewrite Erow. reflexivity.
      * intros k Hk. apply Hfresh. simpl. auto.
      * intros kv Hin. apply Hrows. now right.
      * intros kv Hin. apply Hsum. now right.
    + assert (Hnz : Probabilities.sum_Z (values (bc :: bs)) <> 0%Z).
      { rewrite <- Erow. apply (Hsum (a, row)); [now left|].
        cbn [snd]. rewrite Erow. discriminate. }
      assert (Hrow : NoDup (keys (bc :: bs))).
      { rewrite <- Erow. apply (Hrows (a, row)). now left. }
      pose proof (@cond_row_loop a _ acc Hnz Hacc (bc :: bs) [] Hrow
                    (fun b _ H => H)) as Hloop.
      simpl with_row in Hloop. rewrite Hloop. cbn [bind app].
      rewrite IH; auto.
      * unfold norm_rows. cbn [filter snd]. rewrite Erow.
        cbn [List.length Nat.eqb negb map fst snd]. unfold norm_row.
        rewrite Erow. rewrite <- app_assoc. reflexivity.
      * intros k Hk Hin. unfold keys in Hin. rewrite map_app in Hin.
        apply in_app_or in Hin. destruct Hin as [Hin|[<-|[]]].
        -- apply (Hfresh k); simpl; auto.
        -- contradiction.
      * intros kv Hin. apply Hrows. now right.
      * intros kv Hin. apply Hsum. now right.
Qed.

Lemma contains_map_snd {V W : Type} (g : V -> W) (k : string) (d : dict V) :
  contains k (map (fun kv => (fst kv, g (snd kv))) d) = contains k d.
Proof.
  unfold contains. rewrite (get_map_snd g). now destruct (get k d).
Qed.

Lemma contains_not_nil {V : Type} (k : string) (d : dict V) :
  contains k d = true -> d <> [].
Proof. intros H ->. discriminate H. Qed.

Lemma valid1_norm_row (u : string) (d : dict Z) :
  valid1 u (norm_row d) = valid1 u d.
Proof.
  unfold valid1, norm_row.
  rewrite length_map.
  now rewrite (contains_map_snd
                 (fun c => (inject_Z c
                            / inject_Z (Probabilities.sum_Z (values d)))%Q)).
Qed.

(** With the unknown token in every row, no row is left out by [norm_rows]. *)
Lemma norm_rows_wrap_rows (u : string) (d : dict (dict Z)) :
  forallb (fun kv => contains u (snd kv)) d = true ->
  norm_rows (wrap_rows u d) = map (fun kv => (fst kv, norm_row (snd kv))) d.
Proof.
  induction d as [|[k row] d IH]; simpl; intros H; auto.
  apply andb_true_iff in H. destruct H as [Hrow Hd].
  unfold norm_rows in *. cbn [wrap_rows map filter fst snd items].
  destruct row as [|bc row]; [discriminate Hrow|].
  cbn [List.length Nat.eqb negb map fst snd items]. f_equal. now apply IH.
Qed.

Lemma valid2_norm_rows (u : string) (d : dict (dict Z)) :
  valid2 u d = true -> valid2 u (norm_rows (wrap_rows u d)) = true.
Proof.
  intros H. unfold valid2 in H.
  apply andb_true_iff in H. destruct H as [H Hrows].
  apply andb_true_iff in H. destruct H as [Hlen Hu].
  rewrite (@norm_rows_wrap_rows u d Hrows). unfold valid2.
  rewrite length_map, Hlen.
  rewrite (contains_map_snd norm_row), Hu. cbn [andb].
  rewrite forallb_forall in *. intros [k r] Hin. apply in_map_iff in Hin.
  destruct Hin as [[k' r'] [Heq Hin]]. cbn [fst snd] in Heq.
  injection Heq as <- <-. cbn [snd]. unfold norm_row.
  rewrite (contains_map_snd
             (fun c => (inject_Z c
                        / inject_Z (Probabilities.sum_Z (values r')))%Q)).
  apply (Hrows (k', r') Hin).
Qed.

Lemma sm_ok1_valid1 {V : Type} (u : string) (d : dict V) :
  valid1 u d = true -> sm_ok1 (SM d u) = true.
Proof. unfold valid1. intros H. apply andb_true_iff in H. apply H. Qed.

Lemma sm_ok2_valid2 {V : Type} (u : string) (d : dict (dict V)) :
  valid2 u d = true -> sm_ok2 (SM (wrap_rows u d) u) = true.
Proof.
  unfold valid2. intros H.
  apply andb_true_iff in H. destruct H as [H Hrows].
  apply andb_true_iff in H. destruct H as [_ Hu]. cbn [sm_ok2].
  unfold wrap_rows at 1.
  rewrite (contains_map_snd (fun r : dict V => SM r u)), Hu. cbn [andb].
  rewrite forallb_forall in *. intros [k r] Hin. unfold wrap_rows in Hin.
  apply in_map_iff in Hin. destruct Hin as [[k' r'] [Heq Hin]].
  cbn [fst snd] in Heq. injection Heq as <- <-. cbn [snd sm_ok1].
  apply (Hrows (k', r') Hin).
Qed.

(** The loops of the derivation functions on count tables as [compute_counts]
    builds them. *)
Lemma counted_tables_derive (u : string) (q : counts2) :
  counted q -> valid1 u (fst q) = true -> valid2 u (snd q) = true ->
  Probabilities.unigram_probs (SM (fst q) u) = Ok (norm_row (fst q))
  /\ Probabilities.cond_probs (SM (wrap_rows u (snd q)) u)
     = Ok (norm_rows (wrap_rows u (snd q)))
  /\ wf_table2 (SM (wrap_rows u (snd q)) u) = true.
Proof.
  intros [[Hnd1 Hnd2] [Hrows [Hp1 Hp2]]] V1 V2.
  assert (Hwf : wf_table2 (SM (wrap_rows u (snd q)) u) = true)
    by (now apply wf_table2_wrap_rows).
  split; [|split; [|exact Hwf]].
  - apply unigram_probs_total; cbn [items]; auto.
    apply pos1_sum_nonzero; auto.
    unfold valid1 in V1. apply andb_true_iff in V1.
    eapply contains_not_nil. apply V1.
  - unfold Probabilities.cond_probs. cbn [items].
    destruct (wf_table2_NoDup _ Hwf) as [Hn Hr]. cbn [items] in Hn, Hr.
    rewrite cond_rows_total; auto.
    intros [k row] Hin Hne. unfold wrap_rows in Hin. apply in_map_iff in Hin.
    destruct Hin as [[k' r] [Heq Hin]]. cbn [fst snd] in Heq.
    injection Heq as <- <-. cbn [snd items] in *.
    apply pos1_sum_nonzero; auto. eapply Hp2; eauto.
Qed.

Lemma counted_tables_cmds_probs (u : string) (q : counts2) :
  counted q -> valid1 u (fst q) = true -> valid2 u (snd q) = true ->
  Probabilities.compute_cmds_probs (SM (fst q) u) (SM (wrap_rows u (snd q)) u) u
  = Ok (SM (norm_row (fst q)) u,
        SM (wrap_rows u (norm_rows (wrap_rows u (snd q)))) u).
Proof.
  intros Hq V1 V2.
  destruct (@counted_tables_derive u q Hq V1 V2) as [H1 [H2 Hwf]].
  unfold Probabilities.compute_cmds_probs. cbv zeta.
  rewrite (@cmds_prior_loop (SM (fst q) u)) by apply Hq.
  rewrite (@cmds_trans_loop (SM (wrap_rows u (snd q)) u) Hwf).
  rewrite H1, H2. cbn [bind].
  rewrite StateMatrix_valid by (now rewrite valid1_norm_row).
  rewrite StateMatrix2_valid by (now apply valid2_norm_rows).
  reflexivity.
Qed.

Lemma counted_tables_params_probs (u : string) (q : counts2) :
  counted q -> valid1 u (fst q) = true -> valid2 u (snd q) = true ->
  Probabilities.compute_params_probs (SM (fst q) u)
    (SM (wrap_rows u (snd q)) u) u
  = Ok (SM (norm_row (fst q)) u,
        SM (wrap_rows u (norm_rows (wrap_rows u (snd q)))) u)
  /\ Probabilities.compute_values_probs (SM (fst q) u)
       (SM (wrap_rows u (snd q)) u) u
     = Ok (SM (norm_row (fst q)) u,
           SM (wrap_rows u (norm_rows (wrap_rows u (snd q)))) u).
Proof.
  intros Hq V1 V2.
  destruct (@counted_tables_derive u q Hq V1 V2) as [H1 [H2 Hwf]].
  unfold Probabilities.compute_params_probs, Probabilities.compute_values_probs.
  rewrite H1, H2. cbn [bind].
  rewrite StateMatrix_valid by (now rewrite valid1_norm_row).
  rewrite StateMatrix2_valid by (now apply valid2_norm_rows).
  split; reflexivity.
Qed.

Lemma compute_counts_returns (sessions : list (list CmdsParamsOnly.Cmd))
    (s e u : string) :
  u <> s -> u <> e -> s <> e ->
  (forall session cmd, In session sessions -> In cmd session ->
                       CmdsParamsOnly.name cmd <> e) ->
  let c := CmdsParamsOnly.smoothed_counts sessions s e u in
  CmdsParamsOnly.compute_counts sessions s e u
  = Ok (SM (CmdsParamsOnly.seq1_counts c) u,
        SM (wrap_rows u (CmdsParamsOnly.seq2_counts c)) u,
        SM (CmdsParamsOnly.param_counts c) u,
        SM (wrap_rows u (CmdsParamsOnly.cmd_param_counts c)) u).
Proof.
  intros Hus Hue Hse Hnames c.
  destruct (smoothed_counts_valid sessions Hus Hue Hse Hnames)
    as [V1 [V2 [V3 V4]]]. fold c in V1, V2, V3, V4.
  unfold CmdsParamsOnly.compute_counts. cbv zeta. fold c.
  rewrite (StateMatrix_valid _ _ V1), (StateMatrix2_valid _ _ V2),
    (StateMatrix_valid _ _ V3), (StateMatrix2_valid _ _ V4).
  reflexivity.
Qed.

Lemma compute_counts_values_returns
    (sessions : list (list CmdsParamsValues.Cmd)) (s e u : string) :
  u <> s -> u <> e -> s <> e ->
  (forall session cmd, In session sessions -> In cmd session ->
                       CmdsParamsValues.name cmd <> e) ->
  let c := CmdsParamsValues.smoothed_counts sessions s e u in
  CmdsParamsValues.compute_counts sessions s e u
  = Ok (SM (CmdsParamsValues.seq1_counts c) u,
        SM (wrap_rows u (CmdsParamsValues.seq2_counts c)) u,
        SM (CmdsParamsValues.param_counts c) u,
        SM (wrap_rows u (CmdsParamsValues.cmd_param_counts c)) u,
        SM (CmdsParamsValues.value_counts c) u,
        SM (wrap_rows u (CmdsParamsValues.param_value_counts c)) u).
Proof.
  intros Hus Hue Hse Hnames c.
  destruct (smoothed_counts_valid_values sessions Hus Hue Hse Hnames)
    as [V1 [V2 [V3 [V4 [V5 V6]]]]]. fold c in V1, V2, V3, V4, V5, V6.
  unfold CmdsParamsValues.compute_counts. cbv zeta. fold c.
  rewrite (StateMatrix_valid _ _ V1), (StateMatrix2_valid _ _ V2),
    (StateMatrix_valid _ _ V3), (StateMatrix2_valid _ _ V4),
    (StateMatrix_valid _ _ V5), (StateMatrix2_valid _ _ V6).
  reflexivity.
Qed.

(** The tables of a trained model: the counts of the sessions and the
    probabilities derived from them. *)
Lemma trained_tables (sessions : list (list CmdsParamsOnly.Cmd))
    (s e u : string) :
  u <> s -> u <> e -> s <> e ->
  (forall session cmd, In session sessions -> In cmd session ->
                       CmdsParamsOnly.name cmd <> e) ->
  exists (seq1 prm : table Z) (seq2 cmd_prm : table (table Z))
         (prior probs : table Q) (trans pcc : table (table Q)),
    CmdsParamsOnly.compute_counts sessions s e u = Ok (seq1, seq2, prm, cmd_prm)
    /\ Probabilities.compute_cmds_probs seq1 seq2 u = Ok (prior, trans)
    /\ Probabilities.compute_params_probs prm cmd_prm u = Ok (probs, pcc)
    /\ sm_ok1 prior = true /\ sm_ok2 trans = true
    /\ sm_ok1 probs = true /\ sm_ok2 pcc = true.
Proof.
  intros Hus Hue Hse Hnames.
  pose proof (@compute_counts_returns sessions s e u Hus Hue Hse Hnames) as Hc.
  destruct (smoothed_counts_valid sessions Hus Hue Hse Hnames)
    as [V1 [V2 [V3 V4]]].
  destruct (smoothed_counts_counted sessions s e u) as [Q1 Q2].
  cbv zeta in *.
  do 8 eexists. split; [exact Hc|].
  split; [exact (@counted_tables_cmds_probs u _ Q1 V1 V2)|].
  split; [exact (proj1 (@counted_tables_params_probs u _ Q2 V3 V4))|].
  cbn [fst snd]. repeat split.
  - apply sm_ok1_valid1. now rewrite valid1_norm_row.
  - apply sm_ok2_valid2. now apply valid2_norm_rows.
  - apply sm_ok1_valid1. now rewrite valid1_norm_row.
  - apply sm_ok2_valid2. now apply valid2_norm_rows.
Qed.

Lemma trained_tables_values (sessions : list (list CmdsParamsValues.Cmd))
    (s e u : string) :
  u <> s -> u <> e -> s <> e ->
  (forall session cmd, In session sessions -> In cmd session ->
                       CmdsParamsValues.name cmd <> e) ->
  exists (seq1 prm val : table Z) (seq2 cmd_prm prm_val : table (table Z))
         (prior probs vprobs : table Q) (trans pcc vcp : table (table Q)),
    CmdsParamsValues.compute_counts sessions s e u
    = Ok (seq1, seq2, prm, cmd_prm, val, prm_val)
    /\ Probabilities.compute_cmds_probs seq1 seq2 u = Ok (prior, trans)
    /\ Probabilities.compute_params_probs prm cmd_prm u = Ok (probs, pcc)
    /\ Probabilities.compute_values_probs val prm_val u = Ok (vprobs, vcp)
    /\ sm_ok1 prior = true /\ sm_ok2 trans = true
    /\ sm_ok1 probs = true /\ sm_ok2 pcc = true
    /\ sm_ok1 vprobs = true /\ sm_ok2 vcp = true.
Proof.
  intros Hus Hue Hse Hnames.
  pose proof (@compute_counts_values_returns sessions s e u Hus Hue Hse Hnames) as Hc.
  destruct (smoothed_counts_valid_values sessions Hus Hue Hse Hnames)
    as [V1 [V2 [V3 [V4 [V5 V6]]]]].
  destruct (smoothed_counts_counted_values sessions s e u) as [Q1 [Q2 Q3]].
  cbv zeta in *.
  do 12 eexists. split; [exact Hc|].
  split; [exact (@counted_tables_cmds_probs u _ Q1 V1 V2)|].
  split; [exact (proj1 (@counted_tables_params_probs u _ Q2 V3 V4))|].
  split; [exact (proj2 (@counted_tables_params_probs u _ Q3 V5 V6))|].
  cbn [fst snd]. repeat split.
  - apply sm_ok1_valid1. now rewrite valid1_norm_row.
  - apply sm_ok2_valid2. now apply valid2_norm_rows.
  - apply sm_ok1_valid1. now rewrite valid1_norm_row.
  - apply sm_ok2_valid2. now apply valid2_norm_rows.
  - apply sm_ok1_valid1. now rewrite valid1_norm_row.
  - apply sm_ok2_valid2. now apply valid2_norm_rows.
Qed.

(** X10: the tables that compute_counts returns are accepted by the
    derivation functions.  For tokens that differ from one another and
    sessions with no command named as the end token, compute_counts,
    compute_cmds_probs and compute_params_probs (and compute_values_probs in
    the value-aware variant) return one after the other: no total is 0 and
    every derived table passes the checks of the StateMatrix constructor. *)
Theorem X10_counts_feed_the_derivation_functions :
  forall s e u : string,
    u <> s -> u <> e -> s <> e ->
    (forall sessions : list (list CmdsParamsOnly.Cmd),
        (forall session cmd, In session sessions -> In cmd session ->
                             CmdsParamsOnly.name cmd <> e) ->
        exists (seq1 prm : table Z) (seq2 cmd_prm : table (table Z))
               (prior probs : table Q) (trans pcc : table (table Q)),
          CmdsParamsOnly.compute_counts sessions s e u
          = Ok (seq1, seq2, prm, cmd_prm)
          /\ Probabilities.compute_cmds_probs seq1 seq2 u = Ok (prior, trans)
          /\ Probabilities.compute_params_probs prm cmd_prm u = Ok (probs, pcc)
          /\ sm_ok1 prior = true /\ sm_ok2 trans = true
          /\ sm_ok1 probs = true /\ sm_ok2 pcc = true)
    /\ (forall sessions : list (list CmdsParamsValues.Cmd),
           (forall session cmd, In session sessions -> In cmd session ->
                                CmdsParamsValues.name cmd <> e) ->
           exists (seq1 prm val : table Z)
                  (seq2 cmd_prm prm_val : table (table Z))
                  (prior probs vprobs : table Q)
                  (trans pcc vcp : table (table Q)),
             CmdsParamsValues.compute_counts sessions s e u
             = Ok (seq1, seq2, prm, cmd_prm, val, prm_val)
             /\ Probabilities.compute_cmds_probs seq1 seq2 u = Ok (prior, trans)
             /\ Probabilities.compute_params_probs prm cmd_prm u
                = Ok (probs, pcc)
             /\ Probabilities.compute_values_probs val prm_val u
                = Ok (vprobs, vcp)
             /\ sm_ok1 prior = true /\ sm_ok2 trans = true
             /\ sm_ok1 probs = true /\ sm_ok2 pcc = true
             /\ sm_ok1 vprobs = true /\ sm_ok2 vcp = true).
Proof.
  intros s e u Hus Hue Hse. split.
  - intros sessions Hnames. now apply trained_tables.
  - intros sessions Hnames. now apply trained_tables_values.
Qed.

Lemma training_no_end_name :
  forall session cmd, In session training -> In cmd session ->
                      CmdsParamsOnly.name cmd <> END_.
Proof.
  intros session cmd Hs Hc. unfold training in Hs. simpl in Hs.
  destruct Hs as [<-|[<-|[]]]; simpl in Hc;
    repeat (destruct Hc as [<-|Hc]; [discriminate|]); destruct Hc.
Qed.

Lemma X10_counts_feed_the_derivation_functions_witness :
  UNK <> START /\ UNK <> END_ /\ START <> END_
  /\ exists (seq1 prm : table Z) (seq2 cmd_prm : table (table Z))
            (prior probs : table Q) (trans pcc : table (table Q)),
       CmdsParamsOnly.compute_counts training START END_ UNK
       = Ok (seq1, seq2, prm, cmd_prm)
       /\ Probabilities.compute_cmds_probs seq1 seq2 UNK = Ok (prior, trans)
       /\ Probabilities.compute_params_probs prm cmd_prm UNK = Ok (probs, pcc)
       /\ sm_ok1 prior = true /\ sm_ok2 trans = true
       /\ sm_ok1 probs = true /\ sm_ok2 pcc = true.
Proof.
  assert (H1 : UNK <> START) by discriminate.
  assert (H2 : UNK <> END_) by discriminate.
  assert (H3 : START <> END_) by discriminate.
  split; [exact H1|]. split; [exact H2|]. split; [exact H3|].
  exact (proj1 (@X10_counts_feed_the_derivation_functions START END_ UNK H1 H2
                  H3) training training_no_end_name).
Defined.

(** ** Scoring with a trained model *)

Lemma pick_rarest_total {C : Type} (session : list C) (w : nat)
    (liks : list pyfloat) :
  exists r, pick_rarest session w liks = Ok r.
Proof.
  destruct liks as [|x liks].
  - unfold pick_rarest. simpl. eauto.
  - destruct (@pick_rarest_first_minimum C session w (x :: liks))
      as [ind [m [H _]]]; [discriminate|eauto].
Qed.

Lemma rarest_window_session_total root session prior trans pcc w use st et gm :
  1 <= w ->
  sm_ok1 prior = true -> sm_ok2 trans = true -> sm_ok2 pcc = true ->
  exists r,
    CmdsParamsOnly.rarest_window_session root session prior trans pcc w use st
      et gm = Ok r.
Proof.
  intros Hw Hp Ht Hc. rewrite rarest_window_session_pick.
  destruct (@windows_in_session_total root session prior trans pcc w use st et
              gm Hw Hp Ht Hc) as [liks ->].
  cbn [bind]. apply pick_rarest_total.
Qed.

Lemma rarest_window_session_values_total root session prior trans pcc vcp mp w
    use st et gm :
  1 <= w ->
  sm_ok1 prior = true -> sm_ok2 trans = true -> sm_ok2 pcc = true ->
  sm_ok2 vcp = true ->
  exists r,
    CmdsParamsValues.rarest_window_session root session prior trans pcc vcp mp
      w use st et gm = Ok r.
Proof.
  intros Hw Hp Ht Hc Hv. rewrite rarest_window_session_values_pick.
  destruct (@windows_in_session_values_total root session prior trans pcc vcp
              mp w use st et gm Hw Hp Ht Hc Hv) as [liks ->].
  cbn [bind]. apply pick_rarest_total.
Qed.

Lemma get_params_to_model_values_total (pc : table Z) (pvc : table (table Z)) :
  (forall p vals, In (p, vals) (items pvc) ->
                  exists n, getitem pc p = Ok n /\ n <> 0%Z) ->
  exists l, CmdsParamsValues.get_params_to_model_values pc pvc = Ok l.
Proof.
  intros Hcounts. unfold CmdsParamsValues.get_params_to_model_values.
  destruct (for_each_collect_total (CmdsParamsValues.param_stat pc) (items pvc))
    with (acc := @nil (string * Z * Z * Q)) as [stats Hstats].
  { intros [p vals] Hin. destruct (Hcounts _ _ Hin) as [n [Hn Hnz]].
    rewrite (@param_stat_ok _ _ vals _ Hn Hnz). eauto. }
  rewrite Hstats. cbn [bind]. eauto.
Qed.

(** A lookup in a flat StateMatrix of counts of at least 1 gives such a
    count. *)
Lemma getitem_pos1 (u : string) (d : dict Z) (k : string) :
  valid1 u d = true -> pos1 d ->
  exists n, getitem (SM d u) k = Ok n /\ n <> 0%Z.
Proof.
  intros V Hd.
  destruct (getitem_sm_ok1 (SM d u) k (sm_ok1_valid1 _ _ V)) as [n Hn].
  exists n. split; [exact Hn|]. cbn [getitem] in Hn.
  assert (Hin : exists k', In (k', n) d).
  { destruct (get k d) as [v|] eqn:E.
    - injection Hn as <-. exists k. now apply get_Some_In.
    - destruct (get u d) as [v|] eqn:E'; [|discriminate Hn].
      injection Hn as <-. exists u. now apply get_Some_In. }
  destruct Hin as [k' Hin]. apply Hd in Hin. lia.
Qed.

(** X11: a model trained on any sessions scores any session.  For tokens that
    differ from one another and training sessions with no command named as
    the end token, the tables derived from the counts (and, in the value-aware
    variant, the params that get_params_to_model_values picks from the
    counts) make rarest_window_session return for every session, every
    window length of at least 1 and every choice of the flags. *)
Theorem X11_trained_model_scores_every_session :
  forall (root : Q -> positive -> Q) (s e u : string),
    u <> s -> u <> e -> s <> e ->
    (forall sessions : list (list CmdsParamsOnly.Cmd),
        (forall session cmd, In session sessions -> In cmd session ->
                             CmdsParamsOnly.name cmd <> e) ->
        exists (seq1 prm : table Z) (seq2 cmd_prm : table (table Z))
               (prior probs : table Q) (trans pcc : table (table Q)),
          CmdsParamsOnly.compute_counts sessions s e u
          = Ok (seq1, seq2, prm, cmd_prm)
          /\ Probabilities.compute_cmds_probs seq1 seq2 u = Ok (prior, trans)
          /\ Probabilities.compute_params_probs prm cmd_prm u = Ok (probs, pcc)
          /\ forall (session : list CmdsParamsOnly.Cmd) (w : nat)
                    (use gm : bool),
               1 <= w ->
               exists r,
                 CmdsParamsOnly.rarest_window_session root session prior trans
                   pcc w use s e gm = Ok r)
    /\ (forall sessions : list (list CmdsParamsValues.Cmd),
           (forall session cmd, In session sessions -> In cmd session ->
                                CmdsParamsValues.name cmd <> e) ->
           exists (seq1 prm val : table Z)
                  (seq2 cmd_prm prm_val : table (table Z))
                  (prior probs vprobs : table Q)
                  (trans pcc vcp : table (table Q)) (mp : list string),
             CmdsParamsValues.compute_counts sessions s e u
             = Ok (seq1, seq2, prm, cmd_prm, val, prm_val)
             /\ Probabilities.compute_cmds_probs seq1 seq2 u = Ok (prior, trans)
             /\ Probabilities.compute_params_probs prm cmd_prm u
                = Ok (probs, pcc)
             /\ Probabilities.compute_values_probs val prm_val u
                = Ok (vprobs, vcp)
             /\ CmdsParamsValues.get_params_to_model_values prm prm_val = Ok mp
             /\ forall (session : list CmdsParamsValues.Cmd) (w : nat)
                       (use gm : bool),
                  1 <= w ->
                  exists r,
                    CmdsParamsValues.rarest_window_session root session prior
                      trans pcc vcp mp w use s e gm = Ok r).
Proof.
  intros root s e u Hus Hue Hse. split.
  - intros sessions Hnames.
    destruct (@trained_tables sessions s e u Hus Hue Hse Hnames)
      as (seq1 & prm & seq2 & cmd_prm & prior & probs & trans & pcc
          & Hc & Hcmds & Hprms & Hp & Ht & _ & Hpcc).
    exists seq1, prm, seq2, cmd_prm, prior, probs, trans, pcc.
    repeat (split; [assumption|]).
    intros session w use gm Hw. now apply rarest_window_session_total.
  - intros sessions Hnames.
    pose proof (@compute_counts_values_returns sessions s e u Hus Hue Hse
                  Hnames) as Hc.
    destruct (smoothed_counts_valid_values sessions Hus Hue Hse Hnames)
      as [V1 [V2 [V3 [V4 [V5 V6]]]]].
    destruct (smoothed_counts_counted_values sessions s e u) as [Q1 [Q2 Q3]].
    cbv zeta in *.
    set (c := CmdsParamsValues.smoothed_counts sessions s e u) in *.
    destruct (@get_params_to_model_values_total
                (SM (CmdsParamsValues.param_counts c) u)
                (SM (wrap_rows u (CmdsParamsValues.param_value_counts c)) u))
      as [mp Hmp].
    { intros p vals _. apply getitem_pos1; auto. apply Q2. }
    do 12 eexists. exists mp. split; [exact Hc|].
    split; [exact (@counted_tables_cmds_probs u _ Q1 V1 V2)|].
    split; [exact (proj1 (@counted_tables_params_probs u _ Q2 V3 V4))|].
    split; [exact (proj2 (@counted_tables_params_probs u _ Q3 V5 V6))|].
    split; [exact Hmp|].
    intros session w use gm Hw. cbn [fst snd].
    apply rarest_window_session_values_total; auto.
    + apply sm_ok1_valid1. now rewrite valid1_norm_row.
    + apply sm_ok2_valid2. now apply valid2_norm_rows.
    + apply sm_ok2_valid2. now apply valid2_norm_rows.
    + apply sm_ok2_valid2. now apply valid2_norm_rows.
Qed.

Lemma X11_trained_model_scores_every_session_witness :
  UNK <> START /\ UNK <> END_ /\ START <> END_
  /\ exists (seq1 prm : table Z) (seq2 cmd_prm : table (table Z))
            (prior probs : table Q) (trans pcc : table (table Q)),
       CmdsParamsOnly.compute_counts training START END_ UNK
       = Ok (seq1, seq2, prm, cmd_prm)
       /\ Probabilities.compute_cmds_probs seq1 seq2 UNK = Ok (prior, trans)
       /\ Probabilities.compute_params_probs prm cmd_prm UNK = Ok (probs, pcc)
       /\ forall (session : list CmdsParamsOnly.Cmd) (w : nat) (use gm : bool),
            1 <= w ->
            exists r,
              CmdsParamsOnly.rarest_window_session approx_root session prior
                trans pcc w use START END_ gm = Ok r.
Proof.
  assert (H1 : UNK <> START) by discriminate.
  assert (H2 : UNK <> END_) by discriminate.
  assert (H3 : START <> END_) by discriminate.
  split; [exact H1|]. split; [exact H2|]. split; [exact H3|].
  exact (proj1 (@X11_trained_model_scores_every_session approx_root START END_
                  UNK H1 H2 H3) training training_no_end_name).
Defined.

(** ** What the counts count *)

Lemma count_incr (a k : string) (d : dict Z) :
  count_of (get k (incr a d))
  = (count_of (get k d) + if String.eqb k a then 1 else 0)%Z.
Proof.
  unfold incr. destruct (String.eqb_spec k a) as [->|Hne].
  - rewrite get_upd_same. simpl. reflexivity.
  - rewrite get_upd_other by auto. lia.
Qed.

Lemma last_cons (names : list string) :
  forall n p : string, last (n :: names) p = last names n.
Proof.
  induction names as [|m names IH]; intros n p; auto.
  change (last (n :: m :: names) p) with (last (m :: names) p).
  now rewrite !IH.
Qed.

Lemma count_adj_snoc (a b e : string) (names : list string) :
  forall p,
    count_adj a b (p :: names ++ [e])
    = (count_adj a b (p :: names)
       + if String.eqb a (last names p) && String.eqb b e then 1 else 0)%Z.
Proof.
  induction names as [|n names IH]; intros p.
  - simpl. lia.
  - change (count_adj a b (p :: (n :: names) ++ [e]))
      with ((if String.eqb a p && String.eqb b n then 1 else 0)
            + count_adj a b (n :: names ++ [e]))%Z.
    change (count_adj a b (p :: n :: names))
      with ((if String.eqb a p && String.eqb b n then 1 else 0)
            + count_adj a b (n :: names))%Z.
    rewrite IH.
    rewrite last_cons. lia.
Qed.

(** The loop over the commands of one session. *)
Lemma seq_cmd_fold_counts (names : list string) :
  forall st : string * counts2,
    let st' := fold_left seq_cmd names st in
    fst st' = last names (fst st)
    /\ (forall a b,
           count2 a b (snd (snd st'))
           = (count2 a b (snd (snd st)) + count_adj a b (fst st :: names))%Z)
    /\ (forall a,
           count_of (get a (fst (snd st')))
           = (count_of (get a (fst (snd st))) + occ a names)%Z).
Proof.
  induction names as [|n names IH]; intros st; cbv zeta.
  - simpl. repeat split; intros; lia.
  - cbn [fold_left]. destruct (IH (seq_cmd st n)) as [H1 [H2 H3]].
    cbv zeta in H1, H2, H3. split; [|split].
    + rewrite H1. unfold seq_cmd. cbn [fst]. now rewrite last_cons.
    + intros a b. rewrite H2.
      change (snd (snd (seq_cmd st n))) with (incr2 (fst st) n (snd (snd st))).
      change (fst (seq_cmd st n)) with n.
      rewrite count2_incr2.
      change (count_adj a b (fst st :: n :: names))
        with ((if String.eqb a (fst st) && String.eqb b n then 1 else 0)
              + count_adj a b (n :: names))%Z.
      lia.
    + intros a. rewrite H3.
      change (fst (snd (seq_cmd st n))) with (incr n (fst (snd st))).
      rewrite count_incr. cbn [occ]. lia.
Qed.

Lemma occ_app (a : string) (l1 l2 : list string) :
  occ a (l1 ++ l2) = (occ a l1 + occ a l2)%Z.
Proof. induction l1 as [|x l1 IH]; simpl; [|rewrite IH]; lia. Qed.

Lemma seq_session_counts (s e : string) (q : counts2) (names : list string) :
  (forall a b,
      count2 a b (snd (seq_session s e q names))
      = (count2 a b (snd q) + count_adj a b (wrapped s e names))%Z)
  /\ (forall a,
         count_of (get a (fst (seq_session s e q names)))
         = (count_of (get a (fst q)) + occ a (wrapped s e names))%Z).
Proof.
  unfold seq_session. cbv zeta.
  destruct (seq_cmd_fold_counts names (s, (incr s (fst q), snd q)))
    as [H1 [H2 H3]].
  cbv zeta in H1, H2, H3. cbn [fst snd] in H1, H2, H3. split.
  - intros a b. cbn [snd]. rewrite count2_incr2, H2, H1.
    unfold wrapped. rewrite count_adj_snoc. lia.
  - intros a. cbn [fst]. rewrite count_incr, H3, count_incr.
    unfold wrapped. cbn [occ]. rewrite occ_app. cbn [occ]. lia.
Qed.

Lemma sum_over_cons {A : Type} (f : A -> Z) (x : A) (l : list A) :
  sum_over f (x :: l) = (f x + sum_over f l)%Z.
Proof. reflexivity. Qed.

(** The counts before the smoothing: the occurrences in the sessions, each
    between the start and the end token. *)
Lemma seq_pass_counts (s e : string) (sessions : list (list string)) :
  (forall a b,
      count2 a b (snd (seq_pass s e sessions))
      = sum_over (fun names => count_adj a b (wrapped s e names)) sessions)
  /\ (forall a,
         count_of (get a (fst (seq_pass s e sessions)))
         = sum_over (fun names => occ a (wrapped s e names)) sessions).
Proof.
  unfold seq_pass.
  assert (G : forall q : counts2,
             (forall a b,
                 count2 a b (snd (fold_left (seq_session s e) sessions q))
                 = (count2 a b (snd q)
                    + sum_over (fun names => count_adj a b (wrapped s e names))
                        sessions)%Z)
             /\ (forall a,
                    count_of (get a (fst (fold_left (seq_session s e) sessions q)))
                    = (count_of (get a (fst q))
                       + sum_over (fun names => occ a (wrapped s e names))
                           sessions)%Z)).
  { induction sessions as [|names sessions IH]; intros q.
    - simpl. split; intros; lia.
    - cbn [fold_left]. destruct (IH (seq_session s e q names)) as [H1 H2].
      destruct (seq_session_counts s e q names) as [S1 S2]. split.
      + intros a b. rewrite H1, S1, sum_over_cons. lia.
      + intros a. rewrite H2, S2, sum_over_cons. lia. }
  destruct (G ([], [])) as [G1 G2]. split.
  - intros a b. rewrite G1. unfold count2. simpl. lia.
  - intros a. rewrite G2. simpl. lia.
Qed.

(** The smoothing of the commands, pair by pair. *)
Lemma seq_smooth_inner_counts (s e c1 : string) (l : list string) :
  forall (q : counts2) (a b : string),
    count2 a b (snd (fold_left (seq_smooth_pair s e c1) l q))
    = (count2 a b (snd q)
       + if String.eqb a c1 && negb (String.eqb c1 e) && negb (String.eqb b s)
         then occ b l else 0)%Z.
Proof.
  induction l as [|c2 l IH]; intros q a b.
  - simpl. destruct (_ && _); lia.
  - cbn [fold_left]. rewrite IH. unfold seq_smooth_pair. cbn [occ].
    destruct (String.eqb_spec c1 e), (String.eqb_spec c2 s);
      cbn [negb andb snd]; rewrite ?count2_incr2;
      destruct (String.eqb_spec a c1), (String.eqb_spec b s),
        (String.eqb_spec b c2); cbn [negb andb]; try lia; congruence.
Qed.

Lemma seq_smooth_outer_counts (s e : string) (cmds l : list string) :
  forall (q : counts2) (a b : string),
    count2 a b
      (snd (fold_left
              (fun q cmd1 => fold_left (seq_smooth_pair s e cmd1) cmds q) l q))
    = (count2 a b (snd q)
       + if negb (String.eqb a e) && negb (String.eqb b s)
         then occ a l * occ b cmds else 0)%Z.
Proof.
  induction l as [|c1 l IH]; intros q a b.
  - simpl. destruct (_ && _); lia.
  - cbn [fold_left]. rewrite IH, seq_smooth_inner_counts. cbn [occ].
    destruct (String.eqb_spec a c1) as [->|Ha]; cbn [andb].
    + destruct (negb (String.eqb c1 e)), (negb (String.eqb b s));
        cbn [andb]; lia.
    + destruct (negb (String.eqb a e) && negb (String.eqb b s)); lia.
Qed.

Lemma occ_NoDup (a : string) (l : list string) :
  NoDup l -> occ a l = if existsb (String.eqb a) l then 1%Z else 0%Z.
Proof.
  induction 1 as [|x l Hx Hnd IH]; simpl; auto.
  rewrite IH. destruct (String.eqb_spec a x) as [->|Hne]; cbn [orb]; [|lia].
  destruct (existsb (String.eqb x) l) eqn:E; auto.
  apply existsb_exists in E. destruct E as [y [Hy Heq]].
  apply String.eqb_eq in Heq. subst y. contradiction.
Qed.

(** With each command once in the vocabulary, the smoothing adds exactly 1 to
    each pair it covers. *)
Lemma seq_smooth_counts (s e : string) (cmds : list string) (q : counts2)
    (a b : string) :
  NoDup cmds ->
  count2 a b (snd (seq_smooth s e cmds q))
  = (count2 a b (snd q) + if smoothed_pair s e cmds a b then 1 else 0)%Z.
Proof.
  intros Hnd. unfold seq_smooth. rewrite seq_smooth_outer_counts.
  rewrite !(occ_NoDup _ Hnd). unfold smoothed_pair.
  destruct (existsb (String.eqb a) cmds), (existsb (String.eqb b) cmds),
    (negb (String.eqb a e)), (negb (String.eqb b s)); cbn [andb]; lia.
Qed.

(** X12: the counts of the command pairs.  When no command is named as the
    unknown token and the unknown token is neither the start nor the end
    token (the vocabulary then holds each command once), the count that
    compute_counts builds for a pair (c1, c2) is the number of times c2
    directly follows c1 in the sessions, each put between the start and the
    end token, plus 1 if c1 and c2 are in the vocabulary, c1 is not the end
    token and c2 is not the start token, and plus 0 otherwise. *)
Theorem X12_bigram_count_is_occurrences_plus_one :
  forall (s e u c1 c2 : string),
    (forall sessions : list (list CmdsParamsOnly.Cmd),
        nodupb (CmdsParamsOnly.cmds_vocab sessions s e u) = true ->
        count2 c1 c2
          (CmdsParamsOnly.seq2_counts
             (CmdsParamsOnly.smoothed_counts sessions s e u))
        = (sum_over (fun names => count_adj c1 c2 (wrapped s e names))
             (names_of sessions)
           + if smoothed_pair s e (CmdsParamsOnly.cmds_vocab sessions s e u)
                  c1 c2
             then 1 else 0)%Z)
    /\ (forall sessions : list (list CmdsParamsValues.Cmd),
           nodupb (CmdsParamsValues.cmds_vocab sessions s e u) = true ->
           count2 c1 c2
             (CmdsParamsValues.seq2_counts
                (CmdsParamsValues.smoothed_counts sessions s e u))
           = (sum_over (fun names => count_adj c1 c2 (wrapped s e names))
                (names_of_values sessions)
              + if smoothed_pair s e
                     (CmdsParamsValues.cmds_vocab sessions s e u) c1 c2
                then 1 else 0)%Z).
Proof.
  intros s e u c1 c2. split.
  - intros sessions Hnd. apply nodupb_NoDup in Hnd.
    pose proof (smoothed_counts_seq sessions s e u) as H.
    apply (f_equal snd) in H. cbn [snd] in H. rewrite H.
    rewrite (seq_smooth_counts s e _ c1 c2 Hnd).
    now rewrite (proj1 (seq_pass_counts s e _)).
  - intros sessions Hnd. apply nodupb_NoDup in Hnd.
    pose proof (smoothed_counts_seq_values sessions s e u) as H.
    apply (f_equal snd) in H. cbn [snd] in H. rewrite H.
    rewrite (seq_smooth_counts s e _ c1 c2 Hnd).
    now rewrite (proj1 (seq_pass_counts s e _)).
Qed.

Lemma X12_bigram_count_is_occurrences_plus_one_witness :
  nodupb (CmdsParamsOnly.cmds_vocab training START END_ UNK) = true
  /\ count2 "A" "A"
       (CmdsParamsOnly.seq2_counts
          (CmdsParamsOnly.smoothed_counts training START END_ UNK))
     = (sum_over (fun names => count_adj "A" "A" (wrapped START END_ names))
          (names_of training)
        + if smoothed_pair START END_
               (CmdsParamsOnly.cmds_vocab training START END_ UNK) "A" "A"
          then 1 else 0)%Z.
Proof.
  split; [reflexivity|].
  apply (proj1 (X12_bigram_count_is_occurrences_plus_one START END_ UNK "A"
                  "A") training).
  reflexivity.
Defined.

(** The smoothing of the commands on the counts of the single commands. *)
Lemma seq_smooth_inner_unigram (s e c1 : string) (l : list string) :
  forall (q : counts2) (a : string),
    count_of (get a (fst (fold_left (seq_smooth_pair s e c1) l q)))
    = (count_of (get a (fst q))
       + if negb (String.eqb c1 e)
         then (if String.eqb a c1
               then Z.of_nat (List.length l) - occ s l else 0)
              + (if negb (String.eqb a s) then occ a l else 0)
         else 0)%Z.
Proof.
  induction l as [|c2 l IH]; intros q a.
  - cbn [fold_left occ List.length].
    destruct (String.eqb c1 e), (String.eqb a c1), (String.eqb a s);
      cbn [negb]; lia.
  - cbn [fold_left]. rewrite IH. unfold seq_smooth_pair.
    cbn [occ List.length]. rewrite Nat2Z.inj_succ.
    destruct (String.eqb_spec c1 e), (String.eqb_spec c2 s);
      cbn [negb andb fst]; rewrite ?count_incr;
      destruct (String.eqb_spec a c1), (String.eqb_spec a s),
        (String.eqb_spec a c2), (String.eqb_spec s c2);
      cbn [negb andb]; try lia; congruence.
Qed.

Lemma seq_smooth_outer_unigram (s e : string) (cmds l : list string) :
  forall (q : counts2) (a : string),
    count_of
      (get a
         (fst (fold_left
                 (fun q cmd1 => fold_left (seq_smooth_pair s e cmd1) cmds q)
                 l q)))
    = (count_of (get a (fst q))
       + (if negb (String.eqb a e)
          then occ a l * (Z.of_nat (List.length cmds) - occ s cmds) else 0)
       + (if negb (String.eqb a s)
          then (Z.of_nat (List.length l) - occ e l) * occ a cmds else 0))%Z.
Proof.
  induction l as [|c1 l IH]; intros q a.
  - cbn [fold_left occ List.length].
    destruct (String.eqb a e), (String.eqb a s); cbn [negb]; lia.
  - cbn [fold_left]. rewrite IH, seq_smooth_inner_unigram.
    cbn [occ List.length]. rewrite Nat2Z.inj_succ.
    set (N := (Z.of_nat (List.length cmds) - occ s cmds)%Z).
    set (M := (Z.of_nat (List.length l) - occ e l)%Z).
    set (x := occ a l). set (y := occ a cmds).
    destruct (String.eqb_spec c1 e), (String.eqb_spec a e),
      (String.eqb_spec a s), (String.eqb_spec a c1), (String.eqb_spec e c1);
      cbn [negb andb]; try congruence; nia.
Qed.

(** X13: the counts of the single commands.  The count that compute_counts
    builds for a command c is the number of times c stands in the sessions,
    each put between the start and the end token, plus what the smoothing
    adds: it increments the counts of both commands of every pair it covers,
    so c gains one per vocabulary pair (c, c2) with c2 not the start token,
    if c is not the end token, and one per vocabulary pair (c1, c) with c1
    not the end token, if c is not the start token. *)
Theorem X13_unigram_count_gains_one_per_smoothed_pair :
  forall (s e u c : string),
    (forall sessions : list (list CmdsParamsOnly.Cmd),
        let vocab := CmdsParamsOnly.cmds_vocab sessions s e u in
        count_of
          (get c (CmdsParamsOnly.seq1_counts
                    (CmdsParamsOnly.smoothed_counts sessions s e u)))
        = (sum_over (fun names => occ c (wrapped s e names))
             (names_of sessions)
           + (if negb (String.eqb c e)
              then occ c vocab * (Z.of_nat (List.length vocab) - occ s vocab)
              else 0)
           + (if negb (String.eqb c s)
              then (Z.of_nat (List.length vocab) - occ e vocab) * occ c vocab
              else 0))%Z)
    /\ (forall sessions : list (list CmdsParamsValues.Cmd),
           let vocab := CmdsParamsValues.cmds_vocab sessions s e u in
           count_of
             (get c (CmdsParamsValues.seq1_counts
                       (CmdsParamsValues.smoothed_counts sessions s e u)))
           = (sum_over (fun names => occ c (wrapped s e names))
                (names_of_values sessions)
              + (if negb (String.eqb c e)
                 then occ c vocab
                      * (Z.of_nat (List.length vocab) - occ s vocab)
                 else 0)
              + (if negb (String.eqb c s)
                 then (Z.of_nat (List.length vocab) - occ e vocab)
                      * occ c vocab
                 else 0))%Z).
Proof.
  intros s e u c. split.
  - intros sessions vocab.
    pose proof (smoothed_counts_seq sessions s e u) as H.
    apply (f_equal fst) in H. cbn [fst] in H. rewrite H.
    unfold seq_smooth. rewrite seq_smooth_outer_unigram.
    now rewrite (proj2 (seq_pass_counts s e _)).
  - intros sessions vocab.
    pose proof (smoothed_counts_seq_values sessions s e u) as H.
    apply (f_equal fst) in H. cbn [fst] in H. rewrite H.
    unfold seq_smooth. rewrite seq_smooth_outer_unigram.
    now rewrite (proj2 (seq_pass_counts s e _)).
Qed.

(** ** The counts of the params and of the values *)

Lemma pair_pass_counts (pairs : list (string * string)) (a b : string) :
  count2 a b (snd (pair_pass pairs)) = occ_pair a b pairs.
Proof.
  unfold pair_pass.
  assert (G : forall q : counts2,
             count2 a b (snd (fold_left pair_count pairs q))
             = (count2 a b (snd q) + occ_pair a b pairs)%Z).
  { induction pairs as [|x pairs IH]; intros q.
    - simpl. lia.
    - cbn [fold_left]. rewrite IH. unfold pair_count. cbn [snd occ_pair].
      rewrite count2_incr2. lia. }
  rewrite G. unfold count2. simpl. lia.
Qed.

Lemma occ_pair_positive_In (a b : string) (pairs : list (string * string)) :
  (0 < occ_pair a b pairs)%Z -> In (a, b) pairs.
Proof.
  induction pairs as [|[x y] pairs IH]; simpl; [lia|].
  destruct (String.eqb_spec a x), (String.eqb_spec b y); cbn [andb];
    subst; auto; intros H; right; apply IH; lia.
Qed.

Lemma contains_incr (k b : string) (row : dict Z) :
  contains k (incr b row) = String.eqb k b || contains k row.
Proof.
  unfold contains, incr. destruct (String.eqb_spec k b) as [->|Hne].
  - now rewrite get_upd_same.
  - now rewrite get_upd_other by auto.
Qed.

(** A stored count of at least 1 is a count above 0, and the other way. *)
Lemma contains_count2 (d : dict (dict Z)) (a b : string) :
  pos2 d -> contains b (row_of (get a d)) = (0 <? count2 a b d)%Z.
Proof.
  intros Hd. unfold contains, count2.
  destruct (get b (row_of (get a d))) as [c|] eqn:E; simpl; auto.
  assert (Hc : (1 <= c)%Z).
  { destruct (get a d) as [row|] eqn:Ea; [|discriminate E].
    apply get_Some_In in Ea. apply get_Some_In in E. simpl in E.
    eapply Hd; eauto. }
  symmetry. apply Z.ltb_lt. lia.
Qed.

Lemma row_pair_smooth_entry (u a : string) (q : counts2) (b a' : string) :
  row_of (get a' (snd (pair_smooth_entry u a q b)))
  = if String.eqb a' a && smoothed_entry u (snd q) a b
    then incr b (row_of (get a (snd q)))
    else row_of (get a' (snd q)).
Proof.
  unfold pair_smooth_entry, smoothed_entry. cbv zeta. rewrite get_touch.
  destruct (contains b (row_of (get a (snd q))) || String.eqb b u);
    cbn [snd]; rewrite ?andb_true_r, ?andb_false_r.
  - rewrite get_incr2, get_touch.
    destruct (String.eqb a' a); [reflexivity|]. apply get_touch.
  - apply get_touch.
Qed.

(** One round of the smoothing keeps which entries it increments. *)
Lemma smoothed_entry_step (u a : string) (q : counts2) (b a' k : string) :
  smoothed_entry u (snd (pair_smooth_entry u a q b)) a' k
  = smoothed_entry u (snd q) a' k.
Proof.
  unfold smoothed_entry at 1. rewrite row_pair_smooth_entry.
  destruct (String.eqb_spec a' a) as [->|Ha]; cbn [andb]; [|reflexivity].
  destruct (smoothed_entry u (snd q) a b) eqn:E; [|reflexivity].
  rewrite contains_incr. unfold smoothed_entry in *.
  destruct (String.eqb_spec k b) as [->|Hk]; cbn [orb]; auto.
Qed.

Lemma count2_pair_smooth_entry (u a : string) (q : counts2) (b k1 k2 : string) :
  count2 k1 k2 (snd (pair_smooth_entry u a q b))
  = (count2 k1 k2 (snd q)
     + if String.eqb k1 a && String.eqb k2 b && smoothed_entry u (snd q) a b
       then 1 else 0)%Z.
Proof.
  unfold pair_smooth_entry, smoothed_entry. cbv zeta. rewrite get_touch.
  destruct (contains b (row_of (get a (snd q))) || String.eqb b u);
    cbn [snd]; rewrite ?andb_true_r, ?andb_false_r.
  - now rewrite count2_incr2, count2_touch.
  - rewrite count2_touch. lia.
Qed.

Lemma smoothed_entry_inner (u a : string) (l : list string) :
  forall (q : counts2) (a' k : string),
    smoothed_entry u (snd (fold_left (pair_smooth_entry u a) l q)) a' k
    = smoothed_entry u (snd q) a' k.
Proof.
  induction l as [|b l IH]; intros q a' k; cbn [fold_left]; auto.
  now rewrite IH, smoothed_entry_step.
Qed.

Lemma pair_smooth_inner_counts (u a : string) (l : list string) :
  forall (q : counts2) (k1 k2 : string),
    count2 k1 k2 (snd (fold_left (pair_smooth_entry u a) l q))
    = (count2 k1 k2 (snd q)
       + if String.eqb k1 a && smoothed_entry u (snd q) a k2
         then occ k2 l else 0)%Z.
Proof.
  induction l as [|b l IH]; intros q k1 k2.
  - simpl. destruct (_ && _); lia.
  - cbn [fold_left]. rewrite IH, smoothed_entry_step, count2_pair_smooth_entry.
    cbn [occ].
    destruct (String.eqb k1 a); cbn [andb]; [|lia].
    destruct (String.eqb_spec k2 b) as [->|Hk]; cbn [andb];
      [|destruct (smoothed_entry u (snd q) a k2); lia].
    destruct (smoothed_entry u (snd q) a b); lia.
Qed.

Lemma smoothed_entry_outer (u : string) (inner l : list string) :
  forall (q : counts2) (a' k : string),
    smoothed_entry u
      (snd (fold_left
              (fun q a => fold_left (pair_smooth_entry u a) inner q) l q))
      a' k
    = smoothed_entry u (snd q) a' k.
Proof.
  induction l as [|a l IH]; intros q a' k; cbn [fold_left]; auto.
  now rewrite IH, smoothed_entry_inner.
Qed.

Lemma pair_smooth_counts (u : string) (outer inner : list string) :
  forall (q : counts2) (k1 k2 : string),
    count2 k1 k2 (snd (pair_smooth u outer inner q))
    = (count2 k1 k2 (snd q)
       + if smoothed_entry u (snd q) k1 k2
         then occ k1 outer * occ k2 inner else 0)%Z.
Proof.
  unfold pair_smooth. induction outer as [|a outer IH]; intros q k1 k2.
  - simpl. destruct (smoothed_entry _ _ _ _); lia.
  - cbn [fold_left]. rewrite IH, smoothed_entry_inner, pair_smooth_inner_counts.
    cbn [occ].
    destruct (String.eqb_spec k1 a) as [->|Hk]; cbn [andb];
      destruct (smoothed_entry u (snd q) _ k2); lia.
Qed.

Lemma occ_positive_In (a : string) (l : list string) :
  In a l -> (0 < occ a l)%Z /\ existsb (String.eqb a) l = true.
Proof.
  intros H. split.
  - induction l as [|x l IH]; simpl in *; [contradiction|].
    assert (Hn : forall l', (0 <= occ a l')%Z).
    { induction l' as [|y l' IH']; simpl; [lia|].
      destruct (String.eqb a y); lia. }
    destruct (String.eqb_spec a x) as [->|Hne].
    + specialize (Hn l). lia.
    + destruct H as [->|H]; [contradiction|]. specialize (IH H). lia.
  - apply existsb_exists. exists a. split; auto. apply String.eqb_refl.
Qed.

(** The two-level counts at the end of [compute_counts], for a vocabulary
    and a list of second-level keys that hold each key once. *)
Lemma pair_tables_counts (u : string) (outer : list string)
    (pairs : list (string * string)) (a b : string) :
  let q0 := pair_pass pairs in
  let inner := keys (fst q0) ++ [u] in
  NoDup outer -> NoDup inner ->
  (forall ab, In ab pairs -> In (fst ab) outer) ->
  count2 a b (snd (pair_smooth u outer inner q0))
  = (occ_pair a b pairs
     + if (0 <? occ_pair a b pairs)%Z
          || (String.eqb b u && existsb (String.eqb a) outer)
       then 1 else 0)%Z.
Proof.
  cbv zeta. intros Ho Hi Hpairs.
  rewrite pair_smooth_counts, pair_pass_counts. unfold smoothed_entry.
  rewrite contains_count2 by apply pair_pass_counted.
  rewrite pair_pass_counts.
  rewrite (occ_NoDup a Ho), (occ_NoDup b Hi).
  destruct (Z.ltb_spec 0 (occ_pair a b pairs)) as [Hpos|Hzero]; cbn [orb].
  - apply occ_pair_positive_In in Hpos.
    assert (Ha : In a outer) by (apply (Hpairs (a, b) Hpos)).
    assert (Hb : In b (keys (fst (pair_pass pairs)) ++ [u])).
    { apply in_or_app. left. apply (@pair_pass_keys pairs (a, b) Hpos). }
    rewrite (proj2 (occ_positive_In _ _ Ha)),
      (proj2 (occ_positive_In _ _ Hb)). lia.
  - destruct (String.eqb_spec b u) as [->|Hb]; cbn [andb].
    + rewrite (proj2 (occ_positive_In u _ (vocab_has_unk _ u))).
      destruct (existsb (String.eqb a) outer); lia.
    + lia.
Qed.

(** X14: the counts of the params under the commands and of the values under
    the params.  When the vocabulary holds each command once, and the unknown
    token is no param (no value), the count that compute_counts builds for a
    param p under a command c is the number of times p was set on c in the
    sessions, plus 1 if that number is not 0, or if p is the unknown token
    and c is in the vocabulary; every other pair keeps a count of 0.  The
    same holds for the values under the params. *)
Theorem X14_param_count_is_occurrences_plus_one :
  forall (s e u a b : string),
    (forall sessions : list (list CmdsParamsOnly.Cmd),
        let raw := CmdsParamsOnly.counting_pass sessions s e in
        let vocab := CmdsParamsOnly.cmds_vocab sessions s e u in
        let pairs := flat_map (flat_map cmd_params) sessions in
        nodupb vocab = true ->
        nodupb (keys (CmdsParamsOnly.param_counts raw) ++ [u]) = true ->
        count2 a b
          (CmdsParamsOnly.cmd_param_counts
             (CmdsParamsOnly.smoothed_counts sessions s e u))
        = (occ_pair a b pairs
           + if (0 <? occ_pair a b pairs)%Z
                || (String.eqb b u && existsb (String.eqb a) vocab)
             then 1 else 0)%Z)
    /\ (forall sessions : list (list CmdsParamsValues.Cmd),
           let raw := CmdsParamsValues.counting_pass sessions s e in
           let vocab := CmdsParamsValues.cmds_vocab sessions s e u in
           let prms := keys (CmdsParamsValues.param_counts raw) ++ [u] in
           let pairs := flat_map (flat_map cmd_params_values) sessions in
           let vpairs := flat_map (flat_map param_values) sessions in
           nodupb vocab = true -> nodupb prms = true ->
           nodupb (keys (CmdsParamsValues.value_counts raw) ++ [u]) = true ->
           count2 a b
             (CmdsParamsValues.cmd_param_counts
                (CmdsParamsValues.smoothed_counts sessions s e u))
           = (occ_pair a b pairs
              + if (0 <? occ_pair a b pairs)%Z
                   || (String.eqb b u && existsb (String.eqb a) vocab)
                then 1 else 0)%Z
           /\ count2 a b
                (CmdsParamsValues.param_value_counts
                   (CmdsParamsValues.smoothed_counts sessions s e u))
              = (occ_pair a b vpairs
                 + if (0 <? occ_pair a b vpairs)%Z
                      || (String.eqb b u && existsb (String.eqb a) prms)
                   then 1 else 0)%Z).
Proof.
  intros s e u a b. split.
  - intros sessions raw vocab pairs Hv Hp.
    apply nodupb_NoDup in Hv, Hp.
    pose proof (counting_pass_prm sessions s e) as Hraw.
    apply (f_equal fst) in Hraw. cbn [fst] in Hraw.
    unfold raw in Hp. rewrite Hraw in Hp.
    pose proof (smoothed_counts_prm sessions s e u) as H. cbv zeta in H.
    apply (f_equal snd) in H. cbn [snd] in H. rewrite H.
    apply pair_tables_counts; auto.
    intros ab Hab. now apply cmd_params_in_vocab.
  - intros sessions raw vocab prms pairs vpairs Hv Hp Hvals.
    apply nodupb_NoDup in Hv, Hp, Hvals.
    pose proof (counting_pass_prm_values sessions s e) as Hraw.
    apply (f_equal fst) in Hraw. cbn [fst] in Hraw.
    pose proof (counting_pass_val_values sessions s e) as Hrawv.
    apply (f_equal fst) in Hrawv. cbn [fst] in Hrawv.
    unfold prms, raw in *. rewrite Hraw in *. rewrite Hrawv in Hvals.
    split.
    + pose proof (smoothed_counts_prm_values sessions s e u) as H.
      cbv zeta in H. apply (f_equal snd) in H. cbn [snd] in H. rewrite H.
      apply pair_tables_counts; auto.
      intros ab Hab. now apply cmd_params_values_in_vocab.
    + pose proof (smoothed_counts_val_values sessions s e u) as H.
      cbv zeta in H. apply (f_equal snd) in H. cbn [snd] in H. rewrite H.
      apply pair_tables_counts; auto.
      intros ab Hab. apply in_or_app. left.
      now apply param_values_in_params.
Qed.

Lemma X14_param_count_is_occurrences_plus_one_witness :
  nodupb (CmdsParamsOnly.cmds_vocab training START END_ UNK) = true
  /\ nodupb (keys (CmdsParamsOnly.param_counts
                     (CmdsParamsOnly.counting_pass training START END_))
             ++ [UNK]) = true
  /\ count2 "B" "x"
       (CmdsParamsOnly.cmd_param_counts
          (CmdsParamsOnly.smoothed_counts training START END_ UNK))
     = (occ_pair "B" "x" (flat_map (flat_map cmd_params) training)
        + if (0 <? occ_pair "B" "x" (flat_map (flat_map cmd_params) training))%Z
             || (String.eqb "x" UNK
                 && existsb (String.eqb "B")
                      (CmdsParamsOnly.cmds_vocab training START END_ UNK))
          then 1 else 0)%Z.
Proof.
  split; [reflexivity|]. split; [reflexivity|].
  apply (proj1 (X14_param_count_is_occurrences_plus_one START END_ UNK "B"
                  "x") training); reflexivity.
Defined.

(** ** The two variants side by side *)

Lemma contains_existsb {V : Type} (k : string) (d : dict V) :
  contains k d = existsb (String.eqb k) (keys d).
Proof.
  unfold contains. induction d as [|[k' v] d IH]; simpl; auto.
  destruct (String.eqb k k'); auto.
Qed.

Lemma fold_left_ext {A S : Type} (f g : S -> A -> S) (l : list A) :
  (forall s x, f s x = g s x) ->
  forall s, fold_left f l s = fold_left g l s.
Proof.
  intros H. induction l as [|x l IH]; intros s; simpl; auto.
  now rewrite H, IH.
Qed.

(** With no param to model values for, the loop over the row is that of the
    parameter-only variant, and it counts no value. *)
Lemma param_step_no_values (pv : dict string) (vcp : table (table Q))
    (ref : dict Q) :
  forall (prob : Q) (num : nat),
    for_each ref (CmdsParamsValues.param_step pv vcp []) (prob, num)
    = Ok (fold_left
            (fun prob kv =>
               if existsb (String.eqb (fst kv)) (keys pv)
               then (prob * snd kv)%Q
               else (prob * (1 - snd kv))%Q)
            ref prob, num).
Proof.
  induction ref as [|[k p] ref IH]; intros prob num; simpl; auto.
  rewrite contains_existsb.
  destruct (existsb (String.eqb k) (keys pv)); cbn [bind]; apply IH.
Qed.

Lemma compute_prob_no_values root cmd pv pcc vcp :
  sm_ok2 pcc = true ->
  CmdsParamsValues.compute_prob_setofparams_given_cmd root cmd pv pcc vcp []
    true
  = CmdsParamsOnly.compute_prob_setofparams_given_cmd root cmd (keys pv) pcc
      true.
Proof.
  intros Hp.
  unfold CmdsParamsValues.compute_prob_setofparams_given_cmd,
    CmdsParamsOnly.compute_prob_setofparams_given_cmd.
  unfold keys at 1. rewrite length_map.
  destruct (Nat.eqb (List.length pv) 0); [reflexivity|].
  destruct (getitem_sm_ok2 pcc cmd Hp) as [row [-> Hrow]]. cbn [bind].
  destruct (sm_ok1_length row Hrow) as [n Hn].
  rewrite param_step_no_values. cbn [bind fst snd]. rewrite Hn.
  rewrite Nat.add_0_r. reflexivity.
Qed.

Lemma py_nth_map {A B : Type} (f : A -> B) (l : list A) (i : Z) :
  py_nth (map f l) i = (x <- py_nth l i ;; Ok (f x)).
Proof.
  unfold py_nth. rewrite length_map. cbv zeta.
  destruct (_ || _)%bool; [reflexivity|].
  rewrite nth_error_map. destruct (nth_error l _); reflexivity.
Qed.

Lemma window_step_no_values root window trans pcc vcp st i :
  sm_ok2 pcc = true ->
  CmdsParamsValues.window_step root window trans pcc vcp [] st i
  = CmdsParamsOnly.window_step root (map params_only window) trans pcc st i.
Proof.
  intros Hp.
  unfold CmdsParamsValues.window_step, CmdsParamsOnly.window_step.
  rewrite !py_nth_map.
  destruct (py_nth window (Z.of_nat i - 1)) as [prev|]; [|reflexivity].
  cbn [bind].
  destruct (py_nth window (Z.of_nat i)) as [cur|]; [|reflexivity].
  cbn [bind]. unfold params_only at 1 2. cbn [CmdsParamsOnly.name].
  destruct (getitem trans (CmdsParamsValues.name prev)) as [row|];
    [|reflexivity]. cbn [bind].
  destruct (getitem row (CmdsParamsValues.name cur)) as [t|]; [|reflexivity].
  cbn [bind]. rewrite compute_prob_no_values by exact Hp. reflexivity.
Qed.

Lemma compute_likelihood_window_no_values root window prior trans pcc vcp us ue
    st et :
  sm_ok2 pcc = true ->
  CmdsParamsValues.compute_likelihood_window root window prior trans pcc vcp []
    us ue st et
  = CmdsParamsOnly.compute_likelihood_window root (map params_only window)
      prior trans pcc us ue st et.
Proof.
  intros Hp.
  unfold CmdsParamsValues.compute_likelihood_window,
    CmdsParamsOnly.compute_likelihood_window.
  destruct (assert (implb us _)); [|reflexivity]. cbn [bind].
  destruct (assert (implb ue _)); [|reflexivity]. cbn [bind].
  destruct window as [|w0 rest]; [reflexivity|].
  cbn [map]. rewrite compute_prob_no_values by exact Hp.
  unfold params_only at 1 2 3 4. cbn [CmdsParamsOnly.name CmdsParamsOnly.params].
  destruct (CmdsParamsOnly.compute_prob_setofparams_given_cmd root
              (CmdsParamsValues.name w0) (keys (CmdsParamsValues.params w0))
              pcc true) as [q|]; [|reflexivity].
  cbn [bind]. rewrite length_map.
  match goal with
  | |- bind ?c _ = bind ?c _ => destruct c as [prob|]; [|reflexivity]
  end.
  cbn [bind].
  rewrite (for_each_ext_in (seq 0 (List.length rest))
             (CmdsParamsValues.window_step root (w0 :: rest) trans pcc vcp [])
             (CmdsParamsOnly.window_step root
                (params_only w0 :: map params_only rest) trans pcc)).
  - reflexivity.
  - intros acc i _.
    now rewrite (@window_step_no_values root (w0 :: rest) trans pcc vcp acc i
                   Hp).
Qed.

Lemma slice_map {A B : Type} (f : A -> B) (l : list A) (i j : nat) :
  slice (map f l) i j = map f (slice l i j).
Proof. unfold slice. now rewrite skipn_map, firstn_map. Qed.

Lemma lik_at_no_values root sess prior trans pcc vcp w use st et gm i :
  sm_ok2 pcc = true ->
  lik_at_values root sess prior trans pcc vcp [] w use st et gm i
  = lik_at root (map params_only sess) prior trans pcc w use st et gm i.
Proof.
  intros Hp. unfold lik_at_values, lik_at.
  rewrite compute_likelihood_window_no_values by exact Hp.
  rewrite slice_map. reflexivity.
Qed.

Lemma windows_in_session_no_values root session prior trans pcc vcp w use st et
    gm :
  sm_ok2 pcc = true ->
  CmdsParamsValues.compute_likelihood_windows_in_session root session prior
    trans pcc vcp [] w use (Some st) (Some et) gm
  = CmdsParamsOnly.compute_likelihood_windows_in_session root
      (map params_only session) prior trans pcc w use (Some st) (Some et) gm.
Proof.
  intros Hp.
  rewrite windows_in_session_values_collect, windows_in_session_collect.
  cbv zeta.
  assert (Hext : extended (map params_only session)
                   (CmdsParamsOnly.mkCmd et []) use
                 = map params_only
                     (extended session (CmdsParamsValues.mkCmd et []) use)).
  { unfold extended. destruct use; [|reflexivity].
    now rewrite map_app. }
  rewrite Hext, length_map. unfold collect. apply for_each_ext_in.
  intros acc i _. now rewrite lik_at_no_values.
Qed.

(** X15: the value-aware variant with no param to model values for scores as
    the parameter-only variant.  On a StateMatrix of params given the
    commands, and with an empty set of modellable params, each of
    compute_prob_setofparams_given_cmd (with the geometric mean),
    compute_likelihood_window, compute_likelihood_windows_in_session and
    rarest_window_session returns, or raises, what its parameter-only
    counterpart does on the same commands with the values dropped; the
    returned window is the same commands, values included. *)
Theorem X15_no_modellable_params_scores_as_params_only :
  forall (root : Q -> positive -> Q) (prior : table Q)
         (trans pcc vcp : table (table Q)),
    sm_ok2 pcc = true ->
    (forall (cmd : string) (pv : dict string),
        CmdsParamsValues.compute_prob_setofparams_given_cmd root cmd pv pcc vcp
          [] true
        = CmdsParamsOnly.compute_prob_setofparams_given_cmd root cmd (keys pv)
            pcc true)
    /\ (forall (window : list CmdsParamsValues.Cmd) (us ue : bool)
               (st et : option string),
           CmdsParamsValues.compute_likelihood_window root window prior trans
             pcc vcp [] us ue st et
           = CmdsParamsOnly.compute_likelihood_window root
               (map params_only window) prior trans pcc us ue st et)
    /\ (forall (session : list CmdsParamsValues.Cmd) (w : nat) (use gm : bool)
               (st et : string),
           CmdsParamsValues.compute_likelihood_windows_in_session root session
             prior trans pcc vcp [] w use (Some st) (Some et) gm
           = CmdsParamsOnly.compute_likelihood_windows_in_session root
               (map params_only session) prior trans pcc w use (Some st)
               (Some et) gm)
    /\ (forall (session : list CmdsParamsValues.Cmd) (w : nat) (use gm : bool)
               (st et : string),
           CmdsParamsOnly.rarest_window_session root (map params_only session)
             prior trans pcc w use st et gm
           = (r <- CmdsParamsValues.rarest_window_session root session prior
                     trans pcc vcp [] w use st et gm ;;
              Ok (map params_only (fst r), snd r))).
Proof.
  intros root prior trans pcc vcp Hp. split; [|split; [|split]].
  - intros cmd pv. now apply compute_prob_no_values.
  - intros window us ue st et. now apply compute_likelihood_window_no_values.
  - intros session w use gm st et. now apply windows_in_session_no_values.
  - intros session w use gm st et.
    rewrite rarest_window_session_pick, rarest_window_session_values_pick.
    rewrite <- (@windows_in_session_no_values root session prior trans pcc vcp
                  w use st et gm Hp).
    destruct (CmdsParamsValues.compute_likelihood_windows_in_session root
                session prior trans pcc vcp [] w use (Some st) (Some et) gm)
      as [liks|]; [|reflexivity].
    cbn [bind]. unfold pick_rarest.
    destruct (Nat.eqb (List.length liks) 0); [reflexivity|].
    destruct (py_min liks) as [m|]; [|reflexivity]. cbn [bind].
    destruct (py_list_index liks m) as [ind|]; [|reflexivity]. cbn [bind fst snd].
    now rewrite slice_map.
Qed.

Lemma X15_no_modellable_params_scores_as_params_only_witness :
  sm_ok2 param_cond_cmd_probs = true
  /\ CmdsParamsValues.compute_likelihood_windows_in_session approx_root
       session_ABA_values prior_probs trans_probs param_cond_cmd_probs
       value_cond_param_probs [] 2 true (Some START) (Some END_) true
     = CmdsParamsOnly.compute_likelihood_windows_in_session approx_root
         (map params_only session_ABA_values) prior_probs trans_probs
         param_cond_cmd_probs 2 true (Some START) (Some END_) true.
Proof.
  split; [reflexivity|].
  apply (proj1 (proj2 (proj2
           (@X15_no_modellable_params_scores_as_params_only approx_root
              prior_probs trans_probs param_cond_cmd_probs
              value_cond_param_probs eq_refl)))).
Defined.

(** ** Probabilities and likelihoods between 0 and 1 *)

Lemma unit_q_one : unit_q 1.
Proof. unfold unit_q. lra. Qed.

Lemma unit_q_mult (a b : Q) : unit_q a -> unit_q b -> unit_q (a * b).
Proof.
  unfold unit_q. intros [Ha0 Ha1] [Hb0 Hb1]. split.
  - now apply Qmult_le_0_compat.
  - setoid_replace 1%Q with (1 * 1)%Q by reflexivity.
    apply Qmult_le_compat_nonneg; split; assumption.
Qed.

Lemma unit_q_compl (a : Q) : unit_q a -> unit_q (1 - a).
Proof. unfold unit_q. intros [H0 H1]. split; lra. Qed.

Lemma getitem_In {V : Type} (t : table V) (k : string) (v : V) :
  getitem t k = Ok v -> exists k', In (k', v) (items t).
Proof.
  destruct t as [d|d u]; cbn [getitem items].
  - destruct (get k d) as [v'|] eqn:E; [|discriminate].
    intros H. injection H as <-. exists k. now apply get_Some_In.
  - destruct (get k d) as [v'|] eqn:E.
    + intros H. injection H as <-. exists k. now apply get_Some_In.
    + destruct (get u d) as [v'|] eqn:E'; [|discriminate].
      intros H. injection H as <-. exists u. now apply get_Some_In.
Qed.

Lemma getitem_unit1 (t : table Q) (k : string) (p : Q) :
  unit1 t -> getitem t k = Ok p -> unit_q p.
Proof. intros Ht H. apply getitem_In in H. destruct H as [k' H]. eauto. Qed.

Lemma getitem_unit2 (t : table (table Q)) (k : string) (row : table Q) :
  unit2 t -> getitem t k = Ok row -> unit1 row.
Proof. intros Ht H. apply getitem_In in H. destruct H as [k' H]. eauto. Qed.

Lemma bernoulli_unit (prms : list string) (ref : dict Q) :
  (forall k p, In (k, p) ref -> unit_q p) ->
  forall prob, unit_q prob ->
    unit_q (fold_left
              (fun prob kv =>
                 if existsb (String.eqb (fst kv)) prms
                 then (prob * snd kv)%Q
                 else (prob * (1 - snd kv))%Q)
              ref prob).
Proof.
  induction ref as [|[k p] ref IH]; intros Href prob Hprob; simpl; auto.
  assert (Hp : unit_q p) by (apply (Href k); now left).
  apply IH.
  - intros k' p' H. apply (Href k'). now right.
  - destruct (existsb (String.eqb k) prms); apply unit_q_mult; auto.
    now apply unit_q_compl.
Qed.

Lemma compute_prob_unit root cmd prms pcc gm q :
  unit_root root -> unit2 pcc ->
  CmdsParamsOnly.compute_prob_setofparams_given_cmd root cmd prms pcc gm = Ok q ->
  unit_q q.
Proof.
  intros Hroot Hpcc. unfold CmdsParamsOnly.compute_prob_setofparams_given_cmd.
  destruct (Nat.eqb (List.length prms) 0).
  - intros H. injection H as <-. apply unit_q_one.
  - destruct (getitem pcc cmd) as [ref|] eqn:E; [|discriminate]. cbn [bind].
    assert (Hb : unit_q (CmdsParamsOnly.bernoulli prms (items ref))).
    { apply bernoulli_unit; [|apply unit_q_one].
      exact (@getitem_unit2 _ _ _ Hpcc E). }
    destruct gm.
    + unfold CmdsParamsOnly.pow_inv.
      destruct (List.length (items ref)); [discriminate|].
      intros H. injection H as <-. now apply Hroot.
    + intros H. now injection H as <-.
Qed.

Lemma param_step_unit pv vcp mp st kv st' :
  unit2 vcp -> unit_q (snd kv) -> unit_q (fst st) ->
  CmdsParamsValues.param_step pv vcp mp st kv = Ok st' ->
  unit_q (fst st').
Proof.
  intros Hv Hp Hst. destruct st as [prob num]. cbn [fst] in Hst.
  unfold CmdsParamsValues.param_step.
  destruct (contains (fst kv) pv).
  - destruct (existsb (String.eqb (fst kv)) mp).
    + destruct (get (fst kv) pv) as [v|]; [|discriminate].
      destruct (getitem vcp (fst kv)) as [row|] eqn:E; [|discriminate].
      cbn [bind].
      destruct (getitem row v) as [pval|] eqn:E'; [|discriminate].
      cbn [bind]. intros H. injection H as <-. cbn [fst].
      apply unit_q_mult; [now apply unit_q_mult|].
      exact (@getitem_unit1 _ _ _ (@getitem_unit2 _ _ _ Hv E) E').
    + intros H. injection H as <-. cbn [fst]. now apply unit_q_mult.
  - intros H. injection H as <-. cbn [fst].
    apply unit_q_mult; auto. now apply unit_q_compl.
Qed.

Lemma for_each_inv {A S : Type} (P : S -> Prop) (l : list A)
    (body : S -> A -> result S) :
  (forall acc x acc', In x l -> P acc -> body acc x = Ok acc' -> P acc') ->
  forall acc r, P acc -> for_each l body acc = Ok r -> P r.
Proof.
  induction l as [|x l IH]; intros Hbody acc r Hacc H; simpl in H.
  - now injection H as <-.
  - destruct (body acc x) as [acc'|] eqn:E; [|discriminate H].
    cbn [bind] in H. eapply IH; [| |exact H].
    + intros a y a' Hy. apply Hbody. now right.
    + eapply Hbody; eauto. now left.
Qed.

Lemma compute_prob_values_unit root cmd pv pcc vcp mp gm q :
  unit_root root -> unit2 pcc -> unit2 vcp ->
  CmdsParamsValues.compute_prob_setofparams_given_cmd root cmd pv pcc vcp mp gm
  = Ok q ->
  unit_q q.
Proof.
  intros Hroot Hpcc Hvcp.
  unfold CmdsParamsValues.compute_prob_setofparams_given_cmd.
  destruct (Nat.eqb (List.length pv) 0).
  - intros H. injection H as <-. apply unit_q_one.
  - destruct (getitem pcc cmd) as [ref|] eqn:E; [|discriminate]. cbn [bind].
    destruct (for_each (items ref) (CmdsParamsValues.param_step pv vcp mp)
                (1%Q, 0)) as [st|] eqn:Eloop; [|discriminate].
    cbn [bind].
    assert (Hst : unit_q (fst st)).
    { refine (@for_each_inv _ _ (fun st => unit_q (fst st)) _ _ _ _ _ _ Eloop).
      - intros acc [k p] acc' Hin Hacc Hstep.
        refine (@param_step_unit _ _ _ _ _ _ Hvcp _ Hacc Hstep). cbn [snd].
        exact (@getitem_unit2 _ _ _ Hpcc E k p Hin).
      - apply unit_q_one. }
    destruct gm.
    + destruct (Nat.ltb 0 (List.length (items ref) + snd st));
        intros H; injection H as <-; auto.
    + intros H. now injection H as <-.
Qed.

Lemma window_step_unit root window trans pcc st i st' :
  unit_root root -> unit2 trans -> unit2 pcc -> unit_q (fst st) ->
  CmdsParamsOnly.window_step root window trans pcc st i = Ok st' ->
  unit_q (fst st').
Proof.
  intros Hroot Ht Hp Hst H. unfold CmdsParamsOnly.window_step in H.
  destruct (py_nth window (Z.of_nat i - 1)) as [prev|]; [|discriminate H].
  cbn [bind] in H.
  destruct (py_nth window (Z.of_nat i)) as [cur|]; [|discriminate H].
  cbn [bind] in H.
  destruct (getitem trans (CmdsParamsOnly.name prev)) as [row|] eqn:Erow;
    [|discriminate H]. cbn [bind] in H.
  destruct (getitem row (CmdsParamsOnly.name cur)) as [t|] eqn:Et;
    [|discriminate H]. cbn [bind] in H.
  destruct (CmdsParamsOnly.compute_prob_setofparams_given_cmd root
              (CmdsParamsOnly.name cur) (CmdsParamsOnly.params cur) pcc true)
    as [q|] eqn:Eq; [|discriminate H]. cbn [bind] in H.
  injection H as <-. cbn [fst].
  apply unit_q_mult; [apply unit_q_mult; auto|].
  - exact (@getitem_unit1 _ _ _ (@getitem_unit2 _ _ _ Ht Erow) Et).
  - exact (@compute_prob_unit _ _ _ _ _ _ Hroot Hp Eq).
Qed.

Lemma window_step_values_unit root window trans pcc vcp mp st i st' :
  unit_root root -> unit2 trans -> unit2 pcc -> unit2 vcp -> unit_q (fst st) ->
  CmdsParamsValues.window_step root window trans pcc vcp mp st i = Ok st' ->
  unit_q (fst st').
Proof.
  intros Hroot Ht Hp Hv Hst H. unfold CmdsParamsValues.window_step in H.
  destruct (py_nth window (Z.of_nat i - 1)) as [prev|]; [|discriminate H].
  cbn [bind] in H.
  destruct (py_nth window (Z.of_nat i)) as [cur|]; [|discriminate H].
  cbn [bind] in H.
  destruct (getitem trans (CmdsParamsValues.name prev)) as [row|] eqn:Erow;
    [|discriminate H]. cbn [bind] in H.
  destruct (getitem row (CmdsParamsValues.name cur)) as [t|] eqn:Et;
    [|discriminate H]. cbn [bind] in H.
  destruct (CmdsParamsValues.compute_prob_setofparams_given_cmd root
              (CmdsParamsValues.name cur) (CmdsParamsValues.params cur) pcc vcp
              mp true)
    as [q|] eqn:Eq; [|discriminate H]. cbn [bind] in H.
  injection H as <-. cbn [fst].
  apply unit_q_mult; [apply unit_q_mult; auto|].
  - exact (@getitem_unit1 _ _ _ (@getitem_unit2 _ _ _ Ht Erow) Et).
  - exact (@compute_prob_values_unit _ _ _ _ _ _ _ _ Hroot Hp Hv Eq).
Qed.

Lemma unit_q_one_mult (a b : Q) : unit_q a -> unit_q b -> unit_q (1 * (a * b)).
Proof. intros Ha Hb. apply unit_q_mult; [apply unit_q_one|now apply unit_q_mult]. Qed.

Lemma compute_likelihood_window_unit root window prior trans pcc us ue st et
    lik :
  unit_root root -> unit1 prior -> unit2 trans -> unit2 pcc ->
  CmdsParamsOnly.compute_likelihood_window root window prior trans pcc us ue st
    et = Ok lik ->
  unit_lik lik.
Proof.
  intros Hroot Hprior Ht Hp H.
  unfold CmdsParamsOnly.compute_likelihood_window in H.
  destruct (assert (implb us _)); [|discriminate H]. cbn [bind] in H.
  destruct (assert (implb ue _)); [|discriminate H]. cbn [bind] in H.
  destruct window as [|w0 rest]; [injection H as <-; exact I|].
  destruct (CmdsParamsOnly.compute_prob_setofparams_given_cmd root
              (CmdsParamsOnly.name w0) (CmdsParamsOnly.params w0) pcc true)
    as [q|] eqn:Eq; [|discriminate H]. cbn [bind] in H.
  pose proof (@compute_prob_unit _ _ _ _ _ _ Hroot Hp Eq) as Hq.
  match type of H with
  | bind ?c _ = _ => destruct c as [prob|] eqn:Eprob; [|discriminate H]
  end.
  cbn [bind] in H.
  assert (Hprob : unit_q prob).
  { destruct us.
    - destruct st as [s|]; [|discriminate Eprob].
      destruct (getitem trans s) as [row|] eqn:Erow; [|discriminate Eprob].
      cbn [bind] in Eprob.
      destruct (getitem row _) as [t|] eqn:Et; [|discriminate Eprob].
      cbn [bind] in Eprob. injection Eprob as <-.
      apply unit_q_one_mult; auto.
      exact (@getitem_unit1 _ _ _ (@getitem_unit2 _ _ _ Ht Erow) Et).
    - destruct (getitem prior _) as [p|] eqn:Epr; [|discriminate Eprob].
      cbn [bind] in Eprob. injection Eprob as <-.
      apply unit_q_one_mult; auto.
      exact (@getitem_unit1 _ _ _ Hprior Epr). }
  match type of H with
  | bind ?c _ = _ => destruct c as [st'|] eqn:Eloop; [|discriminate H]
  end.
  cbn [bind] in H.
  assert (Hst : unit_q (fst st')).
  { refine (@for_each_inv _ _ (fun st => unit_q (fst st)) _ _ _ _ _ _ Eloop).
    - intros acc i acc' _ Hacc Hstep.
      exact (@window_step_unit _ _ _ _ _ _ _ Hroot Ht Hp Hacc Hstep).
    - exact Hprob. }
  destruct ue.
  - destruct et as [e|]; [|discriminate H].
    destruct (getitem trans (snd st')) as [row|] eqn:Erow; [|discriminate H].
    cbn [bind] in H.
    destruct (getitem row e) as [t|] eqn:Et; [|discriminate H].
    cbn [bind] in H. injection H as <-.
    cbn [unit_lik]. apply unit_q_mult; auto.
    exact (@getitem_unit1 _ _ _ (@getitem_unit2 _ _ _ Ht Erow) Et).
  - injection H as <-. exact Hst.
Qed.

Lemma compute_likelihood_window_values_unit root window prior trans pcc vcp mp
    us ue st et lik :
  unit_root root -> unit1 prior -> unit2 trans -> unit2 pcc -> unit2 vcp ->
  CmdsParamsValues.compute_likelihood_window root window prior trans pcc vcp mp
    us ue st et = Ok lik ->
  unit_lik lik.
Proof.
  intros Hroot Hprior Ht Hp Hv H.
  unfold CmdsParamsValues.compute_likelihood_window in H.
  destruct (assert (implb us _)); [|discriminate H]. cbn [bind] in H.
  destruct (assert (implb ue _)); [|discriminate H]. cbn [bind] in H.
  destruct window as [|w0 rest]; [injection H as <-; exact I|].
  destruct (CmdsParamsValues.compute_prob_setofparams_given_cmd root
              (CmdsParamsValues.name w0) (CmdsParamsValues.params w0) pcc vcp
              mp true)
    as [q|] eqn:Eq; [|discriminate H]. cbn [bind] in H.
  pose proof (@compute_prob_values_unit _ _ _ _ _ _ _ _ Hroot Hp Hv Eq) as Hq.
  match type of H with
  | bind ?c _ = _ => destruct c as [prob|] eqn:Eprob; [|discriminate H]
  end.
  cbn [bind] in H.
  assert (Hprob : unit_q prob).
  { destruct us.
    - destruct st as [s|]; [|discriminate Eprob].
      destruct (getitem trans s) as [row|] eqn:Erow; [|discriminate Eprob].
      cbn [bind] in Eprob.
      destruct (getitem row _) as [t|] eqn:Et; [|discriminate Eprob].
      cbn [bind] in Eprob. injection Eprob as <-.
      apply unit_q_one_mult; auto.
      exact (@getitem_unit1 _ _ _ (@getitem_unit2 _ _ _ Ht Erow) Et).
    - destruct (getitem prior _) as [p|] eqn:Epr; [|discriminate Eprob].
      cbn [bind] in Eprob. injection Eprob as <-.
      apply unit_q_one_mult; auto.
      exact (@getitem_unit1 _ _ _ Hprior Epr). }
  match type of H with
  | bind ?c _ = _ => destruct c as [st'|] eqn:Eloop; [|discriminate H]
  end.
  cbn [bind] in H.
  assert (Hst : unit_q (fst st')).
  { refine (@for_each_inv _ _ (fun st => unit_q (fst st)) _ _ _ _ _ _ Eloop).
    - intros acc i acc' _ Hacc Hstep.
      exact (@window_step_values_unit _ _ _ _ _ _ _ _ _ Hroot Ht Hp Hv Hacc
               Hstep).
    - exact Hprob. }
  destruct ue.
  - destruct et as [e|]; [|discriminate H].
    destruct (getitem trans (snd st')) as [row|] eqn:Erow; [|discriminate H].
    cbn [bind] in H.
    destruct (getitem row e) as [t|] eqn:Et; [|discriminate H].
    cbn [bind] in H. injection H as <-.
    cbn [unit_lik]. apply unit_q_mult; auto.
    exact (@getitem_unit1 _ _ _ (@getitem_unit2 _ _ _ Ht Erow) Et).
  - injection H as <-. exact Hst.
Qed.

Lemma Forall2_Forall_r {A B : Type} (R : A -> B -> Prop) (P : B -> Prop)
    (l : list A) (ys : list B) :
  (forall x y, R x y -> P y) -> Forall2 R l ys -> Forall P ys.
Proof. intros H. induction 1; constructor; eauto. Qed.

Lemma lik_at_unit root sess prior trans pcc w use st et gm i y :
  unit_root root -> unit1 prior -> unit2 trans -> unit2 pcc ->
  lik_at root sess prior trans pcc w use st et gm i = Ok y -> unit_lik y.
Proof.
  intros Hroot Hprior Ht Hp H. unfold lik_at in H. bind_inv H.
  pose proof (@compute_likelihood_window_unit _ _ _ _ _ _ _ _ _ _ Hroot Hprior
                Ht Hp E) as Ha.
  destruct gm; [|now injection H as <-].
  unfold CmdsParamsOnly.lik_pow_inv in H. destruct w; [discriminate|].
  injection H as <-. destruct a; cbn [unit_lik] in *; auto.
Qed.

Lemma lik_at_values_unit root sess prior trans pcc vcp mp w use st et gm i y :
  unit_root root -> unit1 prior -> unit2 trans -> unit2 pcc -> unit2 vcp ->
  lik_at_values root sess prior trans pcc vcp mp w use st et gm i = Ok y ->
  unit_lik y.
Proof.
  intros Hroot Hprior Ht Hp Hv H. unfold lik_at_values in H. bind_inv H.
  pose proof (@compute_likelihood_window_values_unit _ _ _ _ _ _ _ _ _ _ _ _
                Hroot Hprior Ht Hp Hv E) as Ha.
  destruct gm; [|now injection H as <-].
  unfold CmdsParamsValues.lik_pow_inv in H. destruct w; [discriminate|].
  injection H as <-. destruct a; cbn [unit_lik] in *; auto.
Qed.

(** The stand-in for the float power keeps the numbers between 0 and 1
    there. *)
Lemma bisect_root_bounds (fuel : nat) (x : Q) (k : positive) :
  forall lo hi : Q,
    (lo <= hi)%Q ->
    (lo <= bisect_root fuel x k lo hi <= hi)%Q.
Proof.
  induction fuel as [|fuel IH]; intros lo hi Hle.
  - cbn [bisect_root]. split; [apply Qle_refl|exact Hle].
  - cbn [bisect_root]. cbv zeta. set (mid := Qred ((lo + hi) / 2)).
    assert (Hmid : (lo <= mid <= hi)%Q).
    { unfold mid. rewrite Qred_correct. split.
      - apply Qle_shift_div_l; lra.
      - apply Qle_shift_div_r; lra. }
    destruct (Qle_bool (Qpower_positive mid k) x).
    + destruct (IH mid hi (proj2 Hmid)) as [H1 H2]. split; [|exact H2].
      eapply Qle_trans; [apply Hmid|exact H1].
    + destruct (IH lo mid (proj1 Hmid)) as [H1 H2]. split; [exact H1|].
      eapply Qle_trans; [exact H2|apply Hmid].
Qed.

Lemma approx_root_unit : unit_root approx_root.
Proof.
  intros x k [H0 H1]. unfold approx_root.
  assert (Hmax : (Qmax 1 x <= 1)%Q) by (apply Q.max_lub; lra).
  destruct (@bisect_root_bounds 24 x k 0%Q (Qmax 1 x)) as [Hlo Hhi].
  - eapply Qle_trans; [|apply Q.le_max_l]. lra.
  - split; [exact Hlo|]. eapply Qle_trans; eauto.
Qed.

(** X16: likelihoods are between 0 and 1.  When every entry of the
    probability tables is between 0 and 1, and the power x ** (1 / k) keeps
    numbers between 0 and 1 there, the likelihood compute_likelihood_window
    returns is NaN or a number between 0 and 1, and so is every likelihood
    of compute_likelihood_windows_in_session and the likelihood that
    rarest_window_session returns. *)
Theorem X16_likelihoods_lie_between_zero_and_one :
  forall (root : Q -> positive -> Q) (prior : table Q)
         (trans pcc : table (table Q)),
    unit_root root -> unit1 prior -> unit2 trans -> unit2 pcc ->
    (forall (window session : list CmdsParamsOnly.Cmd) (us ue use gm : bool)
            (so eo : option string) (st et : string) (w : nat),
        (forall lik,
            CmdsParamsOnly.compute_likelihood_window root window prior trans
              pcc us ue so eo = Ok lik -> unit_lik lik)
        /\ (forall liks,
               CmdsParamsOnly.compute_likelihood_windows_in_session root
                 session prior trans pcc w use (Some st) (Some et) gm
               = Ok liks -> Forall unit_lik liks)
        /\ (forall win lik,
               CmdsParamsOnly.rarest_window_session root session prior trans
                 pcc w use st et gm = Ok (win, lik) -> unit_lik lik))
    /\ (forall (vcp : table (table Q)) (mp : list string),
           unit2 vcp ->
           forall (window session : list CmdsParamsValues.Cmd)
                  (us ue use gm : bool) (so eo : option string)
                  (st et : string) (w : nat),
             (forall lik,
                 CmdsParamsValues.compute_likelihood_window root window prior
                   trans pcc vcp mp us ue so eo = Ok lik -> unit_lik lik)
             /\ (forall liks,
                    CmdsParamsValues.compute_likelihood_windows_in_session root
                      session prior trans pcc vcp mp w use (Some st) (Some et)
                      gm = Ok liks -> Forall unit_lik liks)
             /\ (forall win lik,
                    CmdsParamsValues.rarest_window_session root session prior
                      trans pcc vcp mp w use st et gm = Ok (win, lik) ->
                    unit_lik lik)).
Proof.
  intros root prior trans pcc Hroot Hprior Ht Hp. split.
  - intros window session us ue use gm so eo st et w.
    assert (Hpass : forall liks,
               CmdsParamsOnly.compute_likelihood_windows_in_session root
                 session prior trans pcc w use (Some st) (Some et) gm
               = Ok liks -> Forall unit_lik liks).
    { intros liks H. rewrite windows_in_session_collect in H. cbv zeta in H.
      apply collect_Forall2 in H.
      refine (Forall2_Forall_r _ _ H). intros i y Hy.
      exact (@lik_at_unit _ _ _ _ _ _ _ _ _ _ _ _ Hroot Hprior Ht Hp Hy). }
    split; [|split; [exact Hpass|]].
    + intros lik H.
      exact (@compute_likelihood_window_unit _ _ _ _ _ _ _ _ _ _ Hroot Hprior
               Ht Hp H).
    + intros win lik H. rewrite rarest_window_session_pick in H.
      destruct (CmdsParamsOnly.compute_likelihood_windows_in_session root
                  session prior trans pcc w use (Some st) (Some et) gm)
        as [liks|] eqn:E; [|discriminate H].
      cbn [bind] in H. specialize (Hpass liks eq_refl).
      destruct liks as [|x liks].
      * unfold pick_rarest in H. simpl in H. injection H as _ <-. exact I.
      * destruct (@pick_rarest_first_minimum _ session w (x :: liks))
          as [ind [m [Hpick [Hnth _]]]]; [discriminate|].
        rewrite Hpick in H. injection H as _ <-.
        apply nth_error_In in Hnth.
        rewrite Forall_forall in Hpass. auto.
  - intros vcp mp Hv window session us ue use gm so eo st et w.
    assert (Hpass : forall liks,
               CmdsParamsValues.compute_likelihood_windows_in_session root
                 session prior trans pcc vcp mp w use (Some st) (Some et) gm
               = Ok liks -> Forall unit_lik liks).
    { intros liks H. rewrite windows_in_session_values_collect in H.
      cbv zeta in H. apply collect_Forall2 in H.
      refine (Forall2_Forall_r _ _ H). intros i y Hy.
      exact (@lik_at_values_unit _ _ _ _ _ _ _ _ _ _ _ _ _ _ Hroot Hprior Ht Hp
               Hv Hy). }
    split; [|split; [exact Hpass|]].
    + intros lik H.
      exact (@compute_likelihood_window_values_unit _ _ _ _ _ _ _ _ _ _ _ _
               Hroot Hprior Ht Hp Hv H).
    + intros win lik H. rewrite rarest_window_session_values_pick in H.
      destruct (CmdsParamsValues.compute_likelihood_windows_in_session root
                  session prior trans pcc vcp mp w use (Some st) (Some et) gm)
        as [liks|] eqn:E; [|discriminate H].
      cbn [bind] in H. specialize (Hpass liks eq_refl).
      destruct liks as [|x liks].
      * unfold pick_rarest in H. simpl in H. injection H as _ <-. exact I.
      * destruct (@pick_rarest_first_minimum _ session w (x :: liks))
          as [ind [m [Hpick [Hnth _]]]]; [discriminate|].
        rewrite Hpick in H. injection H as _ <-.
        apply nth_error_In in Hnth.
        rewrite Forall_forall in Hpass. auto.
Qed.

Lemma unit1_flat (d : dict Q) (u : string) :
  forallb (fun kv => Qle_bool 0 (snd kv) && Qle_bool (snd kv) 1) d = true ->
  unit1 (SM d u).
Proof.
  intros H k p Hin. rewrite forallb_forall in H. specialize (H _ Hin).
  cbn [snd] in H. apply andb_true_iff in H. destruct H as [H0 H1].
  split; now apply Qle_bool_iff.
Qed.

Lemma unit2_rows (d : dict (table Q)) (u : string) :
  (forall k row, In (k, row) d -> unit1 row) -> unit2 (SM d u).
Proof. intros H k row Hin. eauto. Qed.

Lemma prior_probs_unit : unit1 prior_probs.
Proof. apply unit1_flat. reflexivity. Qed.

Lemma trans_probs_unit : unit2 trans_probs.
Proof.
  apply unit2_rows. intros k row Hin. simpl in Hin.
  repeat (destruct Hin as [Hin|Hin];
          [injection Hin as <- <-; apply unit1_flat; reflexivity|]).
  destruct Hin.
Qed.

Lemma param_cond_cmd_probs_unit : unit2 param_cond_cmd_probs.
Proof.
  apply unit2_rows. intros k row Hin. simpl in Hin.
  repeat (destruct Hin as [Hin|Hin];
          [injection Hin as <- <-; apply unit1_flat; reflexivity|]).
  destruct Hin.
Qed.

Lemma X16_likelihoods_lie_between_zero_and_one_witness :
  unit_root approx_root /\ unit1 prior_probs /\ unit2 trans_probs
  /\ unit2 param_cond_cmd_probs
  /\ exists liks,
       CmdsParamsOnly.compute_likelihood_windows_in_session approx_root
         session_ABA prior_probs trans_probs param_cond_cmd_probs 2 true
         (Some START) (Some END_) true = Ok liks
       /\ Forall unit_lik liks.
Proof.
  split; [exact approx_root_unit|]. split; [exact prior_probs_unit|].
  split; [exact trans_probs_unit|]. split; [exact param_cond_cmd_probs_unit|].
  eexists. split; [reflexivity|].
  apply (proj1 (proj2 (proj1
           (@X16_likelihoods_lie_between_zero_and_one approx_root prior_probs
              trans_probs param_cond_cmd_probs approx_root_unit
              prior_probs_unit trans_probs_unit param_cond_cmd_probs_unit)
           [] session_ABA false false true true None None START END_ 2))).
  reflexivity.
Defined.

(** ** Probabilities derived from counts of at least 1 *)






Lemma some_seq1_counts_positive :
  forall k c, In (k, c) (items some_seq1_counts) -> (1 <= c)%Z.
Proof.
  intros k c Hin. simpl in Hin.
  repeat (destruct Hin as [Hin|Hin]; [injection Hin as <- <-; lia|]).
  destruct Hin.
Qed.

Lemma some_seq2_counts_positive :
  forall a row b c,
    In (a, row) (items some_seq2_counts) -> In (b, c) (items row) ->
    (1 <= c)%Z.
Proof.
  intros a row b c Ha Hb. simpl in Ha.
  repeat (destruct Ha as [Ha|Ha];
          [injection Ha as <- <-; simpl in Hb;
           repeat (destruct Hb as [Hb|Hb]; [injection Hb as <- <-; lia|]);
           destruct Hb|]).
  destruct Ha.
Qed.


(** ** Commands that the tables do not hold *)

(** Two loops that keep their states related return related states, or
    raise the same exception. *)
Lemma for_each_related {A S S' : Type} (R : S -> S' -> Prop) (l : list A)
    (f : S -> A -> result S) (g : S' -> A -> result S') :
  (forall a a' x, R a a' ->
                  match f a x, g a' x with
                  | Ok b, Ok b' => R b b'
                  | Raise e, Raise e' => e = e'
                  | _, _ => False
                  end) ->
  forall a a', R a a' ->
               match for_each l f a, for_each l g a' with
               | Ok b, Ok b' => R b b'
               | Raise e, Raise e' => e = e'
               | _, _ => False
               end.
Proof.
  intros Hstep. induction l as [|x l IH]; intros a a' Ha; simpl; auto.
  pose proof (Hstep a a' x Ha) as Hx.
  destruct (f a x) as [b|e], (g a' x) as [b'|e']; cbn [bind];
    [apply IH; exact Hx|contradiction|contradiction|exact Hx].
Qed.

Lemma getitem_rename {V : Type} (d : dict V) (n u k : string) :
  get n d = None ->
  getitem (SM d u) (rename n u k) = getitem (SM d u) k.
Proof.
  intros Hn. unfold rename. destruct (String.eqb_spec k n) as [->|Hk]; auto.
  cbn [getitem]. rewrite Hn. destruct (get u d); reflexivity.
Qed.

Lemma getitem_wrap_rows_rename {V : Type} (d : dict (dict V)) (n u k : string) :
  get n d = None ->
  getitem (SM (wrap_rows u d) u) (rename n u k)
  = getitem (SM (wrap_rows u d) u) k.
Proof.
  intros Hn. apply getitem_rename. unfold wrap_rows.
  rewrite (get_map_snd (fun r : dict V => SM r u)). now rewrite Hn.
Qed.

Lemma getitem_wrap_rows_row {V : Type} (d : dict (dict V)) (u k : string)
    (row : table V) :
  getitem (SM (wrap_rows u d) u) k = Ok row ->
  exists k' r, In (k', r) d /\ row = SM r u.
Proof.
  intros H. apply getitem_In in H. destruct H as [k' H]. cbn [items] in H.
  unfold wrap_rows in H. apply in_map_iff in H.
  destruct H as [[k0 r] [Heq Hin]]. cbn [fst snd] in Heq.
  injection Heq as <- <-. eauto.
Qed.

(** A transition looked up under renamed commands. *)
Lemma trans_rename (d2 : dict (dict Q)) (n u a b : string) :
  get n d2 = None ->
  (forall k row, In (k, row) d2 -> get n row = None) ->
  (row <- getitem (SM (wrap_rows u d2) u) (rename n u a) ;;
   getitem row (rename n u b))
  = (row <- getitem (SM (wrap_rows u d2) u) a ;; getitem row b).
Proof.
  intros Hn Hrows. rewrite getitem_wrap_rows_rename by exact Hn.
  destruct (getitem (SM (wrap_rows u d2) u) a) as [row|] eqn:E; [|reflexivity].
  cbn [bind]. destruct (getitem_wrap_rows_row _ _ _ E) as [k' [r [Hin ->]]].
  apply getitem_rename. eauto.
Qed.

Lemma trans_rename_left (d2 : dict (dict Q)) (n u a b : string) :
  get n d2 = None ->
  (row <- getitem (SM (wrap_rows u d2) u) (rename n u a) ;; getitem row b)
  = (row <- getitem (SM (wrap_rows u d2) u) a ;; getitem row b).
Proof. intros Hn. now rewrite getitem_wrap_rows_rename. Qed.

Lemma trans_rename_right (d2 : dict (dict Q)) (n u a b : string) :
  (forall k row, In (k, row) d2 -> get n row = None) ->
  (row <- getitem (SM (wrap_rows u d2) u) a ;; getitem row (rename n u b))
  = (row <- getitem (SM (wrap_rows u d2) u) a ;; getitem row b).
Proof.
  intros Hrows.
  destruct (getitem (SM (wrap_rows u d2) u) a) as [row|] eqn:E; [|reflexivity].
  cbn [bind]. destruct (getitem_wrap_rows_row _ _ _ E) as [k' [r [Hin ->]]].
  apply getitem_rename. eauto.
Qed.

Lemma compute_prob_rename root (d3 : dict (dict Q)) (n u k : string) prms gm :
  get n d3 = None ->
  CmdsParamsOnly.compute_prob_setofparams_given_cmd root (rename n u k) prms
    (SM (wrap_rows u d3) u) gm
  = CmdsParamsOnly.compute_prob_setofparams_given_cmd root k prms
      (SM (wrap_rows u d3) u) gm.
Proof.
  intros Hn. unfold CmdsParamsOnly.compute_prob_setofparams_given_cmd.
  now rewrite getitem_wrap_rows_rename.
Qed.

Lemma compute_prob_values_rename root (d3 : dict (dict Q)) (n u k : string) pv
    vcp mp gm :
  get n d3 = None ->
  CmdsParamsValues.compute_prob_setofparams_given_cmd root (rename n u k) pv
    (SM (wrap_rows u d3) u) vcp mp gm
  = CmdsParamsValues.compute_prob_setofparams_given_cmd root k pv
      (SM (wrap_rows u d3) u) vcp mp gm.
Proof.
  intros Hn. unfold CmdsParamsValues.compute_prob_setofparams_given_cmd.
  now rewrite getitem_wrap_rows_rename.
Qed.

Lemma bind_bind_assoc {A B C : Type} (c : result A) (f : A -> result B)
    (g : B -> result C) :
  (x <- c ;; y <- f x ;; g y) = (y <- (x <- c ;; f x) ;; g y).
Proof. destruct c; reflexivity. Qed.

Lemma window_step_rename root window (d2 d3 : dict (dict Q)) (n u : string)
    (st st' : Q * string) (i : nat) :
  get n d2 = None ->
  (forall k row, In (k, row) d2 -> get n row = None) ->
  get n d3 = None ->
  fst st' = fst st ->
  match CmdsParamsOnly.window_step root window (SM (wrap_rows u d2) u)
          (SM (wrap_rows u d3) u) st i,
        CmdsParamsOnly.window_step root (map (rename_cmd n u) window)
          (SM (wrap_rows u d2) u) (SM (wrap_rows u d3) u) st' i with
  | Ok b, Ok b' => fst b' = fst b /\ snd b' = rename n u (snd b)
  | Raise e, Raise e' => e = e'
  | _, _ => False
  end.
Proof.
  intros H2 Hrows H3 Hst. unfold CmdsParamsOnly.window_step.
  rewrite !py_nth_map.
  destruct (py_nth window (Z.of_nat i - 1)) as [prev|]; cbn [bind]; auto.
  destruct (py_nth window (Z.of_nat i)) as [cur|]; cbn [bind]; auto.
  unfold rename_cmd. cbn [CmdsParamsOnly.name CmdsParamsOnly.params].
  rewrite (bind_bind_assoc
             (getitem (SM (wrap_rows u d2) u)
                (rename n u (CmdsParamsOnly.name prev)))).
  rewrite (@trans_rename d2 n u _ _ H2 Hrows).
  rewrite <- bind_bind_assoc.
  destruct (getitem (SM (wrap_rows u d2) u) (CmdsParamsOnly.name prev))
    as [row|]; cbn [bind]; auto.
  destruct (getitem row (CmdsParamsOnly.name cur)) as [t|]; cbn [bind]; auto.
  rewrite compute_prob_rename by exact H3.
  destruct (CmdsParamsOnly.compute_prob_setofparams_given_cmd root
              (CmdsParamsOnly.name cur) (CmdsParamsOnly.params cur)
              (SM (wrap_rows u d3) u) true) as [q|]; cbn [bind]; auto.
  cbn [fst snd]. now rewrite Hst.
Qed.

Lemma window_step_values_rename root window (d2 d3 : dict (dict Q)) vcp mp
    (n u : string) (st st' : Q * string) (i : nat) :
  get n d2 = None ->
  (forall k row, In (k, row) d2 -> get n row = None) ->
  get n d3 = None ->
  fst st' = fst st ->
  match CmdsParamsValues.window_step root window (SM (wrap_rows u d2) u)
          (SM (wrap_rows u d3) u) vcp mp st i,
        CmdsParamsValues.window_step root (map (rename_cmd_values n u) window)
          (SM (wrap_rows u d2) u) (SM (wrap_rows u d3) u) vcp mp st' i with
  | Ok b, Ok b' => fst b' = fst b /\ snd b' = rename n u (snd b)
  | Raise e, Raise e' => e = e'
  | _, _ => False
  end.
Proof.
  intros H2 Hrows H3 Hst. unfold CmdsParamsValues.window_step.
  rewrite !py_nth_map.
  destruct (py_nth window (Z.of_nat i - 1)) as [prev|]; cbn [bind]; auto.
  destruct (py_nth window (Z.of_nat i)) as [cur|]; cbn [bind]; auto.
  unfold rename_cmd_values.
  cbn [CmdsParamsValues.name CmdsParamsValues.params].
  rewrite (bind_bind_assoc
             (getitem (SM (wrap_rows u d2) u)
                (rename n u (CmdsParamsValues.name prev)))).
  rewrite (@trans_rename d2 n u _ _ H2 Hrows).
  rewrite <- bind_bind_assoc.
  destruct (getitem (SM (wrap_rows u d2) u) (CmdsParamsValues.name prev))
    as [row|]; cbn [bind]; auto.
  destruct (getitem row (CmdsParamsValues.name cur)) as [t|]; cbn [bind]; auto.
  rewrite compute_prob_values_rename by exact H3.
  destruct (CmdsParamsValues.compute_prob_setofparams_given_cmd root
              (CmdsParamsValues.name cur) (CmdsParamsValues.params cur)
              (SM (wrap_rows u d3) u) vcp mp true) as [q|]; cbn [bind]; auto.
  cbn [fst snd]. now rewrite Hst.
Qed.

(** X18: a command that the tables do not hold is scored as the unknown
    token.  On StateMatrix tables with the unknown token u, for a command
    name n that is a key of none of them (the priors, the transitions and
    their rows, the rows of the params), compute_likelihood_window returns,
    or raises, the same on a window and on that window with every command
    named n renamed to u, for every choice of the flags and tokens. *)
Theorem X18_unseen_command_scores_as_unknown_token :
  forall (root : Q -> positive -> Q) (n u : string) (d1 : dict Q)
         (d2 d3 : dict (dict Q)),
    unseen n d1 d2 d3 ->
    (forall (window : list CmdsParamsOnly.Cmd) (us ue : bool)
            (st et : option string),
        CmdsParamsOnly.compute_likelihood_window root
          (map (rename_cmd n u) window) (SM d1 u) (SM (wrap_rows u d2) u)
          (SM (wrap_rows u d3) u) us ue st et
        = CmdsParamsOnly.compute_likelihood_window root window (SM d1 u)
            (SM (wrap_rows u d2) u) (SM (wrap_rows u d3) u) us ue st et)
    /\ (forall (vcp : table (table Q)) (mp : list string)
               (window : list CmdsParamsValues.Cmd) (us ue : bool)
               (st et : option string),
           CmdsParamsValues.compute_likelihood_window root
             (map (rename_cmd_values n u) window) (SM d1 u)
             (SM (wrap_rows u d2) u) (SM (wrap_rows u d3) u) vcp mp us ue st et
           = CmdsParamsValues.compute_likelihood_window root window (SM d1 u)
               (SM (wrap_rows u d2) u) (SM (wrap_rows u d3) u) vcp mp us ue st
               et).
Proof.
  intros root n u d1 d2 d3 [H1 [H2 [Hrows H3]]]. split.
  - intros window us ue st et.
    unfold CmdsParamsOnly.compute_likelihood_window.
    destruct (assert (implb us _)); [|reflexivity]. cbn [bind].
    destruct (assert (implb ue _)); [|reflexivity]. cbn [bind].
    destruct window as [|w0 rest]; [reflexivity|]. cbn [map].
    change (CmdsParamsOnly.name (rename_cmd n u w0)) with (rename n u (CmdsParamsOnly.name w0)).
    change (CmdsParamsOnly.params (rename_cmd n u w0)) with (CmdsParamsOnly.params w0).
    change (rename_cmd n u w0 :: map (rename_cmd n u) rest)
      with (map (rename_cmd n u) (w0 :: rest)).
    rewrite compute_prob_rename by exact H3.
    destruct (CmdsParamsOnly.compute_prob_setofparams_given_cmd root
                (CmdsParamsOnly.name w0) (CmdsParamsOnly.params w0)
                (SM (wrap_rows u d3) u) true) as [q|]; [|reflexivity].
    cbn [bind]. rewrite length_map.
    assert (Hfirst :
              match us, st with
              | true, Some s =>
                  row <- getitem (SM (wrap_rows u d2) u) s ;;
                  t <- getitem row (rename n u (CmdsParamsOnly.name w0)) ;;
                  Ok (1 * (t * q))%Q
              | true, None => Raise AssertionError
              | false, _ =>
                  p <- getitem (SM d1 u) (rename n u (CmdsParamsOnly.name w0)) ;;
                  Ok (1 * (p * q))%Q
              end
              = match us, st with
                | true, Some s =>
                    row <- getitem (SM (wrap_rows u d2) u) s ;;
                    t <- getitem row (CmdsParamsOnly.name w0) ;;
                    Ok (1 * (t * q))%Q
                | true, None => Raise AssertionError
                | false, _ =>
                    p <- getitem (SM d1 u) (CmdsParamsOnly.name w0) ;;
                    Ok (1 * (p * q))%Q
                end).
    { destruct us; [destruct st as [s|]; [|reflexivity]|].
      - rewrite !(bind_bind_assoc (getitem (SM (wrap_rows u d2) u) s)).
        now rewrite (@trans_rename_right d2 n u s _ Hrows).
      - now rewrite getitem_rename. }
    rewrite Hfirst. clear Hfirst.
    match goal with
    | |- bind ?c _ = bind ?c _ => destruct c as [prob|]; [|reflexivity]
    end.
    cbn [bind].
    pose proof (@for_each_related nat (Q * string) (Q * string)
                  (fun b b' => fst b' = fst b /\ snd b' = rename n u (snd b))
                  (seq 0 (List.length rest))
                  (CmdsParamsOnly.window_step root (w0 :: rest)
                     (SM (wrap_rows u d2) u) (SM (wrap_rows u d3) u))
                  (CmdsParamsOnly.window_step root
                     (map (rename_cmd n u) (w0 :: rest))
                     (SM (wrap_rows u d2) u) (SM (wrap_rows u d3) u))) as Hloop.
    specialize (Hloop
                  (fun a a' x Ha =>
                     @window_step_rename root (w0 :: rest) d2 d3 n u a a' x H2
                       Hrows H3 (proj1 Ha))
                  (prob, CmdsParamsOnly.name w0)
                  (prob, rename n u (CmdsParamsOnly.name w0))
                  (conj eq_refl eq_refl)).
    destruct (for_each (seq 0 (List.length rest))
                (CmdsParamsOnly.window_step root (w0 :: rest)
                   (SM (wrap_rows u d2) u) (SM (wrap_rows u d3) u))
                (prob, CmdsParamsOnly.name w0)) as [b|e];
      destruct (for_each (seq 0 (List.length rest)) _
                  (prob, rename n u (CmdsParamsOnly.name w0))) as [b'|e'];
      try contradiction; [|now subst].
    destruct Hloop as [Hf Hs]. cbn [bind]. rewrite Hf, Hs.
    destruct ue; [|reflexivity]. destruct et as [e|]; [|reflexivity].
    rewrite !(bind_bind_assoc (getitem (SM (wrap_rows u d2) u) _)).
    now rewrite (@trans_rename_left d2 n u (snd b) e H2).
  - intros vcp mp window us ue st et.
    unfold CmdsParamsValues.compute_likelihood_window.
    destruct (assert (implb us _)); [|reflexivity]. cbn [bind].
    destruct (assert (implb ue _)); [|reflexivity]. cbn [bind].
    destruct window as [|w0 rest]; [reflexivity|]. cbn [map].
    change (CmdsParamsValues.name (rename_cmd_values n u w0)) with (rename n u (CmdsParamsValues.name w0)).
    change (CmdsParamsValues.params (rename_cmd_values n u w0)) with (CmdsParamsValues.params w0).
    change (rename_cmd_values n u w0 :: map (rename_cmd_values n u) rest)
      with (map (rename_cmd_values n u) (w0 :: rest)).
    rewrite compute_prob_values_rename by exact H3.
    destruct (CmdsParamsValues.compute_prob_setofparams_given_cmd root
                (CmdsParamsValues.name w0) (CmdsParamsValues.params w0)
                (SM (wrap_rows u d3) u) vcp mp true) as [q|]; [|reflexivity].
    cbn [bind]. rewrite length_map.
    assert (Hfirst :
              match us, st with
              | true, Some s =>
                  row <- getitem (SM (wrap_rows u d2) u) s ;;
                  t <- getitem row (rename n u (CmdsParamsValues.name w0)) ;;
                  Ok (1 * (t * q))%Q
              | true, None => Raise AssertionError
              | false, _ =>
                  p <- getitem (SM d1 u)
                         (rename n u (CmdsParamsValues.name w0)) ;;
                  Ok (1 * (p * q))%Q
              end
              = match us, st with
                | true, Some s =>
                    row <- getitem (SM (wrap_rows u d2) u) s ;;
                    t <- getitem row (CmdsParamsValues.name w0) ;;
                    Ok (1 * (t * q))%Q
                | true, None => Raise AssertionError
                | false, _ =>
                    p <- getitem (SM d1 u) (CmdsParamsValues.name w0) ;;
                    Ok (1 * (p * q))%Q
                end).
    { destruct us; [destruct st as [s|]; [|reflexivity]|].
      - rewrite !(bind_bind_assoc (getitem (SM (wrap_rows u d2) u) s)).
        now rewrite (@trans_rename_right d2 n u s _ Hrows).
      - now rewrite getitem_rename. }
    rewrite Hfirst. clear Hfirst.
    match goal with
    | |- bind ?c _ = bind ?c _ => destruct c as [prob|]; [|reflexivity]
    end.
    cbn [bind].
    pose proof (@for_each_related nat (Q * string) (Q * string)
                  (fun b b' => fst b' = fst b /\ snd b' = rename n u (snd b))
                  (seq 0 (List.length rest))
                  (CmdsParamsValues.window_step root (w0 :: rest)
                     (SM (wrap_rows u d2) u) (SM (wrap_rows u d3) u) vcp mp)
                  (CmdsParamsValues.window_step root
                     (map (rename_cmd_values n u) (w0 :: rest))
                     (SM (wrap_rows u d2) u) (SM (wrap_rows u d3) u) vcp mp))
      as Hloop.
    specialize (Hloop
                  (fun a a' x Ha =>
                     @window_step_values_rename root (w0 :: rest) d2 d3 vcp mp
                       n u a a' x H2 Hrows H3 (proj1 Ha))
                  (prob, CmdsParamsValues.name w0)
                  (prob, rename n u (CmdsParamsValues.name w0))
                  (conj eq_refl eq_refl)).
    destruct (for_each (seq 0 (List.length rest))
                (CmdsParamsValues.window_step root (w0 :: rest)
                   (SM (wrap_rows u d2) u) (SM (wrap_rows u d3) u) vcp mp)
                (prob, CmdsParamsValues.name w0)) as [b|e];
      destruct (for_each (seq 0 (List.length rest)) _
                  (prob, rename n u (CmdsParamsValues.name w0))) as [b'|e'];
      try contradiction; [|now subst].
    destruct Hloop as [Hf Hs]. cbn [bind]. rewrite Hf, Hs.
    destruct ue; [|reflexivity]. destruct et as [e|]; [|reflexivity].
    rewrite !(bind_bind_assoc (getitem (SM (wrap_rows u d2) u) _)).
    now rewrite (@trans_rename_left d2 n u (snd b) e H2).
Qed.

Lemma fixture_tables_states :
  prior_probs = SM prior_states UNK
  /\ trans_probs = SM (wrap_rows UNK trans_states) UNK
  /\ param_cond_cmd_probs = SM (wrap_rows UNK param_states) UNK.
Proof. repeat split. Qed.

Lemma unseen_C : unseen "C" prior_states trans_states param_states.
Proof.
  split; [reflexivity|]. split; [reflexivity|]. split; [|reflexivity].
  intros k row Hin. simpl in Hin.
  repeat (destruct Hin as [Hin|Hin]; [injection Hin as <- <-; reflexivity|]).
  destruct Hin.
Qed.

Lemma X18_unseen_command_scores_as_unknown_token_witness :
  unseen "C" prior_states trans_states param_states
  /\ CmdsParamsOnly.compute_likelihood_window approx_root
       (map (rename_cmd "C" UNK)
          [CmdsParamsOnly.mkCmd "C" ["p"]; CmdsParamsOnly.mkCmd "A" []])
       (SM prior_states UNK) (SM (wrap_rows UNK trans_states) UNK)
       (SM (wrap_rows UNK param_states) UNK) true true (Some START)
       (Some END_)
     = CmdsParamsOnly.compute_likelihood_window approx_root
         [CmdsParamsOnly.mkCmd "C" ["p"]; CmdsParamsOnly.mkCmd "A" []]
         (SM prior_states UNK) (SM (wrap_rows UNK trans_states) UNK)
         (SM (wrap_rows UNK param_states) UNK) true true (Some START)
         (Some END_).
Proof.
  split; [exact unseen_C|].
  apply (proj1 (@X18_unseen_command_scores_as_unknown_token approx_root "C"
                  UNK prior_states trans_states param_states unseen_C)).
Defined.

(** ** Params that the row of the command does not hold *)

Lemma existsb_eqb_In (k : string) (l : list string) :
  existsb (String.eqb k) l = true <-> In k l.
Proof.
  rewrite existsb_exists. split.
  - intros [y [Hy Heq]]. apply String.eqb_eq in Heq. now subst.
  - intros H. exists k. split; auto. apply String.eqb_refl.
Qed.

Lemma existsb_eqb_iff (k : string) (l l' : list string) :
  (In k l <-> In k l') ->
  existsb (String.eqb k) l = existsb (String.eqb k) l'.
Proof.
  intros H.
  destruct (existsb (String.eqb k) l) eqn:E, (existsb (String.eqb k) l') eqn:E';
    auto.
  - apply existsb_eqb_In in E. apply H in E. apply existsb_eqb_In in E.
    congruence.
  - apply existsb_eqb_In in E'. apply H in E'. apply existsb_eqb_In in E'.
    congruence.
Qed.

Lemma fold_left_ext_in {A S : Type} (f g : S -> A -> S) (l : list A) :
  (forall s x, In x l -> f s x = g s x) ->
  forall s, fold_left f l s = fold_left g l s.
Proof.
  induction l as [|x l IH]; intros H s; simpl; auto.
  rewrite (H s x (or_introl eq_refl)). apply IH.
  intros s' y Hy. apply H. now right.
Qed.

Lemma param_step_agree pv pv' vcp mp st (kv : string * Q) :
  get (fst kv) pv = get (fst kv) pv' ->
  CmdsParamsValues.param_step pv vcp mp st kv
  = CmdsParamsValues.param_step pv' vcp mp st kv.
Proof.
  intros H. unfold CmdsParamsValues.param_step, contains. now rewrite H.
Qed.

(** X19: the likelihood of the params of a command depends on them only
    through the keys of the row of that command: two non-empty sets of
    params that hold the same keys of the row give the same result, so a
    param that the row does not hold costs nothing.  In the value-aware
    variant the same holds of two non-empty dicts of params that agree on
    the keys of the row. *)
Theorem X19_params_outside_the_row_are_ignored :
  forall (root : Q -> positive -> Q) (cmd : string) (pcc : table (table Q))
         (gm : bool),
    (forall prms prms' : list string,
        prms <> [] -> prms' <> [] ->
        (forall ref k, getitem pcc cmd = Ok ref -> In k (keys (items ref)) ->
                       (In k prms <-> In k prms')) ->
        CmdsParamsOnly.compute_prob_setofparams_given_cmd root cmd prms pcc gm
        = CmdsParamsOnly.compute_prob_setofparams_given_cmd root cmd prms' pcc
            gm)
    /\ (forall (vcp : table (table Q)) (mp : list string)
               (pv pv' : dict string),
           pv <> [] -> pv' <> [] ->
           (forall ref k, getitem pcc cmd = Ok ref -> In k (keys (items ref)) ->
                          get k pv = get k pv') ->
           CmdsParamsValues.compute_prob_setofparams_given_cmd root cmd pv pcc
             vcp mp gm
           = CmdsParamsValues.compute_prob_setofparams_given_cmd root cmd pv'
               pcc vcp mp gm).
Proof.
  intros root cmd pcc gm. split.
  - intros prms prms' Hne Hne' Hagree.
    unfold CmdsParamsOnly.compute_prob_setofparams_given_cmd.
    destruct prms as [|p prms]; [congruence|].
    destruct prms' as [|p' prms']; [congruence|].
    cbn [List.length Nat.eqb].
    destruct (getitem pcc cmd) as [ref|] eqn:E; [|reflexivity]. cbn [bind].
    assert (Hb : CmdsParamsOnly.bernoulli (p :: prms) (items ref)
                 = CmdsParamsOnly.bernoulli (p' :: prms') (items ref)).
    { unfold CmdsParamsOnly.bernoulli. apply fold_left_ext_in.
      intros prob [k q] Hin. cbn [fst snd].
      rewrite (@existsb_eqb_iff k (p :: prms) (p' :: prms')); auto.
      apply (Hagree ref k eq_refl). eapply In_keys; eauto. }
    now rewrite Hb.
  - intros vcp mp pv pv' Hne Hne' Hagree.
    unfold CmdsParamsValues.compute_prob_setofparams_given_cmd.
    destruct pv as [|x pv]; [congruence|].
    destruct pv' as [|x' pv']; [congruence|].
    cbn [List.length Nat.eqb].
    destruct (getitem pcc cmd) as [ref|] eqn:E; [|reflexivity]. cbn [bind].
    rewrite (for_each_ext_in (items ref)
               (CmdsParamsValues.param_step (x :: pv) vcp mp)
               (CmdsParamsValues.param_step (x' :: pv') vcp mp)); auto.
    intros acc [k q] Hin. apply param_step_agree. cbn [fst].
    apply (Hagree ref k eq_refl). eapply In_keys; eauto.
Qed.

Lemma X19_params_outside_the_row_are_ignored_witness :
  ["p"] <> [] /\ ["never seen"; "p"] <> []
  /\ CmdsParamsOnly.compute_prob_setofparams_given_cmd approx_root "A" ["p"]
       param_cond_cmd_probs true
     = CmdsParamsOnly.compute_prob_setofparams_given_cmd approx_root "A"
         ["never seen"; "p"] param_cond_cmd_probs true.
Proof.
  assert (H1 : ["p"] <> []) by discriminate.
  assert (H2 : ["never seen"; "p"] <> []) by discriminate.
  split; [exact H1|]. split; [exact H2|].
  apply (proj1 (X19_params_outside_the_row_are_ignored approx_root "A"
                  param_cond_cmd_probs true) ["p"] ["never seen"; "p"] H1 H2).
  intros ref k Href Hk. simpl in Href. injection Href as <-. simpl in Hk.
  destruct Hk as [<-|[<-|[]]]; simpl; split; intros H;
    repeat (destruct H as [H|H]; try discriminate H; auto).
Defined.

(** ** The params of the last command of a window *)

Lemma py_nth_nat {A : Type} (l : list A) (j : nat) :
  py_nth l (Z.of_nat j)
  = match nth_error l j with
    | Some x => Ok x
    | None => Raise IndexError
    end.
Proof.
  unfold py_nth. cbv zeta.
  destruct (Z.ltb_spec (Z.of_nat j) 0) as [Hneg|_]; [lia|].
  rewrite Nat2Z.id.
  destruct (Z.ltb_spec (Z.of_nat j) 0) as [Hneg|_]; [lia|]. cbn [orb].
  destruct (Z.leb_spec (Z.of_nat (List.length l)) (Z.of_nat j)) as [Hge|Hlt].
  - assert (Hnone : nth_error l j = None) by (apply nth_error_None; lia).
    now rewrite Hnone.
  - reflexivity.
Qed.

Lemma py_nth_minus_one {A : Type} (pre : list A) (x : A) :
  py_nth (pre ++ [x]) (-1) = Ok x.
Proof.
  unfold py_nth. cbv zeta. rewrite length_app. cbn [List.length].
  change (-1 <? 0)%Z with true. cbv iota.
  destruct (Z.ltb_spec (-1 + Z.of_nat (List.length pre + 1)) 0) as [Hneg|_];
    [lia|].
  destruct (Z.leb_spec (Z.of_nat (List.length pre + 1))
              (-1 + Z.of_nat (List.length pre + 1))) as [Hge|_]; [lia|].
  cbn [orb].
  replace (Z.to_nat (-1 + Z.of_nat (List.length pre + 1)))
    with (List.length pre) by lia.
  rewrite nth_error_app2 by lia. now rewrite Nat.sub_diag.
Qed.

Lemma py_nth_before_last {A : Type} (pre : list A) (x y : A) (j : nat) :
  j < List.length pre ->
  py_nth (pre ++ [x]) (Z.of_nat j) = py_nth (pre ++ [y]) (Z.of_nat j).
Proof.
  intros Hj. rewrite !py_nth_nat. now rewrite !nth_error_app1 by exact Hj.
Qed.

Lemma window_step_last root (pre : list CmdsParamsOnly.Cmd)
    (x y : CmdsParamsOnly.Cmd) trans pcc st i :
  CmdsParamsOnly.name x = CmdsParamsOnly.name y ->
  i < List.length pre ->
  CmdsParamsOnly.window_step root (pre ++ [x]) trans pcc st i
  = CmdsParamsOnly.window_step root (pre ++ [y]) trans pcc st i.
Proof.
  intros Hname Hi. unfold CmdsParamsOnly.window_step.
  rewrite (@py_nth_before_last _ pre x y i Hi).
  destruct i as [|j].
  - change (Z.of_nat 0 - 1)%Z with (-1)%Z. rewrite !py_nth_minus_one.
    cbn [bind]. now rewrite Hname.
  - replace (Z.of_nat (S j) - 1)%Z with (Z.of_nat j) by lia.
    now rewrite (@py_nth_before_last _ pre x y j) by lia.
Qed.

Lemma window_step_values_last root (pre : list CmdsParamsValues.Cmd)
    (x y : CmdsParamsValues.Cmd) trans pcc vcp mp st i :
  CmdsParamsValues.name x = CmdsParamsValues.name y ->
  i < List.length pre ->
  CmdsParamsValues.window_step root (pre ++ [x]) trans pcc vcp mp st i
  = CmdsParamsValues.window_step root (pre ++ [y]) trans pcc vcp mp st i.
Proof.
  intros Hname Hi. unfold CmdsParamsValues.window_step.
  rewrite (@py_nth_before_last _ pre x y i Hi).
  destruct i as [|j].
  - change (Z.of_nat 0 - 1)%Z with (-1)%Z. rewrite !py_nth_minus_one.
    cbn [bind]. now rewrite Hname.
  - replace (Z.of_nat (S j) - 1)%Z with (Z.of_nat j) by lia.
    now rewrite (@py_nth_before_last _ pre x y j) by lia.
Qed.

(** X20: the params of the last command of a window do not count.  For a
    window of two or more commands, compute_likelihood_window gives the same
    result whatever the params of the last command are: its loop scores
    window[i] for i from 0 to len(window) - 2, and of the last command only
    the name enters the product, as that of window[-1]. *)
Theorem X20_params_of_the_last_command_do_not_count :
  forall (root : Q -> positive -> Q) (prior : table Q)
         (trans pcc : table (table Q)) (us ue : bool) (st et : option string),
    (forall (pre : list CmdsParamsOnly.Cmd) (x y : CmdsParamsOnly.Cmd),
        pre <> [] ->
        CmdsParamsOnly.name x = CmdsParamsOnly.name y ->
        CmdsParamsOnly.compute_likelihood_window root (pre ++ [x]) prior trans
          pcc us ue st et
        = CmdsParamsOnly.compute_likelihood_window root (pre ++ [y]) prior
            trans pcc us ue st et)
    /\ (forall (vcp : table (table Q)) (mp : list string)
               (pre : list CmdsParamsValues.Cmd) (x y : CmdsParamsValues.Cmd),
           pre <> [] ->
           CmdsParamsValues.name x = CmdsParamsValues.name y ->
           CmdsParamsValues.compute_likelihood_window root (pre ++ [x]) prior
             trans pcc vcp mp us ue st et
           = CmdsParamsValues.compute_likelihood_window root (pre ++ [y])
               prior trans pcc vcp mp us ue st et).
Proof.
  intros root prior trans pcc us ue st et. split.
  - intros pre x y Hne Hname.
    destruct pre as [|w0 pre]; [congruence|].
    unfold CmdsParamsOnly.compute_likelihood_window.
    destruct (assert (implb us _)); [|reflexivity]. cbn [bind].
    destruct (assert (implb ue _)); [|reflexivity]. cbn [bind].
    cbn [app].
    destruct (CmdsParamsOnly.compute_prob_setofparams_given_cmd root
                (CmdsParamsOnly.name w0) (CmdsParamsOnly.params w0) pcc true)
      as [q|]; [|reflexivity].
    cbn [bind].
    match goal with
    | |- bind ?c _ = bind ?c _ => destruct c as [prob|]; [|reflexivity]
    end.
    cbn [bind]. rewrite !length_app. cbn [List.length].
    rewrite (for_each_ext_in (seq 0 (List.length pre + 1))
               (CmdsParamsOnly.window_step root (w0 :: pre ++ [x]) trans pcc)
               (CmdsParamsOnly.window_step root (w0 :: pre ++ [y]) trans pcc));
      [reflexivity|].
    intros acc i Hi. apply in_seq in Hi.
    apply (@window_step_last root (w0 :: pre) x y trans pcc acc i Hname).
    cbn [List.length]. lia.
  - intros vcp mp pre x y Hne Hname.
    destruct pre as [|w0 pre]; [congruence|].
    unfold CmdsParamsValues.compute_likelihood_window.
    destruct (assert (implb us _)); [|reflexivity]. cbn [bind].
    destruct (assert (implb ue _)); [|reflexivity]. cbn [bind].
    cbn [app].
    destruct (CmdsParamsValues.compute_prob_setofparams_given_cmd root
                (CmdsParamsValues.name w0) (CmdsParamsValues.params w0) pcc vcp
                mp true)
      as [q|]; [|reflexivity].
    cbn [bind].
    match goal with
    | |- bind ?c _ = bind ?c _ => destruct c as [prob|]; [|reflexivity]
    end.
    cbn [bind]. rewrite !length_app. cbn [List.length].
    rewrite (for_each_ext_in (seq 0 (List.length pre + 1))
               (CmdsParamsValues.window_step root (w0 :: pre ++ [x]) trans pcc
                  vcp mp)
               (CmdsParamsValues.window_step root (w0 :: pre ++ [y]) trans pcc
                  vcp mp));
      [reflexivity|].
    intros acc i Hi. apply in_seq in Hi.
    apply (@window_step_values_last root (w0 :: pre) x y trans pcc vcp mp acc
             i Hname).
    cbn [List.length]. lia.
Qed.

Lemma X20_params_of_the_last_command_do_not_count_witness :
  [CmdsParamsOnly.mkCmd "B" []] <> []
  /\ CmdsParamsOnly.compute_likelihood_window approx_root
       ([CmdsParamsOnly.mkCmd "B" []] ++ [CmdsParamsOnly.mkCmd "A" ["p"]])
       prior_probs trans_probs param_cond_cmd_probs false false None None
     = CmdsParamsOnly.compute_likelihood_window approx_root
         ([CmdsParamsOnly.mkCmd "B" []] ++ [CmdsParamsOnly.mkCmd "A" []])
         prior_probs trans_probs param_cond_cmd_probs false false None None.
Proof.
  assert (H : [CmdsParamsOnly.mkCmd "B" []] <> []) by discriminate.
  split; [exact H|].
  apply (proj1 (X20_params_of_the_last_command_do_not_count approx_root
                  prior_probs trans_probs param_cond_cmd_probs false false
                  None None)
           [CmdsParamsOnly.mkCmd "B" []] (CmdsParamsOnly.mkCmd "A" ["p"])
           (CmdsParamsOnly.mkCmd "A" []) H eq_refl).
Defined.

(** ** The product that the window loop computes *)

Lemma window_loop_tail root (window : list CmdsParamsOnly.Cmd) trans pcc :
  forall (l : list CmdsParamsOnly.Cmd) (j : nat) (prev : CmdsParamsOnly.Cmd)
         (prob : Q) (nm : string),
    py_nth window (Z.of_nat j - 1) = Ok prev ->
    (forall i, i < List.length l -> nth_error window (j + i) = nth_error l i) ->
    match for_each (seq j (List.length l))
            (CmdsParamsOnly.window_step root window trans pcc) (prob, nm),
          CmdsParamsOnly.spec_window_tail root prev l trans pcc prob with
    | Ok st, Ok q => fst st = q
    | Raise e, Raise e' => e = e'
    | _, _ => False
    end.
Proof.
  induction l as [|cur l IH]; intros j prev prob nm Hprev Hnth.
  - simpl. reflexivity.
  - cbn [List.length seq for_each CmdsParamsOnly.spec_window_tail].
    unfold CmdsParamsOnly.window_step at 1. rewrite Hprev. cbn [bind].
    rewrite py_nth_nat.
    pose proof (Hnth 0 ltac:(simpl; lia)) as H0. rewrite Nat.add_0_r in H0.
    cbn [nth_error] in H0. rewrite H0. cbn [bind].
    destruct (getitem trans (CmdsParamsOnly.name prev)) as [row|];
      cbn [bind]; auto.
    destruct (getitem row (CmdsParamsOnly.name cur)) as [t|]; cbn [bind]; auto.
    destruct (CmdsParamsOnly.compute_prob_setofparams_given_cmd root
                (CmdsParamsOnly.name cur) (CmdsParamsOnly.params cur) pcc true)
      as [q|]; cbn [bind fst]; auto.
    apply IH.
    + replace (Z.of_nat (S j) - 1)%Z with (Z.of_nat j) by lia.
      rewrite py_nth_nat. now rewrite H0.
    + intros i Hi. replace (S j + i) with (j + S i) by lia.
      apply (Hnth (S i)). simpl. lia.
Qed.

Lemma window_loop_tail_values root (window : list CmdsParamsValues.Cmd) trans
    pcc vcp mp :
  forall (l : list CmdsParamsValues.Cmd) (j : nat)
         (prev : CmdsParamsValues.Cmd) (prob : Q) (nm : string),
    py_nth window (Z.of_nat j - 1) = Ok prev ->
    (forall i, i < List.length l -> nth_error window (j + i) = nth_error l i) ->
    match for_each (seq j (List.length l))
            (CmdsParamsValues.window_step root window trans pcc vcp mp)
            (prob, nm),
          CmdsParamsValues.spec_window_tail root prev l trans pcc vcp mp prob
    with
    | Ok st, Ok q => fst st = q
    | Raise e, Raise e' => e = e'
    | _, _ => False
    end.
Proof.
  induction l as [|cur l IH]; intros j prev prob nm Hprev Hnth.
  - simpl. reflexivity.
  - cbn [List.length seq for_each CmdsParamsValues.spec_window_tail].
    unfold CmdsParamsValues.window_step at 1. rewrite Hprev. cbn [bind].
    rewrite py_nth_nat.
    pose proof (Hnth 0 ltac:(simpl; lia)) as H0. rewrite Nat.add_0_r in H0.
    cbn [nth_error] in H0. rewrite H0. cbn [bind].
    destruct (getitem trans (CmdsParamsValues.name prev)) as [row|];
      cbn [bind]; auto.
    destruct (getitem row (CmdsParamsValues.name cur)) as [t|];
      cbn [bind]; auto.
    destruct (CmdsParamsValues.compute_prob_setofparams_given_cmd root
                (CmdsParamsValues.name cur) (CmdsParamsValues.params cur) pcc
                vcp mp true)
      as [q|]; cbn [bind fst]; auto.
    apply IH.
    + replace (Z.of_nat (S j) - 1)%Z with (Z.of_nat j) by lia.
      rewrite py_nth_nat. now rewrite H0.
    + intros i Hi. replace (S j + i) with (j + S i) by lia.
      apply (Hnth (S i)). simpl. lia.
Qed.

Lemma window_split_last {A : Type} (w0 : A) (rest : list A) :
  w0 :: rest = removelast (w0 :: rest) ++ [last rest w0]
  /\ List.length (removelast (w0 :: rest)) = List.length rest.
Proof.
  assert (H : w0 :: rest = removelast (w0 :: rest) ++ [last (w0 :: rest) w0]).
  { apply app_removelast_last. discriminate. }
  assert (Hlast : last (w0 :: rest) w0 = last rest w0).
  { destruct rest as [|x rest]; [reflexivity|].
    change (last (w0 :: x :: rest) w0) with (last (x :: rest) w0).
    reflexivity. }
  rewrite Hlast in H. split; [exact H|].
  apply (f_equal (@List.length A)) in H. rewrite length_app in H.
  cbn [List.length] in H. lia.
Qed.

(** X21: the product that compute_likelihood_window computes, tokens
    disabled.  For a window w0, ..., w(n-1) it is the prior of w0 times the
    likelihood of its params, times, for each of w0, ..., w(n-2) in turn, the
    transition probability from the command before it, the one before w0
    being the last command w(n-1), times the likelihood of its own params.
    This is the chain of factors that the specification words for the
    commands after the first, taken over w0, ..., w(n-2) from w(n-1), not over
    w1, ..., w(n-1) from w0; the exceptions are those of that chain. *)
Theorem X21_window_loop_runs_the_chain_from_the_last_command :
  forall (root : Q -> positive -> Q) (prior : table Q)
         (trans pcc : table (table Q)) (st et : option string),
    (forall (w0 : CmdsParamsOnly.Cmd) (rest : list CmdsParamsOnly.Cmd),
        CmdsParamsOnly.compute_likelihood_window root (w0 :: rest) prior trans
          pcc false false st et
        = (pp <- CmdsParamsOnly.compute_prob_setofparams_given_cmd root
                   (CmdsParamsOnly.name w0) (CmdsParamsOnly.params w0) pcc
                   true ;;
           p <- getitem prior (CmdsParamsOnly.name w0) ;;
           q <- CmdsParamsOnly.spec_window_tail root (last rest w0)
                  (removelast (w0 :: rest)) trans pcc (1 * (p * pp))%Q ;;
           Ok (Fl q)))
    /\ (forall (vcp : table (table Q)) (mp : list string)
               (w0 : CmdsParamsValues.Cmd) (rest : list CmdsParamsValues.Cmd),
           CmdsParamsValues.compute_likelihood_window root (w0 :: rest) prior
             trans pcc vcp mp false false st et
           = (pp <- CmdsParamsValues.compute_prob_setofparams_given_cmd root
                      (CmdsParamsValues.name w0) (CmdsParamsValues.params w0)
                      pcc vcp mp true ;;
              p <- getitem prior (CmdsParamsValues.name w0) ;;
              q <- CmdsParamsValues.spec_window_tail root (last rest w0)
                     (removelast (w0 :: rest)) trans pcc vcp mp
                     (1 * (p * pp))%Q ;;
              Ok (Fl q))).
Proof.
  intros root prior trans pcc st et. split.
  - intros w0 rest. unfold CmdsParamsOnly.compute_likelihood_window.
    cbn [implb assert bind].
    destruct (CmdsParamsOnly.compute_prob_setofparams_given_cmd root
                (CmdsParamsOnly.name w0) (CmdsParamsOnly.params w0) pcc true)
      as [pp|]; [|reflexivity].
    cbn [bind].
    destruct (getitem prior (CmdsParamsOnly.name w0)) as [p|]; [|reflexivity].
    cbn [bind].
    destruct (window_split_last w0 rest) as [Hsplit Hlen].
    pose proof (@window_loop_tail root (w0 :: rest) trans pcc
                  (removelast (w0 :: rest)) 0 (last rest w0)
                  (1 * (p * pp))%Q (CmdsParamsOnly.name w0)) as Hloop.
    rewrite Hlen in Hloop.
    assert (Hprev : py_nth (w0 :: rest) (Z.of_nat 0 - 1) = Ok (last rest w0)).
    { rewrite Hsplit at 1. apply py_nth_minus_one. }
    assert (Hnth : forall i, i < List.length rest ->
                             nth_error (w0 :: rest) (0 + i)
                             = nth_error (removelast (w0 :: rest)) i).
    { intros i Hi. rewrite Hsplit at 1. cbn [Nat.add].
      apply nth_error_app1. lia. }
    specialize (Hloop Hprev Hnth).
    destruct (for_each (seq 0 (List.length rest))
                (CmdsParamsOnly.window_step root (w0 :: rest) trans pcc)
                (1 * (p * pp)%Q, CmdsParamsOnly.name w0)%Q) as [s|e];
      destruct (CmdsParamsOnly.spec_window_tail root (last rest w0)
                  (removelast (w0 :: rest)) trans pcc (1 * (p * pp))%Q)
        as [q|e']; try contradiction; cbn [bind]; now subst.
  - intros vcp mp w0 rest. unfold CmdsParamsValues.compute_likelihood_window.
    cbn [implb assert bind].
    destruct (CmdsParamsValues.compute_prob_setofparams_given_cmd root
                (CmdsParamsValues.name w0) (CmdsParamsValues.params w0) pcc vcp
                mp true)
      as [pp|]; [|reflexivity].
    cbn [bind].
    destruct (getitem prior (CmdsParamsValues.name w0)) as [p|];
      [|reflexivity].
    cbn [bind].
    destruct (window_split_last w0 rest) as [Hsplit Hlen].
    pose proof (@window_loop_tail_values root (w0 :: rest) trans pcc vcp mp
                  (removelast (w0 :: rest)) 0 (last rest w0)
                  (1 * (p * pp))%Q (CmdsParamsValues.name w0)) as Hloop.
    rewrite Hlen in Hloop.
    assert (Hprev : py_nth (w0 :: rest) (Z.of_nat 0 - 1) = Ok (last rest w0)).
    { rewrite Hsplit at 1. apply py_nth_minus_one. }
    assert (Hnth : forall i, i < List.length rest ->
                             nth_error (w0 :: rest) (0 + i)
                             = nth_error (removelast (w0 :: rest)) i).
    { intros i Hi. rewrite Hsplit at 1. cbn [Nat.add].
      apply nth_error_app1. lia. }
    specialize (Hloop Hprev Hnth).
    destruct (for_each (seq 0 (List.length rest))
                (CmdsParamsValues.window_step root (w0 :: rest) trans pcc vcp
                   mp)
                (1 * (p * pp)%Q, CmdsParamsValues.name w0)%Q) as [s|e];
      destruct (CmdsParamsValues.spec_window_tail root (last rest w0)
                  (removelast (w0 :: rest)) trans pcc vcp mp
                  (1 * (p * pp))%Q)
        as [q|e']; try contradiction; cbn [bind]; now subst.
Qed.

(** ** The counts of the single params and values *)

Lemma pair_pass_unigram (pairs : list (string * string)) (b : string) :
  count_of (get b (fst (pair_pass pairs))) = occ b (map snd pairs).
Proof.
  unfold pair_pass.
  assert (G : forall q : counts2,
             count_of (get b (fst (fold_left pair_count pairs q)))
             = (count_of (get b (fst q)) + occ b (map snd pairs))%Z).
  { induction pairs as [|x pairs IH]; intros q.
    - simpl. lia.
    - cbn [fold_left map occ]. rewrite IH. unfold pair_count. cbn [fst].
      rewrite count_incr. lia. }
  rewrite G. simpl. lia.
Qed.

Lemma unigram_pair_smooth_entry (u a : string) (q : counts2) (b k : string) :
  count_of (get k (fst (pair_smooth_entry u a q b)))
  = (count_of (get k (fst q))
     + if String.eqb k b && smoothed_entry u (snd q) a b then 1 else 0)%Z.
Proof.
  unfold pair_smooth_entry, smoothed_entry. cbv zeta. rewrite get_touch.
  destruct (contains b (row_of (get a (snd q))) || String.eqb b u);
    cbn [fst]; rewrite ?andb_true_r, ?andb_false_r.
  - apply count_incr.
  - lia.
Qed.

Lemma pair_smooth_inner_unigram (u a : string) (l : list string) :
  forall (q : counts2) (k : string),
    count_of (get k (fst (fold_left (pair_smooth_entry u a) l q)))
    = (count_of (get k (fst q))
       + if smoothed_entry u (snd q) a k then occ k l else 0)%Z.
Proof.
  induction l as [|b l IH]; intros q k.
  - simpl. destruct (smoothed_entry _ _ _ _); lia.
  - cbn [fold_left]. rewrite IH, smoothed_entry_step, unigram_pair_smooth_entry.
    cbn [occ].
    destruct (String.eqb_spec k b) as [->|Hk]; cbn [andb];
      destruct (smoothed_entry u (snd q) a _); lia.
Qed.

Lemma pair_smooth_unigram (u : string) (outer inner : list string) :
  forall (q : counts2) (k : string),
    count_of (get k (fst (pair_smooth u outer inner q)))
    = (count_of (get k (fst q))
       + occ k inner
         * sum_over (fun a => if smoothed_entry u (snd q) a k then 1 else 0)
             outer)%Z.
Proof.
  unfold pair_smooth. induction outer as [|a outer IH]; intros q k.
  - simpl. lia.
  - cbn [fold_left]. rewrite IH, pair_smooth_inner_unigram, sum_over_cons.
    assert (Hsame :
              sum_over
                (fun a0 =>
                   (if smoothed_entry u
                         (snd (fold_left (pair_smooth_entry u a) inner q)) a0 k
                    then 1 else 0)%Z) outer
              = sum_over
                  (fun a0 =>
                     (if smoothed_entry u (snd q) a0 k then 1 else 0)%Z)
                  outer).
    { clear IH. induction outer as [|c outer IHo]; [reflexivity|].
      now rewrite !sum_over_cons, IHo, smoothed_entry_inner. }
    rewrite Hsame. destruct (smoothed_entry u (snd q) a k); lia.
Qed.

Lemma sum_over_ext_zero {A : Type} (f : A -> Z) (l : list A) :
  (forall x, In x l -> f x = 0%Z) -> sum_over f l = 0%Z.
Proof.
  induction l as [|x l IH]; intros H; [reflexivity|].
  rewrite sum_over_cons, (H x (or_introl eq_refl)), IH; auto.
  intros y Hy. apply H. now right.
Qed.

Lemma sum_over_ext {A : Type} (f g : A -> Z) (l : list A) :
  (forall x, f x = g x) -> sum_over f l = sum_over g l.
Proof.
  intros H. induction l as [|x l IH]; [reflexivity|].
  now rewrite !sum_over_cons, H, IH.
Qed.

Lemma occ_zero_not_In (a : string) (l : list string) :
  ~ In a l -> occ a l = 0%Z.
Proof.
  induction l as [|x l IH]; simpl; intros H; auto.
  destruct (String.eqb_spec a x) as [->|Hne].
  - exfalso. apply H. now left.
  - rewrite IH; auto.
Qed.

(** The flat counts at the end of [compute_counts], for a list of keys that
    holds each key once. *)
Lemma pair_tables_unigram (u : string) (outer : list string)
    (pairs : list (string * string)) (b : string) :
  let q0 := pair_pass pairs in
  let inner := keys (fst q0) ++ [u] in
  NoDup inner ->
  count_of (get b (fst (pair_smooth u outer inner q0)))
  = (occ b (map snd pairs)
     + sum_over
         (fun a =>
            if (0 <? occ_pair a b pairs)%Z || String.eqb b u then 1 else 0)
         outer)%Z.
Proof.
  cbv zeta. intros Hi. rewrite pair_smooth_unigram, pair_pass_unigram.
  assert (Hind : forall a,
             (if smoothed_entry u (snd (pair_pass pairs)) a b then 1 else 0)%Z
             = (if (0 <? occ_pair a b pairs)%Z || String.eqb b u
                then 1 else 0)%Z).
  { intros a. unfold smoothed_entry.
    rewrite contains_count2 by apply pair_pass_counted.
    now rewrite pair_pass_counts. }
  rewrite (sum_over_ext _ _ outer Hind).
  destruct (in_dec string_dec b (keys (fst (pair_pass pairs)) ++ [u]))
    as [Hin|Hout].
  - rewrite (occ_NoDup b Hi), (proj2 (occ_positive_In _ _ Hin)). lia.
  - rewrite (occ_zero_not_In _ _ Hout).
    rewrite sum_over_ext_zero; [lia|].
    intros a _.
    destruct (Z.ltb_spec 0 (occ_pair a b pairs)) as [Hpos|_]; cbn [orb].
    + exfalso. apply Hout. apply in_or_app. left.
      apply occ_pair_positive_In in Hpos.
      apply (@pair_pass_keys pairs (a, b) Hpos).
    + destruct (String.eqb_spec b u) as [->|_]; [|reflexivity].
      exfalso. apply Hout. apply vocab_has_unk.
Qed.

(** X22: the counts of the single params and values.  When the unknown
    token is no param, the count that compute_counts builds for a param p is
    the number of times p was set in the sessions, plus the number of
    commands of the vocabulary on which it was set; the count of the unknown
    token is the number of commands of the vocabulary.  In the value-aware
    variant the same holds of a value and the params it was given to, the
    params being those of the sessions and the unknown token. *)
Theorem X22_param_count_gains_one_per_command_that_has_it :
  forall (s e u b : string),
    (forall sessions : list (list CmdsParamsOnly.Cmd),
        let raw := CmdsParamsOnly.counting_pass sessions s e in
        let vocab := CmdsParamsOnly.cmds_vocab sessions s e u in
        let pairs := flat_map (flat_map cmd_params) sessions in
        nodupb (keys (CmdsParamsOnly.param_counts raw) ++ [u]) = true ->
        count_of
          (get b (CmdsParamsOnly.param_counts
                    (CmdsParamsOnly.smoothed_counts sessions s e u)))
        = (occ b (map snd pairs)
           + sum_over
               (fun c =>
                  if (0 <? occ_pair c b pairs)%Z || String.eqb b u
                  then 1 else 0)
               vocab)%Z)
    /\ (forall sessions : list (list CmdsParamsValues.Cmd),
           let raw := CmdsParamsValues.counting_pass sessions s e in
           let vocab := CmdsParamsValues.cmds_vocab sessions s e u in
           let prms := keys (CmdsParamsValues.param_counts raw) ++ [u] in
           let pairs := flat_map (flat_map cmd_params_values) sessions in
           let vpairs := flat_map (flat_map param_values) sessions in
           nodupb prms = true ->
           nodupb (keys (CmdsParamsValues.value_counts raw) ++ [u]) = true ->
           count_of
             (get b (CmdsParamsValues.param_counts
                       (CmdsParamsValues.smoothed_counts sessions s e u)))
           = (occ b (map snd pairs)
              + sum_over
                  (fun c =>
                     if (0 <? occ_pair c b pairs)%Z || String.eqb b u
                     then 1 else 0)
                  vocab)%Z
           /\ count_of
                (get b (CmdsParamsValues.value_counts
                          (CmdsParamsValues.smoothed_counts sessions s e u)))
              = (occ b (map snd vpairs)
                 + sum_over
                     (fun p =>
                        if (0 <? occ_pair p b vpairs)%Z || String.eqb b u
                        then 1 else 0)
                     prms)%Z).
Proof.
  intros s e u b. split.
  - intros sessions raw vocab pairs Hp. apply nodupb_NoDup in Hp.
    pose proof (counting_pass_prm sessions s e) as Hraw.
    apply (f_equal fst) in Hraw. cbn [fst] in Hraw.
    unfold raw in Hp. rewrite Hraw in Hp.
    pose proof (smoothed_counts_prm sessions s e u) as H. cbv zeta in H.
    apply (f_equal fst) in H. cbn [fst] in H. rewrite H.
    now apply pair_tables_unigram.
  - intros sessions raw vocab prms pairs vpairs Hp Hvals.
    apply nodupb_NoDup in Hp, Hvals.
    pose proof (counting_pass_prm_values sessions s e) as Hraw.
    apply (f_equal fst) in Hraw. cbn [fst] in Hraw.
    pose proof (counting_pass_val_values sessions s e) as Hrawv.
    apply (f_equal fst) in Hrawv. cbn [fst] in Hrawv.
    unfold prms, raw in *. rewrite Hraw in *. rewrite Hrawv in Hvals.
    split.
    + pose proof (smoothed_counts_prm_values sessions s e u) as H.
      cbv zeta in H. apply (f_equal fst) in H. cbn [fst] in H. rewrite H.
      now apply pair_tables_unigram.
    + pose proof (smoothed_counts_val_values sessions s e u) as H.
      cbv zeta in H. apply (f_equal fst) in H. cbn [fst] in H. rewrite H.
      now apply pair_tables_unigram.
Qed.

Lemma X22_param_count_gains_one_per_command_that_has_it_witness :
  nodupb (keys (CmdsParamsOnly.param_counts
                  (CmdsParamsOnly.counting_pass training START END_))
          ++ [UNK]) = true
  /\ count_of
       (get UNK (CmdsParamsOnly.param_counts
                   (CmdsParamsOnly.smoothed_counts training START END_ UNK)))
     = (occ UNK (map snd (flat_map (flat_map cmd_params) training))
        + sum_over
            (fun c =>
               if (0 <? occ_pair c UNK
                          (flat_map (flat_map cmd_params) training))%Z
                  || String.eqb UNK UNK
               then 1 else 0)
            (CmdsParamsOnly.cmds_vocab training START END_ UNK))%Z.
Proof.
  split; [reflexivity|].
  apply (proj1 (X22_param_count_gains_one_per_command_that_has_it START END_
                  UNK UNK) training).
  reflexivity.
Defined.

(** ** The derivation functions side by side *)

Lemma for_each_raises {A S : Type} (e0 : exn) (l : list A)
    (body : S -> A -> result S) :
  (forall acc x e, body acc x = Raise e -> e = e0) ->
  forall acc e, for_each l body acc = Raise e -> e = e0.
Proof.
  intros Hbody. induction l as [|x l IH]; intros acc e H; simpl in H.
  - discriminate.
  - destruct (body acc x) as [acc'|e'] eqn:E; cbn [bind] in H.
    + eauto.
    + injection H as <-. eauto.
Qed.

Lemma true_div_raises (a b : Z) (e : exn) :
  true_div a b = Raise e -> e = ZeroDivisionError.
Proof.
  unfold true_div. destruct (b =? 0)%Z; [|discriminate].
  intros H. now injection H as <-.
Qed.

Lemma unigram_probs_raises (counts : table Z) (e : exn) :
  Probabilities.unigram_probs counts = Raise e -> e = ZeroDivisionError.
Proof.
  unfold Probabilities.unigram_probs. apply for_each_raises.
  intros acc x e' H.
  destruct (true_div (snd x) _) as [q|e''] eqn:E; cbn [bind] in H;
    [discriminate|].
  injection H as <-. eapply true_div_raises; eauto.
Qed.

Lemma cond_probs_raises (counts : table (table Z)) (e : exn) :
  Probabilities.cond_probs counts = Raise e -> e = ZeroDivisionError.
Proof.
  unfold Probabilities.cond_probs. apply for_each_raises.
  intros acc kv e'. cbv zeta. apply for_each_raises.
  intros acc' x e'' H.
  destruct (true_div (snd x) _) as [q|e3] eqn:E; cbn [bind] in H;
    [discriminate|].
  injection H as <-. eapply true_div_raises; eauto.
Qed.

(** X23: the three derivation functions compute the same tables.  On count
    tables that are dicts (each key once), compute_cmds_probs, which looks
    the counts up again by key, returns what compute_params_probs and
    compute_values_probs return on the same counts, and raises what they
    raise. *)
Theorem X23_derivation_functions_agree :
  forall (u : string) (counts1 : table Z) (counts2 : table (table Z)),
    wf_dict (items counts1) = true -> wf_table2 counts2 = true ->
    Probabilities.compute_cmds_probs counts1 counts2 u
    = Probabilities.compute_params_probs counts1 counts2 u
    /\ Probabilities.compute_values_probs counts1 counts2 u
       = Probabilities.compute_params_probs counts1 counts2 u.
Proof.
  intros u counts1 counts2 H1 H2. split; [|reflexivity].
  apply nodupb_NoDup in H1.
  unfold Probabilities.compute_cmds_probs, Probabilities.compute_params_probs.
  cbv zeta. rewrite (@cmds_prior_loop counts1 H1).
  rewrite (@cmds_trans_loop counts2 H2).
  destruct (Probabilities.unigram_probs counts1) as [p|e1] eqn:E1;
    destruct (Probabilities.cond_probs counts2) as [c|e2] eqn:E2;
    cbn [bind]; try reflexivity.
  apply unigram_probs_raises in E1. apply cond_probs_raises in E2.
  congruence.
Qed.

Lemma X23_derivation_functions_agree_witness :
  wf_dict (items some_seq1_counts) = true
  /\ wf_table2 some_seq2_counts = true
  /\ Probabilities.compute_cmds_probs some_seq1_counts some_seq2_counts UNK
     = Probabilities.compute_params_probs some_seq1_counts some_seq2_counts UNK.
Proof.
  split; [reflexivity|]. split; [reflexivity|].
  exact (proj1 (@X23_derivation_functions_agree UNK some_seq1_counts
                  some_seq2_counts eq_refl eq_refl)).
Defined.

(** ** The rounding to binary64 *)

Lemma scale_down_small (fuel : nat) (x : Q) (d : Z) :
  (x < two53)%Q -> scale_down fuel x d = (x, d).
Proof.
  intros Hx. destruct fuel as [|fuel]; [reflexivity|].
  cbn [scale_down]. destruct (Qle_bool two53 x) eqn:E; [|reflexivity].
  apply Qle_bool_iff in E. lra.
Qed.

Lemma scale_spec (fuel : nat) :
  forall (x : Q) (s : Z),
    (0 < s)%Z ->
    (fst (scale fuel x s) * inject_Z s == x * inject_Z (snd (scale fuel x s)))%Q
    /\ (0 < snd (scale fuel x s))%Z
    /\ ((two52 <= fst (scale fuel x s))%Q
        \/ snd (scale fuel x s) = (s * 2 ^ Z.of_nat fuel)%Z).
Proof.
  induction fuel as [|fuel IH]; intros x s Hs.
  - cbn [scale fst snd]. split; [reflexivity|]. split; [exact Hs|].
    right. cbn. lia.
  - cbn [scale]. destruct (Qle_bool two52 x) eqn:E.
    + cbn [fst snd]. split; [reflexivity|]. split; [exact Hs|].
      left. now apply Qle_bool_iff.
    + destruct (IH (2 * x)%Q (2 * s)%Z ltac:(lia)) as [H1 [H2 H3]].
      split; [|split; [exact H2|]].
      * rewrite inject_Z_mult in H1. change (inject_Z 2) with 2%Q in H1.
        lra.
      * destruct H3 as [H3|H3]; [now left|right].
        rewrite H3. rewrite Nat2Z.inj_succ, Z.pow_succ_r by lia. lia.
Qed.

Lemma round_even_spec (x : Q) :
  (Qabs (inject_Z (round_even x) - x) <= 1 # 2)%Q.
Proof.
  unfold round_even. cbv zeta.
  pose proof (Qfloor_le x) as Hlo. pose proof (Qlt_floor x) as Hhi.
  rewrite inject_Z_plus in Hhi. change (inject_Z 1) with 1%Q in Hhi.
  apply Qabs_Qle_condition.
  destruct (Qle_bool (x - inject_Z (Qfloor x)) (1 # 2)) eqn:E.
  - apply Qle_bool_iff in E.
    destruct (Qeq_bool (x - inject_Z (Qfloor x)) (1 # 2)) eqn:E2.
    + apply Qeq_bool_iff in E2. destruct (Z.even (Qfloor x)).
      * split; lra.
      * rewrite inject_Z_plus. change (inject_Z 1) with 1%Q. split; lra.
    + split; lra.
  - assert (E' : ~ (x - inject_Z (Qfloor x) <= 1 # 2)%Q).
    { intros H. apply Qle_bool_iff in H. congruence. }
    apply Qnot_le_lt in E'.
    rewrite inject_Z_plus. change (inject_Z 1) with 1%Q. split; lra.
Qed.

Lemma eps64_nonneg : (0 <= eps64)%Q.
Proof. unfold eps64. apply Qinv_le_0_compat. unfold Qle; simpl; lia. Qed.

Lemma eta64_nonneg : (0 <= eta64)%Q.
Proof. unfold eta64. apply Qinv_le_0_compat. unfold Qle; simpl; lia. Qed.

(** On the numbers between 0 and 1 [fl64] has relative error [2^-53] at
    most, or absolute error [2^-1075] at most among the subnormals. *)
Lemma fl64_rounds : rounds fl64 eps64 eta64.
Proof.
  split; [exact eps64_nonneg|]. split; [exact eta64_nonneg|].
  intros x [Hx0 Hx1]. unfold fl64.
  assert (E0 : Qle_bool 0 x = true) by now apply Qle_bool_iff.
  rewrite E0. unfold fl64_pos. cbv zeta.
  rewrite scale_down_small
    by (apply Qle_lt_trans with 1%Q; [exact Hx1|vm_compute; reflexivity]).
  cbn [fst snd]. rewrite Qred_correct.
  destruct (@scale_spec 1074 x 1%Z ltac:(lia)) as [H1 [H2 H3]].
  set (y := fst (scale 1074 x 1)) in *.
  set (s := snd (scale 1074 x 1)) in *.
  change (inject_Z 1) with 1%Q in *.
  assert (HS : (0 < inject_Z s)%Q).
  { change 0%Q with (inject_Z 0). rewrite <- Zlt_Qlt. exact H2. }
  assert (HSn : ~ (inject_Z s == 0)%Q) by lra.
  assert (Hy : (y == x * inject_Z s)%Q) by lra.
  pose proof (round_even_spec y) as Hr.
  set (r := inject_Z (round_even y)) in *.
  assert (Hdiff : (r * 1 / inject_Z s - x == (r - y) / inject_Z s)%Q).
  { rewrite Hy. field. exact HSn. }
  rewrite Hdiff. unfold Qdiv. rewrite Qabs_Qmult.
  rewrite (Qabs_pos (/ inject_Z s)) by (apply Qinv_le_0_compat; lra).
  apply Qle_trans with ((1 # 2) * / inject_Z s)%Q.
  { apply Qmult_le_compat_r; [exact Hr|]. apply Qinv_le_0_compat; lra. }
  assert (Hinv : (0 < / inject_Z s)%Q) by (now apply Qinv_lt_0_compat).
  pose proof eps64_nonneg as He. pose proof eta64_nonneg as Ht.
  destruct H3 as [H3|H3].
  - assert (Hx : (x == y * / inject_Z s)%Q).
    { rewrite Hy. field. exact HSn. }
    apply Qle_trans with (eps64 * x)%Q; [|lra].
    rewrite Hx. rewrite Qmult_assoc.
    apply Qmult_le_compat_r; [|lra].
    unfold eps64. unfold two52 in H3.
    apply Qle_trans with (/ inject_Z (2 ^ 53) * inject_Z (2 ^ 52))%Q.
    + vm_compute. discriminate.
    + apply Qmult_le_l; [|exact H3]. vm_compute. reflexivity.
  - assert (Hx' : (0 <= eps64 * x)%Q) by (apply Qmult_le_0_compat; auto).
    apply Qle_trans with eta64; [|lra].
    rewrite H3. unfold eta64. vm_compute. discriminate.
Qed.

(** ** The rounded functions are the exact ones, rounded entry by entry *)

Lemma float_div_true_div (fl : Q -> Q) (a b : Z) :
  FloatProbabilities.float_div fl a b = (q <- true_div a b ;; Ok (fl q)).
Proof.
  unfold FloatProbabilities.float_div, true_div.
  now destruct (b =? 0)%Z.
Qed.

Lemma get_map_values {V W : Type} (f : V -> W) (k : string) (d : dict V) :
  get k (map_values f d) = option_map f (get k d).
Proof.
  induction d as [|[k' v] d IH]; [reflexivity|].
  cbn [map_values map get fst snd]. destruct (String.eqb k k'); [reflexivity|].
  exact IH.
Qed.

Lemma upd_map_values {V W : Type} (f : V -> W) (k : string)
    (g : option V -> V) (g' : option W -> W) :
  (forall o, g' (option_map f o) = f (g o)) ->
  forall d, upd k g' (map_values f d) = map_values f (upd k g d).
Proof.
  intros Hg. induction d as [|[k' v] d IH].
  - cbn. now rewrite <- Hg.
  - cbn [map_values map upd fst snd]. destruct (String.eqb k k').
    + cbn [map fst snd]. now rewrite <- Hg.
    + cbn [map fst snd]. f_equal. exact IH.
Qed.

Lemma setitem_map_values {V W : Type} (f : V -> W) (k : string) (v : V)
    (d : dict V) :
  setitem k (f v) (map_values f d) = map_values f (setitem k v d).
Proof. unfold setitem. now apply upd_map_values. Qed.

Lemma setitem2_map_values {V W : Type} (f : V -> W) (a b : string) (v : V)
    (d : dict (dict V)) :
  Probabilities.setitem2 a b (f v) (map_values (map_values f) d)
  = map_values (map_values f) (Probabilities.setitem2 a b v d).
Proof.
  unfold Probabilities.setitem2. apply upd_map_values.
  intros [r|]; cbn [option_map row_of].
  - apply setitem_map_values.
  - reflexivity.
Qed.

Lemma for_each_mapped {A S T : Type} (h : S -> T) (l : list A)
    (f : S -> A -> result S) (g : T -> A -> result T) :
  (forall acc x, In x l -> g (h acc) x = (r <- f acc x ;; Ok (h r))) ->
  forall acc,
    for_each l g (h acc) = (r <- for_each l f acc ;; Ok (h r)).
Proof.
  induction l as [|x l IH]; intros Hstep acc; [reflexivity|].
  cbn [for_each]. rewrite Hstep by now left.
  destruct (f acc x) as [acc'|e]; [|reflexivity].
  cbn [bind]. apply IH. intros acc0 y Hy. apply Hstep. now right.
Qed.

Lemma unigram_probs_rounded (fl : Q -> Q) (counts : table Z) :
  FloatProbabilities.unigram_probs fl counts
  = (d <- Probabilities.unigram_probs counts ;; Ok (map_values fl d)).
Proof.
  unfold FloatProbabilities.unigram_probs, Probabilities.unigram_probs.
  cbv zeta. refine (@for_each_mapped _ _ _ (map_values fl) _ _ _ _ []).
  intros acc x _. rewrite float_div_true_div.
  destruct (true_div _ _) as [q|e]; [|reflexivity].
  cbn [bind]. now rewrite setitem_map_values.
Qed.

Lemma cond_probs_rounded (fl : Q -> Q) (counts : table (table Z)) :
  FloatProbabilities.cond_probs fl counts
  = (d <- Probabilities.cond_probs counts ;;
     Ok (map_values (map_values fl) d)).
Proof.
  unfold FloatProbabilities.cond_probs, Probabilities.cond_probs.
  refine (@for_each_mapped _ _ _ (map_values (map_values fl)) _ _ _ _ []).
  intros acc kv _. cbv zeta.
  apply (for_each_mapped (map_values (map_values fl))).
  intros acc' bc _. rewrite float_div_true_div.
  destruct (true_div _ _) as [q|e]; [|reflexivity].
  cbn [bind]. now rewrite setitem2_map_values.
Qed.

Lemma cmds_prior_rounded (fl : Q -> Q) (seq1 : table Z) :
  for_each (keys (items seq1))
    (fun acc cmd =>
       c <- getitem seq1 cmd ;;
       q <- FloatProbabilities.float_div fl c
              (Probabilities.sum_Z (values (items seq1))) ;;
       Ok (setitem cmd q acc))
    []
  = (d <- for_each (keys (items seq1))
            (fun acc cmd =>
               c <- getitem seq1 cmd ;;
               q <- true_div c (Probabilities.sum_Z (values (items seq1))) ;;
               Ok (setitem cmd q acc))
            [] ;;
     Ok (map_values fl d)).
Proof.
  refine (@for_each_mapped _ _ _ (map_values fl) _ _ _ _ []).
  intros acc cmd _. destruct (getitem seq1 cmd) as [c|e]; [|reflexivity].
  cbn [bind]. rewrite float_div_true_div.
  destruct (true_div _ _) as [q|e]; [|reflexivity].
  cbn [bind]. now rewrite setitem_map_values.
Qed.

Lemma cmds_trans_rounded (fl : Q -> Q) (seq2 : table (table Z)) :
  for_each (items seq2)
    (fun acc kv =>
       for_each (keys (items (snd kv)))
         (fun acc current =>
            row <- getitem seq2 (fst kv) ;;
            c <- getitem row current ;;
            row' <- getitem seq2 (fst kv) ;;
            q <- FloatProbabilities.float_div fl c
                   (Probabilities.sum_Z (values (items row'))) ;;
            Ok (Probabilities.setitem2 (fst kv) current q acc))
         acc)
    []
  = (d <- for_each (items seq2)
            (fun acc kv =>
               for_each (keys (items (snd kv)))
                 (fun acc current =>
                    row <- getitem seq2 (fst kv) ;;
                    c <- getitem row current ;;
                    row' <- getitem seq2 (fst kv) ;;
                    q <- true_div c
                           (Probabilities.sum_Z (values (items row'))) ;;
                    Ok (Probabilities.setitem2 (fst kv) current q acc))
                 acc)
            [] ;;
     Ok (map_values (map_values fl) d)).
Proof.
  refine (@for_each_mapped _ _ _ (map_values (map_values fl)) _ _ _ _ []).
  intros acc kv _.
  apply (for_each_mapped (map_values (map_values fl))).
  intros acc' cur _.
  destruct (getitem seq2 (fst kv)) as [row|e]; [|reflexivity].
  cbn [bind]. destruct (getitem row cur) as [c|e]; [|reflexivity].
  cbn [bind]. rewrite float_div_true_div.
  destruct (true_div _ _) as [q|e]; [|reflexivity].
  cbn [bind]. now rewrite setitem2_map_values.
Qed.

Lemma contains_map_values {V W : Type} (f : V -> W) (k : string)
    (d : dict V) :
  contains k (map_values f d) = contains k d.
Proof.
  unfold contains. rewrite get_map_values. now destruct (get k d).
Qed.

Lemma forallb_map_values {V W : Type} (f : V -> W)
    (p : string * W -> bool) (q : string * V -> bool) (d : dict V) :
  (forall kv, p (fst kv, f (snd kv)) = q kv) ->
  forallb p (map_values f d) = forallb q d.
Proof.
  intros H. induction d as [|kv d IH]; [reflexivity|].
  cbn [map_values map forallb]. rewrite H. f_equal. exact IH.
Qed.

Lemma length_map_values {V W : Type} (f : V -> W) (d : dict V) :
  List.length (map_values f d) = List.length d.
Proof. apply length_map. Qed.

Lemma StateMatrix_rounded (fl : Q -> Q) (d : dict Q) (u : string) :
  StateMatrix (map_values fl d) u
  = (t <- StateMatrix d u ;; Ok (round_table fl t)).
Proof.
  unfold StateMatrix. rewrite length_map_values, contains_map_values.
  destruct (negb (Nat.eqb (List.length d) 0)); [|reflexivity].
  destruct (contains u d); reflexivity.
Qed.

Lemma StateMatrix2_rounded (fl : Q -> Q) (d : dict (dict Q)) (u : string) :
  StateMatrix2 (map_values (map_values fl) d) u
  = (t <- StateMatrix2 d u ;; Ok (round_table2 fl t)).
Proof.
  unfold StateMatrix2. rewrite length_map_values, contains_map_values.
  rewrite (@forallb_map_values _ _ (map_values fl)
             (fun kv => contains u (snd kv))
             (fun kv => contains u (snd kv)))
    by (intros kv; apply contains_map_values).
  destruct (negb (Nat.eqb (List.length d) 0)); [|reflexivity].
  destruct (contains u d); [|reflexivity].
  destruct (forallb _ d); [|reflexivity].
  cbn [assert bind round_table2]. do 2 f_equal.
  unfold map_values. rewrite !map_map. reflexivity.
Qed.

Lemma compute_cmds_probs_rounded (fl : Q -> Q) (seq1 : table Z)
    (seq2 : table (table Z)) (u : string) :
  FloatProbabilities.compute_cmds_probs fl seq1 seq2 u
  = rounded fl (Probabilities.compute_cmds_probs seq1 seq2 u).
Proof.
  unfold FloatProbabilities.compute_cmds_probs,
    Probabilities.compute_cmds_probs, rounded. cbv zeta.
  rewrite cmds_prior_rounded, cmds_trans_rounded.
  match goal with
  | |- context [for_each (keys (items seq1)) ?f []] =>
      destruct (for_each (keys (items seq1)) f []) as [d1|e]; [|reflexivity]
  end.
  cbn [bind].
  match goal with
  | |- context [for_each (items seq2) ?f []] =>
      destruct (for_each (items seq2) f []) as [d2|e]; [|reflexivity]
  end.
  cbn [bind]. rewrite StateMatrix_rounded, StateMatrix2_rounded.
  destruct (StateMatrix d1 u) as [t1|e]; [|reflexivity].
  cbn [bind]. destruct (StateMatrix2 d2 u) as [t2|e]; reflexivity.
Qed.

Lemma cond_unigram_rounded (fl : Q -> Q) (counts1 : table Z)
    (counts2 : table (table Z)) (u : string) :
  (c <- FloatProbabilities.cond_probs fl counts2 ;;
   p <- FloatProbabilities.unigram_probs fl counts1 ;;
   p <- StateMatrix p u ;;
   c <- StateMatrix2 c u ;;
   Ok (p, c))
  = rounded fl
      (c <- Probabilities.cond_probs counts2 ;;
       p <- Probabilities.unigram_probs counts1 ;;
       p <- StateMatrix p u ;;
       c <- StateMatrix2 c u ;;
       Ok (p, c)).
Proof.
  unfold rounded. rewrite cond_probs_rounded, unigram_probs_rounded.
  destruct (Probabilities.cond_probs counts2) as [d2|e]; [|reflexivity].
  cbn [bind].
  destruct (Probabilities.unigram_probs counts1) as [d1|e]; [|reflexivity].
  cbn [bind]. rewrite StateMatrix_rounded, StateMatrix2_rounded.
  destruct (StateMatrix d1 u) as [t1|e]; [|reflexivity].
  cbn [bind]. destruct (StateMatrix2 d2 u) as [t2|e]; reflexivity.
Qed.

Lemma compute_params_probs_rounded (fl : Q -> Q) (counts1 : table Z)
    (counts2 : table (table Z)) (u : string) :
  FloatProbabilities.compute_params_probs fl counts1 counts2 u
  = rounded fl (Probabilities.compute_params_probs counts1 counts2 u).
Proof. exact (cond_unigram_rounded fl counts1 counts2 u). Qed.

Lemma compute_values_probs_rounded (fl : Q -> Q) (counts1 : table Z)
    (counts2 : table (table Z)) (u : string) :
  FloatProbabilities.compute_values_probs fl counts1 counts2 u
  = rounded fl (Probabilities.compute_values_probs counts1 counts2 u).
Proof. exact (cond_unigram_rounded fl counts1 counts2 u). Qed.

Lemma rounded_inv (fl : Q -> Q) (r : result (table Q * table (table Q)))
    (probs : table Q) (cond : table (table Q)) :
  rounded fl r = Ok (probs, cond) ->
  exists p c,
    r = Ok (p, c) /\ probs = round_table fl p /\ cond = round_table2 fl c.
Proof.
  unfold rounded. destruct r as [[p c]|e]; cbn [bind fst snd]; intros H.
  - injection H as <- <-. now exists p, c.
  - discriminate H.
Qed.

(** ** The sum of a row of rounded quotients *)

Lemma fold_Qplus_acc (l : list Q) :
  forall a, (fold_left Qplus l a == a + sum_Q l)%Q.
Proof.
  unfold sum_Q. induction l as [|x l IH]; intros a; cbn [fold_left].
  - ring.
  - rewrite (IH (a + x)%Q), (IH (0 + x)%Q). ring.
Qed.

Lemma sum_Q_cons (x : Q) (l : list Q) : (sum_Q (x :: l) == x + sum_Q l)%Q.
Proof.
  unfold sum_Q at 1. cbn [fold_left]. rewrite fold_Qplus_acc. ring.
Qed.

Lemma sum_Z_nonneg (cs : list Z) :
  (forall c, In c cs -> (0 <= c)%Z) ->
  (0 <= Probabilities.sum_Z cs)%Z
  /\ forall c, In c cs -> (c <= Probabilities.sum_Z cs)%Z.
Proof.
  induction cs as [|c0 cs IH]; intros H.
  - split; [reflexivity|]. intros c [].
  - rewrite sum_Z_cons.
    destruct IH as [IH1 IH2]; [intros c Hc; apply H; now right|].
    assert (H0 : (0 <= c0)%Z) by (apply H; now left).
    split; [lia|]. intros c [<-|Hc]; [lia|].
    specialize (IH2 c Hc). lia.
Qed.

Lemma quotient_unit (c n : Z) :
  (0 <= c)%Z -> (c <= n)%Z -> (0 < n)%Z ->
  (0 <= inject_Z c / inject_Z n <= 1)%Q.
Proof.
  intros Hc Hcn Hn.
  assert (Hn' : (0 < inject_Z n)%Q).
  { change 0%Q with (inject_Z 0). rewrite <- Zlt_Qlt. exact Hn. }
  assert (Hc' : (0 <= inject_Z c)%Q).
  { change 0%Q with (inject_Z 0). rewrite <- Zle_Qle. exact Hc. }
  assert (Hcn' : (inject_Z c <= inject_Z n)%Q) by (now rewrite <- Zle_Qle).
  split.
  - apply Qle_shift_div_l; [exact Hn'|]. lra.
  - apply Qle_shift_div_r; [exact Hn'|]. lra.
Qed.

Lemma inject_Z_nonzero (n : Z) : n <> 0%Z -> ~ (inject_Z n == 0)%Q.
Proof. intros H E. unfold Qeq in E. cbn in E. lia. Qed.

(** The quotients [c / n] of a list of counts, each rounded and then added
    exactly, against their exact sum. *)
Lemma rounded_sum_bound (fl : Q -> Q) (eps eta : Q) (n : Z) :
  rounds fl eps eta -> (0 < n)%Z ->
  forall cs : list Z,
    (forall c, In c cs -> (0 <= c <= n)%Z) ->
    (Qabs (sum_Q (map (fun c => fl (inject_Z c / inject_Z n)) cs)
           - inject_Z (Probabilities.sum_Z cs) / inject_Z n)
     <= eps * (inject_Z (Probabilities.sum_Z cs) / inject_Z n)
        + inject_Z (Z.of_nat (List.length cs)) * eta)%Q.
Proof.
  intros [He [Ht Hfl]] Hn.
  assert (Hn' : ~ (inject_Z n == 0)%Q) by (apply inject_Z_nonzero; lia).
  induction cs as [|c cs IH]; intros Hcs.
  - cbn. unfold Qdiv. rewrite !Qmult_0_l. cbn. unfold Qle. cbn. lia.
  - cbn [map List.length]. rewrite sum_Q_cons, sum_Z_cons.
    rewrite Nat2Z.inj_succ, <- Z.add_1_l. rewrite !inject_Z_plus.
    change (inject_Z 1) with 1%Q.
    assert (E : ((inject_Z c + inject_Z (Probabilities.sum_Z cs)) / inject_Z n
                 == inject_Z c / inject_Z n
                    + inject_Z (Probabilities.sum_Z cs) / inject_Z n)%Q)
      by (field; exact Hn').
    rewrite E.
    specialize (IH (fun c0 H0 => Hcs c0 (or_intror H0))).
    destruct (Hcs c (or_introl eq_refl)) as [Hc0 Hcn].
    pose proof (Hfl _ (quotient_unit Hc0 Hcn Hn)) as Hq.
    set (q := (inject_Z c / inject_Z n)%Q) in *.
    set (t := (inject_Z (Probabilities.sum_Z cs) / inject_Z n)%Q) in *.
    set (s := sum_Q (map (fun c0 => fl (inject_Z c0 / inject_Z n)%Q) cs)) in *.
    set (k := inject_Z (Z.of_nat (List.length cs))) in *.
    apply Qabs_Qle_condition in IH, Hq. apply Qabs_Qle_condition.
    split; lra.
Qed.

Lemma values_rounded_row (fl : Q -> Q) (row : dict Z) :
  values (map_values fl (norm_row row))
  = map (fun c => fl (inject_Z c
                      / inject_Z (Probabilities.sum_Z (values row)))%Q)
        (values row).
Proof.
  unfold values, map_values, norm_row. rewrite !map_map. reflexivity.
Qed.

Lemma keys_rounded_row (fl : Q -> Q) (row : dict Z) :
  keys (map_values fl (norm_row row)) = keys row.
Proof.
  unfold keys, map_values, norm_row. rewrite !map_map. reflexivity.
Qed.

(** A row of nonnegative counts with a positive sum, divided by the sum,
    every quotient rounded: the stored numbers add up to 1 within
    [eps + k * eta], [k] the length of the row. *)
Lemma rounded_row_near_one (fl : Q -> Q) (eps eta : Q) (row : dict Z) :
  rounds fl eps eta -> nonneg_counts row ->
  (0 < Probabilities.sum_Z (values row))%Z ->
  near_one (tolerance eps eta (List.length row))
           (values (map_values fl (norm_row row))).
Proof.
  intros Hr Hnn Hpos. unfold near_one, tolerance.
  rewrite values_rounded_row.
  assert (Hcs : forall c, In c (values row) ->
                  (0 <= c <= Probabilities.sum_Z (values row))%Z).
  { assert (H0 : forall c, In c (values row) -> (0 <= c)%Z).
    { intros c Hc. unfold values in Hc. apply in_map_iff in Hc.
      destruct Hc as [[k c'] [<- Hin]]. exact (Hnn k c' Hin). }
    intros c Hc. split; [now apply H0|].
    now apply (proj2 (sum_Z_nonneg _ H0)). }
  pose proof (rounded_sum_bound Hr Hpos _ Hcs) as H.
  assert (Hn' : ~ (inject_Z (Probabilities.sum_Z (values row)) == 0)%Q)
    by (apply inject_Z_nonzero; lia).
  assert (E : (inject_Z (Probabilities.sum_Z (values row))
               / inject_Z (Probabilities.sum_Z (values row)) == 1)%Q)
    by (field; exact Hn').
  assert (L : List.length (values row) = List.length row)
    by apply length_map.
  rewrite E, L, Qmult_1_r in H. exact H.
Qed.

(** ** The conditional table that the derivation functions return *)

Lemma cond_probs_returns (counts : table (table Z)) (d : dict (dict Q)) :
  wf_table2 counts = true ->
  Probabilities.cond_probs counts = Ok d -> d = norm_rows (items counts).
Proof.
  intros Hwf H. destruct (wf_table2_NoDup _ Hwf) as [Hnd Hrows].
  unfold Probabilities.cond_probs in H.
  apply cond_rows_loop in H; auto. now destruct H as [-> _].
Qed.

Lemma cmds_cond_returns (seq1 : table Z) (seq2 : table (table Z))
    (u : string) (prior : table Q) (trans : table (table Q)) :
  wf_table2 seq2 = true ->
  Probabilities.compute_cmds_probs seq1 seq2 u = Ok (prior, trans) ->
  trans = SM (wrap_rows u (norm_rows (items seq2))) u.
Proof.
  intros Hwf H. unfold Probabilities.compute_cmds_probs in H.
  cbv zeta in H. rewrite (@cmds_trans_loop seq2 Hwf) in H.
  match type of H with
  | context [for_each (keys (items seq1)) ?f []] =>
      destruct (for_each (keys (items seq1)) f []) as [d1|];
        [|discriminate H]
  end.
  cbn [bind] in H.
  destruct (Probabilities.cond_probs seq2) as [d2|] eqn:E2;
    [|discriminate H]. cbn [bind] in H.
  destruct (StateMatrix d1 u) as [T1|]; [|discriminate H].
  cbn [bind] in H.
  destruct (StateMatrix2 d2 u) as [T2|] eqn:S2; [|discriminate H].
  cbn [bind] in H. injection H as _ <-.
  apply cond_probs_returns in E2; auto. subst d2.
  apply StateMatrix2_inv in S2. now destruct S2 as [-> _].
Qed.

Lemma unigram_cond_returns (counts1 : table Z) (counts2 : table (table Z))
    (u : string) (probs : table Q) (cond : table (table Q)) :
  wf_table2 counts2 = true ->
  (c <- Probabilities.cond_probs counts2 ;;
   p <- Probabilities.unigram_probs counts1 ;;
   p <- StateMatrix p u ;;
   c <- StateMatrix2 c u ;;
   Ok (p, c)) = Ok (probs, cond) ->
  cond = SM (wrap_rows u (norm_rows (items counts2))) u.
Proof.
  intros Hwf H.
  destruct (Probabilities.cond_probs counts2) as [d2|] eqn:E2;
    [|discriminate H]. cbn [bind] in H.
  destruct (Probabilities.unigram_probs counts1) as [d1|];
    [|discriminate H]. cbn [bind] in H.
  destruct (StateMatrix d1 u) as [T1|]; [|discriminate H].
  cbn [bind] in H.
  destruct (StateMatrix2 d2 u) as [T2|] eqn:S2; [|discriminate H].
  cbn [bind] in H. injection H as _ <-.
  apply cond_probs_returns in E2; auto. subst d2.
  apply StateMatrix2_inv in S2. now destruct S2 as [-> _].
Qed.

Lemma positive_sum_not_nil (row : table Z) :
  (0 < Probabilities.sum_Z (values (items row)))%Z -> items row <> [].
Proof. intros H E. rewrite E in H. cbn in H. lia. Qed.

Lemma norm_rows_all (rows : dict (table Z)) :
  (forall kv, In kv rows -> items (snd kv) <> []) ->
  norm_rows rows = map (fun kv => (fst kv, norm_row (items (snd kv)))) rows.
Proof.
  intros H. unfold norm_rows. f_equal.
  induction rows as [|kv rows IH]; [reflexivity|].
  cbn [filter].
  assert (E : negb (Nat.eqb (List.length (items (snd kv))) 0) = true).
  { pose proof (H kv (or_introl eq_refl)) as Hne.
    destruct (items (snd kv)); [congruence|reflexivity]. }
  rewrite E. f_equal. apply IH. intros kv' Hin. apply H. now right.
Qed.

Lemma positive_rows_not_nil (counts : table (table Z)) :
  positive_row_sums counts ->
  forall kv, In kv (items counts) -> items (snd kv) <> [].
Proof.
  intros Hpos [a row] Hin. cbn [snd].
  apply positive_sum_not_nil. exact (Hpos a row Hin).
Qed.

Lemma rounded_cond_table (fl : Q -> Q) (u : string)
    (counts : table (table Z)) :
  positive_row_sums counts ->
  round_table2 fl (SM (wrap_rows u (norm_rows (items counts))) u)
  = SM (stored_rows fl u counts) u.
Proof.
  intros Hpos. rewrite norm_rows_all by (now apply positive_rows_not_nil).
  unfold round_table2, wrap_rows, map_values, stored_rows.
  rewrite !map_map. reflexivity.
Qed.

Lemma stored_rows_near_one (fl : Q -> Q) (eps eta : Q) (u : string)
    (counts : table (table Z)) :
  rounds fl eps eta -> wf_table2 counts = true ->
  nonneg_rows counts -> positive_row_sums counts ->
  keys (stored_rows fl u counts) = keys (items counts)
  /\ forall a row,
       In (a, row) (items counts) ->
       exists r,
         get a (stored_rows fl u counts) = Some r
         /\ keys (items r) = keys (items row)
         /\ near_one (tolerance eps eta (List.length (items row)))
                     (values (items r)).
Proof.
  intros Hr Hwf Hnn Hpos. destruct (wf_table2_NoDup _ Hwf) as [Hnd _]. split.
  - unfold stored_rows, keys. rewrite map_map. reflexivity.
  - intros a row Hin.
    exists (SM (map_values fl (norm_row (items row))) u). split; [|split].
    + unfold stored_rows.
      rewrite (get_map_snd
                 (fun row0 : table Z =>
                    SM (map_values fl (norm_row (items row0))) u)).
      now rewrite (@NoDup_In_get _ a row (items counts) Hnd Hin).
    + cbn [items]. apply keys_rounded_row.
    + cbn [items]. apply rounded_row_near_one; [exact Hr| |].
      * exact (Hnn a row Hin).
      * exact (Hpos a row Hin).
Qed.

(** The three functions return on count tables that hold the unknown token
    at every level and have nonzero sums. *)
Lemma derivation_returns (u : string) (counts1 : table Z)
    (counts2 : table (table Z)) :
  NoDup (keys (items counts1)) ->
  Probabilities.sum_Z (values (items counts1)) <> 0%Z ->
  contains u (items counts1) = true ->
  wf_table2 counts2 = true -> positive_row_sums counts2 ->
  unk_everywhere u counts2 ->
  Probabilities.compute_cmds_probs counts1 counts2 u
  = Ok (SM (norm_row (items counts1)) u,
        SM (wrap_rows u (norm_rows (items counts2))) u)
  /\ Probabilities.compute_params_probs counts1 counts2 u
     = Ok (SM (norm_row (items counts1)) u,
           SM (wrap_rows u (norm_rows (items counts2))) u)
  /\ Probabilities.compute_values_probs counts1 counts2 u
     = Ok (SM (norm_row (items counts1)) u,
           SM (wrap_rows u (norm_rows (items counts2))) u).
Proof.
  intros Hnd Hsum Hu Hwf Hpos [Hu2 Hrows].
  destruct (wf_table2_NoDup _ Hwf) as [Hnd2 Hnr].
  assert (H1 : Probabilities.unigram_probs counts1
               = Ok (norm_row (items counts1)))
    by (now apply unigram_probs_total).
  assert (H2 : Probabilities.cond_probs counts2
               = Ok (norm_rows (items counts2))).
  { unfold Probabilities.cond_probs. rewrite cond_rows_total; auto.
    intros [a row] Hin _. cbn [snd].
    pose proof (Hpos a row Hin). lia. }
  assert (V1 : valid1 u (norm_row (items counts1)) = true).
  { rewrite valid1_norm_row. unfold valid1. rewrite Hu.
    pose proof (@contains_not_nil _ _ _ Hu) as Hne.
    destruct (items counts1); [congruence|reflexivity]. }
  assert (V2 : valid2 u (norm_rows (items counts2)) = true).
  { rewrite norm_rows_all by (now apply positive_rows_not_nil).
    unfold valid2. rewrite length_map.
    rewrite (contains_map_snd (fun row : table Z => norm_row (items row))).
    rewrite Hu2. pose proof (@contains_not_nil _ _ _ Hu2) as Hne.
    destruct (items counts2) as [|kv0 rest] eqn:E; [congruence|].
    cbn [List.length Nat.eqb negb andb]. rewrite forallb_forall.
    intros kv Hin. apply in_map_iff in Hin.
    destruct Hin as [[a row] [<- Hin]]. cbn [fst snd].
    unfold norm_row.
    rewrite (contains_map_snd
               (fun c => (inject_Z c
                          / inject_Z (Probabilities.sum_Z
                                        (values (items row))))%Q)).
    apply (Hrows a row). exact Hin. }
  split; [|split].
  - unfold Probabilities.compute_cmds_probs. cbv zeta.
    rewrite (@cmds_prior_loop counts1 Hnd).
    rewrite (@cmds_trans_loop counts2 Hwf).
    rewrite H1, H2. cbn [bind].
    rewrite (@StateMatrix_valid _ _ _ V1), (@StateMatrix2_valid _ _ _ V2).
    reflexivity.
  - unfold Probabilities.compute_params_probs.
    rewrite H1, H2. cbn [bind].
    rewrite (@StateMatrix_valid _ _ _ V1), (@StateMatrix2_valid _ _ _ V2).
    reflexivity.
  - unfold Probabilities.compute_values_probs.
    rewrite H1, H2. cbn [bind].
    rewrite (@StateMatrix_valid _ _ _ V1), (@StateMatrix2_valid _ _ _ V2).
    reflexivity.
Qed.

(** ** Stored probabilities add up to 1 within the rounding (C7) *)

Lemma near_one_le (tol tol' : Q) (l : list Q) :
  (tol <= tol')%Q -> near_one tol l -> near_one tol' l.
Proof. unfold near_one. intros H H0. now apply Qle_trans with tol. Qed.

Lemma some_seq2_counts_nonneg : nonneg_rows some_seq2_counts.
Proof.
  intros a row Ha b c Hb.
  pose proof (@some_seq2_counts_positive _ _ _ _ Ha Hb). lia.
Qed.

Lemma some_seq2_counts_row_sums : positive_row_sums some_seq2_counts.
Proof.
  intros a row Ha. simpl in Ha.
  repeat (destruct Ha as [Ha|Ha]; [injection Ha as <- <-; reflexivity|]).
  destruct Ha.
Qed.

Lemma some_seq2_counts_unk : unk_everywhere UNK some_seq2_counts.
Proof.
  split; [reflexivity|]. intros a row Ha. simpl in Ha.
  repeat (destruct Ha as [Ha|Ha]; [injection Ha as <- <-; reflexivity|]).
  destruct Ha.
Qed.

Lemma some_seq2_counts_row_length :
  forall a row, In (a, row) (items some_seq2_counts) ->
                List.length (items row) = 4%nat.
Proof.
  intros a row Ha. simpl in Ha.
  repeat (destruct Ha as [Ha|Ha]; [injection Ha as <- <-; reflexivity|]).
  destruct Ha.
Qed.

(** What [fl64] stores is not the quotient: the five priors of
    [some_seq1_counts], which are 6/40, 11/40, 9/40, 6/40 and 8/40 before
    the rounding, add up to [1 + 2^-55]. *)
Lemma stored_priors_exceed_one :
  exists prior trans,
    FloatProbabilities.compute_cmds_probs fl64 some_seq1_counts
      some_seq2_counts UNK = Ok (prior, trans)
    /\ (sum_Q (values (items prior)) == 1 + (1 # 36028797018963968))%Q.
Proof.
  eexists. eexists. split; [vm_compute; reflexivity|].
  vm_compute. reflexivity.
Qed.

(** C7: take a two-level count table, each key once at both levels, whose
    counts are not negative and whose rows have positive sums, and a
    rounding [fl] of the division with relative error at most [eps]
    (absolute error at most [eta] near 0); binary64 is one, with
    [eps = 2^-53] and [eta = 2^-1075].  The conditional table that
    compute_cmds_probs, compute_params_probs or compute_values_probs returns
    has a row for each first-level key of the counts and for no other key;
    the row has the keys of the row of counts, and the probabilities stored
    in it, added exactly, are within [eps + k * eta] of 1, [k] the number of
    its entries.  The three functions do return, and the same, when the
    flat count table holds each key once and has a nonzero sum, and the
    unknown token is a key of the flat table, of the two-level table and of
    each of its rows. *)
Theorem C7_derived_tables_row_stochastic :
  forall (fl : Q -> Q) (eps eta : Q) (u : string)
         (counts1 : table Z) (counts2 : table (table Z)),
    rounds fl eps eta ->
    wf_table2 counts2 = true ->
    nonneg_rows counts2 ->
    positive_row_sums counts2 ->
    (forall probs cond,
        FloatProbabilities.compute_cmds_probs fl counts1 counts2 u
        = Ok (probs, cond)
        \/ FloatProbabilities.compute_params_probs fl counts1 counts2 u
           = Ok (probs, cond)
        \/ FloatProbabilities.compute_values_probs fl counts1 counts2 u
           = Ok (probs, cond) ->
        keys (items cond) = keys (items counts2)
        /\ forall a row,
             In (a, row) (items counts2) ->
             exists r,
               get a (items cond) = Some r
               /\ keys (items r) = keys (items row)
               /\ near_one (tolerance eps eta (List.length (items row)))
                           (values (items r)))
    /\ (wf_dict (items counts1) = true ->
        Probabilities.sum_Z (values (items counts1)) <> 0%Z ->
        contains u (items counts1) = true ->
        unk_everywhere u counts2 ->
        exists probs cond,
          FloatProbabilities.compute_cmds_probs fl counts1 counts2 u
          = Ok (probs, cond)
          /\ FloatProbabilities.compute_params_probs fl counts1 counts2 u
             = Ok (probs, cond)
          /\ FloatProbabilities.compute_values_probs fl counts1 counts2 u
             = Ok (probs, cond)).
Proof.
  intros fl eps eta u counts1 counts2 Hr Hwf Hnn Hpos. split.
  - intros probs cond H.
    assert (Hc : cond = SM (stored_rows fl u counts2) u).
    { rewrite <- (rounded_cond_table fl u Hpos).
      destruct H as [H|[H|H]].
      - rewrite compute_cmds_probs_rounded in H.
        apply rounded_inv in H. destruct H as [p [c [E [_ ->]]]].
        f_equal. exact (@cmds_cond_returns _ _ _ _ _ Hwf E).
      - rewrite compute_params_probs_rounded in H.
        apply rounded_inv in H. destruct H as [p [c [E [_ ->]]]].
        f_equal. exact (@unigram_cond_returns _ _ _ _ _ Hwf E).
      - rewrite compute_values_probs_rounded in H.
        apply rounded_inv in H. destruct H as [p [c [E [_ ->]]]].
        f_equal. exact (@unigram_cond_returns _ _ _ _ _ Hwf E). }
    subst cond. cbn [items].
    exact (@stored_rows_near_one fl eps eta u counts2 Hr Hwf Hnn Hpos).
  - intros Hwf1 Hsum Hu Hunk. apply nodupb_NoDup in Hwf1.
    destruct (@derivation_returns u counts1 counts2 Hwf1 Hsum Hu Hwf Hpos Hunk)
      as [E1 [E2 E3]].
    exists (round_table fl (SM (norm_row (items counts1)) u)).
    exists (round_table2 fl (SM (wrap_rows u (norm_rows (items counts2))) u)).
    rewrite compute_cmds_probs_rounded, compute_params_probs_rounded,
      compute_values_probs_rounded.
    rewrite E1, E2, E3. cbn [rounded bind fst snd]. auto.
Qed.

Lemma C7_derived_tables_row_stochastic_witness :
  rounds fl64 eps64 eta64
  /\ wf_table2 some_seq2_counts = true
  /\ nonneg_rows some_seq2_counts
  /\ positive_row_sums some_seq2_counts
  /\ exists probs cond,
       FloatProbabilities.compute_cmds_probs fl64 some_seq1_counts
         some_seq2_counts UNK = Ok (probs, cond)
       /\ FloatProbabilities.compute_params_probs fl64 some_seq1_counts
            some_seq2_counts UNK = Ok (probs, cond)
       /\ FloatProbabilities.compute_values_probs fl64 some_seq1_counts
            some_seq2_counts UNK = Ok (probs, cond)
       /\ keys (items cond) = keys (items some_seq2_counts)
       /\ forall a row,
            In (a, row) (items some_seq2_counts) ->
            exists r,
              get a (items cond) = Some r
              /\ keys (items r) = keys (items row)
              /\ near_one (1 # 1000000000) (values (items r)).
Proof.
  split; [exact fl64_rounds|]. split; [reflexivity|].
  split; [exact some_seq2_counts_nonneg|].
  split; [exact some_seq2_counts_row_sums|].
  destruct (@C7_derived_tables_row_stochastic fl64 eps64 eta64 UNK
              some_seq1_counts some_seq2_counts fl64_rounds eq_refl
              some_seq2_counts_nonneg some_seq2_counts_row_sums)
    as [Hrows Hret].
  destruct (Hret eq_refl ltac:(discriminate) eq_refl some_seq2_counts_unk)
    as [probs [cond [E1 [E2 E3]]]].
  exists probs, cond.
  split; [exact E1|]. split; [exact E2|]. split; [exact E3|].
  destruct (Hrows probs cond (or_introl E1)) as [Hk Hrow].
  split; [exact Hk|]. intros a row Hin.
  destruct (Hrow a row Hin) as [r [Hg [Hkeys Hnear]]].
  exists r. split; [exact Hg|]. split; [exact Hkeys|].
  rewrite (@some_seq2_counts_row_length _ _ Hin) in Hnear.
  refine (@near_one_le _ (1 # 1000000000) _ _ Hnear). vm_compute. discriminate.
Defined.

(** X7: take a flat count table, each key once, whose counts are not
    negative, and a rounding [fl] of the division as above.  The flat table
    that compute_cmds_probs, compute_params_probs or compute_values_probs
    returns (the priors of the commands, the probabilities of the params,
    of the values) has the keys of the counts, and the probabilities stored
    in it, added exactly, are within [eps + k * eta] of 1, [k] the number
    of its entries. *)
Theorem X7_unigram_probabilities_sum_to_one_up_to_rounding :
  forall (fl : Q -> Q) (eps eta : Q) (u : string)
         (counts1 : table Z) (counts2 : table (table Z)),
    rounds fl eps eta ->
    wf_dict (items counts1) = true -> wf_table2 counts2 = true ->
    nonneg_counts (items counts1) ->
    forall probs cond,
      FloatProbabilities.compute_cmds_probs fl counts1 counts2 u
      = Ok (probs, cond)
      \/ FloatProbabilities.compute_params_probs fl counts1 counts2 u
         = Ok (probs, cond)
      \/ FloatProbabilities.compute_values_probs fl counts1 counts2 u
         = Ok (probs, cond) ->
      keys (items probs) = keys (items counts1)
      /\ near_one (tolerance eps eta (List.length (items counts1)))
                  (values (items probs)).
Proof.
  intros fl eps eta u counts1 counts2 Hr Hwf1 Hwf2 Hnn probs cond H.
  apply nodupb_NoDup in Hwf1.
  assert (Hp : probs = SM (map_values fl (norm_row (items counts1))) u
               /\ Probabilities.sum_Z (values (items counts1)) <> 0%Z).
  { destruct H as [H|[H|H]].
    - rewrite compute_cmds_probs_rounded in H.
      apply rounded_inv in H. destruct H as [p [c [E [-> _]]]].
      destruct (@compute_cmds_probs_returns _ _ _ _ _ Hwf1 Hwf2 E)
        as [-> [_ [Hs _]]].
      now split.
    - rewrite compute_params_probs_rounded in H.
      apply rounded_inv in H. destruct H as [p [c [E [-> _]]]].
      destruct (@cond_unigram_returns _ _ _ _ _ Hwf1 Hwf2 E)
        as [-> [_ [Hs _]]].
      now split.
    - rewrite compute_values_probs_rounded in H.
      apply rounded_inv in H. destruct H as [p [c [E [-> _]]]].
      destruct (@cond_unigram_returns _ _ _ _ _ Hwf1 Hwf2 E)
        as [-> [_ [Hs _]]].
      now split. }
  destruct Hp as [-> Hs]. cbn [items]. split.
  - apply keys_rounded_row.
  - apply rounded_row_near_one; [exact Hr|exact Hnn|].
    assert (H0 : forall c, In c (values (items counts1)) -> (0 <= c)%Z).
    { intros c Hc. unfold values in Hc. apply in_map_iff in Hc.
      destruct Hc as [[k c'] [<- Hin]]. exact (Hnn k c' Hin). }
    pose proof (proj1 (sum_Z_nonneg _ H0)). lia.
Qed.

Lemma X7_unigram_probabilities_sum_to_one_up_to_rounding_witness :
  rounds fl64 eps64 eta64
  /\ wf_dict (items some_seq1_counts) = true
  /\ wf_table2 some_seq2_counts = true
  /\ nonneg_counts (items some_seq1_counts)
  /\ exists prior trans,
       FloatProbabilities.compute_cmds_probs fl64 some_seq1_counts
         some_seq2_counts UNK = Ok (prior, trans)
       /\ keys (items prior) = keys (items some_seq1_counts)
       /\ near_one (1 # 1000000000) (values (items prior)).
Proof.
  assert (Hnn : nonneg_counts (items some_seq1_counts)).
  { intros k c Hin. pose proof (@some_seq1_counts_positive _ _ Hin). lia. }
  split; [exact fl64_rounds|]. split; [reflexivity|]. split; [reflexivity|].
  split; [exact Hnn|].
  eexists. eexists. split; [vm_compute; reflexivity|].
  destruct (@X7_unigram_probabilities_sum_to_one_up_to_rounding fl64 eps64
              eta64 UNK some_seq1_counts some_seq2_counts fl64_rounds
              eq_refl eq_refl Hnn _ _
              (or_introl (eq_refl
                 : FloatProbabilities.compute_cmds_probs fl64 some_seq1_counts
                     some_seq2_counts UNK = Ok (_, _))))
    as [Hk Hnear].
  split; [exact Hk|].
  refine (@near_one_le _ (1 # 1000000000) _ _ Hnear). vm_compute. discriminate.
Defined.
